(* ===== verification/_CoqProject ===== *)
-Q . S2P
Prelude.v
Wire.v
Errors.v
Sections.v
Merge.v
Filter.v
Cadence.v
Kadm.v
Collector.v
Topics.v
Offsets.v
Truncation.v
Reassign.v
Groups.v
Configs.v
ShareGroups.v
LogDirs.v
Sched.v
Pipeline.v
Capabilities.v
Strconv.v
Hooks.v
Export.v
Http.v
Environment.v
Client.v
Gates.v
File.v
Agent.v
Checks.v
Conform.v
Ingest.v
Statuses.v
Contract.v
Schema.v
Json.v
Encoding.v
JsonText.v
Rfc3339.v
Delivery.v
Console.v
Commands.v
Exchange.v
Report.v
