(* ===== verification/Prelude.v ===== *)
(** * StreamSight agent: a verification library

    The agent (src/cmd/agent) polls a Kafka cluster on a timer. Every cycle it
    asks the cluster about metadata, offsets, groups, epochs, log directories
    and configs, assembles one batch (src/internal/metrics/types.go) and hands
    it to an exporter. It is written around one promise: a batch that is
    incomplete says so. Whatever a broker refused, a filter hid or a cap cut is
    a counted row of a _section_ of that batch. The development models the
    cycle as the code runs it and proves that promise.

    ** How the program's parts interact

<<
      agent.go --runCycle--> Collector.Collect --> 12 goroutines, one per phase
                                    |                 each: sec.request(client call),
                                    |                 then decode into rows + errors
                                    v
                               post-passes: attach, wireSections,
                               finalize (mergeErrors, truncation sum)
                                    v
                               Batch --> exporter (stdout, file, http)
                                                             |
                            mock ingest (the contract, checked) <-- POST
>>

    A phase owns one section (the topics phase six). Phases share what they
    read from one another through captured variables, and order themselves with
    channels that are closed when a variable is set.

    ** Files, and the code each one models (paths under src/internal/)

    - [Prelude]: integers at their width, the state monad Go's pointer
      parameters become, [sort.Slice], Go byte order on strings, nil slices.
    - [Wire]: metrics/types.go. One record per struct, [option] for a pointer
      and for a slice that may be nil.
    - [Errors]: the errors of collector/errors.go: Go error values with their
      Unwrap chains, [errors.As] as a walk over them, [classify], [errorCode],
      the section names, the order of statuses.
    - [Sections]: the rest of errors.go and the keys of limits.go: the record
      [section], [record] with its sample, entity and key budgets,
      [request], [requestPartial], [recordShards]. [section_wf] is the
      invariant; [Recorder] is the class a phase's proof uses instead of
      the body of [record].
    - [Merge]: limits.go [mergeErrors] and the tail of Collect ([finalize]).
    - [Filter]: collector/filter.go, and [validatePattern] of config/config.go.
    - [Cadence]: [runsThisCycle] and [everyNth] of collector.go, on uint64.
    - [Kadm]: collector/client.go: a request type with one constructor per
      method of [clusterClient], its responses, and the client library's
      records those carry.
    - [Collector]: Options, Collector, New, [newSection].
    - [Topics]: metadata.go. [Offsets]: offsets.go, throughput.go, rpc.go.
      [Truncation]: truncation.go. [Reassign]: reassign.go. [Groups]:
      groups.go. [Configs]: configs.go. [ShareGroups]: sharegroups.go.
      [LogDirs]: logdirs.go.
    - [Sched]: goroutines in general. A [prog] is a straight-line body of
      receives, closes, requests and assignments; [step] interleaves the
      threads, the clock and cancellation. Disciplines that are checked on
      the program text give order, data flow, progress and termination of
      every schedule.
    - [Pipeline]: [Collector.Collect] itself: the variables, the twelve
      goroutines, the post-passes, and the collector's fields across cycles.
    - [Capabilities]: kafka/capabilities.go, [Client.Probe] and the
      questions of kafka/client.go. [Gates]: [collectorOptions] and
      [applyCapabilityGates] of agent/agent.go.
    - [Hooks]: kafka/hooks.go, the RPC accumulator. [Client]: kafka/client.go,
      the client options that are computed from a configuration.
    - [Strconv]: what the program uses of [strconv], [strings] and [time].
      [Environment]: config/config.go, from the environment to a checked
      [Config], with what is printed of it at startup.
    - [Export]: export/exporter.go, and the pure part of export/http.go
      (body, key, response, delays). It has the interface [Exporter] with its
      laws [ExporterLaws]. [Http]: the queue, worker and shutdown of
      export/http.go as a step relation in which time passes. [File]:
      export/file.go and export/stdout.go over a disk on which any call may
      fail. Both give an [Exporter].
    - [Agent]: agent/agent.go: startup, the loop, the cycle, against
      [Exporter] and [batchCollector]; [Pipeline] implements the latter.
    - [Checks]: mockingest/check.go, the checks of one batch, in the monad of
      the warned set and the failures found. [Conform]: what a batch must
      satisfy, stated without a loop or a counter. [Ingest]: the server of
      mockingest/server.go, check.go, faults.go and report.go: transport,
      memory of earlier batches, faults, counters; its handlers interleave at
      the mutex. [Statuses]: the status lines its answers have, and that no
      failure of a check is answered below 400. [Console]: its other routes,
      the multiplexer, its figures and dumps.
    - [Contract]: the agent's side against the server's.
    - [Schema]: mockingest/schema.go over types as values, and the struct tags
      of metrics/types.go as a table. [Json], [Encoding]: what encoding/json
      does with a value of each wire struct, built of the tags; [JsonText] and
      [Rfc3339]: the text. [Delivery]: a batch from the exporter's encoder to
      the server's decoder.
    - [Commands]: cmd/agent and cmd/mock-ingest: flags to exit code.
    - [Exchange]: no file of its own: the agent's loop, the HTTP exporter and the
      server, composed over a network that loses, repeats and delays; the response
      an attempt reads is one the server gave to a copy of its post, or none.
    - [Report]: the console of mockingest/report.go, with its ratios in binary64.

    A function that writes through a pointer is a state-passing function over
    the pointed-to value ([St]); a method keeps its name; an anonymous part of
    a long function has a name of its own, and PROJECT.json gives its lines.

    ** What the theorems show

    - Concurrency ([Pipeline]): in every interleaving, requests are ordered as
      the offset chain needs, but for the start offsets against the committed
      ones, which nothing orders ([collect_sample_order]); no goroutine reads a
      variable before its final value ([collect_dataflow]); every schedule
      ends, none deadlocks, no channel is closed twice ([collect_terminates]);
      every batch satisfies what the wire contract asks
      ([collect_batch_conforms]).
    - Accounting ([Sections], [Merge]): each occurrence recorded is in a row's
      count or a drop, except the later ones of a key that was refused
      ([record_conserves]); budgets hold ([record_bounded]); the global cap keeps
      the most important rows and charges each section what it lost
      ([mergeErrors_selects], [finalize_conforms]); the status a request leaves is
      the one its error and its data determine, from whatever status before
      ([requestPartial_promise], [request_outcome]).
    - Phases: each [*_faithful] and [*_exact] theorem says, for every response,
      which rows are shipped and which errors are recorded: nothing made up,
      nothing unselected; no null offset ships under an [ok] section
      ([null_offset_degrades]); the epoch probes are of real mismatches, each
      question asked once ([epoch_probes_genuine], [epochRounds_exact]).
    - Startup ([Capabilities], [Gates], [Environment], [Agent]): a
      configuration that loads is valid and one that does not is reported in
      full ([load_valid], [load_reports_all]); what the probe found is what
      every broker serves ([probe_sound]), and with the gates applied no
      schedule of a cycle asks a gated question of a cluster that cannot answer it
      ([gated_requests_served]); a failed startup has closed what it opened, a
      failed probe closes no gate ([startup_guarantees]).
    - The RPC window ([Hooks]): whatever the hooks interleave with, every
      snapshot returned reports the observations of one window of them, exactly
      ([window_exact]).
    - Delivery ([Http], [File]): every batch offered is delivered, rejected,
      dropped, queued or in hand, and the counters say so ([export_conserves]);
      the oldest go first ([queue_keeps_newest]); attempts and time are bounded
      ([attempts_bounded], [retry_delays]); shutting down drains ([close_drains]).
      The file exporter refines a bounded log of whole lines
      ([file_refines_log]), and on a faulty disk a nil error is a line that was
      written ([export_result]).
    - The loop ([Agent]): batches are numbered without a hole, and a collection that
      ends cancelled consumes no number ([batches_numbered]); for any exporter that keeps the laws, each batch's
      telemetry accounts for every earlier one ([telemetry_accounts]); with the
      program's own collector what is handed over is a conforming batch
      ([shipped_conforms]).
    - The contract ([Conform], [Contract], [Ingest]): the server's checks decide
      a declarative contract ([checks_decide]), which what leaves a configured
      agent meets but for what only the brokers and the clocks decide
      ([agent_meets_contract]); its verdicts on redeliveries are those of the
      history, whatever interleaves ([verdict_exact]); its counters say where
      each request went ([server_counts]), each is answered once
      ([request_answered]), its rings hold the latest ([batches_served]), its
      routes are exact ([routes_exact]), its exit code is the verdict
      ([mock_exit]).
    - The whole chain ([Exchange]): over any such network a batch counted as
      exported was accepted by the server as the very batch the loop handed over,
      and it conforms ([exported_accepted]); the server's verdicts on what the agent
      sends again are never wrong about it ([redelivery_verdicts]).
    - The wire ([Schema], [Delivery]): the list of paths is what the tags and types
      say the encoding writes, through no struct twice, and that of the batch is the
      frozen one ([FieldPaths_exact], [schema_v1_frozen]); a posted
      batch is decoded to itself and judged as itself
      ([posted_batch_checked]).
    - The console ([Report]): figures computed on integers are what the code
      computes in floating point ([humanBytes_float]); the summary does not depend
      on the order of a map ([summary_stable]).
    - Values: nothing shipped depends on a sensitive config value ([configs_safe]), no
      credential printed ([redacted_hides]); machine arithmetic is exact or its
      wrap-around stated ([brokerIDOf_decimal], [duration_roundtrip]).

    Theorems that are not properties record what the code does where that
    surprises: [Groups.failed_shard_ships_failed_section],
    [Truncation.answered_prefix_starves], [Configs.brokerIDOf_overflows],
    [Filter.validate_accepts_invalid_utf8], [Pipeline.committed_before_start],
    [File.failed_rename_shifts_again], [File.failed_close_is_permanent].

    ** Bounds and fuel

    Caps are the code's own constants: 4 probe rounds, 1024 triggers per cycle,
    8192 remembered questions, 1000 reassigning partitions, 256 distinct error
    keys per section, the per-section and global error budgets of [Limits].
    Loops are structural recursions over the list they range over, with these
    exceptions. [Strconv.durationLoop] takes fuel: each round consumes a unit,
    so the length of the text is enough, and [duration_roundtrip] has it return.
    [JsonText.readValue] takes the length of the text, which [weight_length]
    shows to be enough for a written value; [Schema.walkStruct] takes one more
    than the number of structs, beyond which fuel changes nothing
    ([walkStruct_fuel]); a request's eight actions are all it has
    ([request_answered]).
    [bufio.Writer.Write] of [File] goes round at most three times, which is
    written out. Termination of a cycle is well-foundedness of [Sched.step],
    that of the shutdown a decreasing measure ([Http.drainMeasure]), with no
    bound chosen; the executable scheduler [drive] takes fuel and is used only
    to compute the witnesses' runs. [late] in [Http] is the most a timer may
    overrun, any non-negative number. The counters of [Export] and [Hooks] wrap
    at 64 bits, and the theorems that read them as numbers say below what count.

    ** Parameters

    Code that is not under src/ is a class, with documented behaviour as laws:
    [KerrCodes] and [KerrErrors] (the error table of the Kafka client), [Kadm]
    and [KadmVersions] (its [Sorted] and [Each] methods permute and order),
    [ShardErrorText], [ConfigSources] and [KmsgNames] (its texts). Standard
    library functions too large or too opaque to write out are classes too:
    [Regexp] in [Filter] (the engine beyond literals), [GoLibrary] in [Strconv]
    (a floating-point product and Unicode case tables), [NetURL], [Codec] (JSON
    and gzip; its JSON is given in [Delivery]), [HttpDate], [Decoders] (MIME,
    gzip, SHA-256, JSON, likewise), [ControlJSON], [MapRange] (the order in which
    a map is ranged over), [Quoting] and [Dumping] in [Report] (quoting a string,
    indenting a body), [TimeText] (a time in the host's zone, given in
    [Rfc3339]). [OS] in [File] says which system calls fail, and
    [Cluster] in [Sched] answers requests: any function, so that no theorem
    trusts a disk or a broker. [seconds] of [Agent] is the conversion of a
    duration to a float. Every witness instantiates them with concrete
    functions.

    ** Not modelled

    Logging, and the messages of the mock ingest's failures ([Failure] has code,
    severity and path; the console is given the messages); package flag and the
    listeners; the code of gzip, TLS, SASL and the Kafka client; package time
    except for the values the code reads from it. The text of JSON is that of
    the values the wire has: whole numbers, no surrogate escapes; a slice the
    program never tells from nil is written as an empty list where Go may write
    null. A decoded status is one of the five. An ingest path with a wildcard, an
    escape or a method of the multiplexer, and a request's path with an escape:
    [Console.dispatch] says nothing of these. *)

From stdpp Require Import base tactics option list list_numbers gmap strings sorting numbers.
From Stdlib Require Import ZArith Lia.

#[global] Open Scope Z_scope.
Declare Scope go_scope.
Delimit Scope go_scope with go.

(** ** Machine integers *)

(** [wrapU w z] is the unsigned [w]-bit representative of [z]; Go's [uint64]
    arithmetic is [wrapU 64] of the mathematical result. *)
Definition wrapU (w z : Z) : Z := z mod 2 ^ w.

(** [wrapS w z] is the two's complement [w]-bit representative of [z]; Go's
    [int32] and [int64] arithmetic is [wrapS] of the mathematical result. *)
Definition wrapS (w z : Z) : Z := (z + 2 ^ (w - 1)) mod 2 ^ w - 2 ^ (w - 1).

Definition max_int64 : Z := 2 ^ 63 - 1.
Definition max_uint64 : Z := 2 ^ 64 - 1.
Definition min_int32 : Z := - 2 ^ 31.

Notation "a +u64 b" := (wrapU 64 (a + b)) (at level 50, left associativity) : go_scope.
Notation "a -u64 b" := (wrapU 64 (a - b)) (at level 50, left associativity) : go_scope.
Notation "a +s64 b" := (wrapS 64 (a + b)) (at level 50, left associativity) : go_scope.

(** ** Explicit state passing

    A Go function that writes through a pointer is a function of the pointed-to
    state that returns its result and the new state. *)
Definition St (S A : Type) : Type := S -> A * S.

#[export] Instance St_ret {S} : MRet (St S) := fun A a s => (a, s).
#[export] Instance St_bind {S} : MBind (St S) :=
  fun A B k m s => let '(a, s') := m s in k a s'.

Definition modify {S} (f : S -> S) : St S unit := fun s => (tt, f s).

(** A Go [for _, x := range l] whose body only has effects. *)
Fixpoint iterM {S A} (f : A -> St S unit) (l : list A) : St S unit :=
  match l with
  | [] => mret tt
  | x :: l => f x ;; iterM f l
  end.

(** A Go loop that appends one result per element. *)
Fixpoint traverseM {S A B} (f : A -> St S B) (l : list A) : St S (list B) :=
  match l with
  | [] => mret []
  | x :: l => y ← f x; ys ← traverseM f l; mret (y :: ys)
  end.

(** A Go [for i, x := range l] with local variables [a]. *)
Fixpoint foldM {S A B} (f : nat -> A -> B -> St S A) (i : nat) (a : A) (l : list B) : St S A :=
  match l with
  | [] => mret a
  | x :: l => a ← f i a x; foldM f (Datatypes.S i) a l
  end.

(** [if b { m }]. *)
Definition whenM {S} (b : bool) (m : St S unit) : St S unit := if b then m else mret tt.

(** A stateful operation keeps an invariant of the state. *)
Definition preserves {S A} (P : S -> Prop) (m : St S A) : Prop := forall s, P s -> P (m s).2.

(** ** Sorting

    [sort_slice less l] is Go's [sort.Slice]: some permutation of [l] ordered by
    [less]. Merge sort is the instance; every theorem that reads the order uses
    only what [sort.Slice] documents. *)
Definition not_less {A} (less : A -> A -> bool) (a b : A) : Prop := Is_true (negb (less b a)).

#[export] Instance not_less_dec {A} (less : A -> A -> bool) : RelDecision (not_less less).
Proof. unfold not_less. intros a b. apply _. Defined.

Definition sort_slice {A} (less : A -> A -> bool) (l : list A) : list A :=
  merge_sort (not_less less) l.

(** Go compares strings byte by byte. *)
Definition str_ltb (a b : string) : bool := String.ltb a b.

(** ** Multiplicities and sums over lists *)
Definition sumZ {A} (f : A -> Z) (l : list A) : Z := foldr (fun a n => f a + n) 0 l.

Definition count {A} (p : A -> bool) (l : list A) : nat := length (filter (fun a => Is_true (p a)) l).

(** ** Tactics *)

(** Case analysis on the [match]es and [if]s of the goal and the context, with
    the equations kept and simplified. *)
Ltac go_case :=
  match goal with
  | |- context [if ?b then _ else _] => destruct b eqn:?
  | |- context [match ?x with _ => _ end] => destruct x eqn:?
  | H : context [if ?b then _ else _] |- _ => destruct b eqn:?
  | H : context [match ?x with _ => _ end] |- _ => destruct x eqn:?
  end.

Ltac go_cases := repeat (go_case; simplify_eq/=).

(** Turns boolean tests of the hypotheses into propositions [lia] reads. *)
Ltac go_bools :=
  repeat match goal with
  | H : andb _ _ = true |- _ => apply andb_true_iff in H as [? ?]
  | H : orb _ _ = false |- _ => apply orb_false_iff in H as [? ?]
  | H : negb _ = true |- _ => apply negb_true_iff in H
  | H : negb _ = false |- _ => apply negb_false_iff in H
  | H : (_ <? _) = true |- _ => apply Z.ltb_lt in H
  | H : (_ <? _) = false |- _ => apply Z.ltb_ge in H
  | H : (_ <=? _) = true |- _ => apply Z.leb_le in H
  | H : (_ <=? _) = false |- _ => apply Z.leb_gt in H
  | H : (_ =? _) = true |- _ => apply Z.eqb_eq in H
  | H : (_ =? _) = false |- _ => apply Z.eqb_neq in H
  | H : String.eqb _ _ = true |- _ => apply String.eqb_eq in H
  | H : String.eqb _ _ = false |- _ => apply String.eqb_neq in H
  | H : bool_decide _ = true |- _ => apply bool_decide_eq_true in H
  | H : bool_decide _ = false |- _ => apply bool_decide_eq_false in H
  end.

Create HintDb go discriminated.
#[export] Hint Constants Transparent : go.
#[export] Hint Variables Transparent : go.

(** ** Lemmas on machine integers *)

Lemma wrapU_small w z : 0 <= z < 2 ^ w -> wrapU w z = z.
Proof. apply Z.mod_small. Qed.

Lemma wrapU_range w z : 0 <= w -> 0 <= wrapU w z < 2 ^ w.
Proof. intros. apply Z.mod_pos_bound. apply Z.pow_pos_nonneg; lia. Qed.

Lemma wrapS_small w z : 0 < w -> - 2 ^ (w - 1) <= z < 2 ^ (w - 1) -> wrapS w z = z.
Proof.
  intros Hw Hz. unfold wrapS.
  assert (2 ^ w = 2 * 2 ^ (w - 1)) as E.
  { replace w with (Z.succ (w - 1)) at 1 by lia. rewrite Z.pow_succ_r; lia. }
  rewrite Z.mod_small; lia.
Qed.

Lemma wrapS_range w z : 0 < w -> - 2 ^ (w - 1) <= wrapS w z < 2 ^ (w - 1).
Proof.
  intros Hw. unfold wrapS.
  assert (2 ^ w = 2 * 2 ^ (w - 1)) as E.
  { replace w with (Z.succ (w - 1)) at 1 by lia. rewrite Z.pow_succ_r; lia. }
  assert (0 < 2 ^ (w - 1)) by (apply Z.pow_pos_nonneg; lia).
  pose proof (Z.mod_pos_bound (z + 2 ^ (w - 1)) (2 ^ w)). lia.
Qed.

Lemma wrapS_add w a b : 0 < w -> wrapS w (wrapS w a + b) = wrapS w (a + b).
Proof.
  intros Hw. unfold wrapS. f_equal.
  replace ((a + 2 ^ (w - 1)) `mod` 2 ^ w - 2 ^ (w - 1) + b + 2 ^ (w - 1)) with ((a + 2 ^ (w - 1)) `mod` 2 ^ w + b) by lia.
  rewrite Zplus_mod_idemp_l. f_equal. lia.
Qed.

Lemma wrapU_add w a b : wrapU w (wrapU w a + b) = wrapU w (a + b).
Proof. unfold wrapU. apply Zplus_mod_idemp_l. Qed.

(** ** Lemmas on stateful loops *)

Lemma St_bind_eq {S A B} (m : St S A) (k : A -> St S B) s : (m ≫= k) s = k (m s).1 (m s).2.
Proof. unfold mbind, St_bind. by destruct (m s). Qed.

Lemma preserves_ret {S A} (P : S -> Prop) (a : A) : preserves P (mret a).
Proof. by intros s. Qed.

Lemma preserves_bind {S A B} (P : S -> Prop) (m : St S A) (k : A -> St S B) :
  preserves P m -> (forall a, preserves P (k a)) -> preserves P (m ≫= k).
Proof. intros Hm Hk s Hs. rewrite St_bind_eq. by apply Hk, Hm. Qed.

Lemma preserves_traverse {S A B} (P : S -> Prop) (f : A -> St S B) l :
  (forall x, preserves P (f x)) -> preserves P (traverseM f l).
Proof.
  intros Hf. induction l as [|x l IH]; [apply preserves_ret|]. simpl.
  apply preserves_bind; [done|]. intros y. apply preserves_bind; [done|]. intros ys. apply preserves_ret.
Qed.

(** A loop reaches what any of its iterations establishes and all preserve. *)
Lemma traverseM_reach {S A B} (P : S -> Prop) (Q : B -> Prop) (f : A -> St S B) l s :
  (forall x, preserves P (f x)) -> (forall x s, Q (f x s).1 -> P (f x s).2) ->
  Exists Q (traverseM f l s).1 -> P (traverseM f l s).2.
Proof.
  intros Hp Hq. revert s. induction l as [|x l IH]; intros s; simpl; [by intros ?%Exists_nil|].
  rewrite St_bind_eq, St_bind_eq. simpl. intros [H|H]%Exists_cons.
  - apply preserves_traverse; [done|]. by apply Hq.
  - by apply IH.
Qed.

Lemma traverseM_reach_at {S A B} (P : S -> Prop) (f : A -> St S B) l x s :
  (forall x, preserves P (f x)) -> x ∈ l -> (forall s, P (f x s).2) -> P (traverseM f l s).2.
Proof.
  intros Hp Hx Hf. revert s. induction l as [|y l IH]; intros s; [by apply elem_of_nil in Hx|].
  simpl. rewrite St_bind_eq, St_bind_eq. simpl. apply elem_of_cons in Hx as [->|Hx]; [|by apply IH].
  apply preserves_traverse; [done|apply Hf].
Qed.

Lemma iterM_inv {S A} (P : S -> Prop) (f : A -> St S unit) (l : list A) (s : S) :
  (forall x s, x ∈ l -> P s -> P (f x s).2) -> P s -> P (iterM f l s).2.
Proof.
  revert s. induction l as [|x l IH]; intros s Hf Hs; [done|].
  simpl. unfold mbind, St_bind. destruct (f x s) as [u s'] eqn:E.
  apply IH; [intros; apply Hf; [by right|done]|].
  replace s' with (f x s).2 by (by rewrite E). apply Hf; [by left|done].
Qed.

Lemma traverseM_inv {S A B} (P : S -> Prop) (f : A -> St S B) (l : list A) (s : S) :
  (forall x s, x ∈ l -> P s -> P (f x s).2) -> P s -> P (traverseM f l s).2.
Proof.
  revert s. induction l as [|x l IH]; intros s Hf Hs; [done|].
  simpl. unfold mbind, St_bind. destruct (f x s) as [y s'] eqn:E.
  assert (P s') as Hs'.
  { replace s' with (f x s).2 by (by rewrite E). apply Hf; [by left|done]. }
  specialize (IH s' (fun x s H => Hf x s (list_elem_of_further _ _ _ H)) Hs').
  by destruct (traverseM f l s').
Qed.

(** What one element contributes is decided from some state the loop reached. *)
Lemma traverseM_Forall2 {S A B} (Q : A -> B -> Prop) (f : A -> St S B) (l : list A) (s : S) :
  (forall x s, x ∈ l -> Q x (f x s).1) -> Forall2 Q l (traverseM f l s).1.
Proof.
  revert s. induction l as [|x l IH]; intros s Hf; [constructor|].
  simpl. unfold mbind, St_bind. destruct (f x s) as [y s'] eqn:E.
  specialize (IH s' (fun x s H => Hf x s (list_elem_of_further _ _ _ H))).
  destruct (traverseM f l s') as [ys s''] eqn:E'. simpl in *. constructor; [|done].
  replace y with (f x s).1 by (by rewrite E). apply Hf. by left.
Qed.

(** ** Lemmas on sorting *)

Lemma sort_slice_perm {A} (less : A -> A -> bool) l : sort_slice less l ≡ₚ l.
Proof. apply merge_sort_Permutation. Qed.

Lemma elem_of_sort_slice {A} (less : A -> A -> bool) l x : x ∈ sort_slice less l <-> x ∈ l.
Proof. by rewrite sort_slice_perm. Qed.

Lemma length_sort_slice {A} (less : A -> A -> bool) l : length (sort_slice less l) = length l.
Proof. by rewrite sort_slice_perm. Qed.

(** What Go asks of a comparison: a strict weak order. *)
Class StrictWeak {A} (less : A -> A -> bool) : Prop := {
  sw_asym : forall a b, less a b = true -> less b a = false;
  sw_ntrans : forall a b c, less b a = false -> less c b = false -> less c a = false;
}.

#[export] Instance not_less_total {A} (less : A -> A -> bool) `{!StrictWeak less} :
  Total (not_less less).
Proof.
  intros a b. unfold not_less. destruct (less b a) eqn:E; [|by left].
  right. by rewrite (sw_asym _ _ E).
Qed.

#[export] Instance not_less_trans {A} (less : A -> A -> bool) `{!StrictWeak less} :
  Transitive (not_less less).
Proof.
  intros a b c. unfold not_less. intros Hab Hbc.
  destruct (less b a) eqn:E1; [done|]. destruct (less c b) eqn:E2; [done|].
  by rewrite (sw_ntrans a b c).
Qed.

Lemma sort_slice_sorted {A} (less : A -> A -> bool) `{!StrictWeak less} l :
  StronglySorted (not_less less) (sort_slice less l).
Proof. apply (StronglySorted_merge_sort (not_less less) l). Qed.

Lemma StronglySorted_filter {A} (R : relation A) (P : A -> Prop) `{!forall x, Decision (P x)} l :
  StronglySorted R l -> StronglySorted R (filter P l).
Proof.
  induction 1 as [|x l Hl IH Hx]; [constructor|]. rewrite list.filter_cons. case_decide; [|done].
  constructor; [done|]. rewrite list.Forall_forall in *. intros y [_ Hy]%list_elem_of_filter. auto.
Qed.

Lemma not_less_spec {A} (less : A -> A -> bool) a b : not_less less a b <-> less b a = false.
Proof. unfold not_less. destruct (less b a); naive_solver. Qed.

(** A total order's strict part is a strict weak order. *)
Lemma str_ltb_spec a b : str_ltb a b = true <-> String.compare a b = Lt.
Proof. unfold str_ltb, String.ltb. destruct (String.compare a b); naive_solver. Qed.

Lemma str_ltb_false a b : str_ltb a b = false <-> String.le b a.
Proof.
  unfold str_ltb, String.ltb, String.le, String.leb.
  rewrite (String.compare_antisym b a). by destruct (String.compare a b).
Qed.

#[export] Instance str_ltb_strict : StrictWeak str_ltb.
Proof.
  split.
  - intros a b H%str_ltb_spec. apply str_ltb_false.
    unfold String.le, String.leb. by rewrite H.
  - intros a b c H1%str_ltb_false H2%str_ltb_false. apply str_ltb_false. by etrans.
Qed.

#[export] Instance Zltb_strict : StrictWeak Z.ltb.
Proof. split; intros; lia. Qed.

(** The lexicographic comparison Go spells with two [if a.x != b.x] tests. *)
Definition lex_less {A K} `{EqDecision K} (key : A -> K) (lt : K -> K -> bool)
    (rest : A -> A -> bool) (a b : A) : bool :=
  if decide (key a = key b) then rest a b else lt (key a) (key b).

(** A comparison of keys that separates distinct keys. *)
Class StrictTotal {K} (lt : K -> K -> bool) : Prop := {
  st_weak :: StrictWeak lt;
  st_total : forall a b, lt a b = false -> lt b a = false -> a = b;
}.

#[export] Instance str_ltb_total : StrictTotal str_ltb.
Proof.
  split; [apply _|]. intros a b H1%str_ltb_false H2%str_ltb_false. by apply (anti_symm String.le).
Qed.

#[export] Instance Zltb_total : StrictTotal Z.ltb.
Proof. split; [apply _|]. intros; lia. Qed.

#[export] Instance lex_less_strict {A K} `{EqDecision K} (key : A -> K) lt rest
    `{!StrictTotal lt} `{!StrictWeak rest} : StrictWeak (lex_less key lt rest).
Proof.
  unfold lex_less. split.
  - intros a b. repeat case_decide; intros; try congruence; by apply sw_asym.
  - intros a b c H1 H2.
    destruct (decide (key b = key a)) as [Eba|Nba], (decide (key c = key b)) as [Ecb|Ncb];
      destruct (decide (key c = key a)) as [Eca|Nca]; try congruence.
    + by eapply sw_ntrans.
    + exfalso. rewrite Eca in H2. apply Ncb.
      rewrite Eca. by apply (st_total (lt := lt)).
    + eapply sw_ntrans; eassumption.
Qed.

#[export] Instance key_less_strict {A K} (key : A -> K) lt `{!StrictWeak lt} :
  StrictWeak (fun a b => lt (key a) (key b)).
Proof. split; intros; [by apply sw_asym|by eapply sw_ntrans]. Qed.

(** ** Lemmas on sums *)

Lemma sumZ_app {A} (f : A -> Z) l k : sumZ f (l ++ k) = sumZ f l + sumZ f k.
Proof. unfold sumZ. induction l; simpl; lia. Qed.

Lemma sumZ_snoc {A} (f : A -> Z) l x : sumZ f (l ++ [x]) = sumZ f l + f x.
Proof. rewrite sumZ_app. unfold sumZ at 2. simpl. lia. Qed.

Lemma sumZ_nonneg {A} (f : A -> Z) l : (forall x, 0 <= f x) -> 0 <= sumZ f l.
Proof. intros Hf. unfold sumZ. induction l as [|x l IH]; simpl; [done|]. specialize (Hf x). lia. Qed.

Lemma sumZ_perm {A} (f : A -> Z) l k : l ≡ₚ k -> sumZ f l = sumZ f k.
Proof. unfold sumZ. induction 1; simpl; lia. Qed.

Lemma sumZ_insert {A} (f : A -> Z) l i x y :
  l !! i = Some x -> sumZ f (<[i:=y]> l) = sumZ f l - f x + f y.
Proof.
  revert i. unfold sumZ. induction l as [|z l IH]; intros [|i] H; simplify_eq/=; [lia|].
  rewrite IH by done. lia.
Qed.

Lemma sumZ_alter {A} (f : A -> Z) (g : A -> A) l i x :
  l !! i = Some x -> sumZ f (alter g i l) = sumZ f l - f x + f (g x).
Proof.
  revert i. unfold sumZ. induction l as [|z l IH]; intros [|i] H; simplify_eq/=; [lia|].
  rewrite (IH i H). lia.
Qed.

Lemma count_app {A} (p : A -> bool) l k : count p (l ++ k) = (count p l + count p k)%nat.
Proof. unfold count. by rewrite list.filter_app, length_app. Qed.

Lemma count_le {A} (p : A -> bool) l : (count p l <= length l)%nat.
Proof. apply list.length_filter. Qed.

Lemma count_cons {A} (p : A -> bool) x l :
  count p (x :: l) = ((if p x then 1 else 0) + count p l)%nat.
Proof. unfold count. rewrite list.filter_cons. destruct (p x) eqn:E; case_decide; simpl; try done. Qed.

Lemma count_snoc {A} (p : A -> bool) l x : count p (l ++ [x]) = (count p l + if p x then 1 else 0)%nat.
Proof. rewrite count_app, count_cons. change (count p []) with 0%nat. lia. Qed.

Lemma count_alter {A} (p : A -> bool) (g : A -> A) l i :
  (forall x, p (g x) = p x) -> count p (alter g i l) = count p l.
Proof.
  intros Hg. revert i. induction l as [|z l IH]; intros [|i]; try done.
  - change (alter g 0%nat (z :: l)) with (g z :: l). by rewrite !count_cons, Hg.
  - change (alter g (S i) (z :: l)) with (z :: alter g i l). by rewrite !count_cons, IH.
Qed.

(** What changing one element does to a count, as a balance. *)
Lemma count_insert {A} (p : A -> bool) l i (x y : A) : l !! i = Some x ->
  Z.of_nat (count p (<[i := y]> l)) + Z.b2z (p x) = Z.of_nat (count p l) + Z.b2z (p y).
Proof.
  revert i. induction l as [|z l IH]; intros [|i] Hi; [done|done| |].
  - injection Hi as ->. change (<[0%nat := y]> (x :: l)) with (y :: l). rewrite !count_cons.
    destruct (p x), (p y); simpl Z.b2z; lia.
  - change (<[S i := y]> (z :: l)) with (z :: <[i := y]> l). rewrite !count_cons. specialize (IH i Hi).
    destruct (p z); lia.
Qed.

Lemma count_snoc_Z {A} (p : A -> bool) l x : Z.of_nat (count p (l ++ [x])) = Z.of_nat (count p l) + Z.b2z (p x).
Proof. rewrite count_snoc. destruct (p x); simpl Z.b2z; lia. Qed.

Lemma count_0 {A} (p : A -> bool) l : (forall x, x ∈ l -> p x = false) -> count p l = 0%nat.
Proof.
  induction l as [|x l IH]; intros H; [done|].
  rewrite count_cons, (H x) by (by left). apply IH. intros y Hy. apply H. by right.
Qed.

Lemma count_all {A} (p : A -> bool) l : (forall x, x ∈ l -> p x = true) -> count p l = length l.
Proof.
  induction l as [|x l IH]; intros H; [done|].
  rewrite count_cons, (H x) by (by left). simpl. f_equal. apply IH. intros y Hy. apply H. by right.
Qed.

Lemma count_map {A B} (p : B -> bool) (f : A -> B) l :
  count p (f <$> l) = count (fun x => p (f x)) l.
Proof. induction l as [|x l IH]; [done|]. rewrite fmap_cons, !count_cons. by rewrite IH. Qed.

Lemma count_ext {A} (p q : A -> bool) l : (forall x, x ∈ l -> p x = q x) -> count p l = count q l.
Proof.
  induction l as [|x l IH]; intros H; [done|]. rewrite !count_cons, (H x) by (by left).
  rewrite IH; [done|]. intros y Hy. apply H. by right.
Qed.

Lemma omap_snoc {A B} (f : A -> option B) (l : list A) x : omap f (l ++ [x]) = omap f l ++ option_list (f x).
Proof. rewrite omap_app. simpl. by destruct (f x). Qed.

Lemma Forall2_refl' {A} (R : A -> A -> Prop) l : (forall x, R x x) -> Forall2 R l l.
Proof. intros HR. induction l; by constructor. Qed.

(** ** Lemmas on maps filled by a loop *)

Lemma foldl_insert_lookup {K A V} `{Countable K} (f : A -> K) (g : A -> V) l (m : gmap K V) k :
  foldl (fun m x => <[f x := g x]> m) m l !! k =
    match list_find (fun x => f x = k) (reverse l) with
    | Some (_, x) => Some (g x)
    | None => m !! k
    end.
Proof.
  revert m. induction l as [|x l IH] using rev_ind; intros m; [done|].
  rewrite foldl_app, reverse_snoc. simpl. case_decide as E.
  - subst. by rewrite lookup_insert_eq.
  - rewrite lookup_insert_ne by done. rewrite IH.
    by destruct (list_find _ (reverse l)) as [[]|].
Qed.

Lemma foldl_insert_unique {K A V} `{Countable K} (f : A -> K) (g : A -> V) l (m : gmap K V) k v :
  NoDup (f <$> l) -> m !! k = None ->
  foldl (fun m x => <[f x := g x]> m) m l !! k = Some v <-> exists x, x ∈ l /\ f x = k /\ g x = v.
Proof.
  intros Hnd Hm. rewrite foldl_insert_lookup, Hm.
  destruct (list_find _ (reverse l)) as [[i x]|] eqn:E.
  - apply list_find_Some in E as (Hi & Hx & _). apply list_elem_of_lookup_2 in Hi.
    rewrite elem_of_reverse in Hi. split; [intros [= <-]; eauto|].
    intros (y & Hy & Hfy & <-). f_equal. f_equal.
    apply list_elem_of_lookup in Hi as [a Ha]. apply list_elem_of_lookup in Hy as [b Hb].
    assert (a = b) as ->; [|congruence]. apply (NoDup_lookup (f <$> l) a b (f x) Hnd);
      rewrite list_lookup_fmap; [rewrite Ha|rewrite Hb]; simpl; congruence.
  - apply list_find_None in E. split; [done|]. intros (y & Hy & Hfy & _).
    rewrite list.Forall_forall in E. exfalso. apply (E y); [by rewrite elem_of_reverse|done].
Qed.

#[export] Hint Resolve wrapU_range wrapS_range preserves_ret preserves_bind preserves_traverse : go.
Create Rewrite HintDb go.
#[export] Hint Rewrite @sumZ_app @count_app @length_app : go.

(** ** Lemmas on strings *)

Lemma string_append_nil (s : string) : s +:+ "" = s.
Proof. induction s as [|a s IH]; [done|]. change (String a (s +:+ "") = String a s). by rewrite IH. Qed.

Lemma string_append_assoc (s1 s2 s3 : string) : s1 +:+ (s2 +:+ s3) = (s1 +:+ s2) +:+ s3.
Proof.
  induction s1 as [|a s1 IH]; [done|]. change (String a (s1 +:+ (s2 +:+ s3)) = String a ((s1 +:+ s2) +:+ s3)).
  by rewrite IH.
Qed.

Lemma string_append_length (s1 s2 : string) : String.length (s1 +:+ s2) = (String.length s1 + String.length s2)%nat.
Proof. induction s1; simpl; [done|by f_equal]. Qed.

Lemma rev_app_append (s t : string) : String.rev_app s t = String.rev s +:+ t.
Proof.
  unfold String.rev. revert t. induction s as [|c s IH]; intros t; [done|]. simpl.
  rewrite IH, (IH (String c "")), <- string_append_assoc. done.
Qed.

Lemma rev_append (s t : string) : String.rev (s +:+ t) = String.rev t +:+ String.rev s.
Proof.
  unfold String.rev. induction s as [|c s IH]; [by rewrite string_append_nil|].
  change (String c s +:+ t) with (String c (s +:+ t)). simpl.
  rewrite rev_app_append. unfold String.rev. rewrite IH, (rev_app_append s (String c "")), string_append_assoc. done.
Qed.

Lemma rev_rev (s : string) : String.rev (String.rev s) = s.
Proof.
  induction s as [|c s IH]; [done|]. change (String c s) with (String c "" +:+ s). rewrite rev_append. 
  rewrite rev_append, IH. done.
Qed.

Lemma prefix_append (p s : string) : String.prefix p s = true <-> exists q, s = p +:+ q.
Proof.
  revert s. induction p as [|a p IH]; intros s; [split; [by exists s|by destruct s]|].
  destruct s as [|b s]; simpl; [split; [done|by intros [q ?]]|]. destruct (Ascii.ascii_dec a b) as [->|Hne].
  - rewrite IH. split; intros [q Hq]; exists q; [by rewrite Hq|by injection Hq].
  - split; [done|]. intros [q Hq]. by injection Hq.
Qed.

Lemma substring_append (p q : string) : String.substring (String.length p) (String.length (p +:+ q) - String.length p) (p +:+ q) = q.
Proof.
  induction p as [|c p IH]; [|exact IH]. simpl. rewrite Nat.sub_0_r. change ("" +:+ q) with q.
  induction q as [|d q IH]; [done|]. simpl. by rewrite IH.
Qed.
