(* ===== verification/Wire.v ===== *)
(** * Wire: the batch the agent ships ([internal/metrics/types.go])

    One [Record] per struct of the package, with the struct's fields in the
    struct's order, and the three functions the package defines: [Truncation.Add]
    and the latency histogram's [EnsureBuckets] and [Observe].

    A Go slice is [slice A = option (list A)] wherever the program tells [nil]
    from the empty slice (the two marshal to [null] and [[]]), and a plain list
    elsewhere; a pointer to a scalar is an [option]; [time.Time] and
    [time.Duration] are nanosecond counts in [Z]. *)

From stdpp Require Import base tactics option list gmap strings numbers.
From Stdlib Require Import ZArith Lia.
From S2P Require Import Prelude.

(** ** Slices *)

Definition slice (A : Type) : Type := option (list A).

(** Ranging over a slice or taking its length treats [nil] as empty. *)
Definition elems {A} (s : slice A) : list A := default [] s.
Definition len {A} (s : slice A) : Z := Z.of_nat (length (elems s)).

(** [Duration.Milliseconds] truncates towards zero. *)
Definition Milliseconds (d : Z) : Z := Z.quot d 1000000.
Definition Microseconds (d : Z) : Z := Z.quot d 1000.

(** ** The envelope *)

Definition SchemaVersion : Z := 1.

Record Selection := mkSelection {
  sel_TopicInclude : list string;
  sel_TopicExclude : list string;
  sel_GroupInclude : list string;
  sel_GroupExclude : list string;
  sel_GroupStates : list string;
  sel_IncludeInternalTopics : bool;
}.

Record Truncation := mkTruncation {
  tr_ErrorsCollapsed : Z;
  tr_ErrorsDropped : Z;
}.

Definition Truncation_zero : Truncation := mkTruncation 0 0.

#[export] Instance Truncation_eq_dec : EqDecision Truncation.
Proof. solve_decision. Defined.

Definition Truncation_Add (t o : Truncation) : Truncation :=
  mkTruncation (tr_ErrorsCollapsed t + tr_ErrorsCollapsed o)
               (tr_ErrorsDropped t + tr_ErrorsDropped o).

Inductive SectionStatus :=
| SectionOK
| SectionPartial
| SectionFailed
| SectionUnauthorized
| SectionSkipped.

#[export] Instance SectionStatus_eq_dec : EqDecision SectionStatus.
Proof. solve_decision. Defined.

Record SectionRow := mkSectionRow {
  sr_Name : string;
  sr_Status : SectionStatus;
  sr_SampledAt : Z;
  sr_DurationMs : Z;
  sr_ErrorCount : Z;
  sr_ErrorsCollapsed : Z;
  sr_ErrorsDropped : Z;
  sr_Truncated : bool;
}.

Record CollectionError := mkCollectionError {
  ce_Section : string;
  ce_API : string;
  ce_BrokerID : option Z;
  ce_Topic : string;
  ce_Partition : option Z;
  ce_Dir : string;
  ce_Group : string;
  ce_Code : Z;
  ce_Kind : string;
  ce_Message : string;
  ce_Count : Z;
}.

(** ** Latency histograms and the RPC window *)

Definition DefaultLatencyBoundsUs : list Z :=
  [500; 1000; 2500; 5000; 10000; 25000; 50000; 100000; 500000; 1000000; 5000000].

Record LatencyHistogram := mkHistogram {
  lh_Count : Z;
  lh_SumUs : Z;
  lh_MaxUs : option Z;
  lh_BoundsUs : slice Z;
  lh_Counts : slice Z;
}.

Definition Histogram_zero : LatencyHistogram := mkHistogram 0 0 None None None.

Definition EnsureBuckets (h : LatencyHistogram) : LatencyHistogram :=
  match lh_Counts h with
  | None =>
      mkHistogram (lh_Count h) (lh_SumUs h) (lh_MaxUs h)
        (Some DefaultLatencyBoundsUs)
        (Some (replicate (S (length DefaultLatencyBoundsUs)) 0))
  | Some _ => h
  end.

(** The loop [for i < len(h.BoundsUs) && us > h.BoundsUs[i] { i++ }]. *)
Fixpoint bucket_index (bounds : list Z) (us : Z) : nat :=
  match bounds with
  | [] => O
  | b :: bounds => if b <? us then S (bucket_index bounds us) else O
  end.

(** [h.Counts[i]++]. *)
Definition bump (i : nat) (counts : list Z) : list Z := alter (fun c => c + 1) i counts.

Definition Observe (d : Z) (h : LatencyHistogram) : LatencyHistogram :=
  let h := EnsureBuckets h in
  let us := Z.max 0 (Microseconds d) in
  let max := match lh_MaxUs h with
             | None => Some us
             | Some m => if m <? us then Some us else Some m
             end in
  mkHistogram (lh_Count h + 1) (wrapS 64 (lh_SumUs h + us)) max (lh_BoundsUs h)
    (bump (bucket_index (elems (lh_BoundsUs h)) us) <$> lh_Counts h).

Record BrokerAPIRPC := mkBrokerAPIRPC {
  ba_API : string;
  ba_E2E : LatencyHistogram;
  ba_WriteWait : LatencyHistogram;
  ba_Errors : Z;
  ba_BytesWritten : Z;
  ba_BytesRead : Z;
}.

Record BrokerRPC := mkBrokerRPC {
  br_BrokerID : Z;
  br_Requests : list BrokerAPIRPC;
  br_ConnectAttempts : Z;
  br_ConnectFailures : Z;
  br_ConnectLatency : LatencyHistogram;
  br_Disconnects : Z;
  br_LastConnectError : string;
  br_ThrottleEvents : Z;
  br_ThrottledMs : Z;
}.

Record RPCStats := mkRPCStats {
  rs_WindowMs : Z;
  rs_Brokers : list BrokerRPC;
}.

Record AgentStats := mkAgentStats {
  as_UptimeSec : Z;
  as_BatchesCollected : Z;
  as_BatchesExported : Z;
  as_BatchesDropped : Z;
  as_BatchesRejected : Z;
  as_ExportRetries : Z;
  as_QueueDepth : Z;
  as_LastExportError : string;
  as_RPC : option RPCStats;
}.

(** ** The cluster *)

Record BrokerCapability := mkBrokerCapability {
  bc_BrokerID : Z;
  bc_SoftwareVersion : string;
  bc_APIMaxVersions : gmap string Z;
}.

Record ClusterCapabilities := mkClusterCapabilities {
  cc_Features : gmap string bool;
  cc_SoftwareVersions : list string;
  cc_MixedVersions : bool;
  cc_Brokers : list BrokerCapability;
}.

Record Broker := mkBroker {
  b_ID : Z;
  b_Host : string;
  b_Port : Z;
  b_Rack : option string;
}.

Record ClusterMetrics := mkClusterMetrics {
  cm_ID : string;
  cm_BrokerCount : Z;
  cm_Brokers : list Broker;
  cm_Capabilities : option ClusterCapabilities;
}.

(** ** Topics and partitions *)

Record MaxTimestampOffset := mkMaxTimestampOffset {
  mt_Offset : option Z;
  mt_TimestampMs : option Z;
  mt_LeaderEpoch : Z;
  mt_ErrorCode : Z;
}.

Record TieredOffsets := mkTieredOffsets {
  to_LocalStartOffset : option Z;
  to_RemoteEndOffset : option Z;
}.

Record ThroughputWindow := mkThroughputWindow {
  tw_RequestedMs : Z;
  tw_WidthMs : Z;
}.

Record WindowOffset := mkWindowOffset {
  wo_Offset : option Z;
  wo_TimestampMs : option Z;
  wo_LeaderEpoch : Z;
  wo_ErrorCode : Z;
}.

Record Partition := mkPartition {
  p_ID : Z;
  p_Leader : Z;
  p_LeaderEpoch : Z;
  p_Replicas : list Z;
  p_ISR : list Z;
  p_OfflineReplicas : list Z;
  p_StartOffset : option Z;
  p_EndOffset : option Z;
  p_LastStableOffset : option Z;
  p_MaxTimestamp : option MaxTimestampOffset;
  p_Tiered : option TieredOffsets;
  p_Window : option WindowOffset;
  p_ErrorCode : Z;
}.

Record TopicMetrics := mkTopicMetrics {
  tm_Name : string;
  tm_ID : string;
  tm_Internal : bool;
  tm_PartitionCount : Z;
  tm_ReplicationFactor : Z;
  tm_Partitions : list Partition;
  tm_ErrorCode : Z;
}.

Record Reassignment := mkReassignment {
  re_Topic : string;
  re_Partition : Z;
  re_Replicas : slice Z;
  re_AddingReplicas : slice Z;
  re_RemovingReplicas : slice Z;
}.

Record EpochProbe := mkEpochProbe {
  ep_Topic : string;
  ep_TopicID : string;
  ep_Partition : Z;
  ep_GroupID : string;
  ep_CommittedOffset : option Z;
  ep_CommittedEpoch : Z;
  ep_CurrentLeaderEpoch : Z;
  ep_ReturnedEpoch : option Z;
  ep_EndOffset : option Z;
  ep_NodeID : option Z;
  ep_ErrorCode : Z;
}.

(** ** Log directories *)

Record LogDirPartition := mkLogDirPartition {
  lp_Topic : string;
  lp_Partition : Z;
  lp_Size : Z;
  lp_OffsetLag : Z;
  lp_IsFuture : bool;
}.

Record LogDir := mkLogDir {
  ld_Broker : Z;
  ld_Dir : string;
  ld_TotalBytes : option Z;
  ld_UsableBytes : option Z;
  ld_ErrorCode : Z;
  ld_Partitions : slice LogDirPartition;
}.

(** ** Groups and offsets *)

Record TopicPartition := mkTopicPartition {
  tp_Topic : string;
  tp_Partition : Z;
}.

Record GroupMember := mkGroupMember {
  gm_MemberID : string;
  gm_InstanceID : option string;
  gm_ClientID : string;
  gm_Host : string;
  gm_Rack : option string;
  gm_SubscribedTopics : slice string;
  gm_Assignment : slice TopicPartition;
  gm_Owned : slice TopicPartition;
  gm_MemberEpoch : option Z;
  gm_TargetAssignment : slice TopicPartition;
  gm_SubscribedTopicRegex : option string;
}.

Record GroupMetrics := mkGroupMetrics {
  g_ID : string;
  g_State : string;
  g_Coordinator : Z;
  g_Generation : Z;
  g_Protocol : string;
  g_ProtocolType : string;
  g_GroupType : string;
  g_MemberCount : Z;
  g_Members : list GroupMember;
  g_ErrorCode : Z;
  g_GroupEpoch : option Z;
  g_AssignmentEpoch : option Z;
  g_Assignor : string;
}.

Record PartitionOffset := mkPartitionOffset {
  po_Topic : string;
  po_Partition : Z;
  po_Offset : option Z;
  po_LeaderEpoch : Z;
  po_Metadata : string;
  po_ErrorCode : Z;
}.

Record ConsumerOffset := mkConsumerOffset {
  co_GroupID : string;
  co_ErrorCode : Z;
  co_Offsets : slice PartitionOffset;
  co_OffsetCount : Z;
}.

(** ** Configs and share groups *)

Record ConfigEntry := mkConfigEntry {
  cf_Key : string;
  cf_Value : option string;
  cf_Sensitive : bool;
  cf_Source : string;
}.

Record TopicConfig := mkTopicConfig {
  tc_Topic : string;
  tc_ErrorCode : Z;
  tc_Configs : slice ConfigEntry;
}.

Record BrokerConfig := mkBrokerConfig {
  bcf_Broker : Z;
  bcf_ErrorCode : Z;
  bcf_Configs : slice ConfigEntry;
}.

Record ShareGroupOffset := mkShareGroupOffset {
  so_Topic : string;
  so_Partition : Z;
  so_StartOffset : option Z;
  so_LeaderEpoch : Z;
  so_ErrorCode : Z;
}.

Record ShareGroupMember := mkShareGroupMember {
  sm_MemberID : string;
  sm_ClientID : string;
  sm_Host : string;
  sm_Rack : option string;
  sm_MemberEpoch : Z;
  sm_SubscribedTopics : slice string;
  sm_Assignment : slice TopicPartition;
}.

Record ShareGroup := mkShareGroup {
  sg_ID : string;
  sg_State : string;
  sg_Coordinator : Z;
  sg_GroupEpoch : Z;
  sg_AssignmentEpoch : Z;
  sg_Assignor : string;
  sg_ErrorCode : Z;
  sg_MemberCount : Z;
  sg_Members : list ShareGroupMember;
  sg_StartOffsets : slice ShareGroupOffset;
}.

(** ** The batch *)

Record Batch := mkBatch {
  b_SchemaVersion : Z;
  b_AgentVersion : string;
  b_AgentInstanceID : string;
  b_BatchSeq : Z;
  b_CollectedAt : Z;
  b_CollectionMs : Z;
  b_Cluster : option ClusterMetrics;
  b_Topics : slice TopicMetrics;
  b_Groups : slice GroupMetrics;
  b_Offsets : slice ConsumerOffset;
  b_LogDirs : slice LogDir;
  b_ThroughputWindow : option ThroughputWindow;
  b_Reassignments : slice Reassignment;
  b_EpochProbes : slice EpochProbe;
  b_TopicConfigs : slice TopicConfig;
  b_BrokerConfigs : slice BrokerConfig;
  b_ShareGroups : slice ShareGroup;
  b_Principal : string;
  b_Agent : AgentStats;
  b_Sections : list SectionRow;
  b_Errors : list CollectionError;
  b_Truncation : option Truncation;
  b_Selection : option Selection;
}.

(** ** The histogram's invariant

    A histogram is well formed when its buckets are absent and it is empty, or
    when they are the default layout and add up to [Count]. *)
Definition hist_wf (h : LatencyHistogram) : Prop :=
  match lh_BoundsUs h, lh_Counts h with
  | None, None => lh_Count h = 0
  | Some bs, Some cs =>
      bs = DefaultLatencyBoundsUs /\ length cs = S (length bs) /\
      Forall (fun c => 0 <= c) cs /\ sumZ id cs = lh_Count h
  | _, _ => False
  end.

(** Reference definition of what a window of observations must report: the
    number of observations falling in each half-open bucket. *)
Definition in_bucket (bounds : list Z) (i : nat) (us : Z) : bool :=
  bool_decide (bucket_index bounds us = i).

(** ** Lemmas *)

Lemma bucket_index_le bounds us : (bucket_index bounds us <= length bounds)%nat.
Proof. induction bounds as [|b bs IH]; simpl; [done|]. destruct (b <? us); lia. Qed.

(** The index the loop stops at is the first bound the sample does not exceed. *)
Lemma bucket_index_spec bounds us i b :
  bounds !! i = Some b ->
  (i < bucket_index bounds us)%nat -> b < us.
Proof.
  revert i. induction bounds as [|b0 bs IH]; intros i Hb Hi; [done|].
  simpl in Hi. destruct (b0 <? us) eqn:E; [|lia].
  destruct i as [|i]; simplify_eq/=; [lia|]. apply (IH i); [done|lia].
Qed.

Lemma bucket_index_stop bounds us b :
  bounds !! bucket_index bounds us = Some b -> us <= b.
Proof.
  induction bounds as [|b0 bs IH]; [done|]. simpl. destruct (b0 <? us) eqn:E; simpl.
  - apply IH.
  - intros [= ->]. lia.
Qed.

Lemma sumZ_bump i cs : (i < length cs)%nat -> sumZ id (bump i cs) = sumZ id cs + 1.
Proof.
  intros [x Hx]%lookup_lt_is_Some_2. unfold bump.
  rewrite (sumZ_alter _ _ _ _ _ Hx). unfold id. lia.
Qed.

Lemma length_bump i cs : length (bump i cs) = length cs.
Proof. apply length_alter. Qed.

Lemma Forall_bump i cs : Forall (fun c => 0 <= c) cs -> Forall (fun c => 0 <= c) (bump i cs).
Proof. intros H. apply Forall_alter; [done|]. intros c _ Hc. lia. Qed.

Lemma hist_wf_zero : hist_wf Histogram_zero.
Proof. done. Qed.

Lemma EnsureBuckets_wf h : hist_wf h -> hist_wf (EnsureBuckets h).
Proof.
  unfold hist_wf, EnsureBuckets. destruct h as [n s m [bs|] [cs|]]; simpl; try done.
  intros ->. repeat split; try done. by repeat constructor.
Qed.

Lemma EnsureBuckets_some h :
  hist_wf h -> exists cs, lh_BoundsUs (EnsureBuckets h) = Some DefaultLatencyBoundsUs /\
    lh_Counts (EnsureBuckets h) = Some cs.
Proof.
  unfold hist_wf, EnsureBuckets. destruct h as [n s m [bs|] [cs|]]; simpl; try done.
  - intros (-> & _). eauto.
  - intros _. eauto.
Qed.

Lemma EnsureBuckets_idem h : EnsureBuckets (EnsureBuckets h) = EnsureBuckets h.
Proof. unfold EnsureBuckets. destruct h as [n s m bs [cs|]]; done. Qed.

Lemma EnsureBuckets_Count h : lh_Count (EnsureBuckets h) = lh_Count h.
Proof. unfold EnsureBuckets. by destruct (lh_Counts h). Qed.

Lemma Observe_wf d h : hist_wf h -> hist_wf (Observe d h).
Proof.
  intros Hwf. pose proof (EnsureBuckets_wf h Hwf) as Hwf'.
  destruct (EnsureBuckets_some h Hwf) as (cs & Eb & Ec).
  unfold Observe, hist_wf in *. simpl. rewrite Eb, Ec in *. simpl.
  destruct Hwf' as (_ & Hlen & Hpos & Hsum).
  repeat split; [by rewrite length_bump|by apply Forall_bump|].
  rewrite sumZ_bump; [by rewrite Hsum|].
  rewrite Hlen. pose proof (bucket_index_le DefaultLatencyBoundsUs (Z.max 0 (Microseconds d))).
  simpl in *. lia.
Qed.

#[export] Hint Resolve hist_wf_zero EnsureBuckets_wf Observe_wf : go.
