(* ===== verification/Errors.v ===== *)
(** * Errors: Go error values and their classification ([internal/collector/errors.go])

    A Go [error] is a value of [goerr]; the constructors are the dynamic types
    the collector tests for with [errors.As] and [errors.Is], and the wrapping
    structure those functions walk is the structure of the value.  The numeric
    codes behind [kerr]'s variables are third-party constants, so they are the
    fields of the class [KerrCodes]. *)

From stdpp Require Import base tactics option list gmap strings numbers.
From Stdlib Require Import ZArith Lia.
From S2P Require Import Prelude Wire.

(** ** Error values *)

Inductive goerr :=
| KError (msg : string) (code : Z)                 (* *kerr.Error *)
| AuthError (msg : string) (err : goerr)           (* *kadm.AuthError *)
| ShardErrors (msg : string) (errs : list (Z * goerr)) (allFailed : bool)
                                                   (* *kadm.ShardErrors: node id and error per shard *)
| CtxDeadline (msg : string)                       (* context.DeadlineExceeded *)
| CtxCanceled (msg : string)                       (* context.Canceled *)
| NetError (msg : string)                          (* net.Error *)
| PlainError (msg : string)                        (* errors.New *)
| WrapError (msg : string) (err : goerr).          (* fmt.Errorf with one %w *)

(** [err.Error()]. *)
Definition errMsg (e : goerr) : string :=
  match e with
  | KError m _ | AuthError m _ | ShardErrors m _ _ | CtxDeadline m | CtxCanceled m
  | NetError m | PlainError m | WrapError m _ => m
  end.

(** [errors.As] tests the value, then walks what it wraps depth first; the first
    match wins.  [first_in f es] is the walk over a [Unwrap() []error]. *)
Definition first_in {A} (f : goerr -> option A) : list (Z * goerr) -> option A :=
  fix go es :=
    match es with
    | [] => None
    | (_, e) :: es => match f e with Some a => Some a | None => go es end
    end.

(** [errors.As(err, **kerr.Error)]. *)
Fixpoint as_kerr (e : goerr) : option Z :=
  match e with
  | KError _ c => Some c
  | AuthError _ e | WrapError _ e => as_kerr e
  | ShardErrors _ es _ => first_in as_kerr es
  | _ => None
  end.

(** [errors.As(err, **kadm.AuthError)]: the error the match carries. *)
Fixpoint as_auth (e : goerr) : option goerr :=
  match e with
  | AuthError _ e => Some e
  | WrapError _ e => as_auth e
  | ShardErrors _ es _ => first_in as_auth es
  | _ => None
  end.

(** [errors.As(err, **kadm.ShardErrors)]: the shards and [AllFailed]. *)
Fixpoint as_shards (e : goerr) : option (list (Z * goerr) * bool) :=
  match e with
  | ShardErrors _ es all => Some (es, all)
  | AuthError _ e | WrapError _ e => as_shards e
  | _ => None
  end.

(** [errors.Is(err, context.DeadlineExceeded) || errors.Is(err, context.Canceled)]
    or [errors.As(err, &net.Error)]: both tests have the same outcome. *)
Fixpoint is_transport (e : goerr) : bool :=
  match e with
  | CtxDeadline _ | CtxCanceled _ | NetError _ => true
  | AuthError _ e | WrapError _ e => is_transport e
  | ShardErrors _ es _ =>
      match first_in (fun e => if is_transport e then Some tt else None) es with
      | Some _ => true
      | None => false
      end
  | _ => false
  end.

(** ** Kafka error codes *)

Class KerrCodes := {
  TopicAuthorizationFailed : Z;
  GroupAuthorizationFailed : Z;
  ClusterAuthorizationFailed : Z;
  TransactionalIDAuthorizationFailed : Z;
  DelegationTokenAuthorizationFailed : Z;
  CoordinatorNotAvailable : Z;
  NotCoordinator : Z;
  CoordinatorLoadInProgress : Z;
  UnsupportedVersion : Z;
  UnsupportedForMessageFormat : Z;
}.

(** The protocol's numbers, for evaluating the model on concrete input. *)
Definition kafka_codes : KerrCodes := {|
  TopicAuthorizationFailed := 29;
  GroupAuthorizationFailed := 30;
  ClusterAuthorizationFailed := 31;
  TransactionalIDAuthorizationFailed := 53;
  DelegationTokenAuthorizationFailed := 65;
  CoordinatorNotAvailable := 15;
  NotCoordinator := 16;
  CoordinatorLoadInProgress := 14;
  UnsupportedVersion := 35;
  UnsupportedForMessageFormat := 43;
|}.

(** ** Classification *)

Definition kindAuthorization : string := "authorization".
Definition kindCoordinator : string := "coordinator".
Definition kindTransport : string := "transport".
Definition kindUnsupported : string := "unsupported".
Definition kindOther : string := "other".

Section classify.
Context `{!KerrCodes}.

Definition kindForCode (code : Z) : string :=
  if bool_decide (code ∈ [TopicAuthorizationFailed; GroupAuthorizationFailed;
       ClusterAuthorizationFailed; TransactionalIDAuthorizationFailed;
       DelegationTokenAuthorizationFailed]) then kindAuthorization
  else if bool_decide (code ∈ [CoordinatorNotAvailable; NotCoordinator;
       CoordinatorLoadInProgress]) then kindCoordinator
  else if bool_decide (code ∈ [UnsupportedVersion; UnsupportedForMessageFormat])
       then kindUnsupported
  else kindOther.

End classify.

Definition errorCode_of (e : goerr) : Z := default 0 (as_kerr e).

(** [errorCode] on a possibly nil error. *)
Definition errorCode (e : option goerr) : Z :=
  match e with None => 0 | Some e => errorCode_of e end.

Definition classify `{!KerrCodes} (e : option goerr) : string * Z :=
  match e with
  | None => (""%string, 0)
  | Some e =>
      match as_auth e with
      | Some inner => (kindAuthorization, errorCode_of inner)
      | None =>
          match as_kerr e with
          | Some code => (kindForCode code, code)
          | None => if is_transport e then (kindTransport, 0) else (kindOther, 0)
          end
      end
  end.

Definition errTopicNotListed : goerr := PlainError "broker returned no offsets for topic".
Definition errNotListed : goerr := PlainError "broker returned no offset for partition".
Definition errNegativeOffset : goerr :=
  PlainError "broker returned a negative offset with no error".
Definition errNoResponse : goerr := PlainError "no offset fetch response for group".
Definition errNoLogDirs : goerr := PlainError "broker returned no log directories".
Definition errEpochNotReturned : goerr :=
  PlainError "broker returned no leader epoch offset for partition".

(** ** Section names, in wire order *)

Definition sectionCluster : string := "cluster".
Definition sectionTopics : string := "topics".
Definition sectionTopicsWindow : string := "topics_window".
Definition sectionTopicsLSO : string := "topics_lso".
Definition sectionTopicsEnd : string := "topics_end".
Definition sectionTopicsMaxTS : string := "topics_max_timestamp".
Definition sectionTopicsLocal : string := "topics_local_start".
Definition sectionTopicsRemote : string := "topics_remote_end".
Definition sectionGroups : string := "groups".
Definition sectionOffsets : string := "offsets".
Definition sectionEpochProbes : string := "epoch_probes".
Definition sectionLogDirs : string := "log_dirs".
Definition sectionReassignments : string := "reassignments".
Definition sectionTopicConfigs : string := "topic_configs".
Definition sectionBrokerConfigs : string := "broker_configs".
Definition sectionShareGroups : string := "share_groups".
Definition sectionBrokerRPC : string := "broker_rpc".

Definition sectionNames : list string := [
  sectionCluster;
  sectionTopics; sectionTopicsWindow; sectionTopicsLSO; sectionTopicsEnd;
  sectionTopicsMaxTS; sectionTopicsLocal; sectionTopicsRemote;
  sectionGroups; sectionOffsets;
  sectionEpochProbes;
  sectionLogDirs; sectionReassignments;
  sectionTopicConfigs; sectionBrokerConfigs; sectionShareGroups;
  sectionBrokerRPC
].

(** [SectionNames] returns a fresh copy, which a value is. *)
Definition SectionNames : list string := sectionNames.

(** ** Section statuses *)

Definition statusRank (s : SectionStatus) : Z :=
  match s with
  | SectionOK => 0
  | SectionSkipped => 1
  | SectionPartial => 2
  | SectionFailed => 3
  | SectionUnauthorized => 4
  end.

(** ** Lemmas *)

Lemma sectionNames_NoDup : NoDup sectionNames.
Proof. apply (bool_decide_unpack _). vm_compute. exact I. Qed.

Lemma kindForCode_cases `{!KerrCodes} c :
  kindForCode c ∈ [kindAuthorization; kindCoordinator; kindUnsupported; kindOther].
Proof. unfold kindForCode. repeat case_bool_decide; set_solver. Qed.

Lemma classify_kinds `{!KerrCodes} e :
  (classify (Some e)).1 ∈
    [kindAuthorization; kindCoordinator; kindTransport; kindUnsupported; kindOther].
Proof.
  unfold classify. destruct (as_auth e); simpl; [set_solver|].
  destruct (as_kerr e) as [c|]; simpl.
  - pose proof (kindForCode_cases c). set_solver.
  - destruct (is_transport e); set_solver.
Qed.

Lemma statusRank_inj a b : statusRank a = statusRank b -> a = b.
Proof. by destruct a, b. Qed.

Lemma statusRank_bounds a : 0 <= statusRank a <= 4.
Proof. destruct a; simpl; lia. Qed.

#[export] Hint Resolve statusRank_bounds sectionNames_NoDup : go.
