(* ===== verification/Sections.v ===== *)
(** * Sections: one phase's health, timing and attributed errors
      ([internal/collector/errors.go], and the caps of [limits.go])

    A [*section] is written by one goroutine, so it is a value threaded through
    the phase: every method is a function of the section that returns the new
    one.  [record] is the admission funnel; the invariant [section_wf] relates
    its deduplication table to the rows it emitted. *)

From stdpp Require Import base tactics option list list_numbers gmap strings numbers.
From Stdlib Require Import ZArith Lia.
From S2P Require Import Prelude Wire Errors.

(** ** Limits ([limits.go]) *)

Record Limits := mkLimits {
  MaxErrors : Z;
  MaxErrorSamples : Z;
}.

Definition Limits_zero : Limits := mkLimits 0 0.

Definition errorSamples (l : Limits) : Z :=
  if MaxErrorSamples l <? 1 then 1 else MaxErrorSamples l.

Definition perSectionErrorBudget (l : Limits) : Z :=
  if MaxErrors l <=? 0 then max_int64 else MaxErrors l.

(** [capLen n ceiling] is how many of [n] a constant ceiling keeps and drops. *)
Definition capLen (n ceiling : Z) : Z * Z :=
  if (ceiling <=? 0) || (n <=? ceiling) then (n, 0) else (ceiling, n - ceiling).

Definition noBroker : Z := min_int32.
Definition maxDistinctErrorKeys : Z := 256.

Record errKey := mkErrKey {
  ek_api : string;
  ek_kind : string;
  ek_code : Z;
  ek_brokerID : Z;
}.

#[export] Instance errKey_eq_dec : EqDecision errKey.
Proof. solve_decision. Defined.
#[export] Instance errKey_countable : Countable errKey.
Proof.
  refine (inj_countable' (fun k => (ek_api k, ek_kind k, ek_code k, ek_brokerID k))
    (fun '(a, b, c, d) => mkErrKey a b c d) _). by intros [].
Defined.

Definition keyOf (ce : CollectionError) : errKey :=
  mkErrKey (ce_API ce) (ce_Kind ce) (ce_Code ce) (default noBroker (ce_BrokerID ce)).

(** Admission priorities; lower survives a budget. *)
Definition prioRequest : Z := 0.
Definition prioAuth : Z := 1.
Definition prioUnsupported : Z := 2.
Definition prioCoordinator : Z := 3.
Definition prioTransport : Z := 4.
Definition prioEntity : Z := 5.

Definition kindPriority (kind : string) : Z :=
  if String.eqb kind kindAuthorization then prioAuth
  else if String.eqb kind kindUnsupported then prioUnsupported
  else if String.eqb kind kindCoordinator then prioCoordinator
  else if String.eqb kind kindTransport then prioTransport
  else prioEntity.

Definition errPriority (ce : CollectionError) (requestScoped : bool) : Z :=
  if requestScoped then prioRequest else kindPriority (ce_Kind ce).

(** ** The section *)

Record errBucket := mkErrBucket {
  eb_repIdx : Z;
  eb_samples : Z;
  eb_seen : Z;
}.

Record section := mkSection {
  name : string;
  started : Z;
  duration : Z;
  status : SectionStatus;
  lim : Limits;
  errs : list CollectionError;
  prios : list Z;
  keys : gmap errKey errBucket;
  dropped : Truncation;
  globalDropped : Z;
  truncated : bool;
}.

Definition with_status (st : SectionStatus) (s : section) : section :=
  mkSection (name s) (started s) (duration s) st (lim s) (errs s) (prios s) (keys s)
    (dropped s) (globalDropped s) (truncated s).
Definition with_errs (es : list CollectionError) (ps : list Z) (s : section) : section :=
  mkSection (name s) (started s) (duration s) (status s) (lim s) es ps (keys s)
    (dropped s) (globalDropped s) (truncated s).
Definition with_keys (ks : gmap errKey errBucket) (s : section) : section :=
  mkSection (name s) (started s) (duration s) (status s) (lim s) (errs s) (prios s) ks
    (dropped s) (globalDropped s) (truncated s).
Definition with_dropped (d : Truncation) (s : section) : section :=
  mkSection (name s) (started s) (duration s) (status s) (lim s) (errs s) (prios s) (keys s)
    d (globalDropped s) (truncated s).
Definition with_globalDropped (g : Z) (s : section) : section :=
  mkSection (name s) (started s) (duration s) (status s) (lim s) (errs s) (prios s) (keys s)
    (dropped s) g (truncated s).
Definition with_truncated (t : bool) (s : section) : section :=
  mkSection (name s) (started s) (duration s) (status s) (lim s) (errs s) (prios s) (keys s)
    (dropped s) (globalDropped s) t.
Definition with_duration (d : Z) (s : section) : section :=
  mkSection (name s) (started s) d (status s) (lim s) (errs s) (prios s) (keys s)
    (dropped s) (globalDropped s) (truncated s).

(** [newSectionAt], with the collector's limits stamped on. *)
Definition newSectionAt (l : Limits) (n : string) (at_ : Z) : section :=
  mkSection n at_ 0 SectionOK l [] [] ∅ Truncation_zero 0 false.

(** [newSection]: [now] is the instant [time.Now] returned. *)
Definition newSection (l : Limits) (n : string) (now : Z) : section := newSectionAt l n now.

(** [defer sec.stop()] at instant [now]. *)
Definition stop (now : Z) (s : section) : section := with_duration (now - started s) s.

(** [finish] on a possibly nil section. *)
Definition finish (s : option section) : SectionRow :=
  match s with
  | None => mkSectionRow "" SectionSkipped 0 0 0 0 0 false
  | Some s =>
      mkSectionRow (name s) (status s) (started s) (Milliseconds (duration s))
        (Z.of_nat (length (errs s)) - globalDropped s)
        (tr_ErrorsCollapsed (dropped s)) (tr_ErrorsDropped (dropped s)) (truncated s)
  end.

Definition downgrade (st : SectionStatus) (s : section) : section :=
  if statusRank (status s) <? statusRank st then with_status st s else s.

(** ** Recording *)

Definition newError `{!KerrCodes} (s : section) (api : string) (err : goerr) : CollectionError :=
  let '(kind, code) := classify (Some err) in
  mkCollectionError (name s) api None "" None "" "" code kind (errMsg err) 0.

Definition emit (ce : CollectionError) (prio : Z) (s : section) : section :=
  with_errs (errs s ++ [ce]) (prios s ++ [prio]) s.

Definition set_key (k : errKey) (b : errBucket) (s : section) : section :=
  with_keys (<[k := b]> (keys s)) s.

(** [s.errs[i].Count = n]. *)
Definition set_count (i : Z) (n : Z) (s : section) : section :=
  with_errs
    (alter (fun ce => mkCollectionError (ce_Section ce) (ce_API ce) (ce_BrokerID ce)
       (ce_Topic ce) (ce_Partition ce) (ce_Dir ce) (ce_Group ce) (ce_Code ce)
       (ce_Kind ce) (ce_Message ce) n) (Z.to_nat i) (errs s))
    (prios s) s.

Definition add_collapsed (s : section) : section :=
  with_dropped (mkTruncation (tr_ErrorsCollapsed (dropped s) + 1) (tr_ErrorsDropped (dropped s))) s.
Definition add_dropped (n : Z) (s : section) : section :=
  with_dropped (mkTruncation (tr_ErrorsCollapsed (dropped s)) (tr_ErrorsDropped (dropped s) + n)) s.

Definition numErrs (s : section) : Z := Z.of_nat (length (errs s)).
Definition numKeys (s : section) : Z := Z.of_nat (size (keys s)).

Definition record (ce : CollectionError) (requestScoped : bool) (s : section) : section :=
  let s := if requestScoped then s else downgrade SectionPartial s in
  let prio := errPriority ce requestScoped in
  let k := keyOf ce in
  let budget := perSectionErrorBudget (lim s) in
  match keys s !! k with
  | Some b0 =>
      let b := mkErrBucket (eb_repIdx b0) (eb_samples b0) (eb_seen b0 + 1) in
      let s := set_key k b s in
      if eb_repIdx b <? 0 then s
      else if (eb_samples b <? errorSamples (lim s)) &&
              ((prio <? prioEntity) || (numErrs s <? budget)) then
        set_key k (mkErrBucket (eb_repIdx b) (eb_samples b + 1) (eb_seen b)) (emit ce prio s)
      else
        with_truncated true
          (add_collapsed (set_count (eb_repIdx b) (eb_seen b - (eb_samples b - 1)) s))
  | None =>
      let mapFull := maxDistinctErrorKeys <=? numKeys s in
      if (prio =? prioEntity) && ((budget <=? numErrs s) || mapFull) then
        let s := with_truncated true (add_dropped 1 s) in
        if mapFull then s else set_key k (mkErrBucket (-1) 0 1) s
      else
        let s := emit ce prio s in
        set_key k (mkErrBucket (numErrs s - 1) 1 1) s
  end.

Definition add (ce : CollectionError) (s : section) : section := record ce false s.

Section recorders.
Context `{!KerrCodes}.

Definition recordTopic (api topic : string) (err : goerr) (s : section) : section :=
  let ce := newError s api err in
  add (mkCollectionError (ce_Section ce) (ce_API ce) (ce_BrokerID ce) topic (ce_Partition ce)
    (ce_Dir ce) (ce_Group ce) (ce_Code ce) (ce_Kind ce) (ce_Message ce) (ce_Count ce)) s.

Definition recordPartition (api topic : string) (partition : Z) (err : goerr) (s : section) : section :=
  let ce := newError s api err in
  add (mkCollectionError (ce_Section ce) (ce_API ce) (ce_BrokerID ce) topic (Some partition)
    (ce_Dir ce) (ce_Group ce) (ce_Code ce) (ce_Kind ce) (ce_Message ce) (ce_Count ce)) s.

Definition recordLogDir (api : string) (broker : Z) (dir : string) (err : goerr) (s : section) : section :=
  let ce := newError s api err in
  add (mkCollectionError (ce_Section ce) (ce_API ce) (Some broker) (ce_Topic ce) (ce_Partition ce)
    dir (ce_Group ce) (ce_Code ce) (ce_Kind ce) (ce_Message ce) (ce_Count ce)) s.

Definition recordGroup (api group : string) (err : goerr) (s : section) : section :=
  let ce := newError s api err in
  add (mkCollectionError (ce_Section ce) (ce_API ce) (ce_BrokerID ce) (ce_Topic ce) (ce_Partition ce)
    (ce_Dir ce) group (ce_Code ce) (ce_Kind ce) (ce_Message ce) (ce_Count ce)) s.

(** One shard of a failed fan-out: its error, attributed to its broker when the
    shard reached one. *)
Definition shardError (api : string) (shard : Z * goerr) (s : section) : CollectionError :=
  let '(node, err) := shard in
  let ce := newError s api err in
  if 0 <=? node then
    mkCollectionError (ce_Section ce) (ce_API ce) (Some node) (ce_Topic ce) (ce_Partition ce)
      (ce_Dir ce) (ce_Group ce) (ce_Code ce) (ce_Kind ce) (ce_Message ce) (ce_Count ce)
  else ce.

(** The loop over the shards: records each, and reports whether one of them was
    an authorization failure. *)
Fixpoint recordShards (api : string) (shards : list (Z * goerr)) (s : section) : bool * section :=
  match shards with
  | [] => (false, s)
  | sh :: shards =>
      let ce := shardError api sh s in
      let '(unauthorized, s) := recordShards api shards (record ce true s) in
      (String.eqb (ce_Kind ce) kindAuthorization || unauthorized, s)
  end.

(** [request] records the outcome of one whole API call and reports whether any
    of the response is usable. *)
Definition request (api : string) (err : option goerr) (s : section) : bool * section :=
  match err with
  | None => (true, s)
  | Some err =>
      match as_shards err with
      | Some (shards, allFailed) =>
          let '(unauthorized, s) := recordShards api shards s in
          let s :=
            if allFailed && unauthorized then downgrade SectionUnauthorized s
            else if allFailed then downgrade SectionFailed s
            else downgrade SectionPartial s in
          (negb allFailed, s)
      | None =>
          match as_auth err with
          | Some _ => (false, downgrade SectionUnauthorized (record (newError s api err) true s))
          | None =>
              let ce := newError s api err in
              let s := record ce true s in
              (false, if String.eqb (ce_Kind ce) kindAuthorization
                      then downgrade SectionUnauthorized s else downgrade SectionFailed s)
          end
      end
  end.

(** [requestPartial] is [request] for a call whose response can carry data
    alongside an error; the one place a status is corrected back to partial. *)
Definition requestPartial (api : string) (err : option goerr) (gotData : bool)
    (s : section) : bool * section :=
  let '(usable, s) := request api err s in
  if usable then (true, s)
  else if negb gotData then (false, s)
  else
    (true, match status s with
           | SectionFailed | SectionUnauthorized => with_status SectionPartial s
           | _ => s
           end).

End recorders.

(** ** The deduplication invariant *)

(** How many occurrences a row stands for: an absent count is one. *)
Definition occ_weight (ce : CollectionError) : Z :=
  if ce_Count ce =? 0 then 1 else ce_Count ce.

Definition has_key (k : errKey) (ce : CollectionError) : bool := bool_decide (keyOf ce = k).

(** Rows bearing a key, and the occurrences they stand for. *)
Definition key_rows (k : errKey) (s : section) : Z := Z.of_nat (count (has_key k) (errs s)).
Definition key_weight (k : errKey) (s : section) : Z :=
  sumZ (fun ce => if has_key k ce then occ_weight ce else 0) (errs s).

(** A remembered key either has an exemplar among the rows, and its counters
    agree with the rows, or was refused, and has no row. *)
Definition bucket_ok (s : section) (k : errKey) (b : errBucket) : Prop :=
  if eb_repIdx b <? 0 then
    key_rows k s = 0 /\ kindPriority (ek_kind k) = prioEntity
  else
    (exists e, errs s !! Z.to_nat (eb_repIdx b) = Some e /\ keyOf e = k /\
       occ_weight e = eb_seen b - (eb_samples b - 1)) /\
    key_rows k s = eb_samples b /\ key_weight k s = eb_seen b /\
    1 <= eb_samples b <= eb_seen b.

Definition entity_rows (s : section) : Z :=
  Z.of_nat (count (fun p => p =? prioEntity) (prios s)).

Record section_wf (s : section) : Prop := {
  wf_prios : length (prios s) = length (errs s);
  wf_prio_range : Forall (fun p => prioRequest <= p <= prioEntity) (prios s);
  wf_row : forall e, e ∈ errs s -> exists b, keys s !! keyOf e = Some b /\ 0 <= eb_repIdx b;
  wf_bucket : forall k b, keys s !! k = Some b -> bucket_ok s k b;
  wf_collapsed : tr_ErrorsCollapsed (dropped s) = sumZ occ_weight (errs s) - numErrs s;
  wf_dropped : 0 <= tr_ErrorsDropped (dropped s);
  wf_weight : Forall (fun ce => 1 <= occ_weight ce) (errs s);
  wf_entity : entity_rows s <= perSectionErrorBudget (lim s);
  wf_name : Forall (fun ce => ce_Section ce = name s) (errs s);
  wf_global : globalDropped s = 0;
}.

(** The occurrence [record] was given ends in a row, its own or its exemplar's. *)
Definition admitted (ce : CollectionError) (requestScoped : bool) (s : section) : bool :=
  match keys s !! keyOf ce with
  | Some b => 0 <=? eb_repIdx b
  | None =>
      negb ((errPriority ce requestScoped =? prioEntity) &&
            ((perSectionErrorBudget (lim s) <=? numErrs s) ||
             (maxDistinctErrorKeys <=? numKeys s)))
  end.

(** A sequence of recordings, in order. *)
Definition record_all (occs : list (CollectionError * bool)) (s : section) : section :=
  foldl (fun s o => record o.1 o.2 s) s occs.

(** What a recorder hands [record]: a fresh row of its own section. *)
Definition recordable (n : string) (o : CollectionError * bool) : Prop :=
  ce_Count o.1 = 0 /\ ce_Section o.1 = n.

Definition occurrences (k : errKey) (occs : list (CollectionError * bool)) : Z :=
  Z.of_nat (count (fun o => has_key k o.1) occs).

(** The outcome of a whole API call, read off the error alone. *)
Definition outcome_usable (err : goerr) : bool :=
  match as_shards err with Some (_, allFailed) => negb allFailed | None => false end.

Definition is_authorization `{!KerrCodes} (err : goerr) : bool :=
  String.eqb (classify (Some err)).1 kindAuthorization.

Definition outcome_status `{!KerrCodes} (err : goerr) : SectionStatus :=
  match as_shards err with
  | Some (shards, false) => SectionPartial
  | Some (shards, true) =>
      if existsb (fun sh => is_authorization sh.2) shards then SectionUnauthorized
      else SectionFailed
  | None => if is_authorization err then SectionUnauthorized else SectionFailed
  end.

(** What every phase promises of the section it returns. *)
Definition sec_ok (n : string) (s : section) : Prop := section_wf s /\ name s = n.

(** The same of one started between [lo] and [hi], and not stopped before. *)
Definition sec_at (lo hi : Z) (n : string) (s : section) : Prop :=
  sec_ok n s /\ lo <= started s <= hi /\ 0 <= duration s.

(** Concrete occurrences the witnesses evaluate. *)
Definition occ_auth (api : string) (n : string) (b : option Z) : CollectionError * bool :=
  (mkCollectionError n api b "" None "" "" 29 kindAuthorization "denied" 0, false).

Definition occ_other (n topic : string) : CollectionError * bool :=
  (mkCollectionError n "ListOffsets" None topic None "" "" 3 kindOther "unknown" 0, false).

(** Four authorization failures and two entity failures under caps of one. *)
Definition sample_occs : list (CollectionError * bool) :=
  [occ_other "topics" "a"; occ_auth "Metadata" "topics" None; occ_other "topics" "b";
   occ_auth "Metadata" "topics" None; occ_auth "Metadata" "topics" (Some 3);
   occ_auth "Metadata" "topics" None].

(** ** Lemmas on status *)

Lemma downgrade_rank st s :
  statusRank (status (downgrade st s)) = Z.max (statusRank (status s)) (statusRank st).
Proof. unfold downgrade. destruct (_ <? _) eqn:E; simpl; lia. Qed.

Lemma record_status ce rs s :
  status (record ce rs s) = status (if rs then s else downgrade SectionPartial s).
Proof.
  unfold record, emit, set_key, set_count, with_errs, with_keys, with_truncated, add_collapsed,
    add_dropped, with_dropped. simpl. repeat case_match; simpl; done.
Qed.

Lemma record_frame ce rs s :
  name (record ce rs s) = name s /\ started (record ce rs s) = started s /\
  lim (record ce rs s) = lim s /\ globalDropped (record ce rs s) = globalDropped s.
Proof. unfold record, downgrade. repeat case_match; done. Qed.

(** ** Lemmas on rows and weights *)

Lemma occ_weight_count ce n : 1 <= n ->
  occ_weight (mkCollectionError (ce_Section ce) (ce_API ce) (ce_BrokerID ce) (ce_Topic ce)
    (ce_Partition ce) (ce_Dir ce) (ce_Group ce) (ce_Code ce) (ce_Kind ce) (ce_Message ce) n) = n.
Proof. intros. unfold occ_weight. simpl. destruct (n =? 0) eqn:E; lia. Qed.

Lemma key_rows_emit k ce p s :
  key_rows k (emit ce p s) = key_rows k s + (if has_key k ce then 1 else 0).
Proof.
  unfold key_rows, emit. simpl. rewrite count_app, count_cons.
  unfold count at 2. simpl. destruct (has_key k ce); lia.
Qed.

Lemma key_weight_emit k ce p s :
  key_weight k (emit ce p s) = key_weight k s + (if has_key k ce then occ_weight ce else 0).
Proof. unfold key_weight, emit. simpl. rewrite sumZ_app. simpl. lia. Qed.

Lemma key_rows_set_count k i n s : key_rows k (set_count i n s) = key_rows k s.
Proof. unfold key_rows, set_count. simpl. by rewrite count_alter. Qed.

Lemma key_weight_set_count k i n e s :
  1 <= n -> errs s !! Z.to_nat i = Some e ->
  key_weight k (set_count i n s) =
    key_weight k s + (if has_key k e then n - occ_weight e else 0).
Proof.
  intros Hn He. unfold key_weight, set_count. simpl. rewrite (sumZ_alter _ _ _ _ _ He).
  rewrite occ_weight_count by done.
  change (has_key k (mkCollectionError _ _ _ _ _ _ _ _ _ _ _)) with (has_key k e).
  destruct (has_key k e); lia.
Qed.

Lemma key_rows_pos k s e : e ∈ errs s -> keyOf e = k -> 1 <= key_rows k s.
Proof.
  intros He Hk. unfold key_rows. apply list_elem_of_split in He as (l1 & l2 & ->).
  rewrite count_app, count_cons. unfold has_key at 2. rewrite bool_decide_true by done. lia.
Qed.

Lemma has_key_refl ce : has_key (keyOf ce) ce = true.
Proof. unfold has_key. by rewrite bool_decide_true. Qed.

Lemma has_key_ne k ce : k <> keyOf ce -> has_key k ce = false.
Proof. intros. unfold has_key. rewrite bool_decide_false; congruence. Qed.

Lemma key_rows_weight_0 k s : key_rows k s = 0 -> key_weight k s = 0.
Proof.
  unfold key_rows, key_weight. induction (errs s) as [|e es IH]; [done|].
  rewrite count_cons. unfold sumZ. simpl. destruct (has_key k e); [lia|].
  intros H. change (foldr _ _ _) with (sumZ (fun ce => if has_key k ce then occ_weight ce else 0) es).
  rewrite IH; lia.
Qed.

Lemma newSection_wf l n now : section_wf (newSection l n now).
Proof.
  split; simpl; try done; try by constructor.
  - intros e He. by apply elem_of_nil in He.
  - unfold entity_rows, perSectionErrorBudget, max_int64. simpl.
    destruct (MaxErrors l <=? 0) eqn:E; unfold count; simpl; lia.
Qed.

Lemma downgrade_wf st s : section_wf s -> section_wf (downgrade st s).
Proof. unfold downgrade. destruct (_ <? _); [|done]. intros []. by split. Qed.

#[export] Hint Resolve newSection_wf downgrade_wf : go.

(** ** The five outcomes of [record] preserve the invariant *)

Lemma set_key_set_key k b b' s : set_key k b (set_key k b' s) = set_key k b s.
Proof. unfold set_key, with_keys. simpl. by rewrite insert_insert_eq. Qed.

Lemma set_key_emit_set_key k b b' ce p s :
  set_key k b (emit ce p (set_key k b' s)) = set_key k b (emit ce p s).
Proof. unfold set_key, emit, with_keys, with_errs. simpl. by rewrite insert_insert_eq. Qed.

(** A bucket of another key does not notice a new row or a changed count. *)
Lemma bucket_ok_emit_ne s k b ce p :
  k <> keyOf ce -> bucket_ok s k b -> bucket_ok (emit ce p s) k b.
Proof.
  intros Hne. unfold bucket_ok. rewrite key_rows_emit, key_weight_emit, has_key_ne by done.
  destruct (_ <? _); [intros [? ?]; split; [lia|done]|].
  intros ((e & He & Hk & Hw) & Hrest). split; [|by rewrite !Z.add_0_r].
  exists e. split; [|done]. unfold emit. simpl. by apply lookup_app_l_Some.
Qed.

Lemma bucket_ok_set_count_ne s k b i n e :
  1 <= n -> errs s !! Z.to_nat i = Some e -> k <> keyOf e ->
  bucket_ok s k b -> bucket_ok (set_count i n s) k b.
Proof.
  intros Hn He Hne. unfold bucket_ok.
  rewrite key_rows_set_count, (key_weight_set_count _ _ _ _ _ Hn He), has_key_ne by done.
  destruct (_ <? _); [done|]. intros ((e' & He' & Hk & Hw) & Hrest).
  split; [|by rewrite !Z.add_0_r]. exists e'. split; [|done].
  unfold set_count. simpl. rewrite list_lookup_alter_ne; [done|]. congruence.
Qed.

Lemma bucket_ok_keys s k' b' k b : bucket_ok (set_key k' b' s) k b <-> bucket_ok s k b.
Proof. done. Qed.

(** (A) the key was refused before: the occurrence is only recognised. *)
Lemma record_refused_wf s k b n :
  section_wf s -> keys s !! k = Some b -> eb_repIdx b < 0 ->
  section_wf (set_key k (mkErrBucket (eb_repIdx b) (eb_samples b) n) s).
Proof.
  intros [] Hb Hneg. split; simpl; try done.
  - intros e He. destruct (wf_row0 e He) as (b' & Hb' & Hpos). exists b'. split; [|done].
    rewrite lookup_insert_ne; [done|]. intros ->. congruence || (simplify_eq; lia).
  - intros k' b' [[<- <-]|[Hne Hb']]%lookup_insert_Some; [|by apply wf_bucket0].
    specialize (wf_bucket0 _ _ Hb). unfold bucket_ok in *. simpl.
    by replace (eb_repIdx b <? 0) with true in * by lia.
Qed.

(** (B) another verbatim sample of a key with an exemplar. *)
Lemma record_sample_wf s ce p b :
  section_wf s -> keys s !! keyOf ce = Some b -> 0 <= eb_repIdx b ->
  ce_Count ce = 0 -> ce_Section ce = name s -> prioRequest <= p <= prioEntity ->
  p < prioEntity \/ numErrs s < perSectionErrorBudget (lim s) ->
  section_wf (set_key (keyOf ce)
    (mkErrBucket (eb_repIdx b) (eb_samples b + 1) (eb_seen b + 1)) (emit ce p s)).
Proof.
  intros [] Hb Hpos Hc Hn Hp Hbudget. assert (occ_weight ce = 1) as Hw by (unfold occ_weight; by rewrite Hc).
  split; simpl; try done.
  - rewrite !length_app. simpl. lia.
  - apply Forall_app; split; [done|by apply Forall_singleton].
  - intros e [He|He%list_elem_of_singleton]%elem_of_app; subst.
    + destruct (decide (keyOf e = keyOf ce)) as [->|Hne].
      * exists (mkErrBucket (eb_repIdx b) (eb_samples b + 1) (eb_seen b + 1)).
        by rewrite lookup_insert_eq.
      * destruct (wf_row0 e He) as (b' & Hb' & ?). exists b'. by rewrite lookup_insert_ne.
    + exists (mkErrBucket (eb_repIdx b) (eb_samples b + 1) (eb_seen b + 1)).
        by rewrite lookup_insert_eq.
  - intros k' b' [[<- <-]|[Hne Hb']]%lookup_insert_Some.
    + specialize (wf_bucket0 _ _ Hb). rewrite bucket_ok_keys. revert wf_bucket0. unfold bucket_ok.
      rewrite key_rows_emit, key_weight_emit, has_key_refl. simpl.
      replace (eb_repIdx b <? 0) with false by lia.
      intros ((e & He & Hk & Hwe) & Hr & Hkw & Hs).
      split; [exists e; repeat split; [by apply lookup_app_l_Some|done|lia]|lia].
    + rewrite bucket_ok_keys. apply bucket_ok_emit_ne; [done|by apply wf_bucket0].
  - unfold numErrs in *. simpl. rewrite sumZ_app, length_app, wf_collapsed0. simpl. lia.
  - apply Forall_app; split; [done|]. apply Forall_singleton. lia.
  - unfold entity_rows, numErrs in *. simpl. rewrite count_app, count_cons. unfold count at 2. simpl.
    pose proof (count_le (fun p => p =? prioEntity) (prios s)).
    destruct (p =? prioEntity) eqn:E; lia.
  - apply Forall_app; split; [done|]. by apply Forall_singleton.
Qed.

(** (C) an occurrence folded into its exemplar. *)
Lemma record_fold_wf s k b :
  section_wf s -> keys s !! k = Some b -> 0 <= eb_repIdx b ->
  section_wf (with_truncated true (add_collapsed
    (set_count (eb_repIdx b) (eb_seen b + 1 - (eb_samples b - 1))
      (set_key k (mkErrBucket (eb_repIdx b) (eb_samples b) (eb_seen b + 1)) s)))).
Proof.
  intros Hwf Hb Hpos. pose proof (wf_bucket _ Hwf _ _ Hb) as Hok. unfold bucket_ok in Hok.
  replace (eb_repIdx b <? 0) with false in Hok by lia.
  destruct Hok as ((e & He & Hk & Hwe) & Hr & Hkw & Hs). destruct Hwf.
  set (n := eb_seen b + 1 - (eb_samples b - 1)). assert (1 <= n) as Hn by lia.
  split; simpl; try done.
  - rewrite length_alter. done.
  - intros e' He'. assert (exists e0, e0 ∈ errs s /\ keyOf e0 = keyOf e') as (e0 & He0 & Hk0).
    { apply list_elem_of_lookup in He' as [i Hi].
      destruct (decide (i = Z.to_nat (eb_repIdx b))) as [->|Hi'].
      - rewrite list_lookup_alter_eq, He in Hi. simplify_eq/=. exists e.
        split; [by eapply list_elem_of_lookup_2|done].
      - rewrite list_lookup_alter_ne in Hi by done. exists e'. split; [by eapply list_elem_of_lookup_2|done]. }
    destruct (wf_row0 e0 He0) as (b' & Hb' & ?). rewrite <- Hk0.
    destruct (decide (k = keyOf e0)) as [->|Hne]; [rewrite lookup_insert_eq|rewrite lookup_insert_ne by done]; eauto.
  - intros k' b' [[<- <-]|[Hne Hb']]%lookup_insert_Some.
    + unfold bucket_ok. simpl. replace (eb_repIdx b <? 0) with false by lia.
      change (key_rows k _) with (key_rows k (set_count (eb_repIdx b) n s)).
      change (key_weight k _) with (key_weight k (set_count (eb_repIdx b) n s)).
      rewrite key_rows_set_count, (key_weight_set_count _ _ _ _ _ Hn He), <- Hk, has_key_refl, Hk.
      split; [|lia]. eexists. rewrite list_lookup_alter_eq, He. split; [done|].
      split; [done|]. by apply occ_weight_count.
    + change (bucket_ok (set_count (eb_repIdx b) n s) k' b').
      eapply bucket_ok_set_count_ne; [done|done|congruence|by apply wf_bucket0].
  - unfold numErrs in *. simpl. rewrite length_alter, (sumZ_alter _ _ _ _ _ He), occ_weight_count by done.
    rewrite wf_collapsed0. lia.
  - apply Forall_alter; [done|]. intros x _ _. by rewrite occ_weight_count.
  - apply Forall_alter; [done|]. done.
Qed.

(** A key the table does not hold has no row. *)
Lemma key_rows_none k s :
  (forall e, e ∈ errs s -> exists b, keys s !! keyOf e = Some b /\ 0 <= eb_repIdx b) ->
  keys s !! k = None -> key_rows k s = 0.
Proof.
  intros Hrow Hk. destruct (decide (key_rows k s = 0)) as [|Hne]; [done|exfalso].
  unfold key_rows, count in Hne.
  destruct (filter (fun a => Is_true (has_key k a)) (errs s)) as [|e l] eqn:F; [done|].
  assert (e ∈ filter (fun a => Is_true (has_key k a)) (errs s)) as He by (rewrite F; by left).
  apply list_elem_of_filter in He as [Hek He]. unfold has_key in Hek. apply bool_decide_unpack in Hek.
  destruct (Hrow e He) as (b & Hb & _). congruence.
Qed.

(** (D) a new key refused by a cap. *)
Lemma record_refuse_wf s k rem :
  section_wf s -> keys s !! k = None -> kindPriority (ek_kind k) = prioEntity ->
  let s' := with_truncated true (add_dropped 1 s) in
  section_wf (if rem : bool then s' else set_key k (mkErrBucket (-1) 0 1) s').
Proof.
  intros Hwf Hb Hkind s'. pose proof (wf_row _ Hwf) as Hrow.
  assert (section_wf s') as Hwf' by (subst s'; destruct Hwf; split; simpl; try done; lia).
  destruct rem; [done|]. clear Hwf. destruct Hwf'. split; simpl; try done.
  - intros e He. destruct (Hrow e He) as (b' & Hb' & ?). exists b'. split; [|done].
    rewrite lookup_insert_ne; [done|]. intros ->. congruence.
  - intros k' b' [[<- <-]|[Hne Hb']]%lookup_insert_Some; [|by apply wf_bucket0].
    unfold bucket_ok. simpl. split; [|done].
    change (key_rows k _) with (key_rows k s).
    by apply key_rows_none.
Qed.

(** (E) a new key admitted with its first row. *)
Lemma record_new_wf s ce p :
  section_wf s -> keys s !! keyOf ce = None ->
  ce_Count ce = 0 -> ce_Section ce = name s -> prioRequest <= p <= prioEntity ->
  p < prioEntity \/ numErrs s < perSectionErrorBudget (lim s) ->
  section_wf (set_key (keyOf ce) (mkErrBucket (numErrs (emit ce p s) - 1) 1 1) (emit ce p s)).
Proof.
  intros Hwf Hb Hc Hn Hp Hbudget. assert (occ_weight ce = 1) as Hw by (unfold occ_weight; by rewrite Hc).
  assert (key_rows (keyOf ce) s = 0) as Hr0.
  { apply key_rows_none; [apply Hwf|done]. }
  pose proof (key_rows_weight_0 _ _ Hr0) as Hw0. destruct Hwf.
  assert (numErrs (emit ce p s) = numErrs s + 1) as Hnum.
  { unfold numErrs, emit. simpl. rewrite length_app. simpl. lia. }
  split; simpl; try done.
  - rewrite !length_app. simpl. lia.
  - apply Forall_app; split; [done|by apply Forall_singleton].
  - intros e [He|He%list_elem_of_singleton]%elem_of_app; subst.
    + destruct (wf_row0 e He) as (b' & Hb' & ?). exists b'.
      rewrite lookup_insert_ne; [done|]. intros E. rewrite E in Hb. congruence.
    + eexists. rewrite lookup_insert_eq. split; [done|]. simpl. unfold numErrs in *. lia.
  - intros k' b' [[<- <-]|[Hne Hb']]%lookup_insert_Some.
    + rewrite bucket_ok_keys. unfold bucket_ok.
      rewrite key_rows_emit, key_weight_emit, has_key_refl, Hr0, Hw0. simpl.
      replace (_ <? _) with false by (unfold numErrs in *; lia).
      split; [|lia]. exists ce. split; [|split; [done|lia]].
      rewrite Hnum. unfold numErrs. replace (Z.to_nat _) with (length (errs s)) by lia.
      by rewrite list_lookup_middle.
    + rewrite bucket_ok_keys. apply bucket_ok_emit_ne; [done|by apply wf_bucket0].
  - unfold numErrs in *. simpl. rewrite sumZ_app, length_app, wf_collapsed0. simpl. lia.
  - apply Forall_app; split; [done|]. apply Forall_singleton. lia.
  - unfold entity_rows, numErrs in *. simpl. rewrite count_app, count_cons. unfold count at 2. simpl.
    pose proof (count_le (fun p => p =? prioEntity) (prios s)).
    destruct (p =? prioEntity) eqn:E; lia.
  - apply Forall_app; split; [done|]. by apply Forall_singleton.
Qed.

(** ** [record] as a whole *)

Lemma errPriority_range ce rs : prioRequest <= errPriority ce rs <= prioEntity.
Proof.
  unfold errPriority, kindPriority, prioRequest, prioAuth, prioUnsupported, prioCoordinator,
    prioTransport, prioEntity. repeat case_match; lia.
Qed.

Lemma errPriority_entity ce rs :
  errPriority ce rs = prioEntity -> kindPriority (ek_kind (keyOf ce)) = prioEntity.
Proof. unfold errPriority. by destruct rs. Qed.

(** [record] is one of its five outcomes on the downgraded section. *)
Lemma record_wf ce rs s :
  section_wf s -> ce_Count ce = 0 -> ce_Section ce = name s -> section_wf (record ce rs s).
Proof.
  intros Hwf Hc Hn. unfold record.
  set (s1 := if rs then s else _).
  assert (section_wf s1 /\ name s1 = name s) as [Hwf1 Hn1].
  { subst s1. destruct rs; [done|]. split; [by apply downgrade_wf|].
    unfold downgrade. by destruct (_ <? _). }
  clearbody s1. rewrite <- Hn1 in Hn. clear s Hwf Hn1. pose proof (errPriority_range ce rs).
  destruct (keys s1 !! keyOf ce) as [b|] eqn:Hb; simpl.
  - destruct (eb_repIdx b <? 0) eqn:Hneg; [by apply record_refused_wf; try lia|].
    destruct (_ && _) eqn:Hs; go_bools.
    + rewrite set_key_emit_set_key. apply record_sample_wf; try done.
      match goal with H : _ || _ = true |- _ => apply orb_true_iff in H as [?|?] end; go_bools; auto.
    + by apply record_fold_wf; try lia.
  - destruct (_ && _) eqn:Hs; go_bools.
    + apply (record_refuse_wf s1 (keyOf ce) (maxDistinctErrorKeys <=? numKeys s1)); try done.
      by eapply errPriority_entity.
    + apply record_new_wf; try done. apply andb_false_iff in Hs as [?|?]; go_bools; [left; lia|right; lia].
Qed.

(** Every occurrence [record] admits is counted once, in a row of its own key,
    and no other key's count moves. *)
Lemma record_weight ce rs s k :
  section_wf s -> ce_Count ce = 0 ->
  key_weight k (record ce rs s) =
    key_weight k s + (if has_key k ce && admitted ce rs s then 1 else 0).
Proof.
  intros Hwf Hc. unfold record, admitted.
  set (s1 := if rs then s else _).
  assert (section_wf s1 /\ key_weight k s1 = key_weight k s /\ keys s = keys s1 /\ lim s = lim s1 /\
    numErrs s = numErrs s1 /\ numKeys s = numKeys s1) as (Hwf1 & <- & -> & -> & -> & ->).
  { subst s1. destruct rs; [done|]. split; [by apply downgrade_wf|].
    unfold downgrade. by destruct (_ <? _). }
  clearbody s1. clear s Hwf. assert (occ_weight ce = 1) as Hw by (unfold occ_weight; by rewrite Hc).
  destruct (keys s1 !! keyOf ce) as [b|] eqn:Hb; simpl.
  - destruct (eb_repIdx b <? 0) eqn:Hneg.
    { replace (0 <=? eb_repIdx b) with false by lia. rewrite andb_false_r.
      change (key_weight k (set_key _ _ s1)) with (key_weight k s1). lia. }
    replace (0 <=? eb_repIdx b) with true by lia. rewrite andb_true_r.
    destruct (_ && _) eqn:Hs.
    + change (key_weight k (set_key _ _ ?x)) with (key_weight k x). rewrite key_weight_emit.
      change (key_weight k (set_key _ _ ?x)) with (key_weight k x). destruct (has_key k ce); lia.
    + pose proof (wf_bucket _ Hwf1 _ _ Hb) as Hok. unfold bucket_ok in Hok. rewrite Hneg in Hok.
      destruct Hok as ((e & He & Hk & Hwe) & Hr & Hkw & Hsm).
      change (key_weight k (with_truncated _ (add_collapsed ?x))) with (key_weight k x).
      rewrite (key_weight_set_count k _ _ e); [|lia|done].
      change (key_weight k (set_key _ _ ?x)) with (key_weight k x).
      unfold has_key. rewrite Hk. destruct (bool_decide _); lia.
  - destruct (_ && _) eqn:Hs; simpl.
    + rewrite andb_false_r. simpl. rewrite Z.add_0_r.
      by destruct (maxDistinctErrorKeys <=? numKeys s1).
    + rewrite andb_true_r. change (key_weight k (set_key _ _ ?x)) with (key_weight k x).
      rewrite key_weight_emit. destruct (has_key k ce); lia.
Qed.

(** A kind with a priority of its own is never refused. *)
Lemma admitted_kind ce rs s :
  section_wf s -> kindPriority (ce_Kind ce) <> prioEntity -> admitted ce rs s = true.
Proof.
  intros Hwf Hk. unfold admitted. destruct (keys s !! keyOf ce) as [b|] eqn:Hb.
  - pose proof (wf_bucket _ Hwf _ _ Hb) as Hok. unfold bucket_ok in Hok.
    destruct (eb_repIdx b <? 0) eqn:Hneg; [|lia]. by destruct Hok.
  - assert (errPriority ce rs <> prioEntity).
    { intros E%errPriority_entity. done. }
    by replace (errPriority ce rs =? prioEntity) with false by lia.
Qed.

(** *** Sequences of recordings *)

Lemma record_all_wf occs s :
  section_wf s -> Forall (recordable (name s)) occs -> section_wf (record_all occs s).
Proof.
  revert s. induction occs as [|[ce rs] occs IH]; intros s Hwf Hocc; [done|].
  apply Forall_cons_1 in Hocc as [[? ?] Hocc]. simpl in *. apply IH; [by apply record_wf|].
  by rewrite (proj1 (record_frame ce rs s)).
Qed.

Lemma record_all_weight occs s k :
  section_wf s -> Forall (recordable (name s)) occs ->
  kindPriority (ek_kind k) <> prioEntity ->
  key_weight k (record_all occs s) =
    key_weight k s + Z.of_nat (count (fun o => has_key k o.1) occs).
Proof.
  intros Hwf Hocc Hk. revert s Hwf Hocc. induction occs as [|[ce rs] occs IH]; intros s Hwf Hocc.
  { unfold count. simpl. lia. }
  apply Forall_cons_1 in Hocc as [[? ?] Hocc]. simpl in *.
  rewrite IH; [|by apply record_wf|by rewrite (proj1 (record_frame ce rs s))].
  rewrite record_weight by done. rewrite count_cons. simpl.
  destruct (has_key k ce) eqn:Hkey; simpl; [|lia].
  rewrite admitted_kind; [lia|done|].
  unfold has_key in Hkey. apply bool_decide_eq_true in Hkey. by rewrite <- Hkey in Hk.
Qed.

(** What a recording does to the drops and to the remembered keys. *)
Lemma record_drops ce rs s :
  let s' := record ce rs s in
  let refused := negb (admitted ce rs s) && bool_decide (keys s !! keyOf ce = None) in
  tr_ErrorsDropped (dropped s') = tr_ErrorsDropped (dropped s) + (if refused then 1 else 0) /\
  (truncated s = true \/ refused = true -> truncated s' = true) /\
  numErrs s <= numErrs s' /\ numKeys s <= numKeys s' /\
  (refused = true -> perSectionErrorBudget (lim s) <= numErrs s \/ maxDistinctErrorKeys <= numKeys s) /\
  (forall k, k <> keyOf ce -> keys s' !! k = keys s !! k) /\
  match keys s !! keyOf ce with
  | Some b => exists b', keys s' !! keyOf ce = Some b' /\ eb_repIdx b' = eb_repIdx b
  | None =>
      if refused then
        if maxDistinctErrorKeys <=? numKeys s then keys s' !! keyOf ce = None
        else exists b', keys s' !! keyOf ce = Some b' /\ eb_repIdx b' < 0
      else exists b', keys s' !! keyOf ce = Some b' /\ 0 <= eb_repIdx b'
  end.
Proof.
  cbv zeta. unfold record, admitted. set (s1 := if rs then s else _).
  assert (keys s = keys s1 /\ dropped s = dropped s1 /\ truncated s = truncated s1 /\ lim s = lim s1 /\
    numErrs s = numErrs s1 /\ numKeys s = numKeys s1) as (-> & -> & -> & -> & -> & ->).
  { subst s1. destruct rs; [done|]. unfold downgrade. by destruct (_ <? _). }
  clearbody s1. clear s. unfold numKeys, numErrs, set_key, emit, set_count in *.
  destruct (keys s1 !! keyOf ce) as [b|] eqn:Hb.
  - rewrite bool_decide_false, andb_false_r by done. cbn [eb_repIdx eb_samples eb_seen].
    assert (forall b', size (<[keyOf ce := b']> (keys s1)) = size (keys s1)) as Hsz
      by (intros b'; by apply map_size_insert_Some).
    destruct (eb_repIdx b <? 0) eqn:Hneg; [|destruct (_ && _)]; simpl;
      rewrite ?insert_insert_eq, ?Hsz, ?length_app, ?length_alter; simpl;
      (split; [lia|]); (split; [by intros [|]|]); (split; [lia|]); (split; [lia|]); (split; [done|]);
      (split; [intros k Hk; by rewrite lookup_insert_ne|]); eexists; by rewrite lookup_insert_eq.
  - rewrite bool_decide_true, andb_true_r, negb_involutive by done.
    cbv zeta. assert (forall b', size (<[keyOf ce := b']> (keys s1)) = S (size (keys s1))) as Hsz
      by (intros b'; by apply map_size_insert_None).
    destruct ((errPriority ce rs =? prioEntity) && _) eqn:Hr; simpl.
    + apply andb_true_iff in Hr as [_ Hr].
      destruct (maxDistinctErrorKeys <=? Z.of_nat (size (keys s1))) eqn:Hm; simpl; rewrite ?Hsz;
        (split; [lia|]); (split; [done|]); (split; [lia|]); (split; [lia|]); (split; [intros _; lia|]).
      * done.
      * split; [intros k Hk; by rewrite lookup_insert_ne|]. eexists. by rewrite lookup_insert_eq.
    + rewrite Hsz, length_app. simpl. (split; [lia|]). split; [by intros [|]|]. split; [lia|]. split; [lia|]. split; [done|].
      split; [intros k Hk; by rewrite lookup_insert_ne|]. eexists. rewrite lookup_insert_eq. split; [done|]. simpl. lia.
Qed.

(** *** The ledger of a section *)

(** What a recording did with the occurrences of a key: they are in the counts of its
    rows or among the drops, all but the later ones of a key that was refused and is
    remembered. *)
Definition key_ledger (s : section) (total d : Z) (k : errKey) : Prop :=
  0 <= d /\
  match keys s !! k with
  | Some b => if eb_repIdx b <? 0 then d = 1 /\ 1 <= total else key_weight k s + d = total
  | None => d = total
  end.

(** The sum of the values of a map. *)
Definition sum_map (m : gmap errKey Z) : Z := sumZ snd (map_to_list m).

Lemma sum_map_add m k d : m !! k = None \/ m !! k = Some (d - 1) -> default 0 (m !! k) = d - 1 ->
  sum_map (<[k := d]> m) = sum_map m + 1.
Proof.
  intros Hm Hd. unfold sum_map. rewrite <- insert_delete_eq.
  rewrite (sumZ_perm _ _ _ (map_to_list_insert (delete k m) k d (lookup_delete_eq m k))).
  destruct (m !! k) as [d'|] eqn:E; simpl in Hd.
  - rewrite <- (insert_delete_id m k d' E) at 2.
    rewrite (sumZ_perm _ _ _ (map_to_list_insert (delete k m) k d' (lookup_delete_eq m k))). simpl. lia.
  - rewrite delete_id by done. simpl. lia.
Qed.

Record ledger (l : Limits) (n : string) (occs : list (CollectionError * bool)) (s : section) (drops : gmap errKey Z) : Prop := {
  le_wf : section_wf s;
  le_frame : name s = n /\ lim s = l;
  le_dropped : tr_ErrorsDropped (dropped s) = sum_map drops;
  le_keys : forall k, key_ledger s (occurrences k occs) (default 0 (drops !! k)) k;
  le_room : numKeys s < maxDistinctErrorKeys -> forall k, keys s !! k = None -> occurrences k occs = 0;
  le_cap : 0 < tr_ErrorsDropped (dropped s) ->
    truncated s = true /\ (perSectionErrorBudget l <= numErrs s \/ maxDistinctErrorKeys <= numKeys s);
}.

Lemma occurrences_snoc k occs o :
  occurrences k (occs ++ [o]) = occurrences k occs + (if has_key k o.1 then 1 else 0).
Proof. unfold occurrences. rewrite count_snoc. destruct (has_key k o.1); lia. Qed.

Lemma drops_step l n occs s drops ce rs : ledger l n occs s drops -> recordable n (ce, rs) ->
  exists drops', ledger l n (occs ++ [(ce, rs)]) (record ce rs s) drops'.
Proof.
  intros [Hwf [Hn Hl] Hd Hk Hroom Hcap] [Hc Hsec]. simpl in Hc, Hsec.
  destruct (record_drops ce rs s) as (Hd' & Ht & He & Hm & Href & Hother & Hown).
  pose proof (wf_dropped _ Hwf) as Hd0. set (k0 := keyOf ce) in *.
  set (refused := negb (admitted ce rs s) && bool_decide (keys s !! k0 = None)) in *.
  exists (if refused then <[k0 := default 0 (drops !! k0) + 1]> drops else drops).
  assert (ce_Section ce = name s) as Hs' by congruence.
  split; [by apply record_wf| | | | |].
  - destruct (record_frame ce rs s) as (Hn' & _ & Hl' & _). by rewrite Hn', Hl'.
  - rewrite Hd', Hd. destruct refused; [|lia]. rewrite sum_map_add; [done| |lia].
    destruct (drops !! k0) as [d|]; [right; simpl; f_equal; lia|by left].
  - intros k. rewrite occurrences_snoc. cbn [fst]. specialize (Hk k) as Hkk. unfold key_ledger in *.
    rewrite record_weight by done. destruct (base.decide (k = k0)) as [->|Hne].
    + rewrite (has_key_refl ce : has_key k0 ce = true). cbn [andb]. destruct (keys s !! k0) as [b|] eqn:Eb.
      * destruct Hown as (b' & -> & ->).
        assert (refused = false) as -> by (unfold refused; by rewrite bool_decide_false, andb_false_r).
        assert (admitted ce rs s = (0 <=? eb_repIdx b)) as -> by (unfold admitted; fold k0; by rewrite Eb).
        destruct (Z.ltb_spec (eb_repIdx b) 0); [lia|]. replace (0 <=? eb_repIdx b) with true by lia. lia.
      * assert (admitted ce rs s = negb refused) as -> by (unfold refused; by rewrite bool_decide_true, andb_true_r, negb_involutive).
        pose proof (key_rows_weight_0 _ _ (key_rows_none _ _ (wf_row _ Hwf) Eb)) as Hw0.
        destruct refused; cbn [negb].
        -- rewrite lookup_insert_eq. cbn [default].
           destruct (Z.leb_spec maxDistinctErrorKeys (numKeys s)); [rewrite Hown; simpl; lia|].
           destruct Hown as (b' & -> & Hneg). replace (eb_repIdx b' <? 0) with true by lia. rewrite (Hroom ltac:(lia) _ Eb) in *. simpl. lia.
        -- destruct Hown as (b' & -> & Hpos). replace (eb_repIdx b' <? 0) with false by lia. lia.
    + rewrite has_key_ne by done. cbn [andb]. rewrite !Z.add_0_r, Hother by done.
      destruct refused; [rewrite lookup_insert_ne by done|]; done.
  - intros Hlt k Hnone. rewrite occurrences_snoc. cbn [fst]. destruct (base.decide (k = k0)) as [->|Hne].
    + destruct (keys s !! k0) as [b|]; [by destruct Hown as (b' & E & _); congruence|].
      destruct refused; [|by destruct Hown as (b' & E & _); congruence].
      destruct (Z.leb_spec maxDistinctErrorKeys (numKeys s)); [lia|]. by destruct Hown as (b' & E & _); congruence.
    + rewrite has_key_ne by done. rewrite (Hroom ltac:(lia) k); [lia|]. by rewrite <- Hother.
  - rewrite Hd'. intros Hpos. destruct refused.
    + split; [apply Ht; by right|]. rewrite <- Hl. specialize (Href eq_refl). lia.
    + destruct (Hcap ltac:(lia)) as [Htr Hc']. split; [apply Ht; by left|]. lia.
Qed.

Lemma ledger_all l n now occs : Forall (recordable n) occs ->
  exists drops, ledger l n occs (record_all occs (newSection l n now)) drops.
Proof.
  induction occs as [|[ce rs] occs IH] using rev_ind; intros Hocc.
  - exists ∅. split; [apply newSection_wf|done|done| |done|simpl; lia].
    intros k. unfold key_ledger. simpl. by rewrite !lookup_empty.
  - apply Forall_app in Hocc as [Hocc Ho]. rewrite list.Forall_singleton in Ho. destruct (IH Hocc) as [drops Hled].
    unfold record_all. rewrite foldl_app. by eapply drops_step.
Qed.

(** ** Lemmas on [request] *)

Lemma newError_recordable `{!KerrCodes} s api e rs : recordable (name s) (newError s api e, rs).
Proof. unfold recordable, newError. by destruct (classify _). Qed.

Lemma newError_Kind `{!KerrCodes} s api e : ce_Kind (newError s api e) = (classify (Some e)).1.
Proof. unfold newError. by destruct (classify _). Qed.

Section request_lemmas.
Context `{!KerrCodes}.

Lemma recordTopic_wf api t e s : section_wf s -> section_wf (recordTopic api t e s).
Proof.
  intros. unfold recordTopic, add. destruct (newError_recordable s api e false). by apply record_wf.
Qed.

Lemma recordPartition_wf api t p e s : section_wf s -> section_wf (recordPartition api t p e s).
Proof.
  intros. unfold recordPartition, add. destruct (newError_recordable s api e false). by apply record_wf.
Qed.

Lemma recordLogDir_wf api b d e s : section_wf s -> section_wf (recordLogDir api b d e s).
Proof.
  intros. unfold recordLogDir, add. destruct (newError_recordable s api e false). by apply record_wf.
Qed.

Lemma recordGroup_wf api g e s : section_wf s -> section_wf (recordGroup api g e s).
Proof.
  intros. unfold recordGroup, add. destruct (newError_recordable s api e false). by apply record_wf.
Qed.

Lemma shardError_spec api sh s :
  ce_Count (shardError api sh s) = 0 /\ ce_Section (shardError api sh s) = name s /\
  ce_Kind (shardError api sh s) = (classify (Some sh.2)).1.
Proof.
  destruct sh as [node e]. unfold shardError. rewrite <- (newError_Kind s api).
  destruct (newError_recordable s api e true) as [? ?]. by destruct (0 <=? node).
Qed.

Lemma recordShards_spec api shards s :
  (section_wf s -> section_wf (recordShards api shards s).2) /\
  status (recordShards api shards s).2 = status s /\
  name (recordShards api shards s).2 = name s /\
  (recordShards api shards s).1 =
    existsb (fun sh => String.eqb (classify (Some sh.2)).1 kindAuthorization) shards.
Proof.
  revert s. induction shards as [|sh shards IH]; intros s; [done|]. simpl.
  specialize (IH (record (shardError api sh s) true s)).
  destruct (shardError_spec api sh s) as (Hc & Hn & Hk).
  destruct (record_frame (shardError api sh s) true s) as (Hname & _).
  rewrite record_status, Hname in IH. destruct (recordShards _ _ _) as [u s']. simpl in *.
  destruct IH as (Hwf & Hst & Hnm & Hu). rewrite Hk, Hu. split; [|done].
  intros Hs. apply Hwf. by apply record_wf.
Qed.

Lemma request_wf api err s : section_wf s -> section_wf (request api err s).2.
Proof.
  intros Hwf. unfold request. destruct err as [err|]; [|done].
  destruct (as_shards err) as [[shards all]|].
  - destruct (recordShards_spec api shards s) as (Hs & _).
    destruct (recordShards api shards s) as [u s']. simpl in *.
    destruct (all && u); [by apply downgrade_wf, Hs|]. destruct all; by apply downgrade_wf, Hs.
  - destruct (newError_recordable s api err true) as [? ?].
    assert (section_wf (record (newError s api err) true s)) by by apply record_wf.
    destruct (as_auth err); simpl; [by apply downgrade_wf|].
    destruct (String.eqb _ _); by apply downgrade_wf.
Qed.

Lemma request_name api err s : name (request api err s).2 = name s.
Proof.
  assert (forall st s, name (downgrade st s) = name s) as Hd.
  { intros st s'. unfold downgrade. by destruct (_ <? _). }
  unfold request. destruct err as [err|]; [|done].
  destruct (as_shards err) as [[shards all]|].
  - destruct (recordShards_spec api shards s) as (_ & _ & Hn & _).
    destruct (recordShards api shards s) as [u s']. simpl in *.
    destruct (all && u); [by rewrite Hd|]. destruct all; by rewrite Hd.
  - destruct (record_frame (newError s api err) true s) as (Hn & _).
    destruct (as_auth err); simpl; [by rewrite Hd|]. destruct (String.eqb _ _); by rewrite Hd.
Qed.

Lemma with_status_wf st s : section_wf s -> section_wf (with_status st s).
Proof. intros []. by split. Qed.

Lemma requestPartial_wf api err got s :
  section_wf s -> section_wf (requestPartial api err got s).2.
Proof.
  intros Hwf%(request_wf api err). unfold requestPartial.
  destruct (request api err s) as [u s']. simpl in *. destruct u, got; simpl; try done.
  destruct (status s'); simpl; try done; by apply with_status_wf.
Qed.

Lemma request_outcome_aux api err s :
  (request api (Some err) s).1 = outcome_usable err /\
  statusRank (status (request api (Some err) s).2) =
    Z.max (statusRank (status s)) (statusRank (outcome_status err)).
Proof.
  unfold request, outcome_usable, outcome_status. destruct (as_shards err) as [[shards all]|].
  - destruct (recordShards_spec api shards s) as (_ & Hst & _ & Hu).
    destruct (recordShards api shards s) as [u s']. cbn [fst snd] in *. rewrite <- Hst. split; [by destruct all, u|].
    change (existsb _ shards) with (existsb (fun sh => String.eqb (classify (Some sh.2)).1 kindAuthorization) shards).
    rewrite <- Hu.
    destruct all, u; simpl; by rewrite downgrade_rank.
  - assert (forall e, as_auth err = Some e -> is_authorization err = true) as Hauth.
    { intros e He. unfold is_authorization, classify. by rewrite He. }
    rewrite newError_Kind. fold (is_authorization err).
    destruct (as_auth err) as [e|] eqn:He; simpl.
    + rewrite (Hauth e), downgrade_rank, record_status by done. done.
    + split; [done|]. destruct (is_authorization err); by rewrite downgrade_rank, record_status.
Qed.

End request_lemmas.

#[export] Hint Resolve record_wf recordTopic_wf recordPartition_wf recordLogDir_wf recordGroup_wf
  request_wf requestPartial_wf : go.

(** ** What the recorders keep

    An invariant of a phase's section has to survive a recorded error, a worse
    status and the truncation flag; every recorder comes down to these. *)
Class Kept (P : section -> Prop) : Prop := {
  kept_record ce rs s : ce_Count ce = 0 -> ce_Section ce = name s -> P s -> P (record ce rs s);
  kept_status st s : st <> SectionOK -> P s -> P (with_status st s);
  kept_truncated b s : P s -> P (with_truncated b s);
}.

#[export] Instance kept_ok n : Kept (sec_ok n).
Proof.
  split.
  - intros ce rs s ? ? [? E]. split; [by apply record_wf|]. by rewrite (proj1 (record_frame ce rs s)).
  - intros st s _ [? ?]. split; [by apply with_status_wf|done].
  - intros b s [[] ?]. by split; [split|].
Qed.

Lemma record_duration ce rs s : duration (record ce rs s) = duration s.
Proof. unfold record, downgrade. repeat case_match; done. Qed.

#[export] Instance kept_at lo hi n : Kept (sec_at lo hi n).
Proof.
  split.
  - intros ce rs s Hc Hs (Hok & Ht & Hd). split; [by apply kept_record|].
    by rewrite (proj1 (proj2 (record_frame ce rs s))), record_duration.
  - intros st s Hst (Hok & Ht & Hd). split; [by apply kept_status|by split].
  - intros b s (Hok & Ht & Hd). split; [by apply kept_truncated|by split].
Qed.

Lemma sec_at_new lo hi l n t : lo <= t -> t <= hi -> sec_at lo hi n (newSectionAt l n t).
Proof. intros. split; [split; [apply newSection_wf|done]|]. by split. Qed.

(** A section is stopped no earlier than it was started. *)
Lemma sec_at_stop lo t hi n s : t <= hi -> sec_at lo t n s -> sec_at lo hi n (stop t s).
Proof. intros Hhi ([[] ?] & ? & ?). split; [by split; [split|]|]. simpl. lia. Qed.

Lemma sec_at_stopped lo hi t n s : hi <= t -> sec_at lo hi n s -> sec_at lo hi n (stop t s).
Proof. intros Hhi ([[] ?] & ? & ?). split; [by split; [split|]|]. simpl. lia. Qed.

Lemma sec_at_later lo hi hi' n s : hi <= hi' -> sec_at lo hi n s -> sec_at lo hi' n s.
Proof. intros ? (? & ? & ?). split; [done|]. split; [lia|done]. Qed.

Section kept.
Context `{!KerrCodes} (P : section -> Prop) `{!Kept P}.

Lemma kept_downgrade st s : P s -> P (downgrade st s).
Proof.
  intros Hs. unfold downgrade. destruct (_ <? _) eqn:E; [|done]. apply kept_status; [|done].
  intros ->. pose proof (statusRank_bounds (status s)). simpl in E. lia.
Qed.

Lemma kept_newError api e rs s : P s -> P (record (newError s api e) rs s).
Proof. intros Hs. pose proof (newError_recordable s api e rs) as [Hc Hn]. simpl in *. by apply kept_record. Qed.

Ltac recorder api e s := pose proof (newError_recordable s api e false) as [Hc Hn]; simpl in *; by apply kept_record.

Lemma kept_topic api t e s : P s -> P (recordTopic api t e s).
Proof. intros Hs. recorder api e s. Qed.

Lemma kept_partition api t p e s : P s -> P (recordPartition api t p e s).
Proof. intros Hs. recorder api e s. Qed.

Lemma kept_logDir api b d e s : P s -> P (recordLogDir api b d e s).
Proof. intros Hs. recorder api e s. Qed.

Lemma kept_group api g e s : P s -> P (recordGroup api g e s).
Proof. intros Hs. recorder api e s. Qed.

Lemma kept_shards api shards s : P s -> P (recordShards api shards s).2.
Proof.
  revert s. induction shards as [|[node e] shards IH]; intros s Hs; [done|]. simpl.
  assert (P (record (shardError api (node, e) s) true s)) as Hr.
  { pose proof (newError_recordable s api e true) as [Hc Hn]. unfold shardError. simpl in *.
    destruct (0 <=? node); by apply kept_record. }
  specialize (IH _ Hr). by destruct (recordShards _ _ _).
Qed.

Lemma kept_request api err s : P s -> P (request api err s).2.
Proof.
  intros Hs. unfold request. destruct err as [err|]; [|done]. destruct (as_shards err) as [[shards all]|].
  - pose proof (kept_shards api shards s Hs) as Hr. destruct (recordShards api shards s) as [u s'].
    simpl in *. repeat case_match; by apply kept_downgrade.
  - destruct (as_auth err); cbv zeta; repeat case_match; by apply kept_downgrade, kept_newError.
Qed.

Lemma kept_requestPartial api err got s : P s -> P (requestPartial api err got s).2.
Proof.
  intros Hs. unfold requestPartial. pose proof (kept_request api err s Hs) as Hr.
  destruct (request api err s) as [u s']. simpl in *. destruct u, got; simpl; try done.
  by destruct (status s') eqn:E; try done; apply kept_status.
Qed.
End kept.

Section recorder_status.
Context `{!KerrCodes}.

(** A status is never raised by a recorder. *)
Lemma record_rank ce rs s : statusRank (status s) <= statusRank (status (record ce rs s)).
Proof. rewrite record_status. destruct rs; [lia|]. rewrite downgrade_rank. lia. Qed.

Lemma add_rank ce s : statusRank SectionPartial <= statusRank (status (add ce s)).
Proof. unfold add. rewrite record_status, downgrade_rank. lia. Qed.

Lemma add_degraded ce s : status (add ce s) <> SectionOK.
Proof. pose proof (add_rank ce s) as Hr. intros E. rewrite E in Hr. simpl in Hr. lia. Qed.

(** Nothing recorded clears the truncation flag. *)
Lemma record_truncated ce rs s : truncated s = true -> truncated (record ce rs s) = true.
Proof. intros Ht. unfold record, downgrade. repeat case_match; done. Qed.

Lemma downgrade_truncated st s : truncated (downgrade st s) = truncated s.
Proof. unfold downgrade. by destruct (_ <? _). Qed.

Lemma recordShards_truncated api shards s :
  truncated s = true -> truncated (recordShards api shards s).2 = true.
Proof.
  revert s. induction shards as [|sh shards IH]; intros s Ht; [done|]. simpl.
  specialize (IH (record (shardError api sh s) true s) (record_truncated _ _ _ Ht)).
  by destruct (recordShards _ _ _).
Qed.

Lemma request_truncated api err s : truncated s = true -> truncated (request api err s).2 = true.
Proof.
  intros Ht. unfold request. destruct err as [err|]; [|done].
  destruct (as_shards err) as [[shards all]|].
  - pose proof (recordShards_truncated api shards s Ht) as Hr. destruct (recordShards api shards s) as [u s'].
    simpl in *. repeat case_match; by rewrite downgrade_truncated.
  - destruct (as_auth err); simpl; repeat case_match; rewrite downgrade_truncated; by apply record_truncated.
Qed.

Lemma requestPartial_truncated api err got s :
  truncated s = true -> truncated (requestPartial api err got s).2 = true.
Proof.
  intros Ht%(request_truncated api err). unfold requestPartial. destruct (request api err s) as [u s'].
  simpl in *. destruct u, got; simpl; try done. by destruct (status s').
Qed.

Lemma requestPartial_fst api err got s :
  (requestPartial api err got s).1 = from_option outcome_usable true err || got.
Proof.
  unfold requestPartial. destruct err as [err|]; [|done].
  destruct (request_outcome_aux api err s) as [Hu _].
  destruct (request api (Some err) s) as [u s']. simpl in *. rewrite <- Hu. by destruct u, got.
Qed.

(** A request that leaves nothing usable degrades its section. *)
Lemma requestPartial_degraded api err got s :
  (requestPartial api err got s).1 = false -> status (requestPartial api err got s).2 <> SectionOK.
Proof.
  unfold requestPartial. destruct err as [err|]; [|done].
  destruct (request_outcome_aux api err s) as [Hu Hst].
  destruct (request api (Some err) s) as [u s']. simpl in *. destruct u; [done|]. destruct got; [done|].
  intros _ E. simpl in E. rewrite E in Hst. unfold outcome_usable, outcome_status in *.
  pose proof (statusRank_bounds (status s)). destruct (as_shards err) as [[sh []]|]; simpl in *; try done;
    repeat case_match; simpl in *; lia.
Qed.

End recorder_status.

#[export] Instance kept_degraded `{!KerrCodes} : Kept (fun s => status s <> SectionOK).
Proof.
  split; [|done|done]. intros ce rs s _ _ Hs E. apply Hs.
  pose proof (record_rank ce rs s) as Hr. rewrite E in Hr. simpl in Hr.
  pose proof (statusRank_bounds (status s)). by destruct (status s); simpl in *; try lia.
Qed.

#[export] Instance kept_when (c : Prop) P `{!Kept P} : Kept (fun s => c -> P s).
Proof. split; intros; [apply kept_record|apply kept_status|apply kept_truncated]; auto. Qed.

(** One recorder at a time, whatever the invariant. *)
Ltac kept1 :=
  match goal with
  | |- ?P (downgrade _ _) => apply (kept_downgrade P)
  | |- ?P (with_truncated _ _) => apply (kept_truncated (P := P))
  | |- ?P (record (newError _ _ _) _ _) => apply (kept_newError P)
  | |- ?P (recordTopic _ _ _ _) => apply (kept_topic P)
  | |- ?P (recordPartition _ _ _ _ _) => apply (kept_partition P)
  | |- ?P (recordLogDir _ _ _ _ _) => apply (kept_logDir P)
  | |- ?P (recordGroup _ _ _ _) => apply (kept_group P)
  | |- ?P (request _ _ _).2 => apply (kept_request P)
  | |- ?P (requestPartial _ _ _ _).2 => apply (kept_requestPartial P)
  end.

#[export] Hint Extern 1 (sec_at _ _ _ _) => kept1 : go.
#[export] Hint Extern 1 (sec_at _ _ _ (newSectionAt _ _ _)) => apply sec_at_new; lia : go.
#[export] Hint Extern 1 (sec_at _ _ _ (stop _ _)) => apply sec_at_stop; [lia|] : go.

Lemma pair_snd {A B} (p : A * B) a b : p = (a, b) -> b = p.2.
Proof. by intros ->. Qed.

(** Discharges the promise of a section built by the recorders. *)
Ltac sec_ok :=
  repeat match goal with
  | E : request _ _ _ = (_, ?s) |- context [?s] => rewrite (pair_snd _ _ _ E); clear E
  | E : requestPartial _ _ _ _ = (_, ?s) |- context [?s] => rewrite (pair_snd _ _ _ E); clear E
  end; auto 10 with go.

(** ** Properties *)


(** The rows of a section are bounded and accounted for.  However many
    entities fail, at most [MaxErrors] entity-priority rows are held, every row
    is the exemplar or a sample of a remembered key, and [ErrorsCollapsed] is
    exactly the number of admitted occurrences that have no row of their own. *)
Theorem record_bounded (l : Limits) (n : string) (now : Z)
    (occs : list (CollectionError * bool)) :
  Forall (recordable n) occs ->
  let s := record_all occs (newSection l n now) in
  entity_rows s <= perSectionErrorBudget l /\
  tr_ErrorsCollapsed (dropped s) + numErrs s = sumZ occ_weight (errs s) /\
  (forall e, e ∈ errs s -> exists b, keys s !! keyOf e = Some b /\
     key_rows (keyOf e) s = eb_samples b /\ key_weight (keyOf e) s = eb_seen b).
Proof.
  intros Hocc s. assert (section_wf s) as Hwf by by apply record_all_wf; auto with go.
  assert (lim s = l) as Hl.
  { subst s. clear. assert (forall s, lim (record_all occs s) = lim s) as Hlim; [|by rewrite Hlim].
    induction occs as [|o occs IH]; intros s; [done|]. simpl. rewrite IH. by apply record_frame. }
  rewrite <- Hl. destruct Hwf. split; [done|]. split; [lia|].
  intros e He. destruct (wf_row0 e He) as (b & Hb & Hpos). exists b. split; [done|].
  specialize (wf_bucket0 _ _ Hb). unfold bucket_ok in wf_bucket0.
  replace (eb_repIdx b <? 0) with false in wf_bucket0 by lia. naive_solver.
Qed.

(** [request] implements its policy.  The usability it reports and the
    status it leaves are those of the abstract outcome of the error: shard errors
    are read before an authorization error buried in one of them, all-failed
    fan-outs fail (or are unauthorized), partly failed ones are partial, and a
    status is only ever lowered. *)
Theorem request_outcome `{!KerrCodes} (api : string) (err : goerr) (s : section) :
  (request api (Some err) s).1 = outcome_usable err /\
  status (request api (Some err) s).2 =
    (if statusRank (status s) <? statusRank (outcome_status err)
     then outcome_status err else status s).
Proof.
  destruct (request_outcome_aux api err s) as [Hu Hst]. split; [done|].
  apply statusRank_inj. rewrite Hst. destruct (_ <? _) eqn:E; lia.
Qed.

Definition worse (a b : SectionStatus) : SectionStatus := if statusRank a <? statusRank b then b else a.

Lemma stands st : st ∈ [SectionFailed; SectionUnauthorized] <-> statusRank SectionPartial < statusRank st.
Proof. rewrite !elem_of_cons, elem_of_nil. destruct st; simpl; split; intros; try lia; naive_solver. Qed.

(** C12: the promise behind [failed] and [unauthorized].  [requestPartial] reports a
    call unusable exactly when nothing of it is: no shard answered and no data came
    with the error.  From whatever status, a call that failed lowers the section to
    what its error says, and one whose data survived leaves it partial where it would
    say failed or unauthorized.  So on a section no earlier call had failed these two
    statuses stand exactly when the call brought no data. *)
Theorem requestPartial_promise `{!KerrCodes} (api : string) (err : option goerr)
    (got : bool) (s : section) :
  let usable := (requestPartial api err got s).1 in
  let st := status (requestPartial api err got s).2 in
  usable = match err with None => true | Some e => outcome_usable e || got end /\
  st = match err with
       | None => status s
       | Some e =>
           let st := worse (status s) (outcome_status e) in
           if negb (outcome_usable e) && got && bool_decide (st ∈ [SectionFailed; SectionUnauthorized])
           then SectionPartial else st
       end /\
  (statusRank (status s) <= statusRank SectionPartial ->
   (st ∈ [SectionFailed; SectionUnauthorized] <-> usable = false)).
Proof.
  cbv zeta. unfold requestPartial. destruct err as [err|].
  - destruct (request_outcome_aux api err s) as [Hu Hst].
    destruct (request api (Some err) s) as [u s'] eqn:E. simpl in Hu, Hst. subst u.
    assert (status s' = worse (status s) (outcome_status err)) as Hw
      by (apply statusRank_inj; rewrite Hst; unfold worse; case_match; lia).
    assert (outcome_usable err = false -> statusRank SectionFailed <= statusRank (outcome_status err)) as Hf.
    { unfold outcome_usable, outcome_status. destruct (as_shards err) as [[shards []]|]; [|done|]; intros _; by case_match. }
    assert (outcome_usable err = true -> outcome_status err = SectionPartial) as Hp.
    { unfold outcome_usable, outcome_status. by destruct (as_shards err) as [[shards []]|]. }
    destruct (outcome_usable err) eqn:Eu; simpl.
    + split; [done|]. split; [done|]. intros Hs. rewrite stands, Hw, (Hp eq_refl). unfold worse.
      case_match; simpl in *; split; intros; try lia; done.
    + destruct got; simpl; (split; [done|]).
      * rewrite <- Hw. split; [destruct (status s') eqn:Es; simpl; rewrite ?Es; reflexivity|].
        intros _. rewrite stands. split; [|done]. destruct (status s') eqn:Es; simpl; rewrite ?Es; simpl; lia.
      * split; [done|]. intros Hs. specialize (Hf eq_refl). split; [done|]. intros _. rewrite stands, Hw. unfold worse.
        destruct (Z.ltb_spec (statusRank (status s)) (statusRank (outcome_status err)));
        change (statusRank SectionPartial) with 2 in *; change (statusRank SectionFailed) with 3 in *; lia.
  - split; [done|]. split; [done|]. intros Hs. change (status s ∈ [SectionFailed; SectionUnauthorized] <-> true = false).
    rewrite stands. split; [intros Hl; exfalso; lia|done].
Qed.

(** ** Witnesses *)

Lemma sample_recordable : Forall (recordable "topics") sample_occs.
Proof. by repeat constructor. Qed.


Theorem record_bounded_witness :
  entity_rows (record_all sample_occs (newSection (mkLimits 1 1) "topics" 7)) <= 1.
Proof.
  exact (proj1 (record_bounded (mkLimits 1 1) "topics" 7 sample_occs sample_recordable)).
Defined.

Theorem requestPartial_promise_witness :
  let s' := (@requestPartial kafka_codes "OffsetFetch" (Some (PlainError "boom")) true (newSection Limits_zero "offsets" 0)).2 in
  ~ status s' ∈ [SectionFailed; SectionUnauthorized].
Proof.
  destruct (@requestPartial_promise kafka_codes "OffsetFetch" (Some (PlainError "boom")) true (newSection Limits_zero "offsets" 0))
    as (Hu & _ & Hiff). intros s' Hs. apply (Hiff ltac:(done)) in Hs. rewrite Hu in Hs. discriminate Hs.
Defined.
