(* ===== verification/Merge.v ===== *)
(** * Merge: from the sections of a cycle to the batch's errors
      ([mergeErrors] of [internal/collector/limits.go], [finalize] of
      [internal/collector/collector.go])

    The sections are in canonical wire order, [None] being a phase that never
    ran.  [mergeErrors] writes each section's rejection count back onto it, so it
    returns the new sections next to the rows it ships. *)

From Stdlib Require Import ZArith Lia.
From stdpp Require Import prelude list_numbers gmap strings numbers.
From S2P Require Import Prelude Wire Errors Sections.

(** ** The priority-ordered selection *)

(** The innermost loop, over one section's rows: [left_] is the budget still
    unspent, [adm] the section's row of [admitted]. *)
Fixpoint admitRows (prio left_ : Z) (ps : list Z) (adm : list bool) : Z * list bool :=
  match ps, adm with
  | p :: ps, a :: adm =>
      if left_ =? 0 then (left_, a :: adm)
      else
        let hit := p =? prio in
        let '(left_, adm) := admitRows prio (if hit then left_ - 1 else left_) ps adm in
        (left_, (hit || a) :: adm)
  | _, _ => (left_, adm)
  end.

(** The loop over the sections, skipping the nil ones. *)
Fixpoint admitSections (prio left_ : Z) (secs : list (option section)) (adm : list (list bool))
    : Z * list (list bool) :=
  match secs, adm with
  | Some s :: secs, a :: adm =>
      let '(left_, a) := admitRows prio left_ (prios s) a in
      let '(left_, adm) := admitSections prio left_ secs adm in
      (left_, a :: adm)
  | None :: secs, a :: adm =>
      let '(left_, adm) := admitSections prio left_ secs adm in
      (left_, a :: adm)
  | _, _ => (left_, adm)
  end.

(** The outermost loop, [for prio := prioRequest; prio <= prioEntity && left_ > 0]. *)
Fixpoint admitPrios (levels : list Z) (left_ : Z) (secs : list (option section))
    (adm : list (list bool)) : Z * list (list bool) :=
  match levels with
  | [] => (left_, adm)
  | prio :: levels =>
      if 0 <? left_ then
        let '(left_, adm) := admitSections prio left_ secs adm in
        admitPrios levels left_ secs adm
      else (left_, adm)
  end.

Definition prioLevels : list Z := seqZ prioRequest (prioEntity - prioRequest + 1).

Definition rows_of (s : option section) : list CollectionError := from_option errs [] s.
Definition prios_of (s : option section) : list Z := from_option prios [] s.

Definition totalErrs (secs : list (option section)) : Z :=
  sumZ (fun s => Z.of_nat (length (rows_of s))) secs.

(** What [ceiling] leaves of [total]; [0] or less means unlimited. *)
Definition mergeBudget (total ceiling : Z) : Z :=
  if (0 <? ceiling) && (ceiling <? total) then ceiling else total.

(** ** Emission, in section order and in each section's own order *)

Fixpoint emitRows (es : list CollectionError) (adm : list bool) : list CollectionError * Z :=
  match es, adm with
  | ce :: es, a :: adm =>
      let '(out, rejected) := emitRows es adm in
      if a then (ce :: out, rejected) else (out, rejected + 1)
  | _, _ => ([], 0)
  end.

(** The write-back of a section's rejections. *)
Definition with_rejected (rejected : Z) (s : section) : section :=
  if 0 <? rejected then
    with_truncated true (add_dropped rejected (with_globalDropped rejected s))
  else s.

Fixpoint emitSections (secs : list (option section)) (adm : list (list bool))
    : list CollectionError * Z * list (option section) :=
  match secs, adm with
  | Some s :: secs, a :: adm =>
      let '(out, rejected) := emitRows (errs s) a in
      let '(outs, dropped, secs) := emitSections secs adm in
      (out ++ outs, (if 0 <? rejected then rejected else 0) + dropped,
       Some (with_rejected rejected s) :: secs)
  | None :: secs, a :: adm =>
      let '(outs, dropped, secs) := emitSections secs adm in
      (outs, dropped, None :: secs)
  | _, _ => ([], 0, [])
  end.

Definition mergeErrors (secs : list (option section)) (ceiling : Z)
    : list CollectionError * Z * list (option section) :=
  let total := totalErrs secs in
  let admitted := map (fun s => replicate (length (rows_of s)) false) secs in
  let budget := mergeBudget total ceiling in
  let '(_, admitted) := admitPrios prioLevels budget secs admitted in
  emitSections secs admitted.

(** ** [finalize] *)

(** Folds the sections' drop counters, nil sections contributing nothing. *)
Definition sumTruncation (secs : list (option section)) : Truncation :=
  foldl (fun t s => from_option (fun s => Truncation_Add t (dropped s)) t s) Truncation_zero secs.

Definition finalize (l : Limits) (sel : option Selection) (secs : list (option section))
    (b : Batch) : Batch :=
  let '(errors, _, secs) := mergeErrors secs (MaxErrors l) in
  let trunc := sumTruncation secs in
  mkBatch (b_SchemaVersion b) (b_AgentVersion b) (b_AgentInstanceID b) (b_BatchSeq b)
    (b_CollectedAt b) (b_CollectionMs b) (b_Cluster b) (b_Topics b) (b_Groups b) (b_Offsets b)
    (b_LogDirs b) (b_ThroughputWindow b) (b_Reassignments b) (b_EpochProbes b)
    (b_TopicConfigs b) (b_BrokerConfigs b) (b_ShareGroups b) (b_Principal b) (b_Agent b)
    (b_Sections b ++ map finish secs) errors
    (if bool_decide (trunc = Truncation_zero) then b_Truncation b else Some trunc)
    sel.

(** [truncationOf], the nil-safe read. *)
Definition truncationOf (b : Batch) : Truncation := default Truncation_zero (b_Truncation b).

(** The batch [Collect] starts from, before any phase's slice is attached. *)
Definition emptyBatch (collectedAt : Z) : Batch :=
  mkBatch SchemaVersion "" "" 0 collectedAt 0 None None None None None None None None None None
    None "" (mkAgentStats 0 0 0 0 0 0 0 "" None) [] [] None None.

(** ** What the receiver checks ([internal/mockingest/check.go]) *)

(** [checkSections]: a section's [error_count] is the number of entries of
    [errors] that bear its name. *)
Definition errorCountOK (b : Batch) : Prop :=
  forall row, row ∈ b_Sections b ->
    sr_ErrorCount row = Z.of_nat (count (fun e => String.eqb (ce_Section e) (sr_Name row)) (b_Errors b)).

(** [checkTruncation]: a present block is non-zero and sums the sections. *)
Definition truncationOK (b : Batch) : Prop :=
  match b_Truncation b with
  | None => True
  | Some t =>
      t <> Truncation_zero /\
      tr_ErrorsCollapsed t = sumZ sr_ErrorsCollapsed (b_Sections b) /\
      tr_ErrorsDropped t = sumZ sr_ErrorsDropped (b_Sections b)
  end.

(** ** The specification of the selection

    A selection over a flat list of prioritised rows: which rows survive. *)
Fixpoint mask {A} (l : list A) (adm : list bool) : list A :=
  match l, adm with
  | x :: l, a :: adm => if a then x :: mask l adm else mask l adm
  | _, _ => []
  end.

Record selects (ps : list Z) (budget : Z) (adm : list bool) : Prop := {
  sel_length : length adm = length ps;
  sel_count : Z.of_nat (count id adm) = budget;
  sel_prio : forall i j p q, ps !! i = Some p -> ps !! j = Some q ->
    adm !! i = Some true -> adm !! j = Some false -> p < q \/ p = q /\ (i < j)%nat;
}.

(** Wellformedness of a phase list: every section satisfies the deduplication
    invariant, and no two share a name. *)
Definition sec_names (secs : list (option section)) : list string := name <$> omap id secs.

Definition secs_wf (secs : list (option section)) : Prop :=
  Forall (from_option section_wf True) secs /\ NoDup (sec_names secs).

(** Two sections for the witnesses: one whose caps of one folded and dropped
    occurrences, and one healthy. *)
Definition sample_secs : list (option section) :=
  [Some (newSection (mkLimits 1 1) "cluster" 3);
   Some (record_all sample_occs (newSection (mkLimits 1 1) "topics" 7))].

(** ** Lemmas on the flat selection *)

Lemma admitRows_app prio left_ ps qs a b :
  length a = length ps ->
  admitRows prio left_ (ps ++ qs) (a ++ b) =
    let '(l1, a1) := admitRows prio left_ ps a in
    let '(l2, b1) := admitRows prio l1 qs b in (l2, a1 ++ b1).
Proof.
  revert left_ a. induction ps as [|p ps IH]; intros left_ [|x a] Hlen; simplify_eq/=.
  - by destruct (admitRows prio left_ qs b).
  - destruct (left_ =? 0) eqn:E.
    + apply Z.eqb_eq in E as ->. destruct qs, b; done.
    + rewrite IH by done. destruct (admitRows _ _ ps a) as [l1 a1].
      by destruct (admitRows _ _ qs b).
Qed.

Lemma admitRows_length prio left_ ps adm :
  length (admitRows prio left_ ps adm).2 = length adm.
Proof.
  revert left_ adm. induction ps as [|p ps IH]; intros left_ [|a adm]; try done.
  simpl. destruct (left_ =? 0); [done|].
  specialize (IH (if p =? prio then left_ - 1 else left_) adm).
  destruct (admitRows _ _ ps adm); simpl in *. congruence.
Qed.

(** One bitmap row per section. *)
Definition shaped (secs : list (option section)) (adm : list (list bool)) : Prop :=
  Forall2 (fun s a => length a = length (rows_of s) /\ length (prios_of s) = length (rows_of s)) secs adm.

Lemma admitSections_flat prio left_ secs adm :
  shaped secs adm ->
  shaped secs (admitSections prio left_ secs adm).2 /\
  ((admitSections prio left_ secs adm).1, concat (admitSections prio left_ secs adm).2) =
    admitRows prio left_ (concat (prios_of <$> secs)) (concat adm).
Proof.
  intros H. revert left_. induction H as [|s a secs adm [Ha Hp] H IH]; intros left_; [by repeat constructor|].
  destruct s as [s|]; simpl in *.
  - rewrite admitRows_app by congruence. pose proof (admitRows_length prio left_ (prios s) a) as Hl.
    destruct (admitRows prio left_ (prios s) a) as [l1 a1]. specialize (IH l1).
    destruct (admitSections prio l1 secs adm) as [l2 adm1]. simpl in *.
    destruct IH as [Hs HIH]. change (list_fmap _ _ prios_of secs) with (prios_of <$> secs).
    rewrite <- HIH. split; [|done]. constructor; [split; [by rewrite Hl|done]|done].
  - destruct a; [|done]. simpl. specialize (IH left_).
    destruct (admitSections prio left_ secs adm) as [l2 adm1]. simpl in *.
    destruct IH as [Hs HIH]. split; [by constructor|done].
Qed.

(** The levels already processed are fully admitted unless the budget is spent,
    and nothing of a later level is. *)
Record level_inv (ps : list Z) (budget p left_ : Z) (adm : list bool) : Prop := {
  li_len : length adm = length ps;
  li_left : 0 <= left_;
  li_count : left_ + Z.of_nat (count id adm) = budget;
  li_below : forall i q, ps !! i = Some q -> adm !! i = Some true -> q < p;
  li_all : 0 < left_ -> forall i q, ps !! i = Some q -> q < p -> adm !! i = Some true;
  li_prio : forall i j q r, ps !! i = Some q -> ps !! j = Some r ->
    adm !! i = Some true -> adm !! j = Some false -> q < r \/ q = r /\ (i < j)%nat;
}.

Record row_step (prio left_ : Z) (ps : list Z) (adm : list bool) (l' : Z) (adm' : list bool) : Prop := {
  rs_left : 0 <= l' <= left_;
  rs_count : l' + Z.of_nat (count id adm') = left_ + Z.of_nat (count id adm);
  rs_new : forall i q, ps !! i = Some q -> adm' !! i = Some true ->
    adm !! i = Some true \/ (q = prio /\ 0 < left_);
  rs_old : forall i, adm !! i = Some true -> adm' !! i = Some true;
  rs_full : 0 < l' -> forall i, ps !! i = Some prio -> adm' !! i = Some true;
  rs_first : forall i j, ps !! i = Some prio -> ps !! j = Some prio ->
    adm' !! i = Some true -> adm' !! j = Some false -> (i < j)%nat;
}.

Lemma admitRows_step prio left_ ps adm :
  length adm = length ps -> 0 <= left_ ->
  (forall i q, ps !! i = Some q -> adm !! i = Some true -> q < prio) ->
  row_step prio left_ ps adm (admitRows prio left_ ps adm).1 (admitRows prio left_ ps adm).2.
Proof.
  revert left_ adm. induction ps as [|p ps IH]; intros left_ [|a adm] Hlen Hl Hlt; simplify_eq/=.
  { split; simpl; try done; try lia. }
  destruct (left_ =? 0) eqn:E; go_bools.
  { split; simpl; try done; try lia; auto. intros [|i] j Hi _ Hti; simplify_eq/=.
    - specialize (Hlt 0%nat prio eq_refl eq_refl). lia.
    - specialize (Hlt (S i) prio Hi Hti). lia. }
  assert (0 <= (if p =? prio then left_ - 1 else left_) <= left_) as Hl1 by (destruct (p =? prio); lia).
  specialize (IH _ adm Hlen (proj1 Hl1) (fun i q => Hlt (S i) q)).
  assert (a = true -> p < prio) as Ha by (intros ->; by apply (Hlt 0%nat p)).
  destruct (admitRows _ _ ps adm) as [l' adm']. simpl in *. destruct IH as [? Hc Hn Ho Hf Hfst].
  split; simpl.
  - lia.
  - rewrite !count_cons. unfold id at 1 3. destruct (p =? prio) eqn:Ep, a; simpl; try lia.
  - intros [|i] q Hq Hi; simplify_eq/=.
    + destruct (q =? prio) eqn:Eq; simplify_eq/=; go_bools; [right; lia|by left].
    + destruct (Hn i q Hq Hi) as [?|[? ?]]; [by left|right; split; [done|lia]].
  - intros [|i]; simpl; [|apply Ho]. intros [= ->]. by rewrite orb_true_r.
  - intros Hpos [|i] Hi; simplify_eq/=; [by rewrite Z.eqb_refl|by apply Hf].
  - intros [|i] [|j] Hi Hj Hti Htj; simplify_eq/=; try lia.
    specialize (Hfst i j Hi Hj Hti Htj). lia.
Qed.

Lemma level_step ps budget p left_ adm :
  level_inv ps budget p left_ adm ->
  level_inv ps budget (p + 1) (admitRows p left_ ps adm).1 (admitRows p left_ ps adm).2.
Proof.
  intros [Hlen Hl Hc Hb Hall Hp].
  pose proof (admitRows_step p left_ ps adm Hlen Hl Hb) as [Hl' Hc' Hn Ho Hf Hfst].
  pose proof (admitRows_length p left_ ps adm) as Hlen'.
  destruct (admitRows p left_ ps adm) as [l' adm']. simpl in *. split; simpl; try lia.
  - intros i q Hq Hi. destruct (Hn i q Hq Hi) as [Hi'|[-> _]]; [|lia]. specialize (Hb i q Hq Hi'). lia.
  - intros Hpos i q Hq Hlt. destruct (decide (q = p)) as [->|]; [by apply Hf|].
    apply Ho, (Hall ltac:(lia) i q); [done|lia].
  - intros i j q r Hq Hr Hi Hj.
    assert (adm !! j = Some false) as Hj0.
    { destruct (adm !! j) as [[]|] eqn:Ej; [by rewrite (Ho j Ej) in Hj|done|].
      apply lookup_ge_None in Ej. apply lookup_lt_Some in Hj. lia. }
    destruct (Hn i q Hq Hi) as [Hi'|[-> Hpos]]; [by apply (Hp i j q r)|].
    destruct (decide (r < p)); [by rewrite (Hall Hpos j r Hr) in Hj0 by lia|].
    destruct (decide (r = p)) as [->|]; [right; split; [done|by apply (Hfst i j)]|lia].
Qed.

Lemma admitPrios_inv secs budget n p left_ adm :
  shaped secs adm ->
  level_inv (concat (prios_of <$> secs)) budget p left_ (concat adm) ->
  let res := admitPrios (seqZ p (Z.of_nat n)) left_ secs adm in
  shaped secs res.2 /\
  exists p', level_inv (concat (prios_of <$> secs)) budget p' res.1 (concat res.2) /\
    (p' = p + Z.of_nat n \/ res.1 = 0).
Proof.
  revert p left_ adm. induction n as [|n IH]; intros p left_ adm Hs Hinv.
  { simpl. split; [done|]. exists p. split; [done|]. left. lia. }
  rewrite seqZ_cons by lia. simpl. destruct (0 <? left_) eqn:E; go_bools.
  - destruct (admitSections_flat p left_ secs adm Hs) as [Hs' Hflat].
    apply level_step in Hinv. rewrite <- Hflat in Hinv. simpl in Hinv.
    destruct (admitSections p left_ secs adm) as [l1 adm1]. simpl in *.
    replace (Z.pred (Z.of_nat (S n))) with (Z.of_nat n) by lia. replace (Z.succ p) with (p + 1) by lia.
    destruct (IH (p + 1) l1 adm1 Hs' Hinv) as (Hs2 & p' & Hinv' & Hp').
    split; [done|]. exists p'. split; [done|]. destruct Hp'; [left; lia|by right].
  - split; [done|]. exists p. split; [done|]. right. destruct Hinv. simpl. lia.
Qed.

Lemma shaped_flat secs adm : shaped secs adm ->
  length (concat adm) = length (concat (prios_of <$> secs)) /\
  length (concat adm) = length (concat (rows_of <$> secs)) /\
  Z.of_nat (length (concat (rows_of <$> secs))) = totalErrs secs.
Proof.
  unfold totalErrs. induction 1 as [|s a secs adm [Ha Hp] H (IH1 & IH2 & IH3)]; [done|].
  rewrite !fmap_cons. simpl. rewrite !length_app. unfold sumZ in *. simpl. lia.
Qed.

Lemma shaped_init secs :
  Forall (from_option section_wf True) secs ->
  shaped secs (map (fun s => replicate (length (rows_of s)) false) secs).
Proof.
  induction 1 as [|s secs Hs H IH]; [constructor|]. simpl. constructor; [|done].
  rewrite length_replicate. split; [done|]. destruct s; [|done]. simpl. by apply wf_prios.
Qed.

Lemma init_false secs i :
  concat (map (fun s => replicate (length (rows_of s)) false) secs) !! i <> Some true.
Proof.
  revert i. induction secs as [|s secs IH]; intros i; [done|]. simpl. rewrite lookup_app.
  destruct (replicate _ _ !! i) as [b|] eqn:E; [|apply IH].
  apply lookup_replicate in E as [-> _]. done.
Qed.

Lemma mergeBudget_bounds total ceiling : 0 <= total -> 0 <= mergeBudget total ceiling <= total.
Proof. intros. unfold mergeBudget. destruct (_ && _) eqn:E; go_bools; lia. Qed.

Lemma prios_range secs :
  Forall (from_option section_wf True) secs ->
  Forall (fun p => prioRequest <= p <= prioEntity) (concat (prios_of <$> secs)).
Proof.
  induction 1 as [|s secs Hs H IH]; [constructor|]. rewrite fmap_cons. simpl.
  apply Forall_app. split; [|done]. destruct s as [s|]; [|constructor]. by apply wf_prio_range.
Qed.

(** The selection [mergeErrors] makes meets its specification. *)
Lemma selection_spec secs ceiling :
  Forall (from_option section_wf True) secs ->
  let init := map (fun s => replicate (length (rows_of s)) false) secs in
  let adm := (admitPrios prioLevels (mergeBudget (totalErrs secs) ceiling) secs init).2 in
  shaped secs adm /\
  selects (concat (prios_of <$> secs)) (mergeBudget (totalErrs secs) ceiling) (concat adm).
Proof.
  intros Hwf init adm'. pose proof (shaped_init secs Hwf) as Hs0.
  destruct (shaped_flat secs init Hs0) as (Hl1 & Hl2 & Hl3).
  set (budget := mergeBudget (totalErrs secs) ceiling) in *.
  assert (0 <= budget <= totalErrs secs) as Hbud by (apply mergeBudget_bounds; lia).
  assert (level_inv (concat (prios_of <$> secs)) budget 0 budget (concat init)) as Hinv.
  { split; [done|lia| | | |].
    - rewrite count_0; [lia|]. intros [] [i Hi]%list_elem_of_lookup; [|done]. by apply init_false in Hi.
    - intros i q _ Hi. by apply init_false in Hi.
    - intros _ i q Hq Hlt. pose proof (prios_range secs Hwf) as Hr.
      rewrite Forall_lookup in Hr. specialize (Hr i q Hq). unfold prioRequest in Hr. lia.
    - intros i j q r _ _ Hi. by apply init_false in Hi. }
  destruct (admitPrios_inv secs budget 6 0 budget init Hs0 Hinv) as (Hs & p' & Hinv' & Hp').
  change (seqZ 0 (Z.of_nat 6)) with prioLevels in *.
  destruct Hinv' as [Hlen Hl Hc _ Hall Hprio]. split; [done|]. fold adm' in Hlen, Hc, Hall, Hprio. split; [done| |done].
  destruct Hp' as [->|Hz]; [|lia].
  destruct (decide (0 < (admitPrios prioLevels budget secs init).1)); [|lia].
  assert (count id (concat adm') = length (concat adm')) as Hcnt; [|lia].
  apply count_all. intros b [i Hi]%list_elem_of_lookup.
  assert (i < length (concat (prios_of <$> secs)))%nat as Hlt.
  { rewrite <- Hlen. by eapply lookup_lt_Some. }
  destruct (lookup_lt_is_Some_2 _ _ Hlt) as [q Hq].
  change (b = true). enough (concat adm' !! i = Some true) by congruence. apply (Hall ltac:(done) i q Hq).
  pose proof (prios_range secs Hwf) as Hr. rewrite Forall_lookup in Hr.
  specialize (Hr i q Hq). unfold prioEntity in Hr. lia.
Qed.

(** ** Lemmas on emission *)

Lemma mask_app {A} (l k : list A) a b :
  length a = length l -> mask (l ++ k) (a ++ b) = mask l a ++ mask k b.
Proof.
  revert a. induction l as [|x l IH]; intros [|y a] H; simplify_eq/=; [done|].
  rewrite IH by done. by destruct y.
Qed.

Lemma length_mask {A} (l : list A) adm : length adm = length l -> length (mask l adm) = count id adm.
Proof.
  revert adm. induction l as [|x l IH]; intros [|a adm] H; simplify_eq/=; [done|].
  rewrite count_cons, <- IH by done. by destruct a.
Qed.

Lemma mask_sublist {A} (l : list A) adm : mask l adm `sublist_of` l.
Proof.
  revert adm. induction l as [|x l IH]; intros [|a adm]; simpl; [done..|apply sublist_nil_l|].
  destruct a; by constructor.
Qed.

Lemma emitRows_spec es adm : length adm = length es ->
  emitRows es adm = (mask es adm, Z.of_nat (length es - length (mask es adm))).
Proof.
  revert adm. induction es as [|ce es IH]; intros [|a adm] H; simplify_eq/=; [done|].
  rewrite IH by done. pose proof (sublist_length _ _ (mask_sublist es adm)).
  destruct a; simpl; f_equal; lia.
Qed.

(** What [mergeErrors] makes of one section, given its row of the selection. *)
Definition merged_section (s : option section) (adm : list bool) : option section :=
  (fun s => with_rejected (Z.of_nat (length (errs s) - length (mask (errs s) adm))) s) <$> s.

Lemma emitSections_spec secs adm : shaped secs adm ->
  emitSections secs adm =
    (mask (concat (rows_of <$> secs)) (concat adm),
     totalErrs secs - Z.of_nat (length (mask (concat (rows_of <$> secs)) (concat adm))),
     zip_with merged_section secs adm).
Proof.
  unfold totalErrs. induction 1 as [|s a secs adm [Ha Hp] H IH]; [done|]. rewrite fmap_cons. simpl.
  rewrite mask_app, length_app by done. unfold sumZ in *. simpl.
  destruct s as [s|]; simpl in *; rewrite IH; [|by destruct a].
  rewrite emitRows_spec by done. pose proof (sublist_length _ _ (mask_sublist (errs s) a)).
  change (list_fmap _ _ rows_of secs) with (rows_of <$> secs).
  f_equal. f_equal. rewrite Nat2Z.inj_add, Nat2Z.inj_sub by done.
  apply Nat2Z.inj_le in H0. destruct (_ <? _) eqn:E; go_bools; lia.
Qed.

Lemma mergeErrors_spec secs ceiling :
  Forall (from_option section_wf True) secs ->
  exists adm, shaped secs adm /\
    selects (concat (prios_of <$> secs)) (mergeBudget (totalErrs secs) ceiling) (concat adm) /\
    mergeErrors secs ceiling =
      (mask (concat (rows_of <$> secs)) (concat adm),
       totalErrs secs - mergeBudget (totalErrs secs) ceiling,
       zip_with merged_section secs adm).
Proof.
  intros Hwf. destruct (selection_spec secs ceiling Hwf) as [Hs Hsel]. unfold mergeErrors.
  destruct (admitPrios _ _ _ _) as [l adm] eqn:E. simpl in *. exists adm. split; [done|]. split; [done|].
  rewrite emitSections_spec by done. do 2 f_equal. destruct (shaped_flat secs adm Hs) as (_ & Hl & _).
  rewrite length_mask by done. by rewrite (sel_count _ _ _ Hsel).
Qed.

(** ** Lemmas on the wire counts *)

Lemma shaped_mask secs adm : shaped secs adm ->
  mask (concat (rows_of <$> secs)) (concat adm) = concat (zip_with mask (rows_of <$> secs) adm).
Proof.
  induction 1 as [|s a secs adm [Ha _] H IH]; [done|]. rewrite fmap_cons. simpl.
  by rewrite mask_app, <- IH.
Qed.

Definition bears (n : string) (e : CollectionError) : bool := String.eqb (ce_Section e) n.

Lemma section_bears n s es : section_wf s -> es `sublist_of` errs s ->
  count (bears n) es = if String.eqb (name s) n then length es else 0%nat.
Proof.
  intros Hwf Hsub. pose proof (wf_name _ Hwf) as Hn. rewrite list.Forall_forall in Hn.
  assert (forall e, e ∈ es -> bears n e = String.eqb (name s) n) as Hb.
  { intros e He. unfold bears. rewrite (Hn e); [done|]. by eapply elem_of_sublist. }
  destruct (String.eqb (name s) n); [by apply count_all|by apply count_0].
Qed.

Lemma bears_other n secs adm :
  Forall (from_option section_wf True) secs -> n ∉ sec_names secs ->
  count (bears n) (concat (zip_with mask (rows_of <$> secs) adm)) = 0%nat.
Proof.
  intros Hwf. revert adm. induction Hwf as [|s secs Hs Hwf IH]; intros adm Hn; [done|].
  destruct adm as [|a adm]; [done|]. rewrite fmap_cons. simpl. rewrite count_app.
  destruct s as [s|]; simpl in *.
  - apply not_elem_of_cons in Hn as [Hne Hn].
    rewrite (section_bears n s) by (done || apply mask_sublist). rewrite IH by done.
    destruct (String.eqb _ _) eqn:E; [|done]. apply String.eqb_eq in E. by subst.
  - by rewrite IH.
Qed.

Lemma bears_own secs adm i s a :
  secs_wf secs -> secs !! i = Some (Some s) -> adm !! i = Some a ->
  count (bears (name s)) (concat (zip_with mask (rows_of <$> secs) adm)) =
    length (mask (errs s) a).
Proof.
  intros [Hwf Hnd]. revert adm i Hnd.
  induction Hwf as [|s0 secs Hs Hwf IH]; intros adm i Hnd Hi Ha; [done|].
  destruct adm as [|a0 adm]; [done|]. rewrite fmap_cons. simpl. rewrite count_app.
  destruct i as [|i]; simplify_eq/=.
  - apply list.NoDup_cons in Hnd as [Hnot Hnd].
    rewrite (section_bears (name s) s), String.eqb_refl by (done || apply mask_sublist).
    rewrite bears_other by done. lia.
  - assert (NoDup (sec_names secs) /\ forall s1, s0 = Some s1 -> name s1 <> name s) as [Hnd' Hne].
    { assert (name s ∈ sec_names secs) as Hin.
      { apply list_elem_of_fmap_2, list_elem_of_omap. exists (Some s). split; [|done].
        by eapply list_elem_of_lookup_2. }
      destruct s0 as [s0|]; [|split; [done|by intros]].
      apply list.NoDup_cons in Hnd as [Hnot ?]. split; [done|].
      intros s1 [= <-] E. apply Hnot. by rewrite E. }
    rewrite (IH adm i) by done. destruct s0 as [s0|]; [|done]. simpl in *.
    rewrite (section_bears (name s) s0) by (done || apply mask_sublist).
    destruct (String.eqb _ _) eqn:E; [|lia]. apply String.eqb_eq in E. by apply Hne in E.
Qed.

Lemma finish_merged s a : section_wf s -> length a = length (errs s) ->
  sr_Name (finish (merged_section (Some s) a)) = name s /\
  sr_ErrorCount (finish (merged_section (Some s) a)) = Z.of_nat (length (mask (errs s) a)).
Proof.
  intros Hwf Ha. pose proof (sublist_length _ _ (mask_sublist (errs s) a)).
  simpl. unfold with_rejected. destruct (0 <? _) eqn:E; go_bools; simpl.
  - split; [done|]. rewrite Nat2Z.inj_sub by done. lia.
  - split; [done|]. rewrite wf_global by done. lia.
Qed.

Lemma sumTruncation_acc secs t :
  let u := foldl (fun t s => from_option (fun s => Truncation_Add t (dropped s)) t s) t secs in
  tr_ErrorsCollapsed u = tr_ErrorsCollapsed t + sumZ sr_ErrorsCollapsed (map finish secs) /\
  tr_ErrorsDropped u = tr_ErrorsDropped t + sumZ sr_ErrorsDropped (map finish secs).
Proof.
  revert t. induction secs as [|s secs IH]; intros t; [unfold sumZ; simpl; lia|].
  simpl. destruct (IH (from_option (fun s => Truncation_Add t (dropped s)) t s)) as [E1 E2].
  simpl in E1, E2. rewrite E1, E2. unfold sumZ. destruct s as [s|]; simpl; lia.
Qed.

Lemma sumTruncation_rows secs :
  tr_ErrorsCollapsed (sumTruncation secs) = sumZ sr_ErrorsCollapsed (map finish secs) /\
  tr_ErrorsDropped (sumTruncation secs) = sumZ sr_ErrorsDropped (map finish secs).
Proof. apply (sumTruncation_acc secs Truncation_zero). Qed.

(** ** Properties *)

(** A finalized batch reconciles its errors and drop counters with its sections. *)
Lemma finalize_spec (l : Limits) (sel : option Selection) (secs : list (option section))
    (b : Batch) :
  secs_wf secs -> ""%string ∉ sec_names secs -> b_Sections b = [] -> b_Truncation b = None ->
  errorCountOK (finalize l sel secs b) /\ truncationOK (finalize l sel secs b) /\
  (b_Truncation (finalize l sel secs b) = None <->
     sumZ sr_ErrorsCollapsed (b_Sections (finalize l sel secs b)) = 0 /\
     sumZ sr_ErrorsDropped (b_Sections (finalize l sel secs b)) = 0).
Proof.
  intros Hwf Hempty Hb Ht. destruct (mergeErrors_spec secs (MaxErrors l) (proj1 Hwf)) as (adm & Hs & _ & E).
  unfold finalize. rewrite E, Hb, Ht. clear E. split.
  - intros row [secm [-> Hm]]%list_elem_of_fmap. simpl.
    apply list_elem_of_lookup in Hm as [i Hi].
    apply lookup_zip_with_Some in Hi as (s & a & -> & Hi & Ha).
    rewrite shaped_mask by done. destruct (Forall2_lookup_lr _ _ _ _ _ _ Hs Hi Ha) as [Hla _].
    destruct s as [s|].
    + assert (section_wf s) as Hws by apply (Forall_lookup_1 _ _ _ _ (proj1 Hwf) Hi).
      destruct (finish_merged s a Hws Hla) as [-> ->].
      change (fun e => String.eqb _ _) with (bears (name s)). by rewrite (bears_own secs adm i s a).
    + change (fun e => String.eqb _ _) with (bears ""). rewrite bears_other; [done|apply Hwf|done].
  - simpl. destruct (sumTruncation_rows (zip_with merged_section secs adm)) as [E1 E2].
    unfold truncationOK. simpl. case_bool_decide as Hz.
    + split; [done|]. rewrite <- E1, <- E2, Hz. done.
    + split; [done|]. rewrite <- E1, <- E2. split; [done|]. intros [Hc Hd]. exfalso. apply Hz.
      revert Hc Hd. generalize (sumTruncation (zip_with merged_section secs adm)).
      intros [c d]. simpl. by intros -> ->.
Qed.

(** What a row says whatever the merge. *)
Definition row_stamp (row : SectionRow) : string * Z * Z := (sr_Name row, sr_SampledAt row, sr_DurationMs row).

(** The section rows keep the sections' names, times and order. *)
Lemma finalize_rows l sel secs b :
  Forall (from_option section_wf True) secs ->
  row_stamp <$> b_Sections (finalize l sel secs b) =
    (row_stamp <$> b_Sections b) ++ ((fun s => row_stamp (finish s)) <$> secs).
Proof.
  intros Hwf. destruct (mergeErrors_spec secs (MaxErrors l) Hwf) as (adm & Hs & _ & E).
  unfold finalize. rewrite E. simpl. rewrite list.fmap_app. f_equal. clear E Hwf.
  induction Hs as [|s a secs adm _ Hs IH]; [done|]. simpl. f_equal; [|exact IH].
  destruct s; [|done]. simpl. unfold with_rejected. by destruct (0 <? _).
Qed.

Lemma finalize_names l sel secs b :
  Forall (from_option section_wf True) secs ->
  sr_Name <$> b_Sections (finalize l sel secs b) =
    (sr_Name <$> b_Sections b) ++ (from_option name "" <$> secs).
Proof.
  intros Hwf. pose proof (f_equal (fmap (fun x => x.1.1)) (finalize_rows l sel secs b Hwf)) as E.
  rewrite list.fmap_app, <- !list.list_fmap_compose in E. etransitivity; [exact E|]. f_equal.
  apply list.list_fmap_ext. by intros _ [s|] _.
Qed.

(** Every error that ships was some section's. *)
Lemma finalize_errors l sel secs b e :
  Forall (from_option section_wf True) secs -> e ∈ b_Errors (finalize l sel secs b) ->
  exists s, Some s ∈ secs /\ e ∈ errs s.
Proof.
  intros Hwf. destruct (mergeErrors_spec secs (MaxErrors l) Hwf) as (adm & Hs & _ & E).
  unfold finalize. rewrite E. simpl. intros Hin. eapply sublist_subseteq in Hin; [|apply mask_sublist].
  rewrite list_elem_of_In, in_concat in Hin. destruct Hin as (rows & Hrows & Hin).
  apply list_elem_of_In, list_elem_of_fmap in Hrows as (s & -> & Hsec). apply list_elem_of_In in Hin.
  destruct s as [s|]; [by exists s|by apply not_elem_of_nil in Hin].
Qed.

(** The errors keep to the global cap. *)
Lemma finalize_budget l sel secs b :
  Forall (from_option section_wf True) secs -> 0 < MaxErrors l ->
  Z.of_nat (length (b_Errors (finalize l sel secs b))) <= MaxErrors l.
Proof.
  intros Hwf Hl. destruct (mergeErrors_spec secs (MaxErrors l) Hwf) as (adm & Hs & Hsel & E).
  unfold finalize. rewrite E. simpl. destruct (shaped_flat secs adm Hs) as (_ & Hlen & _).
  rewrite length_mask by done. rewrite (sel_count _ _ _ Hsel). unfold mergeBudget.
  destruct (0 <? MaxErrors l) eqn:E1, (MaxErrors l <? totalErrs secs) eqn:E2; simpl; go_bools; lia.
Qed.

(** What a section is after its [rejected] rows have been charged to it: the count
    is in its own drop counters and in [globalDropped], it is marked truncated when
    there is one, and nothing else of it has changed. *)
Definition charged (rejected : Z) (s : section) : section :=
  mkSection (name s) (started s) (duration s) (status s) (lim s) (errs s) (prios s) (keys s)
    (mkTruncation (tr_ErrorsCollapsed (dropped s)) (tr_ErrorsDropped (dropped s) + rejected))
    rejected (truncated s || (0 <? rejected)).

Lemma mask_missing {A} (l : list A) adm : length adm = length l ->
  (length l - length (mask l adm))%nat = count negb adm.
Proof.
  revert adm. induction l as [|x l IH]; intros [|a adm] H; simplify_eq/=; [done|].
  rewrite count_cons, <- IH by done. pose proof (sublist_length _ _ (mask_sublist l adm)).
  destruct a; simpl; lia.
Qed.

Lemma merged_charged s adm : section_wf s -> length adm = length (errs s) ->
  merged_section (Some s) adm = Some (charged (Z.of_nat (count negb adm)) s).
Proof.
  intros Hwf Hl. simpl. rewrite mask_missing by done. f_equal. unfold with_rejected, charged.
  pose proof (wf_global _ Hwf) as Hg. destruct s as [? ? ? ? ? ? ? ? [c d] g t]. simpl in *. subst g.
  destruct (0 <? _) eqn:E; go_bools; [by rewrite orb_true_r|]. rewrite orb_false_r.
  replace (Z.of_nat (count negb adm)) with 0 by lia. by rewrite Z.add_0_r.
Qed.

(** C10: the global cap spends itself by priority, keeps canonical order and charges
    each section what it lost.  There is a selection of each section's rows, [kept],
    such that all of them together are exactly the smaller of the ceiling and the number
    of rows, no row is kept while a row of a stronger priority is rejected, and, among
    rows of one priority, the earlier one is kept; what ships is those rows, in section
    order and each section's own order; every section comes back charged with the
    number of its own rows that were not kept and otherwise unchanged, a phase that
    never ran stays absent, and the rejections reported are exactly the rows missing. *)
Theorem mergeErrors_selects (secs : list (option section)) (ceiling : Z) :
  Forall (from_option section_wf True) secs ->
  exists kept : list (list bool),
    Forall2 (fun s a => length a = length (rows_of s)) secs kept /\
    selects (concat (prios_of <$> secs)) (mergeBudget (totalErrs secs) ceiling) (concat kept) /\
    let '(out, drops, secs') := mergeErrors secs ceiling in
    out = concat (zip_with mask (rows_of <$> secs) kept) /\
    Z.of_nat (length out) = mergeBudget (totalErrs secs) ceiling /\
    drops = totalErrs secs - Z.of_nat (length out) /\
    length secs' = length secs /\
    (forall i, secs !! i = Some None -> secs' !! i = Some None) /\
    (forall i s a, secs !! i = Some (Some s) -> kept !! i = Some a ->
       secs' !! i = Some (Some (charged (Z.of_nat (count negb a)) s))).
Proof.
  intros Hwf. destruct (mergeErrors_spec secs ceiling Hwf) as (adm & Hs & Hsel & ->).
  exists adm. split; [by eapply list.Forall2_impl; [exact Hs|intros ? ? [? _]]|]. split; [done|].
  destruct (shaped_flat secs adm Hs) as (_ & Hl & _).
  pose proof (list.Forall2_length _ _ _ Hs) as Hlen.
  rewrite length_mask, (sel_count _ _ _ Hsel), shaped_mask by done.
  split_and!; [done..|rewrite length_zip_with; lia| |].
  - intros i Hi. destruct (lookup_lt_is_Some_2 adm i) as [a Ha].
    { rewrite <- Hlen. by eapply lookup_lt_Some. }
    apply lookup_zip_with_Some. by exists None, a.
  - intros i s a Hi Ha. destruct (Forall2_lookup_lr _ _ _ _ _ _ Hs Hi Ha) as [Hla _].
    rewrite <- (merged_charged s a) by (done || exact (Forall_lookup_1 _ _ _ _ Hwf Hi)).
    apply lookup_zip_with_Some. by exists (Some s), a.
Qed.

(** A finalized batch satisfies the receiver's reconciliation of errors and
    drop counters.  Whatever the sections recorded and whatever the cap, every
    shipped section row declares exactly the number of entries of [errors] bearing
    its name, and the truncation block is present exactly when some section folded
    or dropped an occurrence, and then sums the section rows. *)
Theorem finalize_conforms (l : Limits) (sel : option Selection) (secs : list (option section))
    (b : Batch) :
  secs_wf secs -> ""%string ∉ sec_names secs -> b_Sections b = [] -> b_Truncation b = None ->
  errorCountOK (finalize l sel secs b) /\ truncationOK (finalize l sel secs b) /\
  (b_Truncation (finalize l sel secs b) = None <->
     sumZ sr_ErrorsCollapsed (b_Sections (finalize l sel secs b)) = 0 /\
     sumZ sr_ErrorsDropped (b_Sections (finalize l sel secs b)) = 0).
Proof. apply finalize_spec. Qed.

(** ** Witnesses *)

Lemma sample_secs_wf : secs_wf sample_secs.
Proof.
  split.
  - constructor; [apply newSection_wf|]. constructor; [|constructor].
    apply record_all_wf; [apply newSection_wf|apply sample_recordable].
  - apply (bool_decide_unpack _). vm_compute. exact I.
Qed.

Theorem mergeErrors_selects_witness :
  length (mergeErrors sample_secs 2).1.1 = 2%nat /\
  exists kept, selects (concat (prios_of <$> sample_secs)) 2 kept.
Proof.
  split; [vm_compute; reflexivity|].
  destruct (mergeErrors_selects sample_secs 2 (proj1 sample_secs_wf)) as (kept & _ & Hsel & _).
  exists (concat kept). exact Hsel.
Defined.

Theorem finalize_conforms_witness :
  b_Truncation (finalize (mkLimits 2 1) None sample_secs (emptyBatch 1)) = Some (mkTruncation 3 1) /\
  errorCountOK (finalize (mkLimits 2 1) None sample_secs (emptyBatch 1)).
Proof.
  split; [vm_compute; reflexivity|].
  refine (proj1 (finalize_conforms (mkLimits 2 1) None sample_secs (emptyBatch 1) sample_secs_wf
    _ eq_refl eq_refl)).
  apply (bool_decide_unpack _). vm_compute. exact I.
Defined.
