(* ===== verification/Filter.v ===== *)
(** * Filter: which topics and groups a batch covers
      ([internal/collector/filter.go], [validatePattern] of
      [internal/config/config.go])

    A matcher is a function on names.  Of Go's [regexp], the fragment the literal
    form produces is modelled in full: anchors, ordinary bytes and escaped
    punctuation, searched unanchored; every other pattern text is compiled by
    [compileOther], a parameter. *)

From Stdlib Require Import ZArith Lia Ascii.
From stdpp Require Import prelude gmap strings numbers.
From S2P Require Import Prelude Wire Errors.

(** ** Go strings *)

Definition byte_of (c : ascii) : Z := Z.of_N (N_of_ascii c).

(** [utf8.ValidString], by the table of the first byte: each row gives the number
    of continuation bytes and the range of the first of them. *)
Definition utf8_lead (b : Z) : option (nat * Z * Z) :=
  if b <? 128 then Some (0%nat, 0, 0)
  else if b <? 194 then None
  else if b <? 224 then Some (1%nat, 128, 191)
  else if b =? 224 then Some (2%nat, 160, 191)
  else if b =? 237 then Some (2%nat, 128, 159)
  else if b <? 240 then Some (2%nat, 128, 191)
  else if b =? 240 then Some (3%nat, 144, 191)
  else if b <? 244 then Some (3%nat, 128, 191)
  else if b =? 244 then Some (3%nat, 128, 143)
  else None.

(** [need] continuation bytes are still expected, the next one in [lo..hi]. *)
Fixpoint utf8_scan (need : nat) (lo hi : Z) (s : string) : bool :=
  match s with
  | EmptyString => Nat.eqb need 0
  | String c s =>
      let b := byte_of c in
      match need with
      | O => match utf8_lead b with
             | Some (n, lo, hi) => utf8_scan n lo hi s
             | None => false
             end
      | S n => (lo <=? b) && (b <=? hi) && utf8_scan n 128 191 s
      end
  end.

Definition utf8_valid (s : string) : bool := utf8_scan 0 0 0 s.

(** ** The regular expressions the literal form compiles to *)

Definition backslash : ascii := "\".

(** [regexp.special]: the bytes [QuoteMeta] escapes. *)
Definition special (c : ascii) : bool :=
  bool_decide (c ∈ ["\"; "."; "+"; "*"; "?"; "("; ")"; "|"; "["; "]"; "{"; "}"; "^"; "$"]%char).

Fixpoint QuoteMeta (s : string) : string :=
  match s with
  | EmptyString => EmptyString
  | String c s => if special c then String backslash (String c (QuoteMeta s)) else String c (QuoteMeta s)
  end.

Inductive token :=
| TBegin            (* ^ *)
| TEnd              (* $ *)
| TByte (c : ascii).

(** The fragment's parser; [None] for a text outside it. *)
Fixpoint parse_tokens (s : string) : option (list token) :=
  match s with
  | EmptyString => Some []
  | String c s =>
      if bool_decide (c = "\"%char) then
        match s with
        | String d s => if special d then cons (TByte d) <$> parse_tokens s else None
        | EmptyString => None
        end
      else if bool_decide (c = "^"%char) then cons TBegin <$> parse_tokens s
      else if bool_decide (c = "$"%char) then cons TEnd <$> parse_tokens s
      else if special c then None
      else cons (TByte c) <$> parse_tokens s
  end.

(** A match of the whole token list at one position; [start] is whether that
    position is the beginning of the text. *)
Fixpoint match_here (ts : list token) (start : bool) (s : string) : bool :=
  match ts with
  | [] => true
  | TBegin :: ts => start && match_here ts start s
  | TEnd :: ts => match s with EmptyString => match_here ts start s | _ => false end
  | TByte c :: ts =>
      match s with
      | String d s => bool_decide (c = d) && match_here ts false s
      | EmptyString => false
      end
  end.

(** [MatchString]: an unanchored search, position by position. *)
Fixpoint search_from (ts : list token) (start : bool) (s : string) : bool :=
  match_here ts start s ||
  match s with
  | String _ s => search_from ts false s
  | EmptyString => false
  end.

Definition matcher : Type := string -> bool.

Class Regexp := { compileOther : string -> option matcher }.

Section filter.
Context `{!Regexp}.

(** [regexp.Compile]: a pattern that is not valid UTF-8 is refused. *)
Definition Compile (text : string) : option matcher :=
  if utf8_valid text then
    match parse_tokens text with
    | Some ts => Some (search_from ts true)
    | None => compileOther text
    end
  else None.

(** ** [filter.go] *)

Record filter := mkFilter {
  include : list matcher;
  exclude : list matcher;
}.

(** [entry[1:len(entry)-1]]. *)
Definition inner (entry : string) : string := String.substring 1 (String.length entry - 2) entry.

Definition HasSuffix (s suffix : string) : bool :=
  let n := String.length s in
  let m := String.length suffix in
  (m <=? n)%nat && String.eqb (String.substring (n - m) m s) suffix.

Definition regexBody (entry : string) : option string :=
  if (2 <=? String.length entry)%nat && String.prefix "/" entry && HasSuffix entry "/"
  then Some (inner entry)
  else None.

Definition compilePattern (entry : string) : option matcher :=
  match regexBody entry with
  | Some body => if String.eqb body "" then None else Compile body
  | None => Compile ("^" +:+ QuoteMeta entry +:+ "$")
  end.

Fixpoint compileEntries (l : list string) : option (list matcher) :=
  match l with
  | [] => Some []
  | entry :: l =>
      match compilePattern entry with
      | None => None
      | Some re => cons re <$> compileEntries l
      end
  end.

Definition compilePatterns (l : list string) : option (list matcher) :=
  if Z.of_nat (length l) =? 0 then Some [] else compileEntries l.

Definition newFilter (incl excl : list string) : option filter :=
  match compilePatterns incl with
  | None => None
  | Some i =>
      match compilePatterns excl with
      | None => None
      | Some e => Some (mkFilter i e)
      end
  end.

Definition matchAny (res : list matcher) (name : string) : bool := existsb (fun re => re name) res.

(** A nil [*filter] allows everything. *)
Definition allow (f : option filter) (name : string) : bool :=
  match f with
  | None => true
  | Some f =>
      if (0 <? Z.of_nat (length (include f))) && negb (matchAny (include f) name) then false
      else negb (matchAny (exclude f) name)
  end.

Definition isInternalGroup (id : string) : bool := String.prefix "__" id.

(** [config.validatePattern]: whether the entry is accepted at startup. *)
Definition validatePattern (entry : string) : bool :=
  if (String.length entry <? 2)%nat || negb (String.prefix "/" entry) || negb (HasSuffix entry "/")
  then true
  else
    let body := inner entry in
    if String.eqb body "" then false
    else match Compile body with Some _ => true | None => false end.

End filter.

(** [Options.selection]: [None] when no list and no switch narrows the view. *)
Definition selection (topicInclude topicExclude groupInclude groupExclude groupStates : list string)
    (includeInternalTopics : bool) : option Selection :=
  let sel := mkSelection topicInclude topicExclude groupInclude groupExclude groupStates
    includeInternalTopics in
  let empty (l : list string) := Z.of_nat (length l) =? 0 in
  if empty (sel_TopicInclude sel) && empty (sel_TopicExclude sel) &&
     empty (sel_GroupInclude sel) && empty (sel_GroupExclude sel) &&
     empty (sel_GroupStates sel) && negb (sel_IncludeInternalTopics sel)
  then None
  else Some sel.

Fixpoint bytes (s : string) : list token :=
  match s with
  | EmptyString => []
  | String c s => TByte c :: bytes s
  end.

(** ** Lemmas on the fragment *)

Lemma special_ascii c : special c = true -> utf8_lead (byte_of c) = Some (0%nat, 0, 0) /\ byte_of c < 128.
Proof.
  intros Hs. apply bool_decide_eq_true in Hs.
  repeat (apply elem_of_cons in Hs as [->|Hs]; [vm_compute; done|]). by apply elem_of_nil in Hs.
Qed.

Lemma special_meta c : special c = false -> c <> "\"%char /\ c <> "^"%char /\ c <> "$"%char.
Proof. intros Hc. split; [|split]; intros ->; vm_compute in Hc; done. Qed.

Lemma parse_quoted s : parse_tokens (QuoteMeta s +:+ "$") = Some (bytes s ++ [TEnd]).
Proof.
  induction s as [|c s IH]; [done|]. simpl. destruct (special c) eqn:Hc; simpl.
  - rewrite Hc, IH. done.
  - destruct (special_meta c Hc) as (? & ? & ?). rewrite !bool_decide_false by done.
    by rewrite Hc, IH.
Qed.

Lemma utf8_quoted n lo hi s : n = 0%nat \/ 128 <= lo ->
  utf8_scan n lo hi (QuoteMeta s +:+ "$") = utf8_scan n lo hi s.
Proof.
  revert n lo hi. induction s as [|c s IH]; intros n lo hi Hn.
  { simpl. destruct n as [|n]; [done|]. destruct Hn as [|Hn]; [done|].
    change (byte_of "$") with 36. replace (lo <=? 36) with false by lia. done. }
  simpl. destruct (special c) eqn:Hc; simpl.
  - destruct (special_ascii c Hc) as [Hlead Hlt]. destruct n as [|n].
    + change (utf8_lead (byte_of backslash)) with (Some (0%nat, 0, 0)). cbn iota beta. rewrite Hlead.
      apply IH. by left.
    + destruct Hn as [|Hn]; [done|]. change (byte_of backslash) with 92.
      replace (lo <=? 92) with false by lia. replace (lo <=? byte_of c) with false by lia. done.
  - destruct n as [|n].
    + destruct (utf8_lead (byte_of c)) as [[[m l] h]|] eqn:E; [|done]. apply IH.
      unfold utf8_lead in E. repeat case_match; simplify_eq; (by left) || (right; lia).
    + f_equal. apply IH. right. lia.
Qed.

Lemma utf8_valid_literal s : utf8_valid ("^" +:+ QuoteMeta s +:+ "$") = utf8_valid s.
Proof. unfold utf8_valid. simpl. apply utf8_quoted. by left. Qed.

Lemma match_bytes s t b : match_here (bytes s ++ [TEnd]) b t = String.eqb t s.
Proof.
  revert t b. induction s as [|c s IH]; intros [|d t] b; simpl; try done.
  rewrite IH. case_bool_decide as E.
  - subst. by rewrite Ascii.eqb_refl.
  - destruct (Ascii.eqb d c) eqn:E'; [|done]. apply Ascii.eqb_eq in E'. congruence.
Qed.

Lemma search_anchored ts t : search_from (TBegin :: ts) true t = match_here ts true t.
Proof.
  assert (forall t, search_from (TBegin :: ts) false t = false) as Hf.
  { clear t. induction t as [|c t IH]; [done|]. simpl. exact IH. }
  destruct t as [|c t]; simpl; [apply orb_false_r|]. by rewrite Hf, orb_false_r.
Qed.

Section lemmas.
Context `{!Regexp}.

(** The literal form compiles, to equality, exactly when it is valid UTF-8. *)
Lemma Compile_literal s : utf8_valid s = true ->
  exists re, Compile ("^" +:+ QuoteMeta s +:+ "$") = Some re /\ forall t, re t = String.eqb t s.
Proof.
  intros Hs. unfold Compile. rewrite utf8_valid_literal, Hs.
  change (parse_tokens _) with (cons TBegin <$> parse_tokens (QuoteMeta s +:+ "$")).
  rewrite parse_quoted. simpl. eexists. split; [done|].
  intros t. rewrite search_anchored. apply match_bytes.
Qed.

Lemma Compile_literal_invalid s : utf8_valid s = false ->
  Compile ("^" +:+ QuoteMeta s +:+ "$") = None.
Proof. intros Hs. unfold Compile. by rewrite utf8_valid_literal, Hs. Qed.

(** An entry that names itself: not the slash form, and valid text. *)
Definition literal (entry : string) : Prop := regexBody entry = None /\ utf8_valid entry = true.

Lemma compileEntries_literal l : Forall literal l ->
  exists res, compileEntries l = Some res /\ length res = length l /\
    forall t, matchAny res t = true <-> t ∈ l.
Proof.
  induction 1 as [|s l [Hr Hs] Hl (res & Hc & Hlen & IH)].
  - exists []. split_and!; [done|done|]. intros t. simpl. rewrite elem_of_nil. done.
  - simpl. unfold compilePattern. rewrite Hr. destruct (Compile_literal s Hs) as (re & -> & Hre).
    rewrite Hc. exists (re :: res). split_and!; [done|simpl; lia|].
    intros t. simpl. rewrite Hre, elem_of_cons, <- IH, orb_true_iff, String.eqb_eq. done.
Qed.

Lemma compilePatterns_literal l : Forall literal l ->
  exists res, compilePatterns l = Some res /\ length res = length l /\
    forall t, matchAny res t = true <-> t ∈ l.
Proof.
  intros Hl. unfold compilePatterns. destruct (_ =? 0) eqn:E; [|by apply compileEntries_literal].
  destruct l; [|simpl in E; lia]. exists []. split_and!; [done|done|]. intros t. rewrite elem_of_nil. done.
Qed.

Lemma validate_regexBody entry :
  validatePattern entry =
    match regexBody entry with
    | None => true
    | Some body => negb (String.eqb body "") && bool_decide (is_Some (Compile body))
    end.
Proof.
  unfold validatePattern, regexBody. rewrite Nat.ltb_antisym.
  destruct (2 <=? String.length entry)%nat; simpl; [|done].
  destruct (String.prefix "/" entry); simpl; [|done].
  destruct (HasSuffix entry "/"); simpl; [|done].
  destruct (String.eqb (inner entry) ""); simpl; [done|].
  destruct (Compile (inner entry)) eqn:E; by rewrite ?bool_decide_true, ?bool_decide_false
    by (rewrite ?E; try done; intros []; done).
Qed.

Lemma compilePattern_validates entry : utf8_valid entry = true ->
  validatePattern entry = true <-> is_Some (compilePattern entry).
Proof.
  intros Hv. rewrite validate_regexBody. unfold compilePattern.
  destruct (regexBody entry) as [body|].
  - destruct (String.eqb body ""); simpl; [|by rewrite bool_decide_eq_true].
    split; [done|intros [? ?]; done].
  - destruct (Compile_literal entry Hv) as (re & -> & _). split; [eauto|done].
Qed.

Lemma validate_compiles l : Forall (fun e => utf8_valid e = true) l ->
  Forall (fun e => validatePattern e = true) l <-> is_Some (compilePatterns l).
Proof.
  intros Hv. assert (compilePatterns l = compileEntries l) as ->.
  { unfold compilePatterns. destruct (_ =? 0) eqn:E; [|done]. destruct l; [done|simpl in E; lia]. }
  induction Hv as [|e l He Hl IH]; [split; [intros; by eexists|by constructor]|].
  rewrite list.Forall_cons, compilePattern_validates, IH by done. simpl.
  destruct (compilePattern e), (compileEntries l); split; intros Hx;
    try (destruct Hx as [[? ?] [? ?]]); try (destruct Hx as [? ?]); eauto; done.
Qed.

End lemmas.

(** ** Properties *)

(** A selection written as plain names selects exactly those names.  For lists
    of literal entries the filter always compiles, and then a name survives
    exactly when the include list is empty or lists it and the exclude list does
    not: no character of a name is a metacharacter, and exclusion wins. *)
Theorem newFilter_literal `{!Regexp} (incl excl : list string) :
  Forall literal incl -> Forall literal excl ->
  exists f, newFilter incl excl = Some f /\
    forall name, allow (Some f) name = true <-> (incl = [] \/ name ∈ incl) /\ name ∉ excl.
Proof.
  intros Hi He. destruct (compilePatterns_literal incl Hi) as (ri & Ei & Hli & Hmi).
  destruct (compilePatterns_literal excl He) as (re & Ee & Hle & Hme).
  unfold newFilter. rewrite Ei, Ee. eexists. split; [done|]. intros name. simpl.
  specialize (Hmi name). specialize (Hme name). rewrite Hli.
  destruct incl as [|s incl]; simpl.
  - destruct (matchAny re name); naive_solver.
  - destruct (matchAny ri name), (matchAny re name); naive_solver.
Qed.

(** The startup validation and the collector's compiler agree.  Over entries
    of valid text, the configuration accepts every entry exactly when [newFilter]
    succeeds, so a process that starts never fails on a pattern. *)
Theorem validate_agrees `{!Regexp} (incl excl : list string) :
  Forall (fun e => utf8_valid e = true) (incl ++ excl) ->
  (Forall (fun e => validatePattern e = true) (incl ++ excl) <-> is_Some (newFilter incl excl)).
Proof.
  intros Hv. rewrite Forall_app in Hv. destruct Hv as [Hi He].
  rewrite Forall_app, !validate_compiles by done. unfold newFilter.
  destruct (compilePatterns incl), (compilePatterns excl); split; intros Hx;
    try (destruct Hx as [[? ?] [? ?]]); try (destruct Hx as [? ?]); eauto; done.
Qed.

(** Outside valid text the two differ: a literal the configuration accepts makes
    [newFilter] fail. *)
Theorem validate_accepts_invalid_utf8 `{!Regexp} :
  validatePattern (String (ascii_of_nat 255) "") = true /\
  newFilter [String (ascii_of_nat 255) ""] [] = None.
Proof. split; vm_compute; reflexivity. Qed.

(** ** Witnesses *)

(** A library that compiles nothing outside the fragment. *)
Definition no_regexp : Regexp := {| compileOther := fun _ => None |}.

Theorem newFilter_literal_witness :
  exists f, @newFilter no_regexp ["orders.events"] [] = Some f /\
    allow (Some f) "orders.events" = true /\ allow (Some f) "ordersXevents" = false.
Proof.
  destruct (@newFilter_literal no_regexp ["orders.events"] []) as (f & Hf & Hallow).
  - constructor; [vm_compute; done|constructor].
  - constructor.
  - exists f. split; [exact Hf|]. split; [apply Hallow; split; [right; left|apply not_elem_of_nil]|].
    apply not_true_iff_false. intros [[Hc|Hc] _]%Hallow; [done|].
    apply elem_of_cons in Hc as [Hc|Hc]; [done|by apply elem_of_nil in Hc].
Defined.

Theorem validate_agrees_witness :
  Forall (fun e => @validatePattern no_regexp e = true) (["orders.events"; "/^a$/"] ++ []) <->
  is_Some (@newFilter no_regexp ["orders.events"; "/^a$/"] []).
Proof.
  exact (@validate_agrees no_regexp ["orders.events"; "/^a$/"] [] ltac:(by repeat constructor)).
Defined.
