(* ===== verification/Cadence.v ===== *)
(** * Cadence: which cycle a sampled phase runs on
      ([runsThisCycle], [everyNth] and the phase offsets of
      [internal/collector/collector.go], the default periods of
      [internal/config/config.go]) *)

From Stdlib Require Import ZArith Lia.
From stdpp Require Import prelude list_numbers numbers.
From S2P Require Import Prelude.
Open Scope go_scope.

Definition phaseLogDirs : Z := 0.
Definition phaseMaxTS : Z := 2.
Definition phaseConfigs : Z := 5.
Definition phaseWindow : Z := 0.

Definition DefaultLogDirsEvery : Z := 24.
Definition DefaultMaxTimestampEvery : Z := 12.
Definition DefaultConfigsEvery : Z := 360.

Definition everyNth (every : Z) : Z := if every <? 1 then 1 else wrapU 64 every.

Definition runsThisCycle (enabled : bool) (every offset n : Z) : bool :=
  enabled && ((n +u64 offset) mod everyNth every =? 0).

(** The cadence of [Collect]: the counter is incremented and the phases of the
    cycle read the value before. *)
Definition cycleAdd (cycle : Z) : Z * Z := (cycle, cycle +u64 1).

(** ** Lemmas *)

Lemma everyNth_pos every : every < 2 ^ 64 -> 1 <= everyNth every.
Proof. intros. unfold everyNth. destruct (every <? 1) eqn:E; [lia|]. rewrite wrapU_small; lia. Qed.

(** Sliding a window of one period by one drops and gains the same residue. *)
Lemma window_slide (N m : Z) : 1 <= N ->
  count (fun x => x mod N =? 0) (seqZ (m + 1) N) = count (fun x => x mod N =? 0) (seqZ m N).
Proof.
  intros HN.
  assert (seqZ (m + 1) N = seqZ (m + 1) (N - 1) ++ seqZ (m + 1 + (N - 1)) 1) as ->.
  { rewrite <- seqZ_app by lia. f_equal. lia. }
  assert (seqZ m N = seqZ m 1 ++ seqZ (m + 1) (N - 1)) as ->.
  { rewrite <- seqZ_app by lia. f_equal. lia. }
  rewrite !count_app.
  assert (forall k, count (fun x => x mod N =? 0) (seqZ k 1) = if k mod N =? 0 then 1%nat else 0%nat) as H1.
  { intros k. rewrite seqZ_cons by lia. simpl. rewrite count_cons. simpl.
    change (count _ []) with 0%nat. by destruct (k mod N =? 0). }
  rewrite !H1. replace (m + 1 + (N - 1)) with (m + 1 * N) by lia. rewrite Z.mod_add by lia. lia.
Qed.

Lemma window_once (N : Z) (m : nat) : 1 <= N ->
  count (fun x => x mod N =? 0) (seqZ (Z.of_nat m) N) = 1%nat.
Proof.
  intros HN. induction m as [|m IH].
  - rewrite seqZ_cons, count_cons by lia. simpl. rewrite count_0; [done|].
    intros x Hx. apply elem_of_seqZ in Hx. rewrite Z.mod_small; lia.
  - replace (Z.of_nat (S m)) with (Z.of_nat m + 1) by lia. by rewrite window_slide.
Qed.

(** ** Properties *)

(** A cadenced phase samples exactly once per period.  In every run of [every]
    consecutive cycles (short of the counter's wrap-around at 2^64) an enabled
    phase runs on exactly one, whatever its offset; a period below one means every
    cycle. *)
Theorem runs_once_per_period (every offset n : Z) :
  0 <= n -> 0 <= offset -> every < 2 ^ 64 -> n + offset + everyNth every < 2 ^ 64 ->
  count (runsThisCycle true every offset) (seqZ n (everyNth every)) = 1%nat.
Proof.
  intros Hn Ho He Hw. pose proof (everyNth_pos every He) as HN.
  rewrite <- (window_once (everyNth every) (Z.to_nat (n + offset))) by lia.
  replace (seqZ (Z.of_nat _) _) with (Z.add offset <$> seqZ n (everyNth every)).
  2:{ rewrite fmap_add_seqZ. f_equal. lia. }
  rewrite count_map. apply count_ext. intros x Hx%elem_of_seqZ.
  unfold runsThisCycle. rewrite wrapU_small by lia. by rewrite (Z.add_comm offset).
Qed.

(** At the shipped defaults no two sampled phases ever coincide, on any value
    of the 64-bit cycle counter, the wrap-around included. *)
Theorem default_phases_disjoint (n : Z) :
  0 <= n < 2 ^ 64 ->
  let dirs := runsThisCycle true DefaultLogDirsEvery phaseLogDirs n in
  let maxts := runsThisCycle true DefaultMaxTimestampEvery phaseMaxTS n in
  let cfgs := runsThisCycle true DefaultConfigsEvery phaseConfigs n in
  dirs && maxts = false /\ dirs && cfgs = false /\ maxts && cfgs = false.
Proof.
  intros Hn. unfold runsThisCycle, everyNth. simpl.
  change (wrapU 64 DefaultLogDirsEvery) with 24. change (wrapU 64 DefaultMaxTimestampEvery) with 12.
  change (wrapU 64 DefaultConfigsEvery) with 360.
  unfold phaseLogDirs, phaseMaxTS, phaseConfigs, wrapU.
  rewrite !andb_false_iff, !Z.eqb_neq. repeat split; Z.to_euclidean_division_equations; lia.
Qed.

(** ** Witnesses *)

Theorem runs_once_per_period_witness :
  count (runsThisCycle true 12 phaseMaxTS) (seqZ 7 (everyNth 12)) = 1%nat.
Proof. exact (runs_once_per_period 12 phaseMaxTS 7 ltac:(lia) ltac:(done) ltac:(lia) ltac:(done)). Defined.

Theorem default_phases_disjoint_witness :
  runsThisCycle true DefaultLogDirsEvery phaseLogDirs 24 = true /\
  runsThisCycle true DefaultLogDirsEvery phaseLogDirs 24 &&
    runsThisCycle true DefaultMaxTimestampEvery phaseMaxTS 24 = false.
Proof. split; [reflexivity|]. exact (proj1 (default_phases_disjoint 24 ltac:(lia))). Defined.
