(* ===== verification/Kadm.v ===== *)
(** * Kadm: the admin client's vocabulary, and programs that call it
      (the [clusterClient] interface of [internal/collector/client.go])

    The records are the fields the collector reads of the client library's
    types.  The library is not part of the program: its [Sorted] methods are the
    fields of the class [Kadm], their documented behaviour is the class
    [KadmLaws], and what a request answers is chosen by the environment.

    A collection phase is a [prog]: a tree of the effects it performs, reading the
    clock, calling the cluster, waiting on and closing channels, and reading and
    writing the variables [V] it shares with the other phases. *)

From Stdlib Require Import ZArith Lia.
From stdpp Require Import prelude gmap strings numbers sorting.
From S2P Require Import Prelude Wire Errors.

(** ** Responses *)

Record BrokerDetail := mkBrokerDetail {
  bd_NodeID : Z;
  bd_Host : string;
  bd_Port : Z;
  bd_Rack : option string;
}.

Record PartitionDetail := mkPartitionDetail {
  pd_Partition : Z;
  pd_Leader : Z;
  pd_LeaderEpoch : Z;
  pd_Replicas : list Z;
  pd_ISR : list Z;
  pd_OfflineReplicas : list Z;
  pd_Err : option goerr;
}.

(** [td_ID] is [None] for the zero id and its [String()] otherwise. *)
Record TopicDetail := mkTopicDetail {
  td_Topic : string;
  td_ID : option string;
  td_IsInternal : bool;
  td_Partitions : gmap Z PartitionDetail;
  td_Err : option goerr;
}.

Notation TopicDetails := (gmap string TopicDetail).

Record Metadata := mkMetadata {
  md_Cluster : string;
  md_Brokers : list BrokerDetail;
  md_Topics : option TopicDetails;
}.

Record ListedOffset := mkListedOffset {
  lo_Partition : Z;
  lo_Timestamp : Z;
  lo_Offset : Z;
  lo_LeaderEpoch : Z;
  lo_Err : option goerr;
}.

Notation ListedOffsets := (gmap string (gmap Z ListedOffset)).

Record OffsetResponse := mkOffsetResponse {
  or_Topic : string;
  or_Partition : Z;
  or_At : Z;
  or_LeaderEpoch : Z;
  or_Metadata : string;
  or_Err : option goerr;
}.

Record FetchOffsetsResponse := mkFetchOffsetsResponse {
  fr_Fetched : gmap string (gmap Z OffsetResponse);
  fr_Err : option goerr;
}.

Notation TopicsSet := (gmap string (gset Z)).

(** [TopicsSet.Add] of one partition. *)
Definition TopicsSet_Add (topic : string) (p : Z) (s : TopicsSet) : TopicsSet :=
  <[topic := {[p]} ∪ default ∅ (s !! topic)]> s.

(** Consumer-protocol metadata, when it decodes as such ([AsConsumer]). *)
Record ConsumerJoin := mkConsumerJoin {
  cj_Topics : slice string;
  cj_Rack : option string;
  cj_Generation : Z;
  cj_OwnedPartitions : list (string * list Z);
}.

Record DescribedGroupMember := mkDescribedGroupMember {
  dm_MemberID : string;
  dm_InstanceID : option string;
  dm_ClientID : string;
  dm_ClientHost : string;
  dm_Join : option ConsumerJoin;
  dm_Assigned : option (list (string * list Z));
}.

Record DescribedGroup := mkDescribedGroup {
  dg_Group : string;
  dg_Coordinator : BrokerDetail;
  dg_State : string;
  dg_ProtocolType : string;
  dg_Protocol : string;
  dg_Members : list DescribedGroupMember;
  dg_Err : option goerr;
}.

Record ConsumerGroupMember := mkConsumerGroupMember {
  cgm_MemberID : string;
  cgm_MemberEpoch : Z;
  cgm_SubscribedTopics : slice string;
  cgm_SubscribedTopicRegex : option string;
  cgm_Assignment : TopicsSet;
  cgm_TargetAssignment : TopicsSet;
}.

Record DescribedConsumerGroup := mkDescribedConsumerGroup {
  dcg_Epoch : Z;
  dcg_AssignmentEpoch : Z;
  dcg_AssignorName : string;
  dcg_Members : list ConsumerGroupMember;
  dcg_Err : option goerr;
}.

Record EpochOffset := mkEpochOffset {
  eo_NodeID : Z;
  eo_LeaderEpoch : Z;
  eo_EndOffset : Z;
  eo_Err : option goerr;
}.

Record PartitionReassignment := mkPartitionReassignment {
  pr_Topic : string;
  pr_Partition : Z;
  pr_Replicas : slice Z;
  pr_AddingReplicas : slice Z;
  pr_RemovingReplicas : slice Z;
}.

Record ConfigRow := mkConfigRow {
  cr_Key : string;
  cr_Value : option string;
  cr_Sensitive : bool;
  cr_Source : Z;
}.

Record ResourceConfig := mkResourceConfig {
  rc_Name : string;
  rc_Configs : list ConfigRow;
  rc_Err : option goerr;
}.

Record DescribedShareMember := mkDescribedShareMember {
  dsm_MemberID : string;
  dsm_RackID : option string;
  dsm_MemberEpoch : Z;
  dsm_ClientID : string;
  dsm_ClientHost : string;
  dsm_SubscribedTopicNames : slice string;
  dsm_Assignment : TopicsSet;
}.

Record DescribedShareGroup := mkDescribedShareGroup {
  dsg_GroupID : string;
  dsg_Coordinator : BrokerDetail;
  dsg_GroupState : string;
  dsg_GroupEpoch : Z;
  dsg_AssignmentEpoch : Z;
  dsg_Assignor : string;
  dsg_Members : list DescribedShareMember;
  dsg_Err : option goerr;
}.

Record ShareOffset := mkShareOffset {
  sho_StartOffset : Z;
  sho_LeaderEpoch : Z;
  sho_Err : option goerr;
}.

Record DescribedShareGroupOffsets := mkDescribedShareGroupOffsets {
  dso_Group : string;
  dso_Offsets : gmap string (gmap Z ShareOffset);
  dso_Err : option goerr;
}.

(** One shard of a raw ListGroups broadcast: a failed shard, another response
    type, or the response's error code and its (group, type) rows. *)
Inductive ListGroupsShard :=
| LGErr (err : goerr)
| LGOther
| LGResp (code : Z) (groups : list (string * string)).

(** A raw DescribeLogDirs response, one directory of it, and one shard. *)
Record RawLogDir := mkRawLogDir {
  rl_ErrorCode : Z;
  rl_Dir : string;
  rl_TotalBytes : Z;
  rl_UsableBytes : Z;
  rl_Topics : list (string * list LogDirPartition);
}.

Inductive LogDirsShard :=
| LDErr (node : Z) (err : goerr)
| LDOther (node : Z)
| LDResp (node : Z) (code : Z) (dirs : list RawLogDir).

(** A directory as the client library decodes it: name, error, replicas. *)
Record DescribedLogDir := mkDescribedLogDir {
  dl_Dir : string;
  dl_Err : option goerr;
  dl_Topics : gmap (string * Z) LogDirPartition;
}.

(** ** The library's [Sorted] methods *)

Class Kadm := {
  topicsSorted : TopicDetails -> list TopicDetail;
  partitionsSorted : gmap Z PartitionDetail -> list PartitionDetail;
  offsetsSorted : gmap string (gmap Z OffsetResponse) -> list OffsetResponse;
  groupsSorted : gmap string DescribedGroup -> list DescribedGroup;
  topicsSetSorted : TopicsSet -> list (string * list Z);
  reassignmentsSorted : gmap string (gmap Z PartitionReassignment) -> list PartitionReassignment;
  logDirsSorted : gmap string DescribedLogDir -> list DescribedLogDir;
  logDirTopicsSorted : gmap (string * Z) LogDirPartition -> list LogDirPartition;
}.

(** All the values, each once, in key order. *)
Definition sorted_values `{Countable K} {V} (lt : K -> K -> bool) (m : gmap K V) (l : list V) : Prop :=
  exists ks, l = omap (m !!.) ks /\ ks ≡ₚ (map_to_list m).*1 /\ StronglySorted (not_less lt) ks.

Class KadmLaws `{!Kadm} : Prop := {
  topicsSorted_law tds : sorted_values str_ltb tds (topicsSorted tds);
  partitionsSorted_law ps : sorted_values Z.ltb ps (partitionsSorted ps);
}.

Definition sort_values `{Countable K} {V} (lt : K -> K -> bool) (m : gmap K V) : list V :=
  omap (m !!.) (sort_slice lt (map_to_list m).*1).

(** Such a list holds exactly the map's values. *)
Lemma sorted_values_elem `{Countable K} {V} (lt : K -> K -> bool) (m : gmap K V) l x :
  sorted_values lt m l -> x ∈ l <-> exists k, m !! k = Some x.
Proof.
  intros (ks & -> & Hp & _). rewrite list_elem_of_omap. split; [naive_solver|].
  intros [k Hk]. exists k. split; [|done]. rewrite Hp, list_elem_of_fmap. exists (k, x).
  split; [done|]. by apply elem_of_map_to_list.
Qed.

Lemma sort_values_sorted `{Countable K} {V} (lt : K -> K -> bool) `{!StrictWeak lt} (m : gmap K V) :
  sorted_values lt m (sort_values lt m).
Proof. eexists. split; [done|]. split; [apply sort_slice_perm|by apply sort_slice_sorted]. Qed.

(** The library as documented, for evaluating the model. *)
Definition kadm_sorted : Kadm := {|
  topicsSorted := sort_values str_ltb;
  partitionsSorted := sort_values Z.ltb;
  offsetsSorted m := concat (sort_values Z.ltb <$> sort_values str_ltb m);
  groupsSorted := sort_values str_ltb;
  topicsSetSorted m :=
    omap (fun t => (fun ps : gset Z => (t, sort_slice Z.ltb (elements ps))) <$> m !! t)
      (sort_slice str_ltb (map_to_list m).*1);
  reassignmentsSorted m := concat (sort_values Z.ltb <$> sort_values str_ltb m);
  logDirsSorted := sort_values str_ltb;
  logDirTopicsSorted :=
    sort_values (lex_less fst str_ltb (fun a b => Z.ltb (snd a) (snd b)));
|}.

(** ** Requests

    One constructor per method of [clusterClient]; [RequestSharded] has one per
    request the collector builds. *)

Notation EpochRequest := (gmap string (gmap Z Z)).

Inductive Request :=
| RMetadata
| RListStartOffsets (topics : list string)
| RListCommittedOffsets (topics : list string)
| RListEndOffsets (topics : list string)
| RListMaxTimestampOffsets (topics : list string)
| RListLocalLogStartOffsets (topics : list string)
| RListLatestRemoteOffsets (topics : list string)
| RListOffsetsAfterMilli (millisecond : Z) (topics : list string)
| RFetchManyOffsets (groups : list string)
| RDescribeGroups (groups : list string)
| RDescribeConsumerGroups (groups : list string)
| RDescribeShareGroups (groups : list string)
| RDescribeShareGroupOffsets (groups : list string)
| RDescribeTopicConfigs (topics : list string)
| RDescribeBrokerConfigs (brokers : list Z)
| RDescribeAllLogDirs (s : TopicsSet)
| RListPartitionReassignments (s : TopicsSet)
| ROffsetForLeaderEpoch (r : EpochRequest)
| RShardedListGroups (statesFilter : list string)
| RShardedDescribeLogDirs (topics : list (string * list Z))
| RProbe
| RRPCSnapshot.

Definition withErr (A : Type) : Type := A * option goerr.

(** [RProbe] answers what the collector asks of the probe's result: whether every
    broker reports volume sizes. *)
Definition response (r : Request) : Type :=
  match r with
  | RMetadata => withErr Metadata
  | RListStartOffsets _ | RListCommittedOffsets _ | RListEndOffsets _
  | RListMaxTimestampOffsets _ | RListLocalLogStartOffsets _ | RListLatestRemoteOffsets _
  | RListOffsetsAfterMilli _ _ => withErr ListedOffsets
  | RFetchManyOffsets _ => gmap string FetchOffsetsResponse
  | RDescribeGroups _ => withErr (gmap string DescribedGroup)
  | RDescribeConsumerGroups _ => withErr (gmap string DescribedConsumerGroup)
  | RDescribeShareGroups _ => withErr (list DescribedShareGroup)
  | RDescribeShareGroupOffsets _ => withErr (list DescribedShareGroupOffsets)
  | RDescribeTopicConfigs _ | RDescribeBrokerConfigs _ => withErr (list ResourceConfig)
  | RDescribeAllLogDirs _ => withErr (gmap Z (gmap string DescribedLogDir))
  | RListPartitionReassignments _ => withErr (gmap string (gmap Z PartitionReassignment))
  | ROffsetForLeaderEpoch _ => withErr (gmap string (gmap Z EpochOffset))
  | RShardedListGroups _ => list ListGroupsShard
  | RShardedDescribeLogDirs _ => list LogDirsShard
  | RProbe => withErr bool
  | RRPCSnapshot => option RPCStats
  end.

(** ** Programs *)

(** The channels of one cycle. *)
Inductive chan := metaDone | groupsListed | windowDone | committedDone | endDone.

#[export] Instance chan_eq_dec : EqDecision chan.
Proof. solve_decision. Defined.

Inductive prog (V A : Type) : Type :=
| Ret (a : A)
| Now (k : Z -> prog V A)                        (* time.Now() *)
| Call (r : Request) (k : response r -> prog V A)
| Wait (c : chan) (k : prog V A)                 (* <-c *)
| WaitOrDone (c : chan) (k : prog V A)           (* select { case <-c: case <-ctx.Done(): } *)
| Close (c : chan) (k : prog V A)                (* close(c) *)
| Get (k : V -> prog V A)
| Put (f : V -> V) (k : prog V A).

Arguments Ret {V A}.
Arguments Now {V A}.
Arguments Call {V A}.
Arguments Wait {V A}.
Arguments WaitOrDone {V A}.
Arguments Close {V A}.
Arguments Get {V A}.
Arguments Put {V A}.

Fixpoint prog_bind {V A B} (k : A -> prog V B) (p : prog V A) : prog V B :=
  match p with
  | Ret a => k a
  | Now f => Now (fun t => prog_bind k (f t))
  | Call r f => Call r (fun x => prog_bind k (f x))
  | Wait c p => Wait c (prog_bind k p)
  | WaitOrDone c p => WaitOrDone c (prog_bind k p)
  | Close c p => Close c (prog_bind k p)
  | Get f => Get (fun v => prog_bind k (f v))
  | Put g p => Put g (prog_bind k p)
  end.

#[export] Instance prog_ret {V} : MRet (prog V) := fun A a => Ret a.
#[export] Instance prog_mbind {V} : MBind (prog V) := fun A B k p => prog_bind k p.

Definition now {V} : prog V Z := Now Ret.
Definition call {V} (r : Request) : prog V (response r) := Call r Ret.
Definition wait {V} (c : chan) : prog V () := Wait c (Ret tt).
Definition waitOrDone {V} (c : chan) : prog V () := WaitOrDone c (Ret tt).
Definition close {V} (c : chan) : prog V () := Close c (Ret tt).
Definition get {V} : prog V V := Get Ret.
Definition put {V} (f : V -> V) : prog V () := Put f (Ret tt).

(** [returns Q p]: whatever the clock, the cluster and the other phases do, a
    result of [p] satisfies [Q]. *)
Fixpoint returns {V A} (Q : A -> Prop) (p : prog V A) : Prop :=
  match p with
  | Ret a => Q a
  | Now k => forall t, returns Q (k t)
  | Call r k => forall x, returns Q (k x)
  | Wait _ p | WaitOrDone _ p | Close _ p | Put _ p => returns Q p
  | Get k => forall v, returns Q (k v)
  end.

(** [clocked Q t p]: a phase that shares nothing, begun at [t] or later under a
    clock that never goes back, returns something [Q] holds of from then on. *)
Fixpoint clocked {V A} (Q : Z -> A -> Prop) (t : Z) (p : prog V A) : Prop :=
  match p with
  | Ret a => forall t', t <= t' -> Q t' a
  | Now k => forall t', t <= t' -> clocked Q t' (k t')
  | Call r k => forall x, clocked Q t (k x)
  | Wait _ p | WaitOrDone _ p => clocked Q t p
  | Close _ _ | Get _ | Put _ _ => False
  end.

(** ** Running one phase alone

    The environment answers each request and gives the clock's successive
    readings; [run] returns the phase's result, the requests it issued in order
    and the variables it leaves.  Waits return at once. *)
Record env := mkEnv {
  answer : forall r, response r;
  clock : nat -> Z;
}.

Fixpoint run {V A} (e : env) (p : prog V A) (tick : nat) (v : V) : A * list Request * nat * V :=
  match p with
  | Ret a => (a, [], tick, v)
  | Now k => run e (k (clock e tick)) (S tick) v
  | Call r k =>
      let '(a, rs, tick, v) := run e (k (answer e r)) tick v in (a, r :: rs, tick, v)
  | Wait _ p | WaitOrDone _ p | Close _ p => run e p tick v
  | Get k => run e (k v) tick v
  | Put f p => run e p tick (f v)
  end.

(** The result and the requests of a phase that shares nothing. *)
Definition result {A} (e : env) (p : prog () A) : A := (run e p 0 tt).1.1.1.
Definition requests {A} (e : env) (p : prog () A) : list Request := (run e p 0 tt).1.1.2.

(** A cluster that answers every request with nothing, for evaluating the model. *)
Definition empty_answer (r : Request) : response r :=
  match r with
  | RMetadata => (mkMetadata "" [] None, None)
  | RListStartOffsets _ | RListCommittedOffsets _ | RListEndOffsets _
  | RListMaxTimestampOffsets _ | RListLocalLogStartOffsets _ | RListLatestRemoteOffsets _
  | RListOffsetsAfterMilli _ _ => (∅, None)
  | RFetchManyOffsets _ => ∅
  | RDescribeGroups _ => (∅, None)
  | RDescribeConsumerGroups _ => (∅, None)
  | RDescribeShareGroups _ => ([], None)
  | RDescribeShareGroupOffsets _ => ([], None)
  | RDescribeTopicConfigs _ | RDescribeBrokerConfigs _ => ([], None)
  | RDescribeAllLogDirs _ => (∅, None)
  | RListPartitionReassignments _ => (∅, None)
  | ROffsetForLeaderEpoch _ => (∅, None)
  | RShardedListGroups _ => []
  | RShardedDescribeLogDirs _ => []
  | RProbe => (false, None)
  | RRPCSnapshot => None
  end.

(** ** Lemmas *)

Lemma run_bind {V A B} e (p : prog V A) (k : A -> prog V B) tick v :
  run e (p ≫= k) tick v =
    let '(a, rs, tick, v) := run e p tick v in
    let '(b, rs', tick, v) := run e (k a) tick v in (b, rs ++ rs', tick, v).
Proof.
  unfold mbind, prog_mbind. revert tick v.
  induction p as [a|f IH|r f IH|c p IH|c p IH|c p IH|f IH|g p IH]; intros tick v; simpl;
    rewrite ?IH; try done.
  - by destruct (run e (k a) tick v) as [[[??]?]?].
  - destruct (run e (f (answer e r)) tick v) as [[[a rs] t] v'].
    by destruct (run e (k a) t v') as [[[??]?]?].
Qed.

Lemma returns_bind {V A B} (Q : B -> Prop) (p : prog V A) (k : A -> prog V B) :
  returns (fun a => returns Q (k a)) p -> returns Q (p ≫= k).
Proof. unfold mbind, prog_mbind. induction p; simpl; auto. Qed.

Lemma returns_impl {V A} (P Q : A -> Prop) (p : prog V A) :
  (forall a, P a -> Q a) -> returns P p -> returns Q p.
Proof. intros H. induction p; simpl; auto. Qed.

Lemma returns_and {V A} (P Q : A -> Prop) (p : prog V A) :
  returns P p -> returns Q p -> returns (fun a => P a /\ Q a) p.
Proof. induction p; simpl; auto. Qed.

(** What always holds of the results holds of the one [run] computes. *)
Lemma returns_run {V A} (Q : A -> Prop) (p : prog V A) e tick v :
  returns Q p -> Q (run e p tick v).1.1.1.
Proof.
  revert tick v. induction p as [a|f IH|r f IH|c p IH|c p IH|c p IH|f IH|g p IH];
    intros tick v H; simpl in *; auto.
  specialize (IH (answer e r) tick v (H _)).
  by destruct (run e (f (answer e r)) tick v) as [[[??]?]?].
Qed.

Lemma result_bind {A B} e (p : prog () A) (k : A -> prog () B) :
  (forall tick v, (run e p tick v) = (result e p, requests e p, tick, v)) ->
  result e (p ≫= k) = result e (k (result e p)) /\
  requests e (p ≫= k) = requests e p ++ requests e (k (result e p)).
Proof.
  intros H. unfold result at 1 2 3, requests at 1 3. rewrite run_bind, H.
  unfold result, requests. by destruct (run e (k _) 0%nat tt) as [[[??]?]?].
Qed.

Lemma returns_ret {V A} (Q : A -> Prop) (a : A) : Q a -> returns (V := V) Q (mret a).
Proof. done. Qed.

Lemma returns_any {V A} (Q : A -> Prop) (p : prog V A) : (forall a, Q a) -> returns Q p.
Proof. intros H. induction p; simpl; auto. Qed.

Lemma returns_Ret {V A} (Q : A -> Prop) (a : A) : Q a -> returns (V := V) Q (Ret a).
Proof. done. Qed.

Lemma returns_now {V} (Q : Z -> Prop) : (forall t, Q t) -> returns (V := V) Q now.
Proof. done. Qed.

(** Walks a phase to its results. *)
Ltac phase :=
  repeat match goal with
  | |- returns _ (mbind _ _) => apply returns_bind
  | |- returns _ (mret _) => apply returns_ret; cbv beta
  | |- returns _ (Ret _) => apply returns_Ret; cbv beta
  | |- returns _ now => apply returns_now; intros ?; cbv beta
  | |- returns _ (call _) => intros ?; cbv beta
  | |- returns _ (let '(_, _) := ?x in _) => destruct x eqn:?
  | |- returns _ (if ?x then _ else _) => destruct x eqn:?
  | |- returns _ (match ?x with _ => _ end) => destruct x eqn:?
  end.

Lemma clocked_later {V A} (Q : Z -> A -> Prop) t t' (p : prog V A) : t <= t' -> clocked Q t p -> clocked Q t' p.
Proof.
  revert t t'. induction p as [a|k IH|r k IH|c p IH|c p IH|c p IH|k IH|f p IH]; intros t t' Ht Hp; simpl in *; eauto.
  - intros t1 Ht1. apply Hp. lia.
  - intros t1 Ht1. apply Hp. lia.
Qed.

Lemma clocked_impl {V A} (Q R : Z -> A -> Prop) t (p : prog V A) :
  (forall t' a, t <= t' -> Q t' a -> R t' a) -> clocked Q t p -> clocked R t p.
Proof.
  revert t. induction p as [a|k IH|r k IH|c p IH|c p IH|c p IH|k IH|f p IH]; intros t HQ Hp; simpl in *; eauto.
  intros t' Ht. eapply IH; [|by apply Hp]. intros t1 a Ht1. apply HQ. lia.
Qed.

Lemma clocked_bind {V A B} (Q : Z -> B -> Prop) t (p : prog V A) (k : A -> prog V B) :
  clocked (fun t a => clocked Q t (k a)) t p -> clocked Q t (p ≫= k).
Proof.
  revert t. induction p as [a|f IH|r f IH|c p IH|c p IH|c p IH|f IH|g p IH]; intros t Hp; simpl in *; eauto.
  apply Hp. lia.
Qed.

(** Walks a phase to its results, with the order of the clock's readings. *)
Ltac timed :=
  repeat match goal with
  | |- clocked _ _ (mbind _ _) => apply clocked_bind
  | |- clocked _ _ (mret _) => intros ? ?; cbv beta
  | |- clocked _ _ (Ret _) => intros ? ?; cbv beta
  | |- clocked _ _ now => intros ? ? ? ?; cbv beta
  | |- clocked _ _ (call _) => intros ? ? ?; cbv beta
  | |- clocked _ _ (wait _) => intros ? ?; cbv beta
  | |- clocked _ _ (waitOrDone _) => intros ? ?; cbv beta
  | |- clocked _ _ (let '(_, _) := ?x in _) => destruct x eqn:?
  | |- clocked _ _ (if ?x then _ else _) => destruct x eqn:?
  | |- clocked _ _ (match ?x with _ => _ end) => destruct x eqn:?
  end.

Lemma run_call {V} e r tick (v : V) : run e (call r) tick v = (answer e r, [r], tick, v).
Proof. done. Qed.

Lemma run_now_bind {V B} e (k : Z -> prog V B) tick v :
  run e (now ≫= k) tick v = run e (k (clock e tick)) (S tick) v.
Proof. done. Qed.

Lemma run_call_bind {V B} e r (k : response r -> prog V B) tick v :
  run e (call r ≫= k) tick v =
    let '(b, rs, tick, v) := run e (k (answer e r)) tick v in (b, r :: rs, tick, v).
Proof. done. Qed.

Lemma run_ret {V A} e (a : A) tick (v : V) : run e (mret a) tick v = (a, [], tick, v).
Proof. done. Qed.

(** Executes the effect a phase starts with. *)
Ltac run_step :=
  match goal with
  | |- context C [@run ?V ?B ?e (@mbind ?P ?I ?A ?B1 ?k ?m) ?tick ?v] =>
      lazymatch m with
      | call ?r =>
          let g := context C [let '(b0, rs0, tick0, v0) := @run V B e (k (answer e r)) tick v in
                              (b0, r :: rs0, tick0, v0)] in change g
      | now => let g := context C [@run V B e (k (clock e tick)) (S tick) v] in change g
      end
  end; cbv beta zeta.
