(* ===== verification/Collector.v ===== *)
(** * Collector: the collector's configuration
      ([Options], [Collector] and [New] of [internal/collector/collector.go]) *)

From Stdlib Require Import ZArith Lia.
From stdpp Require Import prelude gmap strings numbers.
From S2P Require Import Prelude Wire Sections Filter.

Record Options := mkOptions {
  o_Timeout : Z;
  o_IncludeInternalTopics : bool;
  o_TopicInclude : list string;
  o_TopicExclude : list string;
  o_GroupInclude : list string;
  o_GroupExclude : list string;
  o_GroupStates : list string;
  o_CollectConsumerGroups : bool;
  o_CollectLastStableOffset : bool;
  o_CollectLogDirs : bool;
  o_LogDirsEvery : Z;
  o_CollectThroughputWindow : bool;
  o_ThroughputWindowWidth : Z;
  o_ThroughputWindowEvery : Z;
  o_CollectMaxTimestamp : bool;
  o_CollectTieredOffsets : bool;
  o_CollectLatestTiered : bool;
  o_CollectShareGroups : bool;
  o_CollectConfigs : bool;
  o_ConfigsEvery : Z;
  o_MaxTimestampEvery : Z;
  o_CollectReassignments : bool;
  o_CollectEpochProbes : bool;
  o_Limits : Limits;
}.

(** [Collector], less its mutable fields: the cycle counter and the answered
    leader-epoch questions are variables of the cycle. *)
Record Collector := mkCollector {
  c_opts : Options;
  c_topics : option filter;
  c_groups : option filter;
  c_limits : Limits;
}.

(** [New] fails exactly when a filter does not compile. *)
Definition New `{!Regexp} (o : Options) : option Collector :=
  match newFilter (o_TopicInclude o) (o_TopicExclude o) with
  | None => None
  | Some topics =>
      match newFilter (o_GroupInclude o) (o_GroupExclude o) with
      | None => None
      | Some groups => Some (mkCollector o (Some topics) (Some groups) (o_Limits o))
      end
  end.

(** [c.newSection]: a section carrying the collector's limits. *)
Definition c_newSection (c : Collector) (n : string) (now : Z) : section :=
  newSectionAt (c_limits c) n now.

Definition Options_selection (o : Options) : option Selection :=
  selection (o_TopicInclude o) (o_TopicExclude o) (o_GroupInclude o) (o_GroupExclude o)
    (o_GroupStates o) (o_IncludeInternalTopics o).

(** Options that collect everything, with no filter, for evaluating the model. *)
Definition sample_opts : Options :=
  mkOptions 0 false [] [] [] [] [] true true true 24 true 300000000000 1 true true true true true
    360 12 true true (mkLimits 1000 3).

Definition sample_collector : Collector :=
  mkCollector sample_opts (Some (mkFilter [] [])) (Some (mkFilter [] [])) (mkLimits 1000 3).

#[export] Hint Extern 1 (sec_at _ _ _ (c_newSection _ _ _)) => apply sec_at_new; lia : go.
