(* ===== verification/Topics.v ===== *)
(** * Topics: cluster metadata and the offset chain
      ([internal/collector/metadata.go], [nullableOffset] of
      [internal/collector/offsets.go])

    The topics phase owns six sections; the Go code passes pointers to them
    around, so the shaping of topics threads the record of the six,
    [topicSections], and a pointer to one of them is a [flavour]. *)

From Stdlib Require Import ZArith Lia.
From stdpp Require Import prelude gmap strings numbers.
From S2P Require Import Prelude Wire Errors Sections Filter Kadm Collector.

(** A negative or failed offset is not an offset. *)
Definition nullableOffset (v : Z) (err : option goerr) : option Z :=
  match err with
  | Some _ => None
  | None => if v <? 0 then None else Some v
  end.

Record topicSections := mkTopicSections {
  starts : section;
  lso : section;
  end_ : section;
  maxTS : section;
  local : section;
  remote : section;
}.

Inductive flavour := Starts | Lso | End_ | MaxTS | Local | Remote.

#[export] Instance flavour_eq_dec : EqDecision flavour.
Proof. solve_decision. Defined.

Definition sec_of (f : flavour) (ts : topicSections) : section :=
  match f with
  | Starts => starts ts | Lso => lso ts | End_ => end_ ts
  | MaxTS => maxTS ts | Local => local ts | Remote => remote ts
  end.

Definition set_sec (f : flavour) (s : section) (ts : topicSections) : topicSections :=
  match f with
  | Starts => mkTopicSections s (lso ts) (end_ ts) (maxTS ts) (local ts) (remote ts)
  | Lso => mkTopicSections (starts ts) s (end_ ts) (maxTS ts) (local ts) (remote ts)
  | End_ => mkTopicSections (starts ts) (lso ts) s (maxTS ts) (local ts) (remote ts)
  | MaxTS => mkTopicSections (starts ts) (lso ts) (end_ ts) s (local ts) (remote ts)
  | Local => mkTopicSections (starts ts) (lso ts) (end_ ts) (maxTS ts) s (remote ts)
  | Remote => mkTopicSections (starts ts) (lso ts) (end_ ts) (maxTS ts) (local ts) s
  end.

(** Runs a section's method through the pointer [f]. *)
Definition on {A} (f : flavour) (m : section -> A * section) : St topicSections A :=
  fun ts => let '(a, s) := m (sec_of f ts) in (a, set_sec f s ts).

Definition on_ (f : flavour) (m : section -> section) : St topicSections () :=
  fun ts => (tt, set_sec f (m (sec_of f ts)) ts).

Record offsetSample := mkOffsetSample {
  os_api : string;
  os_sec : flavour;
  os_listed : ListedOffsets;
  os_ok : bool;
  os_here : bool;
}.

Section topics.
Context `{!KerrCodes} `{!Kadm}.

Definition topicListed (api : string) (listed : ListedOffsets) (topic : string) (sec : section)
    : bool * section :=
  match listed !! topic with
  | Some _ => (true, sec)
  | None => (false, recordTopic api topic errTopicNotListed sec)
  end.

(** [ListedOffsets.Lookup]. *)
Definition Lookup (listed : ListedOffsets) (topic : string) (partition : Z) : option ListedOffset :=
  ps ← listed !! topic; ps !! partition.

Definition lookupOffset (api : string) (listed : ListedOffsets) (topic : string) (partition : Z)
    (sec : section) : (option Z * option goerr) * section :=
  match Lookup listed topic partition with
  | None => ((None, Some errNotListed), recordPartition api topic partition errNotListed sec)
  | Some o =>
      match nullableOffset (lo_Offset o) (lo_Err o) with
      | Some v => ((Some v, None), sec)
      | None =>
          let err := default errNegativeOffset (lo_Err o) in
          ((None, Some err), recordPartition api topic partition err sec)
      end
  end.

Definition enter (topic : string) (s : offsetSample) : St topicSections offsetSample :=
  here ← (if os_ok s then on (os_sec s) (topicListed (os_api s) (os_listed s) topic) else mret false);
  mret (mkOffsetSample (os_api s) (os_sec s) (os_listed s) (os_ok s) here).

Definition lookup_ (topic : string) (partition : Z) (s : offsetSample)
    : St topicSections (option Z * option goerr) :=
  if negb (os_here s) then mret (None, None)
  else on (os_sec s) (lookupOffset (os_api s) (os_listed s) topic partition).

(** One partition's answer to ListOffsets(-3). *)
Definition maxTimestamp (topic : string) (partition : Z) (s : offsetSample)
    : St topicSections (option MaxTimestampOffset) :=
  if negb (os_here s) then mret None
  else
    match Lookup (os_listed s) topic partition with
    | None => mret None
    | Some lo =>
        match lo_Err lo with
        | Some err =>
            on_ (os_sec s) (recordPartition (os_api s) topic partition err) ;;
            mret (Some (mkMaxTimestampOffset None None (lo_LeaderEpoch lo) (errorCode (Some err))))
        | None =>
            mret (Some (mkMaxTimestampOffset
              (if 0 <=? lo_Offset lo then Some (lo_Offset lo) else None)
              (if 0 <=? lo_Timestamp lo then Some (lo_Timestamp lo) else None)
              (lo_LeaderEpoch lo) 0))
        end
    end.

(** [if err != nil && part.ErrorCode == 0 { part.ErrorCode = errorCode(err) }]. *)
Definition firstCode (err : option goerr) (code : Z) : Z :=
  match err with
  | Some e => if code =? 0 then errorCode (Some e) else code
  | None => code
  end.

Record samples := mkSamples {
  s_starts : offsetSample;
  s_lsos : offsetSample;
  s_ends : offsetSample;
  s_maxTS : offsetSample;
  s_locals : offsetSample;
  s_remotes : offsetSample;
}.

(** The body of [buildTopic]'s loop over the partitions. *)
Definition buildPartition (topic : string) (ss : samples) (p : PartitionDetail)
    : St topicSections Partition :=
  code0 ← match pd_Err p with
          | Some e =>
              on_ Starts (recordPartition "Metadata" topic (pd_Partition p) e) ;;
              mret (errorCode (Some e))
          | None => mret 0
          end;
  '(startOffset, err1) ← lookup_ topic (pd_Partition p) (s_starts ss);
  let code1 := firstCode err1 code0 in
  '(lsOffset, err2) ← lookup_ topic (pd_Partition p) (s_lsos ss);
  let code2 := firstCode err2 code1 in
  '(endOffset, err3) ← lookup_ topic (pd_Partition p) (s_ends ss);
  let code3 := firstCode err3 code2 in
  mt ← (if os_here (s_maxTS ss) then maxTimestamp topic (pd_Partition p) (s_maxTS ss)
        else mret None);
  tiered ← (if os_here (s_locals ss) || os_here (s_remotes ss) then
              '(l, _) ← lookup_ topic (pd_Partition p) (s_locals ss);
              '(r, _) ← lookup_ topic (pd_Partition p) (s_remotes ss);
              mret (Some (mkTieredOffsets l r))
            else mret None);
  mret (mkPartition (pd_Partition p) (pd_Leader p) (pd_LeaderEpoch p) (pd_Replicas p) (pd_ISR p)
    (pd_OfflineReplicas p) startOffset endOffset lsOffset mt tiered None code3).

(** The minimum replica count over the partitions that loaded. *)
Definition replicationFactor (parts : list PartitionDetail) : Z :=
  (foldl (fun '(lowest, seen) p =>
     match pd_Err p with
     | Some _ => (lowest, seen)
     | None =>
         let n := Z.of_nat (length (pd_Replicas p)) in
         if negb seen || (n <? lowest) then (n, true) else (lowest, seen)
     end) (0, false) parts).1.

Definition buildTopic (ss : samples) (td : TopicDetail) : St topicSections TopicMetrics :=
  code ← match td_Err td with
         | Some e =>
             on_ Starts (recordTopic "Metadata" (td_Topic td) e) ;; mret (errorCode (Some e))
         | None => mret 0
         end;
  let parts := partitionsSorted (td_Partitions td) in
  st ← enter (td_Topic td) (s_starts ss);
  ls ← enter (td_Topic td) (s_lsos ss);
  en ← enter (td_Topic td) (s_ends ss);
  mx ← enter (td_Topic td) (s_maxTS ss);
  lc ← enter (td_Topic td) (s_locals ss);
  rm ← enter (td_Topic td) (s_remotes ss);
  partitions ← traverseM (buildPartition (td_Topic td) (mkSamples st ls en mx lc rm)) parts;
  mret (mkTopicMetrics (td_Topic td) (default "" (td_ID td)) (td_IsInternal td)
    (Z.of_nat (length parts)) (replicationFactor parts) partitions code).

(** ** Selection *)

Definition selectTopics (tds : TopicDetails) (f : option filter) (includeInternal : bool)
    : list TopicDetail :=
  base.filter (fun td => Is_true (negb (td_IsInternal td && negb includeInternal) && allow f (td_Topic td)))
    (topicsSorted tds).

(** A nil map reads as the empty one. *)
Definition internalTopics (tds : option TopicDetails) : gmap string bool :=
  match tds with
  | None => ∅
  | Some tds => (fun _ => true) <$> base.filter (fun kv => Is_true (td_IsInternal kv.2)) tds
  end.

(** ** The phases *)

Definition collectCluster {V} (c : Collector)
    : prog V (option ClusterMetrics * option TopicDetails * section) :=
  t ← now;
  '(meta, err) ← call RMetadata;
  let '(usable, sec) := request "Metadata" err (c_newSection c sectionCluster t) in
  t' ← now;
  if negb usable then mret (None, None, stop t' sec)
  else
    let brokers := (fun b => mkBroker (bd_NodeID b) (bd_Host b) (bd_Port b) (bd_Rack b))
                     <$> md_Brokers meta in
    mret (Some (mkClusterMetrics (md_Cluster meta) (Z.of_nat (length brokers)) brokers None),
          md_Topics meta, stop t' sec).

(** [skipped]: the five later sections of a path that never reached them. *)
Definition skippedSection {V} (c : Collector) (n : string) : prog V section :=
  t ← now; t' ← now; mret (stop t' (downgrade SectionSkipped (c_newSection c n t))).

Definition skipped {V} (c : Collector) (sec : section) : prog V topicSections :=
  l ← skippedSection c sectionTopicsLSO;
  e ← skippedSection c sectionTopicsEnd;
  m ← skippedSection c sectionTopicsMaxTS;
  lc ← skippedSection c sectionTopicsLocal;
  r ← skippedSection c sectionTopicsRemote;
  mret (mkTopicSections sec l e m lc r).

(** One later listing of the topics phase: the section is stamped immediately
    before its own request, and is skipped when [run_] is false. *)
Definition listing {V} (c : Collector) (n api : string) (run_ : bool)
    (ask : prog V (withErr ListedOffsets)) : prog V (ListedOffsets * bool * section) :=
  t ← now;
  let sec := c_newSection c n t in
  '(listed, ok, sec) ←
    (if run_ then
       '(listed, err) ← ask;
       let '(ok, sec) := requestPartial api err (0 <? Z.of_nat (size listed)) sec in
       mret (listed, ok, sec)
     else mret (∅, false, downgrade SectionSkipped sec));
  t' ← now;
  mret (listed, ok, stop t' sec).

Definition stopStarts (t : Z) (ts : topicSections) : topicSections :=
  set_sec Starts (stop t (starts ts)) ts.

Definition waitAll {V} (before : list chan) : prog V () :=
  foldr (fun c p => waitOrDone c ;; p) (mret tt) before.

Definition collectTopics {V} (c : Collector) (tds : option TopicDetails) (runMaxTS : bool)
    (before : list chan) : prog V (slice TopicMetrics * topicSections) :=
  t ← now;
  let sec := c_newSection c sectionTopics t in
  match tds with
  | None =>
      ts ← skipped c (downgrade SectionSkipped sec);
      t' ← now;
      mret (None, stopStarts t' ts)
  | Some tds =>
      let selected := selectTopics tds (c_topics c) (o_IncludeInternalTopics (c_opts c)) in
      if bool_decide (selected = []) then
        ts ← skipped c sec;
        t' ← now;
        mret (None, stopStarts t' ts)
      else
        let names := td_Topic <$> selected in
        '(startsL, err) ← call (RListStartOffsets names);
        let '(startsOK, sec) := requestPartial "ListStartOffsets" err (0 <? Z.of_nat (size startsL)) sec in
        waitAll before ;;
        '(lsosL, lsosOK, lsoSec) ← listing c sectionTopicsLSO "ListCommittedOffsets"
           (o_CollectLastStableOffset (c_opts c)) (call (RListCommittedOffsets names));
        '(endsL, endsOK, endSec) ← listing c sectionTopicsEnd "ListEndOffsets" true
           (call (RListEndOffsets names));
        '(maxL, maxOK, maxSec) ← listing c sectionTopicsMaxTS "ListMaxTimestampOffsets" runMaxTS
           (call (RListMaxTimestampOffsets names));
        '(localsL, localsOK, localSec) ← listing c sectionTopicsLocal "ListLocalLogStartOffsets"
           (o_CollectTieredOffsets (c_opts c)) (call (RListLocalLogStartOffsets names));
        '(remotesL, remotesOK, remoteSec) ← listing c sectionTopicsRemote "ListLatestRemoteOffsets"
           (o_CollectTieredOffsets (c_opts c) && o_CollectLatestTiered (c_opts c))
           (call (RListLatestRemoteOffsets names));
        let ss := mkSamples
          (mkOffsetSample "ListStartOffsets" Starts startsL startsOK false)
          (mkOffsetSample "ListCommittedOffsets" Lso lsosL lsosOK false)
          (mkOffsetSample "ListEndOffsets" End_ endsL endsOK false)
          (mkOffsetSample "ListMaxTimestampOffsets" MaxTS maxL maxOK false)
          (mkOffsetSample "ListLocalLogStartOffsets" Local localsL localsOK false)
          (mkOffsetSample "ListLatestRemoteOffsets" Remote remotesL remotesOK false) in
        let '(topics, ts) := traverseM (buildTopic ss) selected
          (mkTopicSections sec lsoSec endSec maxSec localSec remoteSec) in
        t' ← now;
        mret (Some topics, stopStarts t' ts)
  end.

End topics.

(** A cluster of one topic whose end offset cannot be listed, for the witnesses. *)
Definition sample_topics : TopicDetails :=
  {["t" := mkTopicDetail "t" None false {[0 := mkPartitionDetail 0 1 4 [1; 2] [1] [] None]} None]}.

Definition sample_env : env := mkEnv
  (fun r => match r with
            | RListStartOffsets _ => ({["t" := {[0 := mkListedOffset 0 (-1) 5 4 None]}]}, None)
            | RListCommittedOffsets _ => ({["t" := {[0 := mkListedOffset 0 (-1) 9 4 None]}]}, None)
            | RListEndOffsets _ =>
                ({["t" := {[0 := mkListedOffset 0 (-1) (-1) 4 (Some (KError "NOT_LEADER" 6))]}]}, None)
            | r => empty_answer r
            end) Z.of_nat.

(** ** Specification of one sample

    What a sample says of a partition, whatever was recorded before: the broker's
    offset when the request was usable, the topic and the partition were listed,
    without error and not negative; and the error, if the sample covers the topic. *)
Definition covers (s : offsetSample) (topic : string) : bool :=
  os_ok s && bool_decide (is_Some (os_listed s !! topic)).

Definition sample_offset (s : offsetSample) (topic : string) (p : Z) : option Z :=
  if covers s topic then
    o ← Lookup (os_listed s) topic p; nullableOffset (lo_Offset o) (lo_Err o)
  else None.

Definition sample_error (s : offsetSample) (topic : string) (p : Z) : option goerr :=
  if covers s topic then
    match Lookup (os_listed s) topic p with
    | None => Some errNotListed
    | Some o =>
        match lo_Err o with
        | Some e => Some e
        | None => if lo_Offset o <? 0 then Some errNegativeOffset else None
        end
    end
  else None.

Definition nonneg (z : Z) : option Z := if z <? 0 then None else Some z.

#[export] Instance MaxTimestampOffset_eq_dec : EqDecision MaxTimestampOffset.
Proof. solve_decision. Defined.

Definition newest (o : ListedOffset) : MaxTimestampOffset :=
  mkMaxTimestampOffset (nonneg (lo_Offset o)) (nonneg (lo_Timestamp o)) (lo_LeaderEpoch o) 0.

Definition sample_newest (s : offsetSample) (topic : string) (p : Z) : option MaxTimestampOffset :=
  if covers s topic then
    (fun o => match lo_Err o with
              | Some e => mkMaxTimestampOffset None None (lo_LeaderEpoch o) (errorCode (Some e))
              | None => newest o
              end) <$> Lookup (os_listed s) topic p
  else None.

(** The first failure that carries a code. *)
Definition first_code (errs : list (option goerr)) : Z :=
  foldl (fun code e => firstCode e code) 0 errs.

(** What a partition of [topics[]] must say of one partition of the metadata. *)
Record partition_spec (ss : samples) (topic : string) (p : PartitionDetail) (q : Partition) : Prop := {
  ps_id : p_ID q = pd_Partition p;
  ps_leader : p_Leader q = pd_Leader p /\ p_LeaderEpoch q = pd_LeaderEpoch p;
  ps_replicas : p_Replicas q = pd_Replicas p /\ p_ISR q = pd_ISR p /\
    p_OfflineReplicas q = pd_OfflineReplicas p;
  ps_start : p_StartOffset q = sample_offset (s_starts ss) topic (pd_Partition p);
  ps_lso : p_LastStableOffset q = sample_offset (s_lsos ss) topic (pd_Partition p);
  ps_end : p_EndOffset q = sample_offset (s_ends ss) topic (pd_Partition p);
  ps_tiered : p_Tiered q =
    (if covers (s_locals ss) topic || covers (s_remotes ss) topic then
       Some (mkTieredOffsets (sample_offset (s_locals ss) topic (pd_Partition p))
               (sample_offset (s_remotes ss) topic (pd_Partition p)))
     else None);
  ps_maxTS : p_MaxTimestamp q = sample_newest (s_maxTS ss) topic (pd_Partition p);
  ps_window : p_Window q = None;
  ps_code : p_ErrorCode q =
    first_code [pd_Err p; sample_error (s_starts ss) topic (pd_Partition p);
      sample_error (s_lsos ss) topic (pd_Partition p);
      sample_error (s_ends ss) topic (pd_Partition p)];
}.

(** What a listing request leaves usable, and the sample it becomes. *)
Definition usable `{!KerrCodes} (x : withErr ListedOffsets) : bool :=
  from_option outcome_usable true x.2 || (0 <? Z.of_nat (size x.1)).

Definition sampled `{!KerrCodes} (api : string) (f : flavour) (run_ : bool) (x : withErr ListedOffsets) : offsetSample :=
  mkOffsetSample api f (if run_ then x.1 else ∅) (run_ && usable x) false.

(** The samples one cycle's answers amount to. *)
Definition samples_of `{!KerrCodes} (e : env) (c : Collector) (runMaxTS : bool) (names : list string) : samples :=
  mkSamples
    (sampled "ListStartOffsets" Starts true (answer e (RListStartOffsets names)))
    (sampled "ListCommittedOffsets" Lso (o_CollectLastStableOffset (c_opts c))
       (answer e (RListCommittedOffsets names)))
    (sampled "ListEndOffsets" End_ true (answer e (RListEndOffsets names)))
    (sampled "ListMaxTimestampOffsets" MaxTS runMaxTS (answer e (RListMaxTimestampOffsets names)))
    (sampled "ListLocalLogStartOffsets" Local (o_CollectTieredOffsets (c_opts c))
       (answer e (RListLocalLogStartOffsets names)))
    (sampled "ListLatestRemoteOffsets" Remote
       (o_CollectTieredOffsets (c_opts c) && o_CollectLatestTiered (c_opts c))
       (answer e (RListLatestRemoteOffsets names))).

(** What a topic of [topics[]] must say of one topic of the metadata. *)
Record topic_spec `{!Kadm} (ss : samples) (td : TopicDetail) (tm : TopicMetrics) : Prop := {
  ts_name : tm_Name tm = td_Topic td;
  ts_id : tm_ID tm = default "" (td_ID td);
  ts_internal : tm_Internal tm = td_IsInternal td;
  ts_code : tm_ErrorCode tm = errorCode (td_Err td);
  ts_count : tm_PartitionCount tm = Z.of_nat (length (tm_Partitions tm));
  ts_rf : tm_ReplicationFactor tm = replicationFactor (partitionsSorted (td_Partitions td));
  ts_partitions :
    Forall2 (partition_spec ss (td_Topic td)) (partitionsSorted (td_Partitions td)) (tm_Partitions tm);
}.

(** An invariant of each of the six sections. *)
Definition ts_inv (P : flavour -> section -> Prop) (ts : topicSections) : Prop :=
  forall f, P f (sec_of f ts).

Definition flavour_name (f : flavour) : string :=
  match f with
  | Starts => sectionTopics | Lso => sectionTopicsLSO | End_ => sectionTopicsEnd
  | MaxTS => sectionTopicsMaxTS | Local => sectionTopicsLocal | Remote => sectionTopicsRemote
  end.

Definition ts_at (lo m hi : Z) : topicSections -> Prop :=
  ts_inv (fun f => match f with Starts => sec_at lo m (flavour_name f) | _ => sec_at m hi (flavour_name f) end).

(** The section of flavour [f] is no longer [ok]. *)
Definition degraded (f : flavour) : topicSections -> Prop :=
  ts_inv (fun g s => g = f -> status s <> SectionOK).

(** What the shaping of topics needs of an invariant: every recorder keeps it. *)
Class Recorded (P : flavour -> section -> Prop) : Prop := { #[global] recorded_kept f :: Kept (P f) }.

(** The requests the topics phase may issue, in its order. *)
Definition topics_requests (c : Collector) (runMaxTS : bool) (names : list string) : list Request :=
  [RListStartOffsets names] ++
  (if o_CollectLastStableOffset (c_opts c) then [RListCommittedOffsets names] else []) ++
  [RListEndOffsets names] ++
  (if runMaxTS then [RListMaxTimestampOffsets names] else []) ++
  (if o_CollectTieredOffsets (c_opts c) then [RListLocalLogStartOffsets names] else []) ++
  (if o_CollectTieredOffsets (c_opts c) && o_CollectLatestTiered (c_opts c)
   then [RListLatestRemoteOffsets names] else []).

Section lemmas.
Context `{!KerrCodes} `{!Kadm}.

(** ** Lemmas on the six sections *)

Lemma sec_set_sec f g s ts : sec_of f (set_sec g s ts) = if decide (f = g) then s else sec_of f ts.
Proof. destruct f, g; reflexivity || (case_decide; [done|reflexivity]) || (case_decide; [reflexivity|done]). Qed.

Lemma on_inv {A} P f (m : section -> A * section) :
  (forall s, P f s -> P f (m s).2) -> preserves (ts_inv P) (on f m).
Proof.
  intros Hm ts Hts g. unfold on. specialize (Hm (sec_of f ts) (Hts f)).
  destruct (m (sec_of f ts)) as [a s]. simpl in *. rewrite sec_set_sec. case_decide; [by subst|apply Hts].
Qed.

Lemma on__inv P f (m : section -> section) :
  (forall s, P f s -> P f (m s)) -> preserves (ts_inv P) (on_ f m).
Proof.
  intros Hm ts Hts g. unfold on_. simpl. rewrite sec_set_sec. case_decide; [subst; apply Hm, Hts|apply Hts].
Qed.

#[export] Instance ts_at_recorded lo m hi :
  Recorded (fun f => match f with Starts => sec_at lo m (flavour_name f) | _ => sec_at m hi (flavour_name f) end).
Proof. split. intros []; apply _. Qed.

#[export] Instance partial_recorded f : Recorded (fun g s => g = f -> status s <> SectionOK).
Proof. split. intros g. apply (kept_when (g = f) (fun s => status s <> SectionOK)). Qed.

Section recorded.
Context (P : flavour -> section -> Prop) `{!Recorded P}.

Lemma topicListed_inv f api listed topic s : P f s -> P f (topicListed api listed topic s).2.
Proof. intros Hs. unfold topicListed. destruct (listed !! topic); [done|]. by apply (kept_topic (P _)). Qed.

Lemma lookupOffset_inv f api listed topic p s : P f s -> P f (lookupOffset api listed topic p s).2.
Proof.
  intros Hs. unfold lookupOffset. destruct (Lookup listed topic p) as [o|]; [|by apply (kept_partition (P _))].
  destruct (nullableOffset _ _); [done|]. by apply (kept_partition (P _)).
Qed.

Lemma enter_inv topic s : preserves (ts_inv P) (enter topic s).
Proof.
  apply preserves_bind; [|intros; apply preserves_ret]. destruct (os_ok s); [|apply preserves_ret].
  apply on_inv. intros. by apply topicListed_inv.
Qed.

Lemma lookup_inv topic p s : preserves (ts_inv P) (lookup_ topic p s).
Proof.
  unfold lookup_. destruct (negb _); [apply preserves_ret|]. apply on_inv. intros. by apply lookupOffset_inv.
Qed.

Lemma maxTimestamp_inv topic p s : preserves (ts_inv P) (maxTimestamp topic p s).
Proof.
  unfold maxTimestamp. destruct (negb _); [apply preserves_ret|].
  destruct (Lookup _ _ _) as [lo|]; [|apply preserves_ret]. destruct (lo_Err lo); [|apply preserves_ret].
  apply preserves_bind; [|intros; apply preserves_ret]. apply on__inv. intros. by apply (kept_partition (P _)).
Qed.

End recorded.

(** Walks a stateful definition, discharging its primitive steps. *)
Ltac preserve :=
  repeat match goal with
  | |- preserves _ (let '(_, _) := ?x in _) => destruct x
  | |- preserves _ (mbind _ _) => apply preserves_bind; [|intros ?]
  | |- preserves _ (mret _) => apply preserves_ret
  | |- preserves _ (enter _ _) => apply enter_inv; apply _
  | |- preserves _ (lookup_ _ _ _) => apply lookup_inv; apply _
  | |- preserves _ (maxTimestamp _ _ _) => apply maxTimestamp_inv; apply _
  | |- preserves _ (traverseM _ _) => apply preserves_traverse; intros ?
  | |- preserves _ (on_ _ (recordTopic _ _ _)) => apply on__inv; intros; by kept1
  | |- preserves _ (on_ _ (recordPartition _ _ _ _)) => apply on__inv; intros; by kept1
  | |- preserves _ (match ?x with _ => _ end) => destruct x
  end.

Lemma buildPartition_inv P `{!Recorded P} topic ss p : preserves (ts_inv P) (buildPartition topic ss p).
Proof. unfold buildPartition. preserve. Qed.

Lemma buildTopic_inv P `{!Recorded P} ss td : preserves (ts_inv P) (buildTopic ss td).
Proof. unfold buildTopic. preserve. by apply buildPartition_inv. Qed.

(** ** Lemmas on the values *)

Definition entered (topic : string) (s : offsetSample) : offsetSample :=
  mkOffsetSample (os_api s) (os_sec s) (os_listed s) (os_ok s) (covers s topic).

Lemma on_fst {A} f (m : section -> A * section) ts : (on f m ts).1 = (m (sec_of f ts)).1.
Proof. unfold on. by destruct (m (sec_of f ts)). Qed.

Lemma enter_fst topic s ts : (enter topic s ts).1 = entered topic s.
Proof.
  unfold enter, entered, covers. rewrite St_bind_eq. simpl. f_equal.
  destruct (os_ok s); [|done]. rewrite on_fst. unfold topicListed. simpl.
  destruct (os_listed s !! topic) eqn:E; [rewrite bool_decide_true by eauto; done|].
  rewrite bool_decide_false; [done|]. by intros [? ?].
Qed.

Lemma lookup_fst topic p s ts :
  (lookup_ topic p (entered topic s) ts).1 = (sample_offset s topic p, sample_error s topic p).
Proof.
  unfold lookup_, sample_offset, sample_error, entered. simpl. destruct (covers s topic); [|done].
  simpl. rewrite on_fst. unfold lookupOffset. destruct (Lookup (os_listed s) topic p) as [o|]; [|done].
  simpl. unfold nullableOffset. destruct (lo_Err o); [done|]. by destruct (lo_Offset o <? 0).
Qed.

Definition enteredAll (topic : string) (ss : samples) : samples :=
  mkSamples (entered topic (s_starts ss)) (entered topic (s_lsos ss)) (entered topic (s_ends ss))
    (entered topic (s_maxTS ss)) (entered topic (s_locals ss)) (entered topic (s_remotes ss)).

Lemma maxTimestamp_fst topic p s ts :
  (maxTimestamp topic p (entered topic s) ts).1 = sample_newest s topic p.
Proof.
  unfold maxTimestamp, sample_newest, entered. simpl. destruct (covers s topic); [|done]. simpl.
  destruct (Lookup (os_listed s) topic p) as [o|]; [|done]. simpl.
  destruct (lo_Err o); [by rewrite St_bind_eq|]. unfold newest, nonneg. simpl.
  by destruct (Z.leb_spec 0 (lo_Offset o)), (Z.ltb_spec (lo_Offset o) 0), (Z.leb_spec 0 (lo_Timestamp o)),
    (Z.ltb_spec (lo_Timestamp o) 0); try lia.
Qed.

Lemma buildPartition_spec topic ss p ts :
  partition_spec ss topic p (buildPartition topic (enteredAll topic ss) p ts).1.
Proof.
  unfold buildPartition, enteredAll. cbn [s_starts s_lsos s_ends s_maxTS s_locals s_remotes].
  rewrite St_bind_eq.
  set (m0 := match pd_Err p with Some _ => _ | None => _ end).
  assert ((m0 ts).1 = firstCode (pd_Err p) 0) as ->.
  { subst m0. destruct (pd_Err p); [by rewrite St_bind_eq|done]. }
  generalize (m0 ts).2. clear m0 ts. intros ts.
  rewrite St_bind_eq, lookup_fst. generalize (lookup_ topic (pd_Partition p) (entered topic (s_starts ss)) ts).2.
  clear ts. intros ts. rewrite St_bind_eq, lookup_fst.
  generalize (lookup_ topic (pd_Partition p) (entered topic (s_lsos ss)) ts).2.
  clear ts. intros ts. rewrite St_bind_eq, lookup_fst.
  generalize (lookup_ topic (pd_Partition p) (entered topic (s_ends ss)) ts).2.
  clear ts. intros ts. rewrite St_bind_eq.
  set (mt := (if os_here (entered topic (s_maxTS ss)) then _ else _)).
  assert ((mt ts).1 = sample_newest (s_maxTS ss) topic (pd_Partition p)) as Hmt.
  { subst mt. destruct (os_here (entered topic (s_maxTS ss))) eqn:E; [apply maxTimestamp_fst|].
    simpl in E. unfold sample_newest. by rewrite E. }
  generalize dependent (mt ts).1. generalize (mt ts).2. clear mt ts. intros ts mt Hmt.
  rewrite St_bind_eq. set (tr := (if os_here _ || _ then _ else _)).
  assert ((tr ts).1 = if covers (s_locals ss) topic || covers (s_remotes ss) topic then
       Some (mkTieredOffsets (sample_offset (s_locals ss) topic (pd_Partition p))
               (sample_offset (s_remotes ss) topic (pd_Partition p))) else None) as Htr.
  { subst tr. simpl. destruct (_ || _); [|done]. rewrite St_bind_eq, lookup_fst, St_bind_eq, lookup_fst. done. }
  generalize dependent (tr ts).1. generalize (tr ts).2. clear tr. intros ts' tr Htr. by split.
Qed.

Lemma buildTopic_fst ss td ts :
  let tm := (buildTopic ss td ts).1 in
  tm_Name tm = td_Topic td /\ tm_ID tm = default "" (td_ID td) /\
  tm_Internal tm = td_IsInternal td /\ tm_ErrorCode tm = errorCode (td_Err td) /\
  tm_PartitionCount tm = Z.of_nat (length (partitionsSorted (td_Partitions td))) /\
  tm_ReplicationFactor tm = replicationFactor (partitionsSorted (td_Partitions td)) /\
  Forall2 (partition_spec ss (td_Topic td)) (partitionsSorted (td_Partitions td)) (tm_Partitions tm).
Proof.
  unfold buildTopic. rewrite St_bind_eq.
  set (m0 := match td_Err td with Some _ => _ | None => _ end).
  assert ((m0 ts).1 = errorCode (td_Err td)) as ->.
  { subst m0. destruct (td_Err td); [by rewrite St_bind_eq|done]. }
  do 7 (rewrite St_bind_eq; rewrite ?enter_fst). simpl.
  split_and!; try done. apply traverseM_Forall2. intros p s _. apply buildPartition_spec.
Qed.

(** ** A null offset leaves a trace *)

Lemma on_partial {A} f (m : section -> A * section) ts :
  status (m (sec_of f ts)).2 <> SectionOK ->
  degraded f (on f m ts).2.
Proof.
  intros Hm g ->. unfold on. destruct (m (sec_of f ts)) as [a s]. simpl in *.
  by rewrite sec_set_sec, decide_True.
Qed.

Lemma enter_partial topic s ts :
  os_ok s = true -> covers s topic = false -> degraded (os_sec s) (enter topic s ts).2.
Proof.
  unfold enter, covers. intros -> Hc. rewrite St_bind_eq. simpl in *. apply on_partial.
  unfold topicListed. destruct (os_listed s !! topic) eqn:E; [|apply add_degraded].
  rewrite bool_decide_true in Hc by eauto. done.
Qed.

Lemma lookup_partial topic p s ts :
  covers s topic = true -> sample_offset s topic p = None ->
  degraded (os_sec s) (lookup_ topic p (entered topic s) ts).2.
Proof.
  unfold sample_offset, lookup_, entered. intros Hc. rewrite Hc. simpl. intros Ho. apply on_partial.
  unfold lookupOffset. destruct (Lookup _ _ _) as [o|]; [|apply add_degraded].
  simpl in Ho. rewrite Ho. apply add_degraded.
Qed.

Lemma reach_now {S A B} (P : S -> Prop) (m : St S A) (k : A -> St S B) s :
  P (m s).2 -> (forall a, preserves P (k a)) -> P ((m ≫= k) s).2.
Proof. intros Hm Hk. rewrite St_bind_eq. by apply Hk. Qed.

Lemma reach_later {S A B} (P : S -> Prop) (m : St S A) (k : A -> St S B) s :
  (forall a s', P (k a s').2) -> P ((m ≫= k) s).2.
Proof. intros Hk. rewrite St_bind_eq. apply Hk. Qed.

(** The five samples read as nullable offsets, and the field each fills. *)
Definition offsets_of (ss : samples) : list (offsetSample * (Partition -> option Z)) :=
  [(s_starts ss, p_StartOffset); (s_lsos ss, p_LastStableOffset); (s_ends ss, p_EndOffset);
   (s_locals ss, fun q => p_Tiered q ≫= to_LocalStartOffset);
   (s_remotes ss, fun q => p_Tiered q ≫= to_RemoteEndOffset)].

Lemma maxTimestamp_partial topic p s ts o e :
  covers s topic = true -> Lookup (os_listed s) topic p = Some o -> lo_Err o = Some e ->
  degraded (os_sec s) (maxTimestamp topic p (entered topic s) ts).2.
Proof.
  unfold maxTimestamp, entered. intros Hc Ho He. simpl. rewrite Hc, Ho, He.
  intros g ->. unfold on_. simpl. rewrite sec_set_sec, decide_True by done. apply add_degraded.
Qed.

Ltac next_read := apply reach_later; intros ? ?.
Ltac this_read lem := apply reach_now; [by lem|intros ?; unfold degraded; preserve].

Lemma buildPartition_partial topic ss p ts sm field :
  (sm, field) ∈ offsets_of ss -> covers sm topic = true ->
  field (buildPartition topic (enteredAll topic ss) p ts).1 = None ->
  degraded (os_sec sm) (buildPartition topic (enteredAll topic ss) p ts).2.
Proof.
  intros Hin Hc Hnone. pose proof (buildPartition_spec topic ss p ts) as Hspec.
  assert (sample_offset sm topic (pd_Partition p) = None) as Ho.
  { destruct Hspec. unfold offsets_of in Hin.
    do 3 (apply elem_of_cons in Hin as [[= -> ->]|Hin]; [congruence|]).
    do 2 (apply elem_of_cons in Hin as [[= -> ->]|Hin];
      [rewrite ps_tiered0, Hc in Hnone; simpl in Hnone; rewrite ?orb_true_r in Hnone; exact Hnone|]).
    by apply elem_of_nil in Hin. }
  clear Hnone Hspec. unfold buildPartition. next_read. unfold offsets_of in Hin.
  apply elem_of_cons in Hin as [[= -> ->]|Hin]; [this_read ltac:(apply lookup_partial)|]. next_read. case_match.
  apply elem_of_cons in Hin as [[= -> ->]|Hin]; [this_read ltac:(apply lookup_partial)|]. next_read. case_match.
  apply elem_of_cons in Hin as [[= -> ->]|Hin]; [this_read ltac:(apply lookup_partial)|]. next_read. case_match.
  next_read. apply reach_now; [|intros ?; unfold degraded; preserve].
  apply elem_of_cons in Hin as [[= -> ->]|Hin].
  { simpl. rewrite Hc. simpl. this_read ltac:(apply lookup_partial). }
  apply elem_of_cons in Hin as [[= -> ->]|Hin]; [|by apply elem_of_nil in Hin].
  simpl. rewrite Hc, orb_true_r. next_read. case_match. this_read ltac:(apply lookup_partial).
Qed.

Lemma buildPartition_newest topic ss p ts o e :
  covers (s_maxTS ss) topic = true -> Lookup (os_listed (s_maxTS ss)) topic (pd_Partition p) = Some o ->
  lo_Err o = Some e ->
  degraded (os_sec (s_maxTS ss)) (buildPartition topic (enteredAll topic ss) p ts).2.
Proof.
  intros Hc Ho He. unfold buildPartition. next_read. do 3 (next_read; case_match).
  apply reach_now; [|intros ?; unfold degraded; preserve].
  simpl. rewrite Hc. by eapply maxTimestamp_partial.
Qed.

Definition samples_list (ss : samples) : list offsetSample :=
  [s_starts ss; s_lsos ss; s_ends ss; s_maxTS ss; s_locals ss; s_remotes ss].

(** A usable listing that leaves the topic out is recorded once for the topic. *)
Lemma buildTopic_uncovered ss td ts sm :
  sm ∈ samples_list ss -> os_ok sm = true -> covers sm (td_Topic td) = false ->
  degraded (os_sec sm) (buildTopic ss td ts).2.
Proof.
  intros Hin Hok Hc. unfold buildTopic. next_read. unfold samples_list in Hin.
  do 6 (apply elem_of_cons in Hin as [->|Hin];
    [apply reach_now; [by apply enter_partial|intros ?; unfold degraded; preserve; by apply buildPartition_inv, _]|
     next_read]).
  by apply elem_of_nil in Hin.
Qed.

(** Shaping a topic enters each of its six samples before it reads the partitions. *)
Lemma buildTopic_entered (P : topicSections -> Prop) (Q : Partition -> Prop) ss td ts :
  (forall p, preserves P (buildPartition (td_Topic td) (enteredAll (td_Topic td) ss) p)) ->
  (forall p s, Q (buildPartition (td_Topic td) (enteredAll (td_Topic td) ss) p s).1 ->
     P (buildPartition (td_Topic td) (enteredAll (td_Topic td) ss) p s).2) ->
  Exists Q (tm_Partitions (buildTopic ss td ts).1) -> P (buildTopic ss td ts).2.
Proof.
  intros Hp Hq. unfold buildTopic. do 7 (rewrite St_bind_eq; rewrite ?enter_fst). rewrite St_bind_eq. simpl.
  apply (traverseM_reach P Q); [exact Hp|exact Hq].
Qed.

Lemma offsets_samples ss sm field : (sm, field) ∈ offsets_of ss -> sm ∈ samples_list ss.
Proof.
  unfold offsets_of, samples_list. intros Hin.
  repeat (apply elem_of_cons in Hin as [[= -> ->]|Hin]; [set_solver|]). by apply elem_of_nil in Hin.
Qed.

Lemma buildTopic_partial ss td ts sm field :
  (sm, field) ∈ offsets_of ss -> os_ok sm = true ->
  Exists (fun q => field q = None) (tm_Partitions (buildTopic ss td ts).1) ->
  degraded (os_sec sm) (buildTopic ss td ts).2.
Proof.
  intros Hin Hok Hex. destruct (covers sm (td_Topic td)) eqn:Hc.
  - apply (buildTopic_entered (degraded (os_sec sm)) (fun q => field q = None)); [|intros p s Hf|exact Hex].
    + intros. by apply buildPartition_inv, _.
    + by apply (buildPartition_partial _ _ _ _ _ field).
  - eapply buildTopic_uncovered; [by eapply offsets_samples|done|done].
Qed.

(** Under an [ok] section a partition's newest record is the broker's own answer. *)
Lemma buildTopic_newest ss td ts :
  os_ok (s_maxTS ss) = true ->
  Exists (fun q => p_MaxTimestamp q <> newest <$> Lookup (os_listed (s_maxTS ss)) (td_Topic td) (p_ID q))
    (tm_Partitions (buildTopic ss td ts).1) ->
  degraded (os_sec (s_maxTS ss)) (buildTopic ss td ts).2.
Proof.
  intros Hok Hex. destruct (covers (s_maxTS ss) (td_Topic td)) eqn:Hc.
  - eapply buildTopic_entered; [intros; by apply buildPartition_inv, _| |exact Hex].
    intros p s. pose proof (buildPartition_spec (td_Topic td) ss p s) as [Hid _ _ _ _ _ _ Hmax _ _].
    cbv beta. rewrite Hid, Hmax. unfold sample_newest. rewrite Hc. intros Hne.
    destruct (Lookup _ _ _) as [o|] eqn:Ho; [|done]. simpl in Hne.
    destruct (lo_Err o) as [e|] eqn:He; [|done]. by eapply buildPartition_newest.
  - eapply buildTopic_uncovered; [|done|done]. unfold samples_list. set_solver.
Qed.

(** What one topic's row lost, the loop over the topics has recorded. *)
Lemma loop_degraded ss selected ts0 sm tm q (lost : TopicMetrics -> Partition -> Prop) :
  tm ∈ (traverseM (buildTopic ss) selected ts0).1 -> q ∈ tm_Partitions tm ->
  (os_ok sm = false -> status (sec_of (os_sec sm) ts0) <> SectionOK) ->
  lost tm q ->
  (os_ok sm = true -> forall td s,
     Exists (lost (buildTopic ss td s).1) (tm_Partitions (buildTopic ss td s).1) ->
     degraded (os_sec sm) (buildTopic ss td s).2) ->
  status (sec_of (os_sec sm) (traverseM (buildTopic ss) selected ts0).2) <> SectionOK.
Proof.
  intros Htm Hq Hsk Hl Hb.
  assert (degraded (os_sec sm) (traverseM (buildTopic ss) selected ts0).2) as Hd; [|by apply Hd].
  destruct (os_ok sm) eqn:Hsm.
  - apply (traverseM_reach _ (fun tm => Exists (lost tm) (tm_Partitions tm))).
    + intros td. by apply buildTopic_inv, _.
    + intros td s. by apply Hb.
    + apply list.Exists_exists. exists tm. split; [done|]. apply list.Exists_exists. by exists q.
  - apply preserves_traverse; [intros; by apply buildTopic_inv, _|]. intros f ->. by apply Hsk.
Qed.

(** ** Lemmas on the phases *)

Lemma collectCluster_sec {V} lo c t : lo <= t ->
  clocked (V := V) (fun t r => sec_at lo t sectionCluster r.2) t (collectCluster c).
Proof. intros Hlo. unfold collectCluster. timed; simpl; sec_ok. Qed.

(** [ask] is some request. *)
Definition only_asks {V A} (ask : prog V A) : Prop :=
  forall Q t, (forall x t', t <= t' -> Q t' x) -> clocked Q t ask.

Lemma listing_sec {V} lo c n api b (ask : prog V _) t : lo <= t -> only_asks ask ->
  clocked (fun t r => sec_at lo t n r.2) t (listing c n api b ask).
Proof.
  intros Hlo Hask. unfold listing. timed; simpl; [|sec_ok]. apply Hask. intros [listed err] ? ?.
  timed; simpl. sec_ok.
Qed.

Lemma skippedSection_sec {V} lo c n t : lo <= t ->
  clocked (V := V) (fun t s => sec_at lo t n s) t (skippedSection c n).
Proof. intros Hlo. unfold skippedSection. timed. sec_ok. Qed.

Lemma ts_at_later lo m hi hi' ts : hi <= hi' -> ts_at lo m hi ts -> ts_at lo m hi' ts.
Proof. intros Hhi Hts f. specialize (Hts f). destruct f; try done; by eapply sec_at_later. Qed.

Lemma skipped_sec {V} lo m c sec t :
  m <= t -> sec_at lo m sectionTopics sec -> clocked (V := V) (fun t => ts_at lo m t) t (skipped c sec).
Proof.
  intros Hm Hs. unfold skipped.
  do 5 (apply clocked_bind; eapply clocked_impl; [|apply (skippedSection_sec m); lia]; intros ? ? ? ?; cbv beta in *).
  timed. intros []; simpl; try done; (eapply sec_at_later; [|eassumption]; lia).
Qed.

Lemma ts_at_stop lo m hi t ts : m <= t -> ts_at lo m hi ts -> ts_at lo m hi (stopStarts t ts).
Proof.
  intros Ht Hts f. unfold stopStarts. rewrite sec_set_sec. case_decide; [subst|apply Hts].
  by apply sec_at_stopped, (Hts Starts).
Qed.

Lemma only_asks_waitAll {V} before : only_asks (V := V) (waitAll before).
Proof. intros Q t HQ. unfold waitAll. induction before as [|c before IH]; simpl; [by apply HQ|done]. Qed.

(** The topics section is stamped before the others. *)
Lemma collectTopics_sec {V} lo c tds run_ before t : lo <= t ->
  clocked (V := V) (fun t r => exists m, m <= t /\ ts_at lo m t r.2) t (collectTopics c tds run_ before).
Proof.
  intros Hlo. unfold collectTopics. apply clocked_bind. intros m Hm t1 Ht1. cbv beta zeta.
  destruct tds as [tds|]; [case_bool_decide|].
  - apply clocked_bind. eapply clocked_impl; [|apply (skipped_sec lo m); [lia|sec_ok]]. intros t2 ts Ht2 Hts. timed.
    exists m. split; [lia|]. simpl. apply ts_at_stop; [lia|]. eapply ts_at_later; [|eassumption]. lia.
  - apply clocked_bind. intros [startsL err] t2 Ht2. cbv beta iota.
    destruct (requestPartial _ _ _ _) as [startsOK sec] eqn:Es. apply clocked_bind, only_asks_waitAll. intros [] t3 Ht3.
    do 5 (apply clocked_bind; eapply clocked_impl; [|apply (listing_sec m); [lia|intros ? ? HQ ? ? ?; by apply HQ]];
      intros ? [[? ?] ?] ? ?; cbn [fst snd] in *; cbv beta iota).
    destruct (traverseM _ _ _) as [topics ts] eqn:E. timed. simpl. exists m. split; [lia|]. apply ts_at_stop; [lia|].
    rewrite (pair_snd _ _ _ E). apply preserves_traverse; [intros; apply buildTopic_inv, _|].
    intros []; simpl; try (eapply sec_at_later; [|eassumption]; lia). sec_ok.
  - apply clocked_bind. eapply clocked_impl; [|apply (skipped_sec lo m); [lia|sec_ok]]. intros t2 ts Ht2 Hts. timed.
    exists m. split; [lia|]. simpl. apply ts_at_stop; [lia|]. eapply ts_at_later; [|eassumption]. lia.
Qed.

(** ** Running the topics phase *)

Lemma run_waitAll {V} e before tick (v : V) : run e (waitAll before) tick v = (tt, [], tick, v).
Proof. induction before as [|b before IH]; [done|]. simpl. by rewrite IH. Qed.

Lemma run_listing {V} e c n api b (ask : prog V (withErr ListedOffsets)) x r tick v :
  (forall tick v, run e ask tick v = (x, [r], tick, v)) ->
  exists sec, run e (listing c n api b ask) tick v =
    (if b : bool then x.1 else ∅, b && usable x, sec, if b then [r] else [], S (S tick), v) /\
    (b && usable x = false -> status sec <> SectionOK).
Proof.
  intros Hask. unfold listing. destruct b.
  - rewrite !run_bind. simpl. rewrite !run_bind, Hask. destruct x as [listed err].
    pose proof (requestPartial_fst api err (0 <? Z.of_nat (size listed)) (c_newSection c n (clock e tick))) as Hf.
    pose proof (requestPartial_degraded api err (0 <? Z.of_nat (size listed)) (c_newSection c n (clock e tick))) as Hd.
    destruct (requestPartial _ _ _ _) as [ok sec]. simpl in *. subst ok.
    exists (stop (clock e (S tick)) sec). split; [done|exact Hd].
  - exists (stop (clock e (S tick)) (downgrade SectionSkipped (c_newSection c n (clock e tick)))).
    split; [done|]. done.
Qed.

Definition sample_for (ss : samples) (f : flavour) : offsetSample :=
  match f with
  | Starts => s_starts ss | Lso => s_lsos ss | End_ => s_ends ss
  | MaxTS => s_maxTS ss | Local => s_locals ss | Remote => s_remotes ss
  end.

Ltac run_listing_step :=
  match goal with
  | |- context [run ?e (mbind ?k (listing ?c ?n ?api ?b (call ?r))) ?tick ?v] =>
      rewrite (run_bind e (listing c n api b (call r)) k tick v);
      let sec := fresh "sec" in let E := fresh "E" in let H := fresh "Hs" in
      destruct (run_listing e c n api b (call r) (answer e r) r tick v) as (sec & E & H);
        [intros; apply (run_call e r)|]; rewrite E; clear E
  end.

Lemma run_collectTopics {V} e c tds runMaxTS before tick (v : V) selected :
  selected = selectTopics tds (c_topics c) (o_IncludeInternalTopics (c_opts c)) ->
  selected <> [] ->
  let ss := samples_of e c runMaxTS (td_Topic <$> selected) in
  exists ts0 t' tick',
    run e (collectTopics c (Some tds) runMaxTS before) tick v =
      (Some (traverseM (buildTopic ss) selected ts0).1,
       stopStarts t' (traverseM (buildTopic ss) selected ts0).2,
       topics_requests c runMaxTS (td_Topic <$> selected), tick', v) /\
    (forall f, os_ok (sample_for ss f) = false -> status (sec_of f ts0) <> SectionOK).
Proof.
  intros -> Hne ss. unfold collectTopics. run_step. rewrite bool_decide_false by done.
  set (selected := selectTopics _ _ _) in *. set (names := td_Topic <$> selected) in *.
  run_step. destruct (answer e (RListStartOffsets names)) as [startsL err] eqn:Est.
  pose proof (requestPartial_fst "ListStartOffsets" err (0 <? Z.of_nat (size startsL))
    (c_newSection c sectionTopics (clock e tick))) as Hf.
  pose proof (requestPartial_degraded "ListStartOffsets" err (0 <? Z.of_nat (size startsL))
    (c_newSection c sectionTopics (clock e tick))) as Hd.
  destruct (requestPartial _ _ _ _) as [ok sec]. simpl in Hf, Hd. 
  rewrite run_bind, run_waitAll. cbv beta iota.
  do 5 (run_listing_step; cbv beta iota).
  set (ss' := mkSamples _ _ _ _ _ _). assert (ss' = ss) as ->.
  { subst ss ss'. unfold samples_of, sampled. by rewrite Est, Hf. }
  destruct (traverseM (buildTopic ss) selected _) as [topics ts] eqn:Et. run_step.
  eexists _, _, _. rewrite Et. split.
  - f_equal. f_equal. unfold topics_requests. rewrite !app_nil_r. done.
  - intros []; simpl; try done. intros Hok. apply Hd. rewrite Hf. unfold usable in Hok. by rewrite Est in Hok.
Qed.
End lemmas.

Section none.
Context `{!KerrCodes} `{!Kadm}.

Lemma collectTopics_none e c tds runMaxTS before :
  selectTopics tds (c_topics c) (o_IncludeInternalTopics (c_opts c)) = [] ->
  (result e (collectTopics c (Some tds) runMaxTS before)).1 = None /\
  requests e (collectTopics c (Some tds) runMaxTS before) = [].
Proof. intros Hsel. unfold result, requests, collectTopics. run_step. by rewrite bool_decide_true. Qed.

End none.

(** ** Properties *)

Section properties.
Context `{!KerrCodes} `{!Kadm}.

(** C11: [topics[]] says exactly what the brokers answered.  When the filter
    selects something, the phase lists exactly the selected names, once per
    enabled flavour and in the order start, committed, end, and ships one row per
    selected topic and per partition of its metadata whose three offsets are the
    broker's own (never a fabricated zero), whose error code is the first failure,
    and whose tiered and max-timestamp objects are present exactly when sampled.
    When nothing is selected it issues no request at all, so a filter that matches
    nothing never lists the whole cluster. *)
Theorem collectTopics_faithful (e : env) (c : Collector) (tds : TopicDetails) (runMaxTS : bool)
    (before : list chan) :
  let selected := selectTopics tds (c_topics c) (o_IncludeInternalTopics (c_opts c)) in
  let phase := collectTopics c (Some tds) runMaxTS before in
  (selected = [] -> (result e phase).1 = None /\ requests e phase = []) /\
  (selected <> [] ->
     requests e phase = topics_requests c runMaxTS (td_Topic <$> selected) /\
     exists tms, (result e phase).1 = Some tms /\
       Forall2 (topic_spec (samples_of e c runMaxTS (td_Topic <$> selected))) selected tms).
Proof.
  intros selected phase. split; intros Hsel.
  - by apply collectTopics_none.
  - destruct (run_collectTopics e c tds runMaxTS before 0%nat tt selected eq_refl Hsel)
      as (ts0 & t' & tick' & E & _).
    unfold phase, result, requests. rewrite E. split; [done|]. eexists. split; [done|].
    apply traverseM_Forall2. intros td ts _.
    destruct (buildTopic_fst (samples_of e c runMaxTS (td_Topic <$> selected)) td ts)
      as (? & ? & ? & ? & Hcount & ? & HF).
    split; try done. rewrite Hcount. f_equal. by eapply Forall2_length.
Qed.

(** C13: a null offset never ships under an [ok] section.  If any partition of the
    batch carries no start, last stable, end, local start or remote end offset, the
    section that owns that sample reports it: a request that failed, a phase that was
    skipped, or an entity whose failure was recorded.  The newest-timestamp object is
    the one read otherwise: under an [ok] section it is exactly what the broker
    answered for the partition without an error, absent when the broker left the
    partition out, and with null fields when the broker said it holds no record. *)
Theorem null_offset_degrades (e : env) (c : Collector) (tds : TopicDetails) (runMaxTS : bool)
    (before : list chan) (tm : TopicMetrics) (q : Partition) :
  let names := td_Topic <$> selectTopics tds (c_topics c) (o_IncludeInternalTopics (c_opts c)) in
  let '(topics, ts) := result e (collectTopics c (Some tds) runMaxTS before) in
  tm ∈ elems topics -> q ∈ tm_Partitions tm ->
  (p_StartOffset q = None -> status (starts ts) <> SectionOK) /\
  (p_LastStableOffset q = None -> status (lso ts) <> SectionOK) /\
  (p_EndOffset q = None -> status (end_ ts) <> SectionOK) /\
  (p_Tiered q ≫= to_LocalStartOffset = None -> status (local ts) <> SectionOK) /\
  (p_Tiered q ≫= to_RemoteEndOffset = None -> status (remote ts) <> SectionOK) /\
  (status (maxTS ts) = SectionOK ->
     p_MaxTimestamp q =
       newest <$> Lookup (answer e (RListMaxTimestampOffsets names)).1 (tm_Name tm) (p_ID q)).
Proof.
  set (selected := selectTopics tds (c_topics c) (o_IncludeInternalTopics (c_opts c))). intros names.
  destruct (decide (selected = [])) as [Hsel|Hsel].
  { destruct (result e _) as [topics ts] eqn:E.
    assert (topics = None) as ->; [|by intros ?%elem_of_nil].
    assert (topics = (topics, ts).1) as -> by done. rewrite <- E.
    by apply collectTopics_none. }
  destruct (run_collectTopics e c tds runMaxTS before 0%nat tt selected eq_refl Hsel)
    as (ts0 & t' & tick' & E & Hok).
  set (ss := samples_of e c runMaxTS (td_Topic <$> selected)) in *.
  unfold result. rewrite E. clear E. intros Htm Hq.
  assert (forall f, status (sec_of f (stopStarts t' (traverseM (buildTopic ss) selected ts0).2)) =
    status (sec_of f (traverseM (buildTopic ss) selected ts0).2)) as Hstop.
  { intros f. unfold stopStarts. rewrite sec_set_sec. case_decide; [by subst|done]. }
  assert (forall sm field, (sm, field) ∈ offsets_of ss -> sm = sample_for ss (os_sec sm) ->
    field q = None -> status (sec_of (os_sec sm) (traverseM (buildTopic ss) selected ts0).2) <> SectionOK) as Hnull.
  { intros sm field Hin Hsk Hf.
    apply (loop_degraded ss selected ts0 sm tm q (fun _ q => field q = None)); try done.
    - intros Hoff. rewrite Hsk in Hoff. by apply Hok.
    - intros Hsm td s. by apply buildTopic_partial. }
  split_and!; [intros Hf..|intros Hst].
  - by apply (Hnull (s_starts ss) p_StartOffset ltac:(set_solver) eq_refl).
  - by apply (Hnull (s_lsos ss) p_LastStableOffset ltac:(set_solver) eq_refl).
  - by apply (Hnull (s_ends ss) p_EndOffset ltac:(set_solver) eq_refl).
  - by apply (Hnull (s_locals ss) (fun q => p_Tiered q ≫= to_LocalStartOffset) ltac:(set_solver) eq_refl).
  - by apply (Hnull (s_remotes ss) (fun q => p_Tiered q ≫= to_RemoteEndOffset) ltac:(set_solver) eq_refl).
  - apply dec_stable. intros Hne. revert Hst. change (maxTS ?x) with (sec_of MaxTS x). rewrite Hstop.
    apply (loop_degraded ss selected ts0 (s_maxTS ss) tm q (fun tm q =>
      p_MaxTimestamp q <> newest <$> Lookup (answer e (RListMaxTimestampOffsets names)).1 (tm_Name tm) (p_ID q)));
      [done|done|apply (Hok MaxTS)|done|].
    intros Hsm td s. pose proof Hsm as Hsm'. simpl in Hsm. apply andb_true_iff in Hsm as [Hrun _].
    destruct (buildTopic_fst ss td s) as (Hn & _).
    intros Hex. apply buildTopic_newest; [done|]. eapply Exists_impl; [|exact Hex].
    cbv beta. intros q' Hq'. rewrite Hn in Hq'. subst ss. simpl in *. by rewrite Hrun.
Qed.

End properties.

(** ** Witnesses *)

Definition sample_phase : prog () (slice TopicMetrics * topicSections) :=
  @collectTopics kafka_codes kadm_sorted _ sample_collector (Some sample_topics) false [].

Theorem collectTopics_faithful_witness :
  length (requests sample_env sample_phase) = 5%nat /\
  exists tms, (result sample_env sample_phase).1 = Some tms /\
    map (fun tm => map p_StartOffset (tm_Partitions tm)) tms = [[Some 5]].
Proof.
  split; [vm_compute; reflexivity|].
  destruct (proj2 (@collectTopics_faithful kafka_codes kadm_sorted sample_env sample_collector
    sample_topics false []) ltac:(by vm_compute)) as [_ (tms & E & _)].
  exists tms. split; [exact E|]. vm_compute in E. injection E as <-. reflexivity.
Defined.

Theorem null_offset_degrades_witness :
  exists tm q, tm ∈ elems (result sample_env sample_phase).1 /\ q ∈ tm_Partitions tm /\
    p_EndOffset q = None /\ status (end_ (result sample_env sample_phase).2) <> SectionOK.
Proof.
  destruct (elems (result sample_env sample_phase).1) as [|tm tms] eqn:Et; [by vm_compute in Et|].
  destruct (tm_Partitions tm) as [|q qs] eqn:Eq.
  { exfalso. vm_compute in Et. injection Et as <- _. vm_compute in Eq. done. }
  assert (p_EndOffset q = None) as Hq.
  { vm_compute in Et. injection Et as <- _. vm_compute in Eq. by injection Eq as <- _. }
  pose proof (@null_offset_degrades kafka_codes kadm_sorted sample_env sample_collector
    sample_topics false [] tm q) as Hd. fold sample_phase in Hd.
  destruct (result sample_env sample_phase) as [topics ts]. cbn [fst snd] in *.
  rewrite Et, Eq in Hd. exists tm, q. rewrite Eq. split; [by left|]. split; [by left|].
  split; [exact Hq|]. exact (proj1 (proj2 (proj2 (Hd ltac:(by left) ltac:(by left)))) Hq).
Defined.
