(* ===== verification/Offsets.v ===== *)
(** * Offsets: committed offsets and the throughput window
      ([internal/collector/offsets.go], [internal/collector/throughput.go],
      [internal/collector/rpc.go]) *)

From Stdlib Require Import ZArith Lia.
From stdpp Require Import prelude gmap strings numbers.
From S2P Require Import Prelude Wire Errors Sections Filter Kadm Collector Topics.

Definition windowAPI : string := "ListOffsetsAfterMilli".

(** Five minutes, in nanoseconds. *)
Definition defaultWindowWidth : Z := 5 * 60 * 1000000000.

Section offsets.
Context `{!KerrCodes} `{!Kadm}.

(** ** Committed offsets *)

(** The filter of the loop over one group's fetched offsets. *)
Definition offsetSelected (c : Collector) (internal : gmap string bool) (o : OffsetResponse) : bool :=
  negb (default false (internal !! or_Topic o) && negb (o_IncludeInternalTopics (c_opts c))) &&
  allow (c_topics c) (or_Topic o).

Definition partitionOffset (o : OffsetResponse) : St section PartitionOffset :=
  match or_Err o with
  | Some err =>
      modify (recordPartition "OffsetFetch" (or_Topic o) (or_Partition o) err) ;;
      mret (mkPartitionOffset (or_Topic o) (or_Partition o) (nullableOffset (or_At o) (or_Err o))
        (or_LeaderEpoch o) (or_Metadata o) (errorCode (or_Err o)))
  | None =>
      mret (mkPartitionOffset (or_Topic o) (or_Partition o) (nullableOffset (or_At o) None)
        (or_LeaderEpoch o) (or_Metadata o) 0)
  end.

(** The body of the loop over the listed groups: the row it appends, if any. *)
Definition groupOffsets (c : Collector) (internal : gmap string bool)
    (fetched : gmap string FetchOffsetsResponse) (id : string) : St section (option ConsumerOffset) :=
  match fetched !! id with
  | None => modify (recordGroup "OffsetFetch" id errNoResponse) ;; mret None
  | Some resp =>
      match fr_Err resp with
      | Some err =>
          modify (recordGroup "OffsetFetch" id err) ;;
          mret (Some (mkConsumerOffset id (errorCode (Some err)) None 0))
      | None =>
          let rows := base.filter (fun o => Is_true (offsetSelected c internal o))
                        (offsetsSorted (fr_Fetched resp)) in
          offsets ← traverseM partitionOffset rows;
          mret (Some (mkConsumerOffset id 0 (Some offsets) (Z.of_nat (length offsets))))
      end
  end.

Definition collectOffsets {V} (c : Collector) (ids : list string) (listErr : option goerr)
    (internal : gmap string bool) : prog V (slice ConsumerOffset * section) :=
  t ← now;
  let '(_, sec) := request "ListGroups" listErr (c_newSection c sectionOffsets t) in
  if Z.of_nat (length ids) =? 0 then
    t' ← now;
    mret (None, stop t' sec)
  else
    fetched ← call (RFetchManyOffsets ids);
    let '(rows, sec) := traverseM (groupOffsets c internal fetched) ids sec in
    t' ← now;
    mret (Some (omap id rows), stop t' sec).

(** ** The throughput window *)

Definition throughputWindow (at_ width : Z) : ThroughputWindow :=
  let width := if width <=? 0 then defaultWindowWidth else width in
  mkThroughputWindow ((at_ - width) / 1000000) (Milliseconds width).

(** [*windowSample]: the answer, its section being the phase's own. *)
Definition collectThroughputWindow {V} (c : Collector) (tds : option TopicDetails) (width : Z) (run_ : bool)
    : prog V (option ThroughputWindow * option ListedOffsets * section) :=
  t ← now;
  let sec := c_newSection c sectionTopicsWindow t in
  let skip : prog V (option ThroughputWindow * option ListedOffsets * section) :=
    t' ← now; mret (None, None, stop t' (downgrade SectionSkipped sec)) in
  match tds with
  | None => skip
  | Some tds =>
      if negb run_ then skip
      else
        let selected := selectTopics tds (c_topics c) (o_IncludeInternalTopics (c_opts c)) in
        if bool_decide (selected = []) then skip
        else
          let names := td_Topic <$> selected in
          at_ ← now;
          let window := throughputWindow at_ width in
          '(listed, err) ← call (RListOffsetsAfterMilli (tw_RequestedMs window) names);
          let '(ok, sec) := requestPartial windowAPI err (0 <? Z.of_nat (size listed)) sec in
          t' ← now;
          mret (Some window, if ok : bool then Some listed else None, stop t' sec)
  end.

Definition windowOffset (topic : string) (o : ListedOffset) : St section WindowOffset :=
  match lo_Err o with
  | Some err =>
      modify (recordPartition windowAPI topic (lo_Partition o) err) ;;
      mret (mkWindowOffset None None (lo_LeaderEpoch o) (errorCode (lo_Err o)))
  | None =>
      let offset := nullableOffset (lo_Offset o) None in
      match offset with
      | None => modify (recordPartition windowAPI topic (lo_Partition o) errNegativeOffset)
      | Some _ => mret tt
      end ;;
      mret (mkWindowOffset offset (nullableOffset (lo_Timestamp o) None) (lo_LeaderEpoch o) 0)
  end.

Definition with_window (w : option WindowOffset) (p : Partition) : Partition :=
  mkPartition (p_ID p) (p_Leader p) (p_LeaderEpoch p) (p_Replicas p) (p_ISR p) (p_OfflineReplicas p)
    (p_StartOffset p) (p_EndOffset p) (p_LastStableOffset p) (p_MaxTimestamp p) (p_Tiered p) w
    (p_ErrorCode p).

Definition with_partitions (ps : list Partition) (tm : TopicMetrics) : TopicMetrics :=
  mkTopicMetrics (tm_Name tm) (tm_ID tm) (tm_Internal tm) (tm_PartitionCount tm)
    (tm_ReplicationFactor tm) ps (tm_ErrorCode tm).

(** The error of kadm's synthetic partition -1. *)
Definition topicError (parts : gmap Z ListedOffset) : option goerr :=
  o ← parts !! (-1); lo_Err o.

Definition attachPartition (topic : string) (parts : gmap Z ListedOffset) (p : Partition)
    : St section Partition :=
  match parts !! p_ID p with
  | None => modify (recordPartition windowAPI topic (p_ID p) errNotListed) ;; mret p
  | Some o => w ← windowOffset topic o; mret (with_window (Some w) p)
  end.

Definition attachTopic (listed : ListedOffsets) (tm : TopicMetrics) : St section TopicMetrics :=
  match listed !! tm_Name tm with
  | None => modify (recordTopic windowAPI (tm_Name tm) errTopicNotListed) ;; mret tm
  | Some parts =>
      match topicError parts with
      | Some err => modify (recordTopic windowAPI (tm_Name tm) err) ;; mret tm
      | None => ps ← traverseM (attachPartition (tm_Name tm) parts) (tm_Partitions tm);
                mret (with_partitions ps tm)
      end
  end.

(** [windowSample.attach], nil-safe. *)
Definition attach (w : option ListedOffsets) (topics : slice TopicMetrics)
    : St section (slice TopicMetrics) :=
  match w, topics with
  | Some listed, Some tms => tms ← traverseM (attachTopic listed) tms; mret (Some tms)
  | _, _ => mret topics
  end.

(** ** The RPC window ([rpc.go]) *)

Definition collectRPC {V} (c : Collector) : prog V (option RPCStats * section) :=
  t ← now;
  let sec := c_newSection c sectionBrokerRPC t in
  stats ← call RRPCSnapshot;
  t' ← now;
  match stats with
  | None => mret (None, stop t' (downgrade SectionSkipped sec))
  | Some _ => mret (stats, stop t' sec)
  end.

(** ** Specifications *)

(** What a fetched offset must become on the wire. *)
Definition offset_spec (o : OffsetResponse) (po : PartitionOffset) : Prop :=
  po_Topic po = or_Topic o /\ po_Partition po = or_Partition o /\
  po_LeaderEpoch po = or_LeaderEpoch o /\ po_Metadata po = or_Metadata o /\
  po_Offset po = nullableOffset (or_At o) (or_Err o) /\ po_ErrorCode po = errorCode (or_Err o).

(** What one group's row must be, given the response to its fetch. *)
Definition group_offsets_spec (c : Collector) (internal : gmap string bool) (id : string)
    (resp : FetchOffsetsResponse) (co : ConsumerOffset) : Prop :=
  co_GroupID co = id /\ co_ErrorCode co = errorCode (fr_Err resp) /\
  match fr_Err resp with
  | Some _ => co_Offsets co = None /\ co_OffsetCount co = 0
  | None =>
      exists offsets, co_Offsets co = Some offsets /\ co_OffsetCount co = Z.of_nat (length offsets) /\
        Forall2 offset_spec
          (base.filter (fun o => Is_true (offsetSelected c internal o)) (offsetsSorted (fr_Fetched resp)))
          offsets
  end.

(** What a window answer must become. *)
Definition window_spec (parts : gmap Z ListedOffset) (p p' : Partition) : Prop :=
  p' = with_window (p_Window p') p /\
  match parts !! p_ID p with
  | None => p_Window p' = p_Window p
  | Some o =>
      p_Window p' = Some (mkWindowOffset (nullableOffset (lo_Offset o) (lo_Err o))
        (nullableOffset (lo_Timestamp o) (lo_Err o)) (lo_LeaderEpoch o) (errorCode (lo_Err o)))
  end.

End offsets.

(** A fetch that answers for one of two groups, with a commit never made. *)
Definition sample_fetch : env := mkEnv
  (fun r => match r with
            | RFetchManyOffsets _ =>
                ({["g" := mkFetchOffsetsResponse {["t" := {[0 := mkOffsetResponse "t" 0 (-1) (-1) "" None]}]} None]}
                  : gmap string FetchOffsetsResponse)
            | r => empty_answer r
            end) Z.of_nat.

Section lemmas.
Context `{!KerrCodes} `{!Kadm}.

(** ** The sections stay well formed *)

Lemma modify_preserves (P : section -> Prop) f : (forall s, P s -> P (f s)) -> preserves P (modify f).
Proof. intros Hf s. apply Hf. Qed.

Ltac keep :=
  repeat match goal with
  | |- preserves _ (mbind _ _) => apply preserves_bind; [|intros ?]
  | |- preserves _ (mret _) => apply preserves_ret
  | |- preserves _ (traverseM _ _) => apply preserves_traverse; intros ?
  | |- preserves _ (modify _) => apply modify_preserves; intros; by kept1
  | |- preserves _ (match ?x with _ => _ end) => destruct x
  end.

Context (P : section -> Prop) `{!Kept P}.

Lemma groupOffsets_kept c internal fetched id : preserves P (groupOffsets c internal fetched id).
Proof. unfold groupOffsets, partitionOffset. keep. Qed.

Lemma windowOffset_kept topic o : preserves P (windowOffset topic o).
Proof. unfold windowOffset. keep. Qed.

Lemma attachPartition_kept topic parts p : preserves P (attachPartition topic parts p).
Proof. unfold attachPartition, windowOffset. keep. Qed.

Lemma attachTopic_kept listed tm : preserves P (attachTopic listed tm).
Proof. unfold attachTopic, attachPartition, windowOffset. keep. Qed.

Lemma attach_kept w topics : preserves P (attach w topics).
Proof. unfold attach, attachTopic, attachPartition, windowOffset. keep. Qed.
End lemmas.

Section values.
Context `{!KerrCodes} `{!Kadm}.

Lemma collectOffsets_sec {V} lo c ids err internal t : lo <= t ->
  clocked (V := V) (fun t r => sec_at lo t sectionOffsets r.2) t (collectOffsets c ids err internal).
Proof.
  intros Hlo. unfold collectOffsets. timed; simpl; [sec_ok|].
  apply sec_at_stop; [lia|]. match goal with E : traverseM _ _ _ = _ |- _ => rewrite (pair_snd _ _ _ E) end.
  apply preserves_traverse; [intros; apply groupOffsets_kept, _|sec_ok].
Qed.

Lemma collectThroughputWindow_sec {V} lo c tds width b t : lo <= t ->
  clocked (V := V) (fun t r => sec_at lo t sectionTopicsWindow r.2) t (collectThroughputWindow c tds width b).
Proof. intros Hlo. unfold collectThroughputWindow. timed; simpl; sec_ok. Qed.

Lemma collectRPC_sec {V} lo c t : lo <= t -> clocked (V := V) (fun t r => sec_at lo t sectionBrokerRPC r.2) t (collectRPC c).
Proof. intros Hlo. unfold collectRPC. timed; simpl; sec_ok. Qed.

(** ** The values *)

Lemma partitionOffset_fst o s : offset_spec o (partitionOffset o s).1.
Proof.
  unfold partitionOffset, offset_spec. destruct (or_Err o) eqn:E; simpl; by rewrite ?E.
Qed.

Lemma groupOffsets_fst c internal fetched id s :
  match fetched !! id with
  | None => (groupOffsets c internal fetched id s).1 = None /\
      status (groupOffsets c internal fetched id s).2 <> SectionOK
  | Some resp => exists co, (groupOffsets c internal fetched id s).1 = Some co /\
      group_offsets_spec c internal id resp co
  end.
Proof.
  unfold groupOffsets, group_offsets_spec. destruct (fetched !! id) as [resp|].
  - destruct (fr_Err resp) as [err|]; [eexists; split; [reflexivity|by split_and!]|].
    rewrite St_bind_eq. eexists. split; [done|]. simpl. split_and!; try done.
    eexists. split; [done|]. split; [done|]. apply traverseM_Forall2. intros. apply partitionOffset_fst.
  - rewrite St_bind_eq. simpl. split; [done|apply add_degraded].
Qed.

(** The rows of the loop, the misses dropped. *)
Lemma groupOffsets_rows c internal fetched ids s :
  Forall2 (fun id co => exists resp, fetched !! id = Some resp /\ group_offsets_spec c internal id resp co)
    (base.filter (fun id => is_Some (fetched !! id)) ids)
    (omap id (traverseM (groupOffsets c internal fetched) ids s).1).
Proof.
  revert s. induction ids as [|i ids IH]; intros s; [constructor|].
  simpl traverseM. rewrite St_bind_eq, St_bind_eq. simpl.
  pose proof (groupOffsets_fst c internal fetched i s) as Hi.
  destruct (fetched !! i) as [resp|] eqn:E.
  - destruct Hi as (co & -> & Hco). rewrite filter_cons_True by eauto. simpl.
    constructor; [by eauto|apply IH].
  - destruct Hi as [-> _]. rewrite filter_cons_False by (rewrite E; by intros [? ?]). apply IH.
Qed.

Lemma windowOffset_fst topic o s :
  (windowOffset topic o s).1 =
    mkWindowOffset (nullableOffset (lo_Offset o) (lo_Err o))
      (nullableOffset (lo_Timestamp o) (lo_Err o)) (lo_LeaderEpoch o) (errorCode (lo_Err o)).
Proof.
  unfold windowOffset. destruct (lo_Err o) eqn:E; rewrite St_bind_eq; simpl; by rewrite ?E.
Qed.

Lemma attachPartition_fst topic parts p s : window_spec parts p (attachPartition topic parts p s).1.
Proof.
  unfold attachPartition, window_spec. destruct (parts !! p_ID p) as [o|] eqn:E; rewrite St_bind_eq; simpl.
  - by rewrite windowOffset_fst.
  - split; [by destruct p|done].
Qed.

End values.

(** ** Properties *)

Section properties.
Context `{!KerrCodes} `{!Kadm}.

(** C37: [offsets[]] carries one row per listed group that was answered for, in the
    listing's order, with exactly the selected partitions: a coordinator that
    refuses ships its error code and a null list rather than an empty one, a
    negative or failed commit ships a null offset, and a group the response omits
    degrades the section. *)
Theorem collectOffsets_faithful (e : env) (c : Collector) (ids : list string)
    (listErr : option goerr) (internal : gmap string bool) :
  ids <> [] ->
  let fetched := answer e (RFetchManyOffsets ids) in
  let '(rows, sec) := result e (collectOffsets c ids listErr internal) in
  (exists cos, rows = Some cos /\
     Forall2 (fun id co => exists resp, fetched !! id = Some resp /\
                group_offsets_spec c internal id resp co)
       (base.filter (fun id => is_Some (fetched !! id)) ids) cos) /\
  (forall id, id ∈ ids -> fetched !! id = None -> status sec <> SectionOK).
Proof.
  intros Hids fetched. unfold collectOffsets, result. run_step.
  destruct (request _ _ _) as [u sec]. replace (Z.of_nat (length ids) =? 0) with false
    by (destruct ids; simpl; [done|lia]).
  run_step. fold fetched. destruct (traverseM (groupOffsets c internal fetched) ids sec) as [rows sec'] eqn:E.
  simpl. split.
  - eexists. split; [done|]. replace rows with (rows, sec').1 by done. rewrite <- E.
    apply groupOffsets_rows.
  - intros i Hi Hnone. replace sec' with (rows, sec').2 by done. rewrite <- E.
    apply (traverseM_reach_at (fun s => status s <> SectionOK) _ _ i);
      [intros; apply groupOffsets_kept, _|done|].
    intros s. pose proof (groupOffsets_fst c internal fetched i s) as Hg. rewrite Hnone in Hg. apply Hg.
Qed.

(** The throughput window is attached to the partitions it was asked about
    and touches nothing else of them.  Every topic the response covers gets, on
    each of its partitions, exactly the broker's answer (nulls for a failure or a
    negative value); every other field of every topic and partition is unchanged,
    the partition's own error code included; and a partition left without a window
    offset degrades the window's section. *)
Theorem attach_faithful (listed : ListedOffsets) (tms : list TopicMetrics) (sec : section) :
  let '(topics, sec') := attach (Some listed) (Some tms) sec in
  (exists tms', topics = Some tms' /\
     Forall2 (fun tm tm' => tm' = with_partitions (tm_Partitions tm') tm /\
       match listed !! tm_Name tm with
       | Some parts =>
           match topicError parts with
           | None => Forall2 (window_spec parts) (tm_Partitions tm) (tm_Partitions tm')
           | Some _ => tm' = tm
           end
       | None => tm' = tm
       end) tms tms') /\
  (forall tm p, tm ∈ tms -> p ∈ tm_Partitions tm ->
     (parts ← listed !! tm_Name tm; o ← parts !! p_ID p; nullableOffset (lo_Offset o) (lo_Err o)) = None ->
     status sec' <> SectionOK).
Proof.
  unfold attach. rewrite St_bind_eq. simpl. split.
  - eexists. split; [done|]. apply traverseM_Forall2. intros tm s _. unfold attachTopic.
    destruct (listed !! tm_Name tm) as [parts|]; [|rewrite St_bind_eq; by destruct tm].
    destruct (topicError parts); rewrite St_bind_eq; simpl; [by destruct tm|].
    split; [done|]. apply traverseM_Forall2. intros. apply attachPartition_fst.
  - intros tm p Htm Hp Hnone.
    apply (traverseM_reach_at (fun s => status s <> SectionOK) _ _ tm);
      [intros; apply attachTopic_kept, _|done|]. clear sec. intros s. unfold attachTopic.
    destruct (listed !! tm_Name tm) as [parts|]; simpl in Hnone; [|apply add_degraded].
    destruct (topicError parts) as [err|]; [apply add_degraded|]. rewrite St_bind_eq. simpl.
    apply (traverseM_reach_at (fun s => status s <> SectionOK) _ _ p);
      [intros; apply attachPartition_kept, _|done|]. clear s. intros s. unfold attachPartition.
    destruct (parts !! p_ID p) as [o|]; simpl in Hnone; [|apply add_degraded].
    rewrite St_bind_eq. simpl. unfold windowOffset. destruct (lo_Err o); [apply add_degraded|].
    rewrite Hnone. rewrite St_bind_eq. apply add_degraded.
Qed.
End properties.

(** ** Witnesses *)

Theorem collectOffsets_faithful_witness :
  exists sec, result sample_fetch (@collectOffsets kafka_codes kadm_sorted _ sample_collector
    ["g"; "h"] None ∅) = (Some [mkConsumerOffset "g" 0
      (Some [mkPartitionOffset "t" 0 None (-1) "" 0]) 1], sec) /\ status sec <> SectionOK.
Proof.
  pose proof (@collectOffsets_faithful kafka_codes kadm_sorted sample_fetch sample_collector
    ["g"; "h"] None ∅ ltac:(done)) as H. cbv zeta in H.
  destruct (result _ _) as [rows sec] eqn:E.
  assert (rows = Some [mkConsumerOffset "g" 0 (Some [mkPartitionOffset "t" 0 None (-1) "" 0]) 1]) as ->.
  { replace rows with (rows, sec).1 by done. rewrite <- E. vm_compute. reflexivity. }
  exists sec. split; [reflexivity|]. apply (proj2 H "h"); [by right; left|by vm_compute].
Defined.

Theorem attach_faithful_witness :
  status (attach (H := kafka_codes) (Some ∅) (Some [mkTopicMetrics "t" "" false 1 1
    [mkPartition 0 1 1 [] [] [] None None None None None None 0] 0]) (newSection Limits_zero "w" 0)).2
    <> SectionOK.
Proof.
  pose proof (@attach_faithful kafka_codes ∅ [mkTopicMetrics "t" "" false 1 1
    [mkPartition 0 1 1 [] [] [] None None None None None None 0] 0] (newSection Limits_zero "w" 0)) as H.
  destruct (attach _ _ _) as [topics sec']. simpl.
  apply (proj2 H _ (mkPartition 0 1 1 [] [] [] None None None None None None 0) ltac:(by left)
    ltac:(by left) eq_refl).
Defined.
