(* ===== verification/Truncation.v ===== *)
(** * Truncation: leader-epoch probes ([internal/collector/truncation.go])

    The phase asks a leader about an epoch some group committed, when it differs
    from the partition's current one, and remembers the questions a leader has
    answered across cycles: the suppression set is threaded through. *)

From Stdlib Require Import ZArith Lia.
From stdpp Require Import prelude gmap strings numbers sorting.
From S2P Require Import Prelude Wire Errors Sections Filter Kadm Collector Topics.

Definition maxEpochProbeRounds : Z := 4.
Definition maxEpochProbesPerCycle : Z := 1024.
Definition maxProbedEpochs : Z := 8192.

Record epochProbeKey := mkEpochProbeKey {
  epk_topic : string;
  epk_topicID : string;
  epk_partition : Z;
  epk_committed : Z;
  epk_current : Z;
}.

#[export] Instance epochProbeKey_eq_dec : EqDecision epochProbeKey.
Proof. solve_decision. Defined.
#[export] Instance epochProbeKey_countable : Countable epochProbeKey.
Proof.
  refine (inj_countable'
    (fun k => (epk_topic k, epk_topicID k, epk_partition k, epk_committed k, epk_current k))
    (fun '(a, b, c, d, e) => mkEpochProbeKey a b c d e) _). by intros [].
Defined.

(** ** The suppression set *)

Notation probedEpochs := (gset epochProbeKey).

Definition answered (p : probedEpochs) (k : epochProbeKey) : bool := bool_decide (k ∈ p).

Definition remember (k : epochProbeKey) (p : probedEpochs) : probedEpochs :=
  let p := if maxProbedEpochs <=? Z.of_nat (size p) then ∅ else p in
  {[k]} ∪ p.

(** ** Triggers *)

Record epochTrigger := mkEpochTrigger {
  et_topic : string;
  et_topicID : string;
  et_partition : Z;
  et_group : string;
  et_committedOffset : option Z;
  et_committedEpoch : Z;
  et_currentEpoch : Z;
}.

Record epochKey := mkEpochKey {
  ek_topic : string;
  ek_partition : Z;
  ek_epoch : Z;
}.

#[export] Instance epochKey_eq_dec : EqDecision epochKey.
Proof. solve_decision. Defined.
#[export] Instance epochKey_countable : Countable epochKey.
Proof.
  refine (inj_countable' (fun k => (ek_topic k, ek_partition k, ek_epoch k))
    (fun '(a, b, c) => mkEpochKey a b c) _). by intros [].
Defined.

Definition key (t : epochTrigger) : epochKey :=
  mkEpochKey (et_topic t) (et_partition t) (et_committedEpoch t).

Definition probeKey (t : epochTrigger) : epochProbeKey :=
  mkEpochProbeKey (et_topic t) (et_topicID t) (et_partition t) (et_committedEpoch t) (et_currentEpoch t).

(** The current epochs, by topic and partition; a later row replaces an earlier. *)
Definition currentEpochs (topics : list TopicMetrics) : gmap string (gmap Z (string * Z)) :=
  foldl (fun m t =>
    <[tm_Name t := foldl (fun ps p => <[p_ID p := (tm_ID t, p_LeaderEpoch p)]> ps) ∅ (tm_Partitions t)]> m)
    ∅ topics.

(** One committed offset against the current epochs. *)
Definition trigger (current : gmap string (gmap Z (string * Z))) (group : string) (o : PartitionOffset)
    : option epochTrigger :=
  match po_Offset o with
  | None => None
  | Some _ =>
      if po_LeaderEpoch o <? 0 then None
      else
        match (ps ← current !! po_Topic o; ps !! po_Partition o) with
        | None => None
        | Some (topicID, epoch) =>
            if (epoch <? 0) || (epoch =? po_LeaderEpoch o) then None
            else Some (mkEpochTrigger (po_Topic o) topicID (po_Partition o) group (po_Offset o)
                         (po_LeaderEpoch o) epoch)
        end
  end.

Definition trigger_less : epochTrigger -> epochTrigger -> bool :=
  lex_less et_topic str_ltb
    (lex_less et_partition Z.ltb (fun a b => str_ltb (et_group a) (et_group b))).

Definition allTriggers (topics : list TopicMetrics) (offsets : list ConsumerOffset) : list epochTrigger :=
  sort_slice trigger_less
    (offsets ≫= fun co => omap (trigger (currentEpochs topics) (co_GroupID co)) (elems (co_Offsets co))).

Definition epochTriggers (topics : list TopicMetrics) (offsets : list ConsumerOffset) (max : Z)
    : list epochTrigger * bool :=
  if (Z.of_nat (length topics) =? 0) || (Z.of_nat (length offsets) =? 0) then ([], false)
  else
    let triggers := allTriggers topics offsets in
    let '(keep, cut) := capLen (Z.of_nat (length triggers)) max in
    (take (Z.to_nat keep) triggers, 0 <? cut).

(** ** Rounds *)

Record epochRound := mkEpochRound {
  er_req : EpochRequest;
  er_keys : list epochKey;
}.

(** [req.Add(topic, partition, epoch)]. *)
Definition req_Add (k : epochKey) (req : EpochRequest) : EpochRequest :=
  <[ek_topic k := <[ek_partition k := ek_epoch k]> (default ∅ (req !! ek_topic k))]> req.

Definition req_lookup (req : EpochRequest) (k : epochKey) : option Z :=
  ps ← req !! ek_topic k; ps !! ek_partition k.

Definition round_add (k : epochKey) (r : epochRound) : epochRound :=
  mkEpochRound (req_Add k (er_req r)) (er_keys r ++ [k]).

(** The inner loop: the first round that can carry the question, if any. *)
Fixpoint place (k : epochKey) (rounds : list epochRound) : option (list epochRound) :=
  match rounds with
  | [] => None
  | r :: rounds =>
      match req_lookup (er_req r) k with
      | Some e => if e =? ek_epoch k then Some (r :: rounds) else cons r <$> place k rounds
      | None => Some (round_add k r :: rounds)
      end
  end.

Definition round_step (st : list epochRound * bool) (t : epochTrigger) : list epochRound * bool :=
  let '(rounds, dropped) := st in
  match place (key t) rounds with
  | Some rounds => (rounds, dropped)
  | None =>
      if maxEpochProbeRounds <=? Z.of_nat (length rounds) then (rounds, true)
      else (rounds ++ [round_add (key t) (mkEpochRound ∅ [])], dropped)
  end.

Definition epochRounds (triggers : list epochTrigger) : list epochRound * bool :=
  foldl round_step ([], false) triggers.

(** ** Answers and probes *)

Record epochAnswer := mkEpochAnswer {
  ea_offset : option EpochOffset;   (* [None] when the response omits the partition *)
  ea_usable : bool;
}.

Definition settles (a : epochAnswer) : bool :=
  ea_usable a && match ea_offset a with
                 | Some o => match eo_Err o with None => true | Some _ => false end
                 | None => false
                 end.

Section truncation.
Context `{!KerrCodes}.

Definition probe (t : epochTrigger) (a : epochAnswer) : St section EpochProbe :=
  let p returned end_ node code :=
    mkEpochProbe (et_topic t) (et_topicID t) (et_partition t) (et_group t) (et_committedOffset t)
      (et_committedEpoch t) (et_currentEpoch t) returned end_ node code in
  if negb (ea_usable a) then mret (p None None None 0)
  else
    match ea_offset a with
    | None =>
        modify (recordPartition "OffsetForLeaderEpoch" (et_topic t) (et_partition t) errEpochNotReturned) ;;
        mret (p None None None 0)
    | Some o =>
        match eo_Err o with
        | Some err =>
            modify (recordPartition "OffsetForLeaderEpoch" (et_topic t) (et_partition t) err) ;;
            mret (p None None (Some (eo_NodeID o)) (errorCode (Some err)))
        | None =>
            mret (p (Some (eo_LeaderEpoch o)) (nullableOffset (eo_EndOffset o) None)
                    (Some (eo_NodeID o)) 0)
        end
    end.

(** The loop over the rounds: one request each, its answers filed by question. *)
Fixpoint askRounds {V} (rounds : list epochRound) (asked : gmap epochKey epochAnswer) (sec : section)
    : prog V (gmap epochKey epochAnswer * section) :=
  match rounds with
  | [] => mret (asked, sec)
  | round :: rounds =>
      '(resp, err) ← call (ROffsetForLeaderEpoch (er_req round));
      let '(ok, sec) := requestPartial "OffsetForLeaderEpoch" err (0 <? Z.of_nat (size resp)) sec in
      let asked := foldl (fun m k =>
        <[k := mkEpochAnswer (ps ← resp !! ek_topic k; ps !! ek_partition k) ok]> m) asked (er_keys round) in
      askRounds rounds asked sec
  end.

(** The loop over the triggers: the row each contributes, and what it retires. *)
Definition probeTrigger (asked : gmap epochKey epochAnswer) (t : epochTrigger)
    : St (section * probedEpochs) (option EpochProbe) :=
  fun '(sec, probed) =>
    match asked !! key t with
    | None => (None, (sec, probed))
    | Some a =>
        let '(p, sec) := probe t a sec in
        (Some p, (sec, if settles a then remember (probeKey t) probed else probed))
    end.

Definition collectEpochProbes {V} (c : Collector) (run_ : bool) (topics : list TopicMetrics)
    (offsets : list ConsumerOffset) (probed : probedEpochs)
    : prog V (slice EpochProbe * section * probedEpochs) :=
  t ← now;
  let sec := c_newSection c sectionEpochProbes t in
  if negb run_ then
    t' ← now; mret (None, stop t' (downgrade SectionSkipped sec), probed)
  else
    let '(triggers, dropped) := epochTriggers topics offsets maxEpochProbesPerCycle in
    let sec := if dropped then with_truncated true sec else sec in
    let triggers := base.filter (fun t => Is_true (negb (answered probed (probeKey t)))) triggers in
    if bool_decide (triggers = []) then
      t' ← now; mret (None, stop t' (downgrade SectionSkipped sec), probed)
    else
      let '(rounds, roundDropped) := epochRounds triggers in
      let sec := if roundDropped : bool then with_truncated true sec else sec in
      '(asked, sec) ← askRounds rounds ∅ sec;
      let '(probes, (sec, probed)) := traverseM (probeTrigger asked) triggers (sec, probed) in
      t' ← now;
      mret (Some (omap id probes), stop t' sec, probed).

End truncation.

(** ** Specifications *)

(** A round asks exactly its questions: one epoch per partition. *)
Definition round_ok (r : epochRound) : Prop :=
  forall k, k ∈ er_keys r <-> req_lookup (er_req r) k = Some (ek_epoch k).

Definition asked_in (rounds : list epochRound) (k : epochKey) : Prop :=
  exists r, r ∈ rounds /\ k ∈ er_keys r.

Record rounds_spec (ts : list epochTrigger) (rounds : list epochRound) (dropped : bool) : Prop := {
  rs_ok : Forall round_ok rounds;
  rs_bound : Z.of_nat (length rounds) <= maxEpochProbeRounds;
  rs_once : NoDup (concat (er_keys <$> rounds));
  rs_sound : forall k, asked_in rounds k -> exists t, t ∈ ts /\ key t = k;
  rs_complete : dropped = false -> forall t, t ∈ ts -> asked_in rounds (key t);
  rs_refused : dropped = true -> Z.of_nat (length rounds) = maxEpochProbeRounds;
}.

(** What the phase knows of one request's answer. *)
Definition epoch_usable `{!KerrCodes} (x : withErr (gmap string (gmap Z EpochOffset))) : bool :=
  from_option outcome_usable true x.2 || (0 <? Z.of_nat (size x.1)).

Definition answer_in `{!KerrCodes} (e : env) (req : EpochRequest) (k : epochKey) : epochAnswer :=
  let x : withErr (gmap string (gmap Z EpochOffset)) := answer e (ROffsetForLeaderEpoch req) in
  mkEpochAnswer (ps ← x.1 !! ek_topic k; ps !! ek_partition k) (epoch_usable x).

(** The row one trigger and one answer make. *)
Definition probe_spec (t : epochTrigger) (a : epochAnswer) (p : EpochProbe) : Prop :=
  ep_Topic p = et_topic t /\ ep_TopicID p = et_topicID t /\ ep_Partition p = et_partition t /\
  ep_GroupID p = et_group t /\ ep_CommittedOffset p = et_committedOffset t /\
  ep_CommittedEpoch p = et_committedEpoch t /\ ep_CurrentLeaderEpoch p = et_currentEpoch t /\
  (settles a = true -> exists o, ea_offset a = Some o /\ ep_ReturnedEpoch p = Some (eo_LeaderEpoch o) /\
     ep_EndOffset p = nullableOffset (eo_EndOffset o) None) /\
  (settles a = false -> ep_ReturnedEpoch p = None /\ ep_EndOffset p = None).

(** A group committed an offset under an epoch that is no longer the partition's. *)
Definition mismatch (topics : list TopicMetrics) (offsets : list ConsumerOffset) (t : epochTrigger) : Prop :=
  exists tm q co o, tm ∈ topics /\ q ∈ tm_Partitions tm /\ co ∈ offsets /\ o ∈ elems (co_Offsets co) /\
    po_Topic o = tm_Name tm /\ po_Partition o = p_ID q /\ is_Some (po_Offset o) /\
    0 <= po_LeaderEpoch o /\ 0 <= p_LeaderEpoch q /\ p_LeaderEpoch q <> po_LeaderEpoch o /\
    t = mkEpochTrigger (tm_Name tm) (tm_ID tm) (p_ID q) (co_GroupID co) (po_Offset o)
          (po_LeaderEpoch o) (p_LeaderEpoch q).

(** A cluster of one idle partition whose leader moved from epoch 3 to epoch 7. *)
Definition moved_topics : list TopicMetrics :=
  [mkTopicMetrics "t" "id" false 1 1 [mkPartition 0 1 7 [1] [1] [] None None None None None None 0] 0].
Definition moved_offsets : list ConsumerOffset :=
  [mkConsumerOffset "g" 0 (Some [mkPartitionOffset "t" 0 (Some 90) 3 "" 0]) 1].
Definition moved_env : env := mkEnv
  (fun r => match r with
            | ROffsetForLeaderEpoch _ =>
                ({["t" := {[0 := mkEpochOffset 1 3 40 None]}]} : gmap string (gmap Z EpochOffset), None)
            | r => empty_answer r
            end) Z.of_nat.

(** ** Lemmas on rounds *)

Lemma req_lookup_Add k k' req :
  req_lookup (req_Add k req) k' =
    if decide (ek_topic k = ek_topic k' /\ ek_partition k = ek_partition k') then Some (ek_epoch k)
    else req_lookup req k'.
Proof.
  unfold req_lookup, req_Add. destruct (decide (ek_topic k = ek_topic k')) as [Et|Et].
  - rewrite <- Et, lookup_insert_eq. simpl. destruct (decide (ek_partition k = ek_partition k')) as [Ep|Ep].
    + rewrite <- Ep, lookup_insert_eq, decide_True; done.
    + rewrite lookup_insert_ne, decide_False by naive_solver. by destruct (req !! ek_topic k).
  - rewrite lookup_insert_ne, decide_False by naive_solver. done.
Qed.

Lemma round_add_ok k r : round_ok r -> req_lookup (er_req r) k = None -> round_ok (round_add k r).
Proof.
  intros Hr Hk k'. unfold round_add. simpl. rewrite elem_of_app, list_elem_of_singleton, (Hr k'), req_lookup_Add.
  case_decide as Hd.
  - assert (req_lookup (er_req r) k' = None) as ->.
    { destruct Hd as [Ht Hp]. unfold req_lookup in *. by rewrite <- Ht, <- Hp. }
    split; [by intros [?| ->]|]. intros [= He]. right. destruct k, k'; naive_solver.
  - split; [|by left]. intros [?| ->]; [done|]. by destruct Hd.
Qed.

Lemma round_nil_ok : round_ok (mkEpochRound ∅ []).
Proof. intros k. unfold req_lookup. simpl. rewrite lookup_empty. split; [by intros ?%elem_of_nil|done]. Qed.

Lemma asked_in_cons r rounds k : asked_in (r :: rounds) k <-> k ∈ er_keys r \/ asked_in rounds k.
Proof.
  unfold asked_in. split.
  - intros (r' & [->|Hr]%elem_of_cons & Hk); [by left|right; eauto].
  - intros [Hk|(r' & Hr & Hk)]; [exists r; split; [by left|done]|exists r'; split; [by right|done]].
Qed.

Lemma asked_in_app rounds r k : asked_in (rounds ++ [r]) k <-> asked_in rounds k \/ k ∈ er_keys r.
Proof.
  unfold asked_in. split.
  - intros (r' & [Hr|Hr%list_elem_of_singleton]%elem_of_app & Hk); [left; eauto|right; by subst].
  - intros [(r' & Hr & Hk)|Hk]; [exists r'|exists r]; rewrite elem_of_app, list_elem_of_singleton; auto.
Qed.

(** Placing a question adds it to what is asked, and nothing else. *)
Lemma place_spec k rounds rounds' :
  place k rounds = Some rounds' -> Forall round_ok rounds ->
  Forall round_ok rounds' /\ length rounds' = length rounds /\
  (forall k', asked_in rounds' k' <-> k' = k \/ asked_in rounds k').
Proof.
  revert rounds'. induction rounds as [|r rounds IH]; intros rounds' Hp Hok; [done|].
  apply list.Forall_cons in Hok as [Hr Hok]. simpl in Hp.
  destruct (req_lookup (er_req r) k) as [e|] eqn:E; [destruct (e =? ek_epoch k) eqn:Ee|].
  - injection Hp as <-. split_and!; [by constructor|done|]. intros k'. rewrite asked_in_cons.
    split; [by right|]. intros [->|?]; [|done]. left. apply Hr. rewrite E. f_equal. lia.
  - apply fmap_Some in Hp as (rs & Hp & ->). destruct (IH rs Hp Hok) as (? & ? & Ha).
    split_and!; [by constructor|simpl; lia|]. intros k'. rewrite !asked_in_cons, Ha. naive_solver.
  - injection Hp as <-. split_and!; [constructor; [by apply round_add_ok|done]|done|].
    intros k'. rewrite !asked_in_cons. unfold round_add. simpl.
    rewrite elem_of_app, list_elem_of_singleton. naive_solver.
Qed.

(** The rounds are filled in order: a question sits in a round only because every
    earlier round asks another epoch of its partition. *)
Fixpoint packed (rounds : list epochRound) : Prop :=
  match rounds with
  | [] => True
  | r :: rounds =>
      NoDup (er_keys r) /\
      (forall k, asked_in rounds k -> exists e, req_lookup (er_req r) k = Some e /\ e <> ek_epoch k) /\
      packed rounds
  end.

Lemma asked_in_nil k : ~ asked_in [] k.
Proof. by intros (r & ?%elem_of_nil & _). Qed.

Lemma packed_once rounds : Forall round_ok rounds -> packed rounds -> NoDup (concat (er_keys <$> rounds)).
Proof.
  induction 1 as [|r rounds Hr Hok IH]; [intros; apply NoDup_nil_2|]. intros (Hnd & Hlater & Hp).
  rewrite fmap_cons. simpl. apply NoDup_app. split; [done|]. split; [|by apply IH].
  intros k Hk Hin. apply list_elem_of_In, in_concat in Hin as (ks & Hks & Hin).
  apply list_elem_of_In, list_elem_of_fmap in Hks as (r' & -> & Hr'). apply list_elem_of_In in Hin.
  destruct (Hlater k) as (e & He & Hne); [by exists r'|]. apply (Hr k) in Hk. congruence.
Qed.

Lemma round_add_NoDup k r : round_ok r -> req_lookup (er_req r) k = None -> NoDup (er_keys r) ->
  NoDup (er_keys (round_add k r)).
Proof.
  intros Hr Hk Hnd. simpl. apply NoDup_app. split; [done|]. split; [|apply NoDup_singleton].
  intros k' Hin ->%list_elem_of_singleton. apply (Hr k) in Hin. congruence.
Qed.

Lemma place_packed k rounds rounds' :
  place k rounds = Some rounds' -> Forall round_ok rounds -> packed rounds -> packed rounds'.
Proof.
  revert rounds'. induction rounds as [|r rounds IH]; intros rounds' Hp Hok Hpk; [done|].
  apply list.Forall_cons in Hok as [Hr Hok]. destruct Hpk as (Hnd & Hlater & Hpk). simpl in Hp.
  destruct (req_lookup (er_req r) k) as [e|] eqn:E; [destruct (e =? ek_epoch k) eqn:Ee|].
  - injection Hp as <-. done.
  - apply fmap_Some in Hp as (rs & Hp & ->). destruct (place_spec _ _ _ Hp Hok) as (_ & _ & Ha).
    split; [done|]. split; [|by apply IH]. intros k' [->|Hk']%Ha; [|by apply Hlater].
    exists e. split; [done|]. lia.
  - injection Hp as <-. split; [by apply round_add_NoDup|]. split; [|done].
    intros k' Hk'. destruct (Hlater k' Hk') as (e & He & Hne). exists e. split; [|done].
    simpl. rewrite req_lookup_Add, decide_False; [done|]. intros [Ht Hp].
    unfold req_lookup in *. rewrite Ht, Hp in E. congruence.
Qed.

Lemma packed_snoc k rounds :
  place k rounds = None -> packed rounds -> packed (rounds ++ [round_add k (mkEpochRound ∅ [])]).
Proof.
  induction rounds as [|r rounds IH]; simpl.
  - intros _ _. split; [apply NoDup_singleton|]. split; [|done]. by intros k' ?%asked_in_nil.
  - intros Hp (Hnd & Hlater & Hpk). destruct (req_lookup (er_req r) k) as [e|] eqn:E; [|done].
    destruct (e =? ek_epoch k) eqn:Ee; [done|]. apply fmap_None in Hp.
    split; [done|]. split; [|by apply IH]. intros k' [Hk'|Hk']%asked_in_app; [by apply Hlater|].
    simpl in Hk'. apply list_elem_of_singleton in Hk' as ->. exists e. split; [done|]. lia.
Qed.

Lemma round_step_packed rounds dropped t :
  Forall round_ok rounds -> packed rounds -> packed (round_step (rounds, dropped) t).1.
Proof.
  intros Hok Hpk. unfold round_step. destruct (place (key t) rounds) as [rounds'|] eqn:Hp.
  - by eapply place_packed.
  - destruct (_ <=? _); [done|]. by apply packed_snoc.
Qed.

Lemma round_step_spec ts rounds dropped t :
  packed (round_step (rounds, dropped) t).1 ->
  rounds_spec ts rounds dropped ->
  rounds_spec (ts ++ [t]) (round_step (rounds, dropped) t).1 (round_step (rounds, dropped) t).2.
Proof.
  intros Hpk [Hok Hb _ Hs Hc Hd]. revert Hpk. unfold round_step.
  assert (forall k, asked_in rounds k -> exists t', t' ∈ ts ++ [t] /\ key t' = k) as Hs'.
  { intros k (t' & ? & ?)%Hs. exists t'. rewrite elem_of_app. auto. }
  assert (t ∈ ts ++ [t]) as Ht by (rewrite elem_of_app; right; by left).
  destruct (place (key t) rounds) as [rounds'|] eqn:Hp.
  - destruct (place_spec _ _ _ Hp Hok) as (Hok' & Hlen & Ha).
    simpl. intros Hpk. split; try done.
    + lia.
    + by apply packed_once.
    + intros k [->|?]%Ha; eauto.
    + intros Hnd t' [Ht'|Ht'%list_elem_of_singleton]%elem_of_app; rewrite Ha; [right; by apply Hc|by left; subst].
    + intros. rewrite Hlen. by apply Hd.
  - destruct (maxEpochProbeRounds <=? Z.of_nat (length rounds)) eqn:Hm; go_bools.
    + simpl. intros Hpk. split; try done; [by apply packed_once|]. intros _. lia.
    + assert (forall k, asked_in (rounds ++ [round_add (key t) (mkEpochRound ∅ [])]) k <->
        asked_in rounds k \/ k = key t) as Ha.
      { intros k. rewrite asked_in_app. simpl. by rewrite list_elem_of_singleton. }
      assert (Forall round_ok (rounds ++ [round_add (key t) (mkEpochRound ∅ [])])) as Hok'.
      { apply Forall_app. split; [done|]. apply Forall_singleton, round_add_ok; [apply round_nil_ok|done]. }
      simpl. intros Hpk. split; [done| |by apply packed_once| | |].
      * rewrite length_app. simpl. unfold maxEpochProbeRounds in *. lia.
      * intros k [?| ->]%Ha; eauto.
      * intros Hnd t' [Ht'|Ht'%list_elem_of_singleton]%elem_of_app; rewrite Ha; [left; by apply Hc|by right; subst].
      * intros Hdr. specialize (Hd Hdr). lia.
Qed.

Lemma epochRounds_spec ts : rounds_spec ts (epochRounds ts).1 (epochRounds ts).2.
Proof.
  unfold epochRounds. assert (rounds_spec [] [] false) as H0.
  { split; try done; [apply NoDup_nil_2|by intros k ?%asked_in_nil|by intros _ t ?%elem_of_nil]. }
  assert (forall ts0 st, rounds_spec ts0 st.1 st.2 -> packed st.1 ->
    rounds_spec (ts0 ++ ts) (foldl round_step st ts).1 (foldl round_step st ts).2) as H.
  { induction ts as [|t ts IH]; intros ts0 [rounds d] Hst Hpk; [by rewrite app_nil_r|].
    simpl. replace (ts0 ++ t :: ts) with ((ts0 ++ [t]) ++ ts) by (by rewrite <- app_assoc).
    assert (packed (round_step (rounds, d) t).1) as Hpk' by (apply round_step_packed; [apply Hst|done]).
    apply IH; [by apply round_step_spec|done]. }
  by apply (H [] ([], false)).
Qed.

(** ** Lemmas on triggers *)

Lemma trigger_fields current g o t :
  trigger current g o = Some t ->
  et_topic t = po_Topic o /\ et_partition t = po_Partition o /\ et_group t = g /\
  et_committedOffset t = po_Offset o /\ is_Some (po_Offset o) /\
  et_committedEpoch t = po_LeaderEpoch o /\ 0 <= po_LeaderEpoch o /\ 0 <= et_currentEpoch t /\
  et_currentEpoch t <> et_committedEpoch t /\
  (ps ← current !! po_Topic o; ps !! po_Partition o) = Some (et_topicID t, et_currentEpoch t).
Proof.
  unfold trigger. intros H. destruct (po_Offset o) eqn:Eo; [|done].
  destruct (po_LeaderEpoch o <? 0) eqn:El; [done|].
  destruct (ps ← _; _) as [[tid epoch]|] eqn:Ec; [|done].
  destruct ((epoch <? 0) || (epoch =? po_LeaderEpoch o)) eqn:Ee; [done|].
  go_bools. injection H as <-. simpl. split_and!; try done; try lia.
Qed.

Lemma trigger_fires current g o tid epoch :
  is_Some (po_Offset o) -> 0 <= po_LeaderEpoch o -> 0 <= epoch -> epoch <> po_LeaderEpoch o ->
  (ps ← current !! po_Topic o; ps !! po_Partition o) = Some (tid, epoch) ->
  trigger current g o = Some (mkEpochTrigger (po_Topic o) tid (po_Partition o) g (po_Offset o)
    (po_LeaderEpoch o) epoch).
Proof.
  intros [v Hv] H1 H2 H3 Hc. unfold trigger. rewrite Hv, Hc.
  replace (po_LeaderEpoch o <? 0) with false by lia.
  replace ((epoch <? 0) || (epoch =? po_LeaderEpoch o)) with false; [done|].
  symmetry. apply orb_false_iff. lia.
Qed.

(** Distinct topics, and distinct partitions within each: what the metadata and
    [buildTopic] give. *)
Definition topics_distinct (topics : list TopicMetrics) : Prop :=
  NoDup (tm_Name <$> topics) /\ Forall (fun tm => NoDup (p_ID <$> tm_Partitions tm)) topics.

Lemma currentEpochs_lookup topics t p tid epoch :
  topics_distinct topics ->
  (ps ← currentEpochs topics !! t; ps !! p) = Some (tid, epoch) <->
  exists tm q, tm ∈ topics /\ q ∈ tm_Partitions tm /\ tm_Name tm = t /\ p_ID q = p /\
    tm_ID tm = tid /\ p_LeaderEpoch q = epoch.
Proof.
  intros [Hnd Hps]. rewrite bind_Some. unfold currentEpochs. split.
  - intros (ps & Ht & Hp). apply foldl_insert_unique in Ht as (tm & Htm & Hn & <-); [|done|done].
    rewrite list.Forall_forall in Hps.
    apply foldl_insert_unique in Hp as (q & Hq & Hid & [= <- <-]); [|by apply Hps|done].
    by exists tm, q.
  - intros (tm & q & Htm & Hq & Hn & Hid & <- & <-). eexists. split.
    + apply foldl_insert_unique; [done|done|]. exists tm. split; [done|]. split; [done|reflexivity].
    + apply foldl_insert_unique; [|done|by exists q].
      rewrite list.Forall_forall in Hps. by apply Hps.
Qed.

Lemma elem_of_allTriggers topics offsets t :
  t ∈ allTriggers topics offsets <->
  exists co o, co ∈ offsets /\ o ∈ elems (co_Offsets co) /\
    trigger (currentEpochs topics) (co_GroupID co) o = Some t.
Proof.
  unfold allTriggers. rewrite elem_of_sort_slice, list_elem_of_bind.
  setoid_rewrite list_elem_of_omap. naive_solver.
Qed.

#[export] Instance trigger_less_strict : StrictWeak trigger_less.
Proof. unfold trigger_less. apply _. Qed.

(** ** Running the phase *)

Section running.
Context `{!KerrCodes}.

Lemma ask_keys_lookup (f : epochKey -> epochAnswer) ks (m : gmap epochKey epochAnswer) k :
  foldl (fun m k => <[k := f k]> m) m ks !! k = if decide (k ∈ ks) then Some (f k) else m !! k.
Proof.
  rewrite (foldl_insert_lookup (fun k => k) f).
  destruct (list_find _ (reverse ks)) as [[i x]|] eqn:E.
  - apply list_find_Some in E as (Hi & -> & _). apply list_elem_of_lookup_2 in Hi.
    rewrite elem_of_reverse in Hi. by rewrite decide_True.
  - apply list_find_None in E. rewrite decide_False; [done|]. intros Hk.
    rewrite list.Forall_forall in E. apply (E k); [by rewrite elem_of_reverse|done].
Qed.

Lemma run_askRounds {V} e rounds asked sec tick (v : V) :
  exists asked' sec',
    run e (askRounds rounds asked sec) tick v =
      ((asked', sec'), (fun r => ROffsetForLeaderEpoch (er_req r)) <$> rounds, tick, v) /\
    (forall k a, asked' !! k = Some a ->
       (exists r, r ∈ rounds /\ k ∈ er_keys r /\ a = answer_in e (er_req r) k) \/ asked !! k = Some a) /\
    (forall k, asked_in rounds k -> is_Some (asked' !! k)) /\
    (forall k, is_Some (asked !! k) -> is_Some (asked' !! k)) /\
    (forall P, Kept P -> P sec -> P sec') /\
    (truncated sec = true -> truncated sec' = true).
Proof.
  revert asked sec. induction rounds as [|r rounds IH]; intros asked sec.
  { exists asked, sec. split; [done|]. split; [by right|]. split; [|done].
    by intros k (r & ?%elem_of_nil & _). }
  cbn [askRounds]. run_step.
  destruct (answer e (ROffsetForLeaderEpoch (er_req r))) as [resp err] eqn:Ea.
  pose proof (requestPartial_fst "OffsetForLeaderEpoch" err (0 <? Z.of_nat (size resp)) sec) as Hf.
  pose proof (fun P HP => @kept_requestPartial _ P HP "OffsetForLeaderEpoch" err (0 <? Z.of_nat (size resp)) sec) as Hsec.
  pose proof (requestPartial_truncated "OffsetForLeaderEpoch" err (0 <? Z.of_nat (size resp)) sec) as Htr.
  destruct (requestPartial _ _ _ _) as [ok sec1]. simpl in Hf, Hsec, Htr.
  match goal with |- context [run e (askRounds rounds ?m sec1)] => set (asked1 := m) end.
  assert (forall k, asked1 !! k = if decide (k ∈ er_keys r) then Some (answer_in e (er_req r) k) else asked !! k)
    as Hask.
  { intros k. subst asked1. rewrite (ask_keys_lookup (fun k => mkEpochAnswer _ ok)).
    unfold answer_in, epoch_usable. rewrite Ea, Hf. done. }
  destruct (IH asked1 sec1) as (asked' & sec' & -> & Hin & Hall & Hmon & Hok & Htr').
  exists asked', sec'. split; [done|]. split_and!.
  - intros k a Hk. destruct (Hin k a Hk) as [(r' & Hr' & Hk' & ->)|Hk1].
    + left. exists r'. split; [by right|done].
    + rewrite Hask in Hk1. case_decide; [|by right]. left. exists r. split; [by left|]. naive_solver.
  - intros k [Hk|Hk]%asked_in_cons; [|by apply Hall]. apply Hmon. rewrite Hask, decide_True; eauto.
  - intros k Hk. apply Hmon. rewrite Hask. case_decide; eauto.
  - intros P HP Hs. by apply Hok, Hsec.
  - auto.
Qed.

Lemma probeTrigger_truncated asked t : preserves (fun sp => truncated sp.1 = true) (probeTrigger asked t).
Proof.
  intros [sec probed] Hs. simpl in *. destruct (asked !! key t) as [a|]; [|done].
  assert (truncated (probe t a sec).2 = true) as Hp; [|by destruct (probe t a sec)].
  unfold probe, modify. repeat case_match; simpl; try done; by apply record_truncated.
Qed.

Lemma probe_kept P `{!Kept P} t a : preserves P (probe t a).
Proof.
  unfold probe. repeat case_match; try apply preserves_ret;
    (apply preserves_bind; [intros s Hs; simpl; by kept1|intros; apply preserves_ret]).
Qed.

Lemma askRounds_sec {V} lo hi n rounds asked sec t : sec_at lo hi n sec ->
  clocked (V := V) (fun _ r => sec_at lo hi n r.2) t (askRounds rounds asked sec).
Proof.
  revert asked sec t. induction rounds as [|r rounds IH]; intros asked sec t Hs; cbn [askRounds]; [by intros ? ?|].
  timed. apply IH. match goal with E : requestPartial _ _ _ _ = _ |- _ => rewrite (pair_snd _ _ _ E) end. sec_ok.
Qed.

Lemma probeTrigger_kept P `{!Kept P} asked t : preserves (fun sp => P sp.1) (probeTrigger asked t).
Proof.
  intros [sec probed] Hs. simpl in *. destruct (asked !! key t) as [a|]; [|done].
  pose proof (probe_kept P t a sec Hs) as Hp. by destruct (probe t a sec).
Qed.

Lemma collectEpochProbes_sec {V} lo c b topics offsets probed t : lo <= t ->
  clocked (V := V) (fun t r => sec_at lo t sectionEpochProbes r.1.2) t (collectEpochProbes c b topics offsets probed).
Proof.
  intros Hlo. unfold collectEpochProbes. apply clocked_bind. intros t1 Ht1 t2 Ht2. cbv beta zeta.
  destruct (negb b); [timed; simpl; sec_ok|].
  destruct (epochTriggers _ _ _) as [triggers dropped].
  set (sec := if dropped then _ else _).
  assert (sec_at lo t2 sectionEpochProbes sec) as Hsec by (subst sec; destruct dropped; sec_ok).
  destruct (bool_decide _); [timed; simpl; apply sec_at_stop; [lia|]; kept1; eapply sec_at_later; [|exact Hsec]; lia|].
  destruct (epochRounds _) as [rounds roundDropped].
  apply clocked_bind. eapply clocked_impl; [|apply (askRounds_sec lo t2 sectionEpochProbes); destruct roundDropped; sec_ok].
  intros t3 [asked sec'] Ht3 Hs. simpl in Hs.
  match goal with |- context [traverseM ?f ?l ?s] =>
    pose proof (preserves_traverse _ f l (probeTrigger_kept (sec_at lo t2 sectionEpochProbes) asked) s Hs) as Ht;
    destruct (traverseM f l s) as [ps [sec2 probed']] end.
  timed. simpl in *. apply sec_at_stop; [lia|]. eapply sec_at_later; [|eassumption]. lia.
Qed.

Lemma probe_fst t a s : probe_spec t a (probe t a s).1.
Proof.
  unfold probe, probe_spec, settles. destruct a as [[o|] []]; simpl; [|split_and!; done..|split_and!; done].
  destruct (eo_Err o) eqn:E; simpl; [by split_and!|]. split_and!; try done. intros _. by exists o.
Qed.

(** The rows of the loop over the triggers. *)
Lemma probeTrigger_rows asked ts s p :
  p ∈ omap id (traverseM (probeTrigger asked) ts s).1 ->
  exists t a, t ∈ ts /\ asked !! key t = Some a /\ probe_spec t a p.
Proof.
  revert s. induction ts as [|t ts IH]; intros s; [by intros ?%elem_of_nil|].
  simpl traverseM. rewrite St_bind_eq, St_bind_eq. cbn [fst snd mret St_ret].
  destruct s as [sec probed]. unfold probeTrigger at 1 3. destruct (asked !! key t) as [a|] eqn:Ea; simpl.
  - pose proof (probe_fst t a sec) as Hp. destruct (probe t a sec) as [q sec']. simpl.
    intros [->|Hin]%elem_of_cons; [exists t, a; split; [by left|done]|].
    destruct (IH _ Hin) as (t' & a' & ? & ? & ?). exists t', a'. split; [by right|done].
  - intros Hin. destruct (IH _ Hin) as (t' & a' & ? & ? & ?). exists t', a'. split; [by right|done].
Qed.

(** Every trigger whose question was asked has a row that says what was answered. *)
Lemma probeTrigger_row asked ts s t a :
  t ∈ ts -> asked !! key t = Some a ->
  exists p, p ∈ omap id (traverseM (probeTrigger asked) ts s).1 /\ probe_spec t a p.
Proof.
  intros Ht Ha. revert s. induction ts as [|t' ts IH]; intros s; [by apply elem_of_nil in Ht|].
  simpl traverseM. rewrite St_bind_eq, St_bind_eq. cbn [fst snd mret St_ret]. destruct s as [sec probed].
  apply elem_of_cons in Ht as [<-|Ht].
  - unfold probeTrigger at 1. rewrite Ha. pose proof (probe_fst t a sec) as Hp.
    destruct (probe t a sec) as [q sec']. simpl. exists q. split; [by left|done].
  - destruct (IH Ht (probeTrigger asked t' (sec, probed)).2) as (p & Hp & Hs). exists p. split; [|done].
    destruct (probeTrigger asked t' (sec, probed)) as [[q|] s']; simpl in *; [by right|done].
Qed.

(** Rows are never dropped once their question was asked. *)
Lemma probeTrigger_complete asked ts s :
  (forall t, t ∈ ts -> is_Some (asked !! key t)) ->
  length (omap id (traverseM (probeTrigger asked) ts s).1) = length ts.
Proof.
  revert s. induction ts as [|t ts IH]; intros s Hall; [done|].
  simpl traverseM. rewrite St_bind_eq, St_bind_eq. cbn [fst snd mret St_ret].
  destruct s as [sec probed]. unfold probeTrigger at 1 3.
  destruct (Hall t ltac:(by left)) as [a ->]. destruct (probe t a sec) as [q sec']. simpl.
  f_equal. apply IH. intros t' Ht'. apply Hall. by right.
Qed.

(** What a pass over the triggers adds to the suppression set. *)
Lemma remembered asked ts s k :
  k ∈ (traverseM (probeTrigger asked) ts s).2.2 ->
  k ∈ s.2 \/ exists t a, t ∈ ts /\ probeKey t = k /\ asked !! key t = Some a /\ settles a = true.
Proof.
  revert s. induction ts as [|t ts IH]; intros s; [by left|].
  simpl traverseM. rewrite St_bind_eq, St_bind_eq. cbn [fst snd mret St_ret].
  intros Hin. apply IH in Hin as [Hin|(t' & a' & ? & ?)]; [|right; exists t', a'; split; [by right|done]].
  destruct s as [sec probed]. unfold probeTrigger in Hin. simpl.
  destruct (asked !! key t) as [a|] eqn:Ea; [|by left].
  destruct (probe t a sec) as [q sec']. simpl in Hin. destruct (settles a) eqn:Es; [|by left].
  unfold remember in Hin. apply elem_of_union in Hin as [->%elem_of_singleton|Hin].
  - right. exists t, a. split; [by left|done].
  - left. destruct (_ <=? _); [by apply elem_of_empty in Hin|done].
Qed.

Lemma size_add (k : epochProbeKey) (p : probedEpochs) : (size ({[k]} ∪ p) <= S (size p))%nat.
Proof.
  destruct (decide (k ∈ p)).
  - replace ({[k]} ∪ p) with p by set_solver. lia.
  - rewrite size_union by set_solver. rewrite size_singleton. lia.
Qed.

Lemma settled_remembered asked ts sec probed t a :
  t ∈ ts -> Z.of_nat (size probed) + Z.of_nat (length ts) <= maxProbedEpochs ->
  asked !! key t = Some a -> settles a = true ->
  probeKey t ∈ (traverseM (probeTrigger asked) ts (sec, probed)).2.2.
Proof.
  assert (forall ts sec probed k, k ∈ probed -> Z.of_nat (size probed) + Z.of_nat (length ts) <= maxProbedEpochs ->
    k ∈ (traverseM (probeTrigger asked) ts (sec, probed)).2.2) as Hmon.
  { clear. induction ts as [|t ts IH]; intros sec probed k Hk Hroom; [done|].
    simpl traverseM. rewrite St_bind_eq, St_bind_eq. cbn [fst snd mret St_ret].
    unfold probeTrigger at 2. simpl in Hroom. destruct (asked !! key t) as [a|]; simpl; [|apply IH; [done|lia]].
    destruct (probe t a sec) as [q sec']. simpl. destruct (settles a); [|apply IH; [done|lia]].
    unfold remember. replace (maxProbedEpochs <=? Z.of_nat (size probed)) with false by lia.
    pose proof (size_add (probeKey t) probed). apply IH; [set_solver|lia]. }
  intros Ht Hroom Ha Hs. revert sec probed Hroom. induction ts as [|t' ts IH]; intros sec probed Hroom.
  { by apply elem_of_nil in Ht. }
  simpl traverseM. rewrite St_bind_eq, St_bind_eq. cbn [fst snd mret St_ret]. simpl in Hroom.
  unfold probeTrigger at 2. apply elem_of_cons in Ht as [<-|Ht].
  - rewrite Ha. destruct (probe t a sec) as [q sec']. simpl. rewrite Hs. unfold remember.
    replace (maxProbedEpochs <=? Z.of_nat (size probed)) with false by lia.
    pose proof (size_add (probeKey t) probed). apply Hmon; [set_solver|lia].
  - destruct (asked !! key t') as [a'|]; [|apply IH; [done|lia]].
    destruct (probe t' a' sec) as [q sec']. cbn [snd]. destruct (settles a'); [|apply IH; [done|lia]].
    unfold remember. replace (maxProbedEpochs <=? Z.of_nat (size probed)) with false by lia.
    pose proof (size_add (probeKey t') probed). apply IH; [done|lia].
Qed.

End running.

Lemma allTriggers_mismatch topics offsets t :
  topics_distinct topics -> t ∈ allTriggers topics offsets <-> mismatch topics offsets t.
Proof.
  intros Hd. rewrite elem_of_allTriggers. split.
  - intros (co & o & Hco & Ho & Ht).
    destruct (trigger_fields _ _ _ _ Ht) as (E1 & E2 & E3 & E4 & Hs & E5 & H0 & H1 & Hne & Hc).
    apply currentEpochs_lookup in Hc as (tm & q & Htm & Hq & En & Ep & Eid & Ee); [|done].
    exists tm, q, co, o. split_and!; try done; try lia. destruct t; simpl in *; congruence.
  - intros (tm & q & co & o & Htm & Hq & Hco & Ho & Et & Ep & Hs & H0 & H1 & Hne & ->).
    exists co, o. split; [done|]. split; [done|]. rewrite <- Et, <- Ep.
    apply trigger_fires; try done. apply currentEpochs_lookup; [done|]. exists tm, q. naive_solver.
Qed.

Lemma epochTriggers_empty topics offsets :
  topics = [] \/ offsets = [] -> allTriggers topics offsets = [].
Proof.
  intros H. apply elem_of_nil_inv. intros t. rewrite elem_of_allTriggers.
  intros (co & o & Hco & Ho & Ht). destruct H as [->| ->]; [|by apply elem_of_nil in Hco].
  destruct (trigger_fields _ _ _ _ Ht) as (_ & _ & _ & _ & _ & _ & _ & _ & _ & Hc).
  unfold currentEpochs in Hc. simpl in Hc. by rewrite lookup_empty in Hc.
Qed.

Lemma epochTriggers_take topics offsets max : 0 < max ->
  epochTriggers topics offsets max =
    (take (Z.to_nat max) (allTriggers topics offsets),
     max <? Z.of_nat (length (allTriggers topics offsets))).
Proof.
  intros Hmax. unfold epochTriggers. destruct (_ || _) eqn:E.
  - rewrite epochTriggers_empty; [rewrite take_nil; f_equal; symmetry; apply Z.ltb_ge; simpl; lia|].
    apply orb_true_iff in E as [E|E]; [left; destruct topics|right; destruct offsets]; simpl in E; try done; lia.
  - unfold capLen. replace (max <=? 0) with false by lia. simpl.
    destruct (Z.of_nat (length (allTriggers topics offsets)) <=? max) eqn:El; go_bools.
    + rewrite !take_ge by lia. f_equal. symmetry. apply Z.ltb_ge. lia.
    + f_equal. transitivity true; [apply Z.ltb_lt; lia|symmetry; apply Z.ltb_lt; lia].
Qed.

(** ** Properties *)

(** C40: the questions are packed without losing, inventing or repeating one.  At most
    four requests are built; each asks one epoch per partition, exactly its own
    questions; no question is asked twice, within a request or across them; every
    question comes from a trigger; and unless the round cap refused one, which is
    reported and happens only with all four rounds in use, every trigger's question is
    asked. *)
Theorem epochRounds_exact (ts : list epochTrigger) :
  rounds_spec ts (epochRounds ts).1 (epochRounds ts).2.
Proof. apply epochRounds_spec. Qed.

(** The trigger fires exactly on an epoch mismatch.  For the topics and
    offsets of one batch, a trigger exists precisely for each committed offset
    whose partition is shipped with a different known leader epoch; the list is
    sorted by topic, partition and group, and the cap keeps a prefix of it and
    says so.  In steady state it is empty. *)
Theorem epochTriggers_exact (topics : list TopicMetrics) (offsets : list ConsumerOffset) (max : Z) :
  topics_distinct topics -> 0 < max ->
  (forall t, t ∈ allTriggers topics offsets <-> mismatch topics offsets t) /\
  StronglySorted (not_less trigger_less) (allTriggers topics offsets) /\
  (epochTriggers topics offsets max).1 = take (Z.to_nat max) (allTriggers topics offsets) /\
  ((epochTriggers topics offsets max).2 = true <->
     max < Z.of_nat (length (allTriggers topics offsets))).
Proof.
  intros Hd Hmax. rewrite epochTriggers_take by done. split_and!; [|apply sort_slice_sorted, _|done|].
  - intros t. by apply allTriggers_mismatch.
  - simpl. apply Z.ltb_lt.
Qed.

Section properties.
Context `{!KerrCodes}.

(** One of the requests put the question of a trigger, and the row says what the
    leader answered to it. *)
Definition answered_by (e : env) (reqs : list Request) (t : epochTrigger) (p : EpochProbe) : Prop :=
  exists req, ROffsetForLeaderEpoch req ∈ reqs /\
    req_lookup req (key t) = Some (et_committedEpoch t) /\ probe_spec t (answer_in e req (key t)) p.

(** Asking the questions of some triggers, and filing the answers. *)
Lemma run_asking {V} e fresh sec probed tick (v : V) :
  exists ps sec' probed' tick',
    run e ('(asked, sec) ← askRounds (epochRounds fresh).1 ∅ sec;
           let '(probes, (sec, probed)) := traverseM (probeTrigger asked) fresh (sec, probed) in
           t' ← now; mret (Some (omap id probes), stop t' sec, probed)) tick v =
      (Some ps, sec', probed', (fun r => ROffsetForLeaderEpoch (er_req r)) <$> (epochRounds fresh).1, tick', v) /\
    (forall p, p ∈ ps -> exists t, t ∈ fresh /\
       answered_by e ((fun r => ROffsetForLeaderEpoch (er_req r)) <$> (epochRounds fresh).1) t p) /\
    ((epochRounds fresh).2 = false -> forall t, t ∈ fresh -> exists p, p ∈ ps /\
       answered_by e ((fun r => ROffsetForLeaderEpoch (er_req r)) <$> (epochRounds fresh).1) t p) /\
    (truncated sec = true -> truncated sec' = true).
Proof.
  pose proof (epochRounds_spec fresh) as Hr. destruct (epochRounds fresh) as [rounds rd]. cbn [fst snd] in *.
  rewrite run_bind. destruct (run_askRounds e rounds ∅ sec tick v) as (asked & sec1 & -> & Hin & Hall & _ & _ & Htr).
  cbv beta iota.
  assert (forall t a p, asked !! key t = Some a -> probe_spec t a p ->
    answered_by e ((fun r => ROffsetForLeaderEpoch (er_req r)) <$> rounds) t p) as Hby.
  { intros t a p Ha Hs. destruct (Hin _ _ Ha) as [(r & Hr' & Hk & ->)|Hnone]; [|by rewrite lookup_empty in Hnone].
    exists (er_req r). split_and!; [apply list_elem_of_fmap; by exists r| |done].
    pose proof (rs_ok _ _ _ Hr) as Hok. rewrite list.Forall_forall in Hok. by apply (Hok r Hr'). }
  pose proof (preserves_traverse _ _ fresh (probeTrigger_truncated asked) (sec1, probed)) as Hpt.
  pose proof (probeTrigger_rows asked fresh (sec1, probed)) as Hrows.
  pose proof (fun t a Ht => probeTrigger_row asked fresh (sec1, probed) t a Ht) as Hrow.
  destruct (traverseM (probeTrigger asked) fresh (sec1, probed)) as [rows [sec2 probed2]]. cbn [fst snd] in *.
  run_step. rewrite run_ret, app_nil_r. eexists _, _, _, _. split; [reflexivity|]. split_and!.
  - intros p (t & a & Ht & Ha & Hs)%Hrows. exists t. split; [done|]. by eapply Hby.
  - intros Hrd t Ht. destruct (Hall (key t)) as [a Ha]; [by apply (rs_complete _ _ _ Hr)|].
    destruct (Hrow t a Ht Ha) as (p & Hp & Hs). exists p. split; [done|]. by eapply Hby.
  - intros Ht. simpl. auto.
Qed.

(** C14: a truncation proof is genuine, and none is missing.  The phase issues at most
    four requests, and none when every mismatch of the batch - an offset some group
    committed under another epoch than the one its partition is shipped with - was
    already answered.  Every row it ships is of such a mismatch that was not: some
    request named its topic and partition with the epoch the group committed, and the
    returned epoch and end offset are the leader's answer to it, null unless the leader
    answered that partition without error.  And unless the section says it was
    truncated, every mismatch not yet answered has its row. *)
Theorem epoch_probes_genuine (e : env) (c : Collector) (topics : list TopicMetrics)
    (offsets : list ConsumerOffset) (probed : probedEpochs) :
  topics_distinct topics ->
  let phase := collectEpochProbes c true topics offsets probed in
  let '(probes, sec, _) := result e phase in
  Z.of_nat (length (requests e phase)) <= maxEpochProbeRounds /\
  ((forall t, mismatch topics offsets t -> probeKey t ∈ probed) -> requests e phase = []) /\
  (forall p, p ∈ elems probes -> exists t,
     mismatch topics offsets t /\ probeKey t ∉ probed /\ answered_by e (requests e phase) t p) /\
  (truncated sec = false -> forall t, mismatch topics offsets t -> probeKey t ∉ probed ->
     exists p, p ∈ elems probes /\ answered_by e (requests e phase) t p).
Proof.
  intros Hd phase. unfold result, requests.
  destruct (run e phase 0 tt) as [[[[[probes sec0] pr] reqs] tk] v] eqn:E. cbn [fst snd].
  revert E. unfold phase, collectEpochProbes. run_step. cbn [negb]. rewrite epochTriggers_take by done.
  set (sorted := allTriggers topics offsets). set (dropped := _ <? _). set (fresh := base.filter _ _).
  assert (forall t, t ∈ fresh -> mismatch topics offsets t /\ probeKey t ∉ probed) as Hmis.
  { intros t [Hn Ht]%list_elem_of_filter. split.
    - apply allTriggers_mismatch; [done|]. by eapply elem_of_sublist, sublist_take.
    - unfold answered in Hn. by case_bool_decide. }
  assert (dropped = false -> forall t, mismatch topics offsets t -> probeKey t ∉ probed -> t ∈ fresh) as Hall.
  { intros Hdr t Ht Hp. apply list_elem_of_filter. unfold answered. rewrite bool_decide_false by done.
    split; [done|]. apply Z.ltb_ge in Hdr. rewrite take_ge by (subst sorted; lia). by apply allTriggers_mismatch. }
  pose proof (rs_bound _ _ _ (epochRounds_spec fresh)) as Hb. case_bool_decide as Hf.
  - intros [= <- <- <- <- <- <-]. split; [done|]. split; [done|]. split; [by intros p ?%elem_of_nil|].
    intros Htr t Ht Hp. destruct dropped; [done|]. specialize (Hall eq_refl t Ht Hp). by rewrite Hf, elem_of_nil in Hall.
  - pose proof (fun sec => run_asking e fresh sec probed 1%nat tt) as Hrun.
    destruct (epochRounds fresh) as [rounds rd]. cbn [fst snd] in *.
    match goal with |- context [askRounds rounds ∅ ?s] =>
      destruct (Hrun s) as (ps & sec' & probed' & tick' & E & Hs & Hc & Htr) end.
    intros E'. assert (E2 := eq_trans (eq_sym E') E). injection E2 as -> -> -> -> -> ->. rewrite length_fmap.
    split; [done|]. split; [|split].
    + intros Hans. destruct Hf. apply elem_of_nil_inv. intros t [Ht Hp]%Hmis. by apply Hp, Hans.
    + intros p (t & Ht & Hby)%Hs. exists t. by destruct (Hmis t Ht).
    + intros Hnt t Ht Hp. assert (dropped = false /\ rd = false) as [-> ->]; [|by apply Hc, Hall].
      destruct dropped, rd; try done; by rewrite Htr in Hnt.
Qed.

(** A question is retired only by an answer.  Running the rows of a cycle, a
    fresh question ends in the suppression set only if a leader answered its
    partition without error, so a failed, omitted or refused one is asked again;
    and while the set is below its bound every answered one is retired. *)
Theorem remember_settles (asked : gmap epochKey epochAnswer) (ts : list epochTrigger)
    (sec : section) (probed : probedEpochs) (t : epochTrigger) :
  t ∈ ts -> probeKey t ∉ probed ->
  let '(_, (_, probed')) := traverseM (probeTrigger asked) ts (sec, probed) in
  (probeKey t ∈ probed' -> exists a, asked !! key t = Some a /\ settles a = true) /\
  (Z.of_nat (size probed) + Z.of_nat (length ts) <= maxProbedEpochs ->
   (exists a, asked !! key t = Some a /\ settles a = true) -> probeKey t ∈ probed').
Proof.
  intros Ht Hfresh. destruct (traverseM _ _ _) as [rows [sec' probed']] eqn:E. split.
  - intros Hin. replace probed' with (rows, (sec', probed')).2.2 in Hin by done. rewrite <- E in Hin.
    apply remembered in Hin as [?|(t' & a & _ & Hk & Ha & Hs)]; [done|]. exists a.
    replace (key t) with (key t'); [done|]. destruct t, t'. unfold probeKey, key in *. simpl in *. congruence.
  - intros Hroom (a & Ha & Hs). replace probed' with (rows, (sec', probed')).2.2 by done. rewrite <- E.
    by apply (settled_remembered asked ts sec probed t a).
Qed.

(** The suppression set stays within its bound, and forgets everything when
    it is full, even for a question it already holds: below the bound [remember]
    is idempotent, at the bound it is not. *)
Theorem remember_bound (k : epochProbeKey) (p : probedEpochs) :
  Z.of_nat (size p) <= maxProbedEpochs ->
  Z.of_nat (size (remember k p)) <= maxProbedEpochs /\
  (Z.of_nat (size p) < maxProbedEpochs -> remember k p = {[k]} ∪ p) /\
  (Z.of_nat (size p) = maxProbedEpochs -> remember k p = {[k]}).
Proof.
  intros Hp. unfold remember. destruct (maxProbedEpochs <=? Z.of_nat (size p)) eqn:E; go_bools.
  - rewrite union_empty_r_L, size_singleton. unfold maxProbedEpochs in *. split_and!; [lia|lia|done].
  - pose proof (size_add k p). split_and!; [lia|done|lia].
Qed.

(** When the first triggers of the sorted list are all answered, the phase asks
    nothing, whatever open mismatches lie past the cap: [answered] filters the
    capped prefix, not the list. *)
Theorem answered_prefix_starves (e : env) (c : Collector) (topics : list TopicMetrics)
    (offsets : list ConsumerOffset) (probed : probedEpochs) :
  (forall t, t ∈ take (Z.to_nat maxEpochProbesPerCycle) (allTriggers topics offsets) -> probeKey t ∈ probed) ->
  requests e (collectEpochProbes c true topics offsets probed) = [].
Proof.
  intros Hall. unfold requests, collectEpochProbes. run_step. cbn [negb].
  rewrite epochTriggers_take by done. rewrite bool_decide_true; [done|].
  apply elem_of_nil_inv. intros t [Hn Ht]%list_elem_of_filter.
  unfold answered in Hn. rewrite bool_decide_true in Hn by auto. done.
Qed.
End properties.

(** ** Witnesses *)

Theorem epochTriggers_exact_witness :
  allTriggers moved_topics moved_offsets = [mkEpochTrigger "t" "id" 0 "g" (Some 90) 3 7] /\
  mismatch moved_topics moved_offsets (mkEpochTrigger "t" "id" 0 "g" (Some 90) 3 7).
Proof.
  assert (topics_distinct moved_topics) as Hd.
  { split; [apply NoDup_singleton|]. constructor; [apply NoDup_singleton|constructor]. }
  assert (allTriggers moved_topics moved_offsets = [mkEpochTrigger "t" "id" 0 "g" (Some 90) 3 7]) as E
    by (vm_compute; reflexivity).
  split; [exact E|].
  apply (proj1 (epochTriggers_exact moved_topics moved_offsets 1024 Hd ltac:(done))). rewrite E. by left.
Defined.

Definition moved_phase : prog () (slice EpochProbe * section * probedEpochs) :=
  @collectEpochProbes kafka_codes _ sample_collector true moved_topics moved_offsets ∅.

Theorem epoch_probes_genuine_witness :
  exists p, p ∈ elems (result moved_env moved_phase).1.1 /\ ep_EndOffset p = Some 40 /\
    exists t, mismatch moved_topics moved_offsets t /\ et_currentEpoch t = 7.
Proof.
  assert (topics_distinct moved_topics) as Hd.
  { split; [apply NoDup_singleton|]. constructor; [apply NoDup_singleton|constructor]. }
  pose proof (@epoch_probes_genuine kafka_codes moved_env sample_collector moved_topics moved_offsets ∅ Hd) as H.
  cbv zeta in H. fold moved_phase in H.
  assert (elems (result moved_env moved_phase).1.1 =
    [mkEpochProbe "t" "id" 0 "g" (Some 90) 3 7 (Some 3) (Some 40) (Some 1) 0]) as E by (vm_compute; reflexivity).
  destruct (result moved_env moved_phase) as [[probes sec] probed']. cbn [fst snd] in E |- *.
  destruct H as (_ & _ & H & _). rewrite E in H |- *.
  eexists. split; [by left|]. split; [reflexivity|].
  destruct (H _ ltac:(by left)) as (t & Ht & _ & req & _ & _ & Hs). exists t. split; [exact Ht|].
  destruct Hs as (_ & _ & _ & _ & _ & _ & Hc & _). exact (eq_sym Hc).
Defined.

Theorem remember_settles_witness :
  let t := mkEpochTrigger "t" "id" 0 "g" (Some 90) 3 7 in
  let '(_, (_, probed')) := @traverseM _ _ _ (@probeTrigger kafka_codes
     {[key t := mkEpochAnswer (Some (mkEpochOffset 1 3 40 None)) true]}) [t]
     (newSection Limits_zero "e" 0, ∅) in probeKey t ∈ probed'.
Proof.
  intros t. pose proof (@remember_settles kafka_codes
    {[key t := mkEpochAnswer (Some (mkEpochOffset 1 3 40 None)) true]} [t] (newSection Limits_zero "e" 0) ∅ t
    ltac:(by left) ltac:(apply not_elem_of_empty)) as H.
  destruct (traverseM _ _ _) as [rows [sec' probed']]. apply H; [done|].
  eexists. split; [by rewrite lookup_singleton_eq|reflexivity].
Defined.

Theorem remember_bound_witness :
  Z.of_nat (size (remember (mkEpochProbeKey "t" "" 0 1 2) ∅)) <= maxProbedEpochs.
Proof. refine (proj1 (remember_bound (mkEpochProbeKey "t" "" 0 1 2) ∅ _)). rewrite size_empty. done. Defined.
