(* ===== verification/Reassign.v ===== *)
(** * Reassign: reassignments behind under-replicated partitions
      ([internal/collector/reassign.go]) *)

From Stdlib Require Import ZArith Lia.
From stdpp Require Import prelude gmap strings numbers sorting.
From S2P Require Import Prelude Wire Errors Sections Filter Kadm Collector Topics.

Definition maxReassignPartitions : Z := 1000.

(** A partition whose in-sync replicas are fewer than its replicas. *)
Definition isURP (p : Partition) : bool :=
  negb ((Z.of_nat (length (p_Replicas p)) =? 0) ||
        (Z.of_nat (length (p_Replicas p)) <=? Z.of_nat (length (p_ISR p)))).

(** The inner loop; [None] is the early return at the cap. *)
Fixpoint urpPartitions (topic : string) (ps : list Partition) (n : Z) (set : TopicsSet)
    : TopicsSet * Z * bool :=
  match ps with
  | [] => (set, n, false)
  | p :: ps =>
      if negb (isURP p) then urpPartitions topic ps n set
      else if maxReassignPartitions <=? n then (set, n, true)
      else urpPartitions topic ps (n + 1) (TopicsSet_Add topic (p_ID p) set)
  end.

Fixpoint urpTopics (ts : list TopicMetrics) (n : Z) (set : TopicsSet) : TopicsSet * bool :=
  match ts with
  | [] => (set, false)
  | t :: ts =>
      let '(set, n, full) := urpPartitions (tm_Name t) (tm_Partitions t) n set in
      if full then (set, true) else urpTopics ts n set
  end.

Definition underReplicated (topics : list TopicMetrics) : TopicsSet * bool := urpTopics topics 0 ∅.

Definition int32sOrEmpty (v : slice Z) : slice Z :=
  match v with None => Some [] | Some _ => v end.

Section reassign.
Context `{!KerrCodes} `{!Kadm}.

Definition reassignmentRow (r : PartitionReassignment) : option Reassignment :=
  if (len (pr_AddingReplicas r) =? 0) && (len (pr_RemovingReplicas r) =? 0) then None
  else Some (mkReassignment (pr_Topic r) (pr_Partition r) (int32sOrEmpty (pr_Replicas r))
               (int32sOrEmpty (pr_AddingReplicas r)) (int32sOrEmpty (pr_RemovingReplicas r))).

Definition buildReassignments (listed : gmap string (gmap Z PartitionReassignment)) : list Reassignment :=
  omap reassignmentRow (reassignmentsSorted listed).

Definition collectReassignments {V} (c : Collector) (topics : list TopicMetrics) (run_ : bool)
    : prog V (slice Reassignment * section) :=
  t ← now;
  let sec := c_newSection c sectionReassignments t in
  if negb run_ then
    t' ← now; mret (None, stop t' (downgrade SectionSkipped sec))
  else
    let '(set, trunc) := underReplicated topics in
    let sec := with_truncated trunc sec in
    if Z.of_nat (size set) =? 0 then
      t' ← now; mret (None, stop t' (downgrade SectionSkipped sec))
    else
      '(listed, err) ← call (RListPartitionReassignments set);
      let '(ok, sec) := request "ListPartitionReassignments" err sec in
      t' ← now;
      if negb ok then mret (None, stop t' sec)
      else mret (Some (buildReassignments listed), stop t' sec).

End reassign.

(** ** Specification *)

(** The under-replicated partitions of a batch, in its order. *)
Definition urps (topics : list TopicMetrics) : list (string * Z) :=
  topics ≫= fun t => (fun p => (tm_Name t, p_ID p)) <$>
    base.filter (fun p => Is_true (isURP p)) (tm_Partitions t).

Definition in_set (set : TopicsSet) (tp : string * Z) : Prop :=
  exists ps, set !! tp.1 = Some ps /\ tp.2 ∈ ps.

(** One partition missing a replica, and one whose metadata failed. *)
Definition urp_topics : list TopicMetrics :=
  [mkTopicMetrics "t" "id" false 2 2
     [mkPartition 0 1 7 [1; 2] [1] [] None None None None None None 0;
      mkPartition 1 1 7 [] [] [] None None None None None None 3] 0].

(** ** Lemmas *)

Lemma in_set_add set topic p tp :
  in_set (TopicsSet_Add topic p set) tp <-> tp = (topic, p) \/ in_set set tp.
Proof.
  unfold in_set, TopicsSet_Add. destruct tp as [t q]. simpl.
  destruct (decide (topic = t)) as [->|Hne].
  - rewrite lookup_insert_eq. split.
    + intros (ps & [= <-] & Hq). apply elem_of_union in Hq as [->%elem_of_singleton|Hq]; [by left|].
      right. destruct (set !! t) as [ps|] eqn:Es; simpl in Hq; [by exists ps|by apply elem_of_empty in Hq].
    + intros [[= ->]|(ps & Hps & Hq)]; eexists; (split; [done|]); [set_solver|].
      rewrite Hps. set_solver.
  - rewrite lookup_insert_ne by done. split; [by right|]. intros [[= -> ->]|?]; done.
Qed.

Lemma urpPartitions_spec topic ps n set set' n' full :
  0 <= n <= maxReassignPartitions ->
  urpPartitions topic ps n set = (set', n', full) ->
  let us := (fun p => (topic, p_ID p)) <$> base.filter (fun p => Is_true (isURP p)) ps in
  (full = false -> n' = n + Z.of_nat (length us) /\ n' <= maxReassignPartitions /\
     forall tp, in_set set' tp <-> in_set set tp \/ tp ∈ us) /\
  (full = true -> maxReassignPartitions < n + Z.of_nat (length us) /\
     forall tp, in_set set' tp <-> in_set set tp \/ tp ∈ take (Z.to_nat (maxReassignPartitions - n)) us).
Proof.
  revert n set. induction ps as [|p ps IH]; intros n set Hn H; simpl in H.
  - injection H as <- <- <-. simpl. split; [|done]. intros _. split; [lia|]. split; [lia|].
    intros tp. rewrite elem_of_nil. naive_solver.
  - destruct (isURP p) eqn:Hp; simpl in H.
    + rewrite list.filter_cons_True by (by rewrite Hp). rewrite fmap_cons.
      destruct (maxReassignPartitions <=? n) eqn:Hm; go_bools.
      * injection H as <- <- <-. split; [done|]. intros _. simpl. split; [lia|].
        intros tp. replace (Z.to_nat (maxReassignPartitions - n)) with 0%nat by lia.
        rewrite firstn_O, elem_of_nil. naive_solver.
      * destruct (IH (n + 1) _ ltac:(lia) H) as [IH1 IH2]. split; intros Hfull.
        -- destruct (IH1 Hfull) as (-> & Hle & Hin). simpl. split; [lia|]. split; [done|].
           intros tp. rewrite Hin, in_set_add, elem_of_cons. naive_solver.
        -- destruct (IH2 Hfull) as (Hlt & Hin). simpl. split; [lia|].
           intros tp. rewrite Hin, in_set_add.
           replace (Z.to_nat (maxReassignPartitions - n)) with (S (Z.to_nat (maxReassignPartitions - (n + 1)))) by lia.
           rewrite firstn_cons, elem_of_cons. naive_solver.
    + rewrite list.filter_cons_False by (rewrite Hp; by intros []). by apply IH.
Qed.

Lemma urpTopics_spec ts n set set' full :
  0 <= n <= maxReassignPartitions ->
  urpTopics ts n set = (set', full) ->
  (full = true <-> maxReassignPartitions < n + Z.of_nat (length (urps ts))) /\
  forall tp, in_set set' tp <->
    in_set set tp \/ tp ∈ take (Z.to_nat (maxReassignPartitions - n)) (urps ts).
Proof.
  revert n set. induction ts as [|t ts IH]; intros n set Hn H; simpl in H.
  - injection H as <- <-. simpl. rewrite take_nil. split; [split; [done|lia]|].
    intros tp. rewrite elem_of_nil. naive_solver.
  - destruct (urpPartitions (tm_Name t) (tm_Partitions t) n set) as [[set1 n1] full1] eqn:E.
    pose proof (urpPartitions_spec _ _ _ _ _ _ _ Hn E) as [H1 H2]. cbv zeta in H1, H2.
    unfold urps. rewrite bind_cons. fold (urps ts).
    set (us := (fun p => (tm_Name t, p_ID p)) <$> base.filter _ (tm_Partitions t)) in *.
    rewrite length_app. destruct full1.
    + injection H as <- <-. destruct (H2 eq_refl) as [Hlt Hin]. split; [split; [lia|done]|].
      intros tp. rewrite Hin, take_app_le by lia. done.
    + destruct (H1 eq_refl) as (-> & Hle & Hin). pose proof (fun Hb => IH _ _ Hb H) as IH'.
      destruct (IH' ltac:(lia)) as [Hf Hin'].
      split; [rewrite Hf; lia|]. intros tp. rewrite Hin', Hin, take_app_ge, elem_of_app by lia.
      replace (Z.to_nat (maxReassignPartitions - n) - length us)%nat
        with (Z.to_nat (maxReassignPartitions - (n + Z.of_nat (length us)))) by lia. naive_solver.
Qed.

Lemma urpPartitions_none topic ps n set :
  base.filter (fun p => Is_true (isURP p)) ps = [] -> urpPartitions topic ps n set = (set, n, false).
Proof.
  induction ps as [|p ps IH]; [done|]. simpl. destruct (isURP p) eqn:Hp; simpl.
  - rewrite list.filter_cons_True by (by rewrite Hp). done.
  - rewrite list.filter_cons_False by (rewrite Hp; by intros []). exact IH.
Qed.

Lemma urpTopics_none ts n set : urps ts = [] -> urpTopics ts n set = (set, false).
Proof.
  induction ts as [|t ts IH]; [done|]. unfold urps. rewrite bind_cons. fold (urps ts).
  intros [Hf Hr]%app_nil. apply fmap_nil_inv in Hf. simpl.
  by rewrite urpPartitions_none, IH.
Qed.

Lemma in_set_nonempty set tp : in_set set tp -> Z.of_nat (size set) <> 0.
Proof.
  intros (ps & Hps & _) Hz. assert (set = ∅) as -> by (apply map_size_empty_iff; lia).
  by rewrite lookup_empty in Hps.
Qed.

Section lemmas.
Context `{!KerrCodes} `{!Kadm}.

Lemma collectReassignments_sec {V} lo c topics b t : lo <= t ->
  clocked (V := V) (fun t r => sec_at lo t sectionReassignments r.2) t (collectReassignments c topics b).
Proof. intros Hlo. unfold collectReassignments. timed; simpl; sec_ok. Qed.

(** The controller is asked exactly about what is under-replicated.  In a
    healthy batch no request is issued and the section is skipped; otherwise one
    request names the first thousand under-replicated partitions in the batch's
    order, all of them unless the section says it is truncated, and never a
    partition whose replica list is unknown. *)
Theorem reassignments_trigger (e : env) (c : Collector) (topics : list TopicMetrics) :
  let phase := collectReassignments c topics true in
  let '(rows, sec) := result e phase in
  (urps topics = [] -> requests e phase = [] /\ rows = None /\ status sec = SectionSkipped) /\
  (urps topics <> [] -> exists set, requests e phase = [RListPartitionReassignments set] /\
     (forall tp, in_set set tp <-> tp ∈ take 1000 (urps topics)) /\
     (truncated sec = false -> forall tp, tp ∈ urps topics -> in_set set tp)) /\
  (forall tm p, tm ∈ topics -> p ∈ tm_Partitions tm -> isURP p = true -> (tm_Name tm, p_ID p) ∈ urps topics).
Proof.
  intros phase. unfold result, requests.
  destruct (run e phase 0 tt) as [[[[rows sec] reqs] tk] v] eqn:E. cbn [fst snd].
  revert E. unfold phase, collectReassignments. run_step. cbn [negb].
  destruct (underReplicated topics) as [set trunc] eqn:Eu.
  destruct (urpTopics_spec topics 0 ∅ set trunc ltac:(done) Eu) as [Htr Hin].
  assert (forall tp, in_set set tp <-> tp ∈ take 1000 (urps topics)) as Hset.
  { intros tp. rewrite Hin. change (Z.to_nat (maxReassignPartitions - 0)) with 1000%nat.
    unfold in_set at 1. setoid_rewrite lookup_empty. naive_solver. }
  assert (forall tm p, tm ∈ topics -> p ∈ tm_Partitions tm -> isURP p = true -> (tm_Name tm, p_ID p) ∈ urps topics) as Hurps.
  { intros tm p Htm Hp Hurp. apply list_elem_of_bind. exists tm. split; [|done].
    apply list_elem_of_fmap. exists p. split; [done|]. apply list_elem_of_filter. by rewrite Hurp. }
  destruct (Z.of_nat (size set) =? 0) eqn:Hsz; go_bools.
  - run_step. rewrite run_ret. intros [= <- <- <- <- <-]. split; [done|]. split; [|done].
    intros Hne. exfalso. destruct (urps topics) as [|tp us] eqn:Eus; [done|].
    apply (in_set_nonempty set tp); [apply Hset; by left|done].
  - run_step. destruct (answer e (RListPartitionReassignments set)) as [listed err].
    destruct (request _ _ _) as [ok sec1] eqn:Er.
    assert (truncated sec1 = false -> trunc = false) as Htf.
    { intros Ht. destruct trunc; [|done]. exfalso.
      pose proof (request_truncated "ListPartitionReassignments" err
        (with_truncated true (c_newSection c sectionReassignments (clock e 0))) eq_refl) as Hr.
      rewrite Er in Hr. simpl in Hr. congruence. }
    run_step. intros Hrun.
    assert (truncated sec = truncated sec1 /\ reqs = [RListPartitionReassignments set]) as [Hsec ->].
    { destruct ok; simpl in Hrun; by injection Hrun as <- <- <- <- <-. }
    split; [|split; [|done]].
    + intros Hnil. exfalso. unfold underReplicated in Eu. rewrite urpTopics_none in Eu by done.
      by injection Eu as <- <-.
    + intros _. exists set. split; [done|]. split; [done|]. rewrite Hsec. intros Ht tp Htp.
      apply Hset. rewrite take_ge; [done|]. apply Htf in Ht. rewrite Ht in Htr.
      unfold maxReassignPartitions in Htr. destruct (decide (1000 < 0 + Z.of_nat (length (urps topics)))) as [Hlt|]; [|lia].
      by apply Htr in Hlt.
Qed.

End lemmas.

(** ** Witness *)

Theorem reassignments_trigger_witness :
  urps urp_topics = [("t"%string, 0)] /\
  exists set, requests (mkEnv empty_answer Z.of_nat)
    (@collectReassignments kafka_codes kadm_sorted _ sample_collector urp_topics true) =
      [RListPartitionReassignments set] /\ in_set set ("t"%string, 0).
Proof.
  split; [vm_compute; reflexivity|].
  pose proof (@reassignments_trigger kafka_codes kadm_sorted (mkEnv empty_answer Z.of_nat)
    sample_collector urp_topics) as H. cbv zeta in H.
  destruct (result _ _) as [rows sec]. destruct H as (_ & H & _).
  destruct H as (set & Hr & Hin & _); [by vm_compute|]. exists set. split; [exact Hr|].
  apply Hin. vm_compute. left.
Defined.
