(* ===== verification/Groups.v ===== *)
(** * Groups: the group listing and consumer groups ([internal/collector/groups.go]) *)

From Stdlib Require Import ZArith Lia.
From stdpp Require Import prelude gmap strings numbers sorting.
From S2P Require Import Prelude Wire Errors Sections Filter Kadm Collector Topics Offsets.

(** [kerr.ErrorForCode]: a response code as an error, third-party. *)
Class KerrErrors := { ErrorForCode : Z -> option goerr }.

(** Its documented behaviour: zero is success, any other code an error. *)
Class KerrErrorsLaws `{!KerrErrors} : Prop := {
  ErrorForCode_zero : ErrorForCode 0 = None;
  ErrorForCode_nonzero c : c <> 0 -> is_Some (ErrorForCode c);
}.

Definition kerr_errors : KerrErrors :=
  {| ErrorForCode := fun c => if c =? 0 then None else Some (KError "kafka error" c) |}.

(** ** The listing *)

Record listing_state := mkListing {
  ls_groups : list string;
  ls_types : gmap string string;
  ls_firstErr : option goerr;
}.

Section listing.
Context `{!KerrErrors}.

(** [if err != nil && firstErr == nil { firstErr = err }]. *)
Definition keepFirst (err firstErr : option goerr) : option goerr :=
  match err with
  | Some e => match firstErr with None => Some e | Some _ => firstErr end
  | None => firstErr
  end.

Definition listGroup (st : listing_state) (g : string * string) : listing_state :=
  mkListing (ls_groups st ++ [g.1])
    (if String.eqb g.2 "" then ls_types st else <[g.1 := g.2]> (ls_types st))
    (ls_firstErr st).

(** The body of the loop over the shards. *)
Definition listShard (st : listing_state) (shard : ListGroupsShard) : listing_state :=
  match shard with
  | LGErr err => mkListing (ls_groups st) (ls_types st) (keepFirst (Some err) (ls_firstErr st))
  | LGOther => st
  | LGResp code groups =>
      foldl listGroup
        (mkListing (ls_groups st) (ls_types st) (keepFirst (ErrorForCode code) (ls_firstErr st)))
        groups
  end.

Definition listGroupsWithTypes {V} (c : Collector)
    : prog V (list string * gmap string string * option goerr) :=
  shards ← call (RShardedListGroups (o_GroupStates (c_opts c)));
  let st := foldl listShard (mkListing [] ∅ None) shards in
  mret (sort_slice str_ltb (ls_groups st), ls_types st, ls_firstErr st).

Definition groupSelected (c : Collector) (g : string) : bool :=
  negb (isInternalGroup g) && allow (c_groups c) g.

Definition listGroups {V} (c : Collector) : prog V (list string * gmap string string * option goerr) :=
  '(listed, types, err) ← listGroupsWithTypes c;
  mret (base.filter (fun g => Is_true (groupSelected c g)) listed, types, err).

End listing.

(** ** Describing *)

Definition ownedPairs (ts : list (string * list Z)) : list TopicPartition :=
  ts ≫= fun t => mkTopicPartition t.1 <$> t.2.

(** A slice appended to from nil. *)
Definition appended {A} (l : list A) : slice A := match l with [] => None | _ => Some l end.

(** One member as the classic describe shows it. *)
Definition memberRow (m : DescribedGroupMember) : GroupMember :=
  mkGroupMember (dm_MemberID m) (dm_InstanceID m) (dm_ClientID m) (dm_ClientHost m)
    (j ← dm_Join m; cj_Rack j)
    (match dm_Join m with Some j => cj_Topics j | None => None end)
    (Some (from_option ownedPairs [] (dm_Assigned m)))
    (match dm_Join m with Some j => appended (ownedPairs (cj_OwnedPartitions j)) | None => None end)
    None None None.

(** The generation: the largest a member's join metadata carries, or -1. *)
Definition generation (ms : list DescribedGroupMember) : Z :=
  foldl (fun gen m => match dm_Join m with
                      | Some j => if gen <? cj_Generation j then cj_Generation j else gen
                      | None => gen
                      end) (-1) ms.

Section groups.
Context `{!KerrCodes} `{!Kadm}.

Definition buildGroup (types : gmap string string) (g : DescribedGroup) : St section GroupMetrics :=
  code ← match dg_Err g with
         | Some err =>
             modify (recordGroup "DescribeGroups" (dg_Group g) err) ;; mret (errorCode (Some err))
         | None => mret 0
         end;
  mret (mkGroupMetrics (dg_Group g) (dg_State g) (bd_NodeID (dg_Coordinator g))
    (generation (dg_Members g)) (dg_Protocol g) (dg_ProtocolType g)
    (default "" (types !! dg_Group g)) (Z.of_nat (length (dg_Members g)))
    (memberRow <$> dg_Members g) code None None "").

Definition topicsSetToPartitions (ts : TopicsSet) : slice TopicPartition :=
  if Z.of_nat (size ts) =? 0 then None else Some (ownedPairs (topicsSetSorted ts)).

(** The overlay of one member. *)
Definition applyMember (byID : gmap string ConsumerGroupMember) (gm : GroupMember) : GroupMember :=
  match byID !! gm_MemberID gm with
  | None => gm
  | Some m =>
      mkGroupMember (gm_MemberID gm) (gm_InstanceID gm) (gm_ClientID gm) (gm_Host gm) (gm_Rack gm)
        (if len (gm_SubscribedTopics gm) =? 0 then cgm_SubscribedTopics m else gm_SubscribedTopics gm)
        (if len (gm_Assignment gm) =? 0 then topicsSetToPartitions (cgm_Assignment m) else gm_Assignment gm)
        (gm_Owned gm) (Some (cgm_MemberEpoch m)) (topicsSetToPartitions (cgm_TargetAssignment m))
        (cgm_SubscribedTopicRegex m)
  end.

Definition applyConsumerGroup (d : DescribedConsumerGroup) (gm : GroupMetrics) : GroupMetrics :=
  let byID := foldl (fun m x => <[cgm_MemberID x := x]> m) ∅ (dcg_Members d) in
  mkGroupMetrics (g_ID gm) (g_State gm) (g_Coordinator gm) (g_Generation gm) (g_Protocol gm)
    (g_ProtocolType gm) (g_GroupType gm) (g_MemberCount gm) (applyMember byID <$> g_Members gm)
    (g_ErrorCode gm) (Some (dcg_Epoch d)) (Some (dcg_AssignmentEpoch d)) (dcg_AssignorName d).

Definition enrichGroup (described : gmap string DescribedConsumerGroup) (gm : GroupMetrics) : GroupMetrics :=
  match described !! g_ID gm with
  | None => gm
  | Some d => match dcg_Err d with Some _ => gm | None => applyConsumerGroup d gm end
  end.

Definition enrichConsumerGroups {V} (c : Collector) (sec : section) (groups : list GroupMetrics)
    : prog V (list GroupMetrics * section) :=
  if negb (o_CollectConsumerGroups (c_opts c)) || (Z.of_nat (length groups) =? 0) then mret (groups, sec)
  else
    '(described, err) ← call (RDescribeConsumerGroups (g_ID <$> groups));
    let '(ok, sec) := requestPartial "ConsumerGroupDescribe" err (0 <? Z.of_nat (size described)) sec in
    if negb ok then mret (groups, sec) else mret (enrichGroup described <$> groups, sec).

Definition collectGroups {V} (c : Collector) (ids : list string) (types : gmap string string)
    (listErr : option goerr) (listedAt : Z) : prog V (slice GroupMetrics * section) :=
  let '(_, sec) := request "ListGroups" listErr (c_newSection c sectionGroups listedAt) in
  if Z.of_nat (length ids) =? 0 then
    t' ← now; mret (None, stop t' sec)
  else
    '(described, err) ← call (RDescribeGroups ids);
    let '(ok, sec) := request "DescribeGroups" err sec in
    if negb ok && (Z.of_nat (size described) =? 0) then
      t' ← now; mret (None, stop t' sec)
    else
      let '(groups, sec) := traverseM (buildGroup types) (groupsSorted described) sec in
      '(groups, sec) ← enrichConsumerGroups c sec groups;
      t' ← now;
      mret (Some groups, stop t' sec).

End groups.

(** ** Specifications *)

(** Every (group, type) row of the shards that answered, in order. *)
Definition listedRows (shards : list ListGroupsShard) : list (string * string) :=
  shards ≫= fun s => match s with LGResp _ rows => rows | _ => [] end.

(** What the overlay may not touch. *)
Definition same_group (a b : GroupMetrics) : Prop :=
  g_ID b = g_ID a /\ g_State b = g_State a /\ g_Coordinator b = g_Coordinator a /\
  g_Generation b = g_Generation a /\ g_Protocol b = g_Protocol a /\
  g_ProtocolType b = g_ProtocolType a /\ g_GroupType b = g_GroupType a /\
  g_MemberCount b = g_MemberCount a /\ g_ErrorCode b = g_ErrorCode a /\
  Forall2 (fun m m' => gm_MemberID m' = gm_MemberID m /\ gm_InstanceID m' = gm_InstanceID m /\
    gm_ClientID m' = gm_ClientID m /\ gm_Host m' = gm_Host m /\ gm_Rack m' = gm_Rack m /\
    gm_Owned m' = gm_Owned m /\
    (len (gm_SubscribedTopics m) <> 0 -> gm_SubscribedTopics m' = gm_SubscribedTopics m) /\
    (len (gm_Assignment m) <> 0 -> gm_Assignment m' = gm_Assignment m))
    (g_Members a) (g_Members b).

(** What the classic describe decides of a group's row. *)
Definition group_spec (types : gmap string string) (g : DescribedGroup) (gm : GroupMetrics) : Prop :=
  exists classic, same_group classic gm /\
    g_ID classic = dg_Group g /\ g_State classic = dg_State g /\
    g_Coordinator classic = bd_NodeID (dg_Coordinator g) /\ g_ErrorCode classic = errorCode (dg_Err g) /\
    g_GroupType classic = default "" (types !! dg_Group g) /\
    g_MemberCount classic = Z.of_nat (length (dg_Members g)) /\
    g_Members classic = memberRow <$> dg_Members g /\
    g_Generation classic = generation (dg_Members g).

(** Two brokers answer the listing, one times out. *)
Definition partial_env : env := mkEnv
  (fun r => match r with
            | RShardedListGroups _ =>
                [LGResp 0 [("g", "consumer")]; LGErr (NetError "i/o timeout"); LGResp 0 [("__h", "")]]
            | RDescribeGroups _ =>
                ({["g" := mkDescribedGroup "g" (mkBrokerDetail 1 "b" 9092 None) "Stable" "consumer" "range" [] None]}
                  : gmap string DescribedGroup, None)
            | r => empty_answer r
            end) Z.of_nat.

(** ** Lemmas on the listing *)

Section listing_lemmas.
Context `{!KerrErrors}.

Lemma listShard_groups st shard :
  ls_groups (listShard st shard) =
    ls_groups st ++ (match shard with LGResp _ rows => rows.*1 | _ => [] end).
Proof.
  destruct shard as [e| |code rows]; simpl; rewrite ?app_nil_r; try done.
  set (st0 := mkListing _ _ _). change (ls_groups st) with (ls_groups st0). clearbody st0.
  revert st0. induction rows as [|r rows IH]; intros st0; simpl; [by rewrite app_nil_r|].
  rewrite IH. simpl. by rewrite <- app_assoc.
Qed.

Lemma listShards_groups shards st :
  ls_groups (foldl listShard st shards) = ls_groups st ++ (listedRows shards).*1.
Proof.
  revert st. induction shards as [|s shards IH]; intros st; simpl; [by rewrite app_nil_r|].
  rewrite IH, listShard_groups.
  change (listedRows (s :: shards)) with
    ((match s with LGResp _ rows => rows | _ => [] end) ++ listedRows shards).
  rewrite fmap_app, <- app_assoc. by destruct s.
Qed.

Lemma keepFirst_some err firstErr : is_Some firstErr -> is_Some (keepFirst err firstErr).
Proof. intros [e ->]. destruct err; simpl; eauto. Qed.

Lemma listGroup_err st rows : ls_firstErr (foldl listGroup st rows) = ls_firstErr st.
Proof. revert st. induction rows as [|r rows IH]; intros st; [done|]. simpl. by rewrite IH. Qed.

Lemma listShard_err st shard : is_Some (ls_firstErr st) -> is_Some (ls_firstErr (listShard st shard)).
Proof.
  intros Hs. destruct shard; unfold listShard; [by apply keepFirst_some|done|].
  rewrite listGroup_err. by apply keepFirst_some.
Qed.

(** One failed shard is enough for the listing to return an error. *)
Lemma listShards_err shards st e :
  LGErr e ∈ shards -> is_Some (ls_firstErr (foldl listShard st shards)).
Proof.
  revert st. induction shards as [|s shards IH]; intros st Hin; [by apply elem_of_nil in Hin|]. simpl.
  apply elem_of_cons in Hin as [<-|Hin]; [|by apply IH].
  assert (is_Some (ls_firstErr (listShard st (LGErr e)))) as Hs.
  { simpl. destruct (ls_firstErr st); eauto. }
  revert Hs. generalize (listShard st (LGErr e)). clear. induction shards as [|s shards IH]; intros st Hs; [done|].
  simpl. apply IH. by apply listShard_err.
Qed.

Lemma run_listGroups {V} e c tick (v : V) :
  run e (listGroups c) tick v =
    let st := foldl listShard (mkListing [] ∅ None)
                (answer e (RShardedListGroups (o_GroupStates (c_opts c)))) in
    (base.filter (fun g => Is_true (groupSelected c g)) (sort_slice str_ltb (ls_groups st)),
     ls_types st, ls_firstErr st, [RShardedListGroups (o_GroupStates (c_opts c))], tick, v).
Proof. done. Qed.

End listing_lemmas.

(** ** Lemmas on the overlay *)

Section overlay.
Context `{!KerrCodes} `{!Kadm}.

Lemma same_group_refl gm : same_group gm gm.
Proof. unfold same_group. split_and!; try done. by apply Forall2_refl'. Qed.

Lemma enrichGroup_same described gm : same_group gm (enrichGroup described gm).
Proof.
  unfold enrichGroup. destruct (described !! g_ID gm) as [d|]; [|apply same_group_refl].
  destruct (dcg_Err d); [apply same_group_refl|]. unfold same_group. simpl. split_and!; try done.
  apply list.Forall2_fmap_r, Forall2_refl'. intros m.
  unfold compose, applyMember. case_match; [|done]. simpl. split_and!; try done.
  - intros Hne. by destruct (len (gm_SubscribedTopics m) =? 0) eqn:E; go_bools.
  - intros Hne. by destruct (len (gm_Assignment m) =? 0) eqn:E; go_bools.
Qed.

Lemma enrich_sec {V} lo hi c sec groups n t : sec_at lo hi n sec ->
  clocked (V := V) (fun _ r => sec_at lo hi n r.2) t (enrichConsumerGroups c sec groups).
Proof. intros Hsec. unfold enrichConsumerGroups. timed; simpl; sec_ok. Qed.

Lemma enrich_returns_same {V} c sec groups :
  returns (V := V) (fun r => Forall2 same_group groups r.1) (enrichConsumerGroups c sec groups).
Proof.
  assert (Forall2 same_group groups groups) as Hrefl by apply Forall2_refl', same_group_refl.
  unfold enrichConsumerGroups. phase; simpl; try done.
  apply list.Forall2_fmap_r, Forall2_refl', enrichGroup_same.
Qed.

Lemma buildGroup_fst types g s :
  let gm := (buildGroup types g s).1 in
  g_ID gm = dg_Group g /\ g_State gm = dg_State g /\
  g_Coordinator gm = bd_NodeID (dg_Coordinator g) /\ g_ErrorCode gm = errorCode (dg_Err g) /\
  g_GroupType gm = default "" (types !! dg_Group g) /\
  g_MemberCount gm = Z.of_nat (length (dg_Members g)) /\
  g_Members gm = memberRow <$> dg_Members g /\ g_Generation gm = generation (dg_Members g).
Proof. unfold buildGroup. rewrite St_bind_eq. destruct (dg_Err g); [rewrite St_bind_eq|]; done. Qed.

Lemma buildGroup_kept P `{!Kept P} types g : preserves P (buildGroup types g).
Proof.
  unfold buildGroup. apply preserves_bind; [|intros; apply preserves_ret].
  destruct (dg_Err g); [|apply preserves_ret].
  apply preserves_bind; [|intros; apply preserves_ret]. apply modify_preserves. intros. by kept1.
Qed.

(** The section is stamped with the instant the listing started. *)
Lemma collectGroups_sec {V} lo c ids types err at_ t : lo <= at_ -> at_ <= t ->
  clocked (V := V) (fun t r => sec_at lo t sectionGroups r.2) t (collectGroups c ids types err at_).
Proof.
  intros Hlo Hat. unfold collectGroups. timed; simpl; try sec_ok.
  match goal with E : traverseM _ _ _ = (_, ?s), H : t <= ?t1 |- _ => assert (sec_at lo t1 sectionGroups s) as Hs end.
  { match goal with E : traverseM _ _ _ = _ |- _ => rewrite (pair_snd _ _ _ E) end.
    apply preserves_traverse; [intros; apply buildGroup_kept, _|]. sec_ok. }
  eapply clocked_impl; [|by eapply enrich_sec]. intros t2 [gs s'] Ht2 Hs'. cbv beta iota. timed; simpl in *. intros t3 Ht3 t4 Ht4.
  apply sec_at_stop; [lia|]. eapply sec_at_later; [|eassumption]. lia.
Qed.

End overlay.

(** ** Properties *)

Section properties.
Context `{!KerrCodes} `{!Kadm} `{!KerrErrors}.

(** [groups[]] and [offsets[]] describe one set of groups.  The single
    broadcast's ids are, in name order, every group some broker answered with that
    the filter keeps and that is not internal, whatever other shards failed; a
    failed shard is never silent, since the listing then returns an error for both
    phases to record. *)
Theorem listGroups_exact (e : env) (c : Collector) :
  let shards := answer e (RShardedListGroups (o_GroupStates (c_opts c))) in
  let '(ids, _, err) := result e (listGroups c) in
  (forall g, g ∈ ids <-> g ∈ (listedRows shards).*1 /\ groupSelected c g = true) /\
  StronglySorted (not_less str_ltb) ids /\
  (forall x, LGErr x ∈ shards -> is_Some err).
Proof.
  unfold result. rewrite run_listGroups. cbv zeta. set (shards := answer _ _).
  set (st := foldl listShard (mkListing [] ∅ None) shards). simpl. split_and!.
  - intros g. rewrite list_elem_of_filter, elem_of_sort_slice. unfold st.
    rewrite listShards_groups. simpl. destruct (groupSelected c g); naive_solver.
  - apply StronglySorted_filter, sort_slice_sorted, _.
  - intros x Hx. by eapply listShards_err.
Qed.

(** C36: a described group ships what its coordinator said.  Every group the
    describe returned gets one row, in the library's order, with its state,
    coordinator, error code, type, and every member it named; the KIP-848 overlay
    adds epochs and targets but never adds, drops or renames a group or a member,
    and fills a subscription or assignment only where the classic describe left it
    empty. *)
Theorem collectGroups_faithful (e : env) (c : Collector) (ids : list string)
    (types : gmap string string) (listErr : option goerr) (listedAt : Z) :
  ids <> [] ->
  let described : withErr (gmap string DescribedGroup) := answer e (RDescribeGroups ids) in
  described.1 <> ∅ ->
  exists rows sec, result e (collectGroups c ids types listErr listedAt) = (Some rows, sec) /\
    Forall2 (group_spec types) (groupsSorted described.1) rows.
Proof.
  intros Hids described Hne. unfold result, collectGroups.
  destruct (request _ listErr _) as [u sec]. replace (Z.of_nat (length ids) =? 0) with false
    by (destruct ids; simpl; [done|lia]).
  run_step. fold described. destruct described as [dmap err]. simpl in Hne.
  destruct (request _ err sec) as [ok sec1].
  assert (Z.of_nat (size dmap) =? 0 = false) as ->.
  { apply Z.eqb_neq. intros Hz. apply Hne, map_size_empty_iff. lia. }
  rewrite andb_false_r.
  destruct (traverseM (buildGroup types) (groupsSorted dmap) sec1) as [groups sec2] eqn:Et.
  rewrite run_bind.
  pose proof (returns_run _ (enrichConsumerGroups c sec2 groups) e 0%nat tt
    (enrich_returns_same c sec2 groups)) as Hsame.
  destruct (run e (enrichConsumerGroups c sec2 groups) 0 tt) as [[[[groups' sec3] rs] tk] v].
  simpl in Hsame |- *. eexists _, _. split; [done|].
  assert (Forall2 (fun g gm => exists s, gm = (buildGroup types g s).1) (groupsSorted dmap) groups) as HF.
  { replace groups with (groups, sec2).1 by done. rewrite <- Et. apply traverseM_Forall2. eauto. }
  clear Et. revert groups' Hsame. induction HF as [|g gm gs gms [s ->] HF IH]; intros groups' Hsame.
  - apply Forall2_nil_inv_l in Hsame as ->. constructor.
  - apply Forall2_cons_inv_l in Hsame as (b & bs & Hb & Hbs & ->). constructor; [|by apply IH].
    exists (buildGroup types g s).1. split; [done|]. apply buildGroup_fst.
Qed.

End properties.

(** ** Witnesses *)

(** The listing and the describe, run one after the other as [Collect] does. *)
Definition list_and_describe : prog () (slice GroupMetrics * section) :=
  '(ids, types, err) ← @listGroups kerr_errors _ sample_collector;
  @collectGroups kafka_codes kadm_sorted _ sample_collector ids types err 0.

(** One broker that does not answer the broadcast marks the section [failed],
    the status that promises no data, although the groups the other brokers
    listed are described and shipped: the listing returns its first shard error
    bare, which [request] reads as a failure of the whole call. *)
Theorem failed_shard_ships_failed_section :
  status (result partial_env list_and_describe).2 = SectionFailed /\
  map g_ID (elems (result partial_env list_and_describe).1) = ["g"%string].
Proof. split; vm_compute; reflexivity. Qed.

Theorem collectGroups_faithful_witness :
  exists rows sec, result partial_env (@collectGroups kafka_codes kadm_sorted _ sample_collector
    ["g"%string] ∅ None 0) = (Some rows, sec) /\ length rows = 1%nat.
Proof.
  destruct (@collectGroups_faithful kafka_codes kadm_sorted partial_env sample_collector
    ["g"%string] ∅ None 0 ltac:(done)) as (rows & sec & E & HF).
  - intros Hn. apply (f_equal size) in Hn. vm_compute in Hn. done.
  - exists rows, sec. split; [exact E|]. apply Forall2_length in HF. rewrite <- HF. vm_compute. reflexivity.
Defined.

Theorem listGroups_exact_witness :
  (result partial_env (@listGroups kerr_errors _ sample_collector)).1.1 = ["g"%string] /\
  ("g"%string ∈ (listedRows (answer partial_env (RShardedListGroups []))).*1 /\
   groupSelected sample_collector "g" = true) /\
  is_Some (result partial_env (@listGroups kerr_errors _ sample_collector)).2.
Proof.
  split; [vm_compute; reflexivity|].
  pose proof (@listGroups_exact kerr_errors partial_env sample_collector) as H. cbv zeta in H.
  destruct (result partial_env _) as [[ids types] err] eqn:E. destruct H as (H1 & _ & H3). cbn [fst snd].
  split; [apply H1|].
  - vm_compute in E. injection E as <- _ _. by left.
  - apply (H3 (NetError "i/o timeout")). right. by left.
Defined.
