(* ===== verification/Configs.v ===== *)
(** * Configs: topic and broker configurations ([internal/collector/configs.go]) *)

From Stdlib Require Import ZArith Lia Ascii.
From stdpp Require Import prelude gmap strings numbers sorting.
From S2P Require Import Prelude Wire Errors Sections Filter Kadm Collector Topics Offsets.

Definition apiDescribeTopicConfigs : string := "DescribeConfigs".
Definition apiDescribeBrokerConfigs : string := "DescribeConfigs".

Definition topicConfigKeys : list string := [
  "cleanup.policy"; "min.insync.replicas"; "retention.ms"; "retention.bytes";
  "unclean.leader.election.enable"; "segment.bytes"; "segment.ms";
  "message.timestamp.type"; "max.message.bytes"; "compression.type"].

Definition brokerConfigKeys : list string := [
  "offsets.retention.minutes"; "min.insync.replicas"; "unclean.leader.election.enable";
  "default.replication.factor"; "num.partitions"; "auto.create.topics.enable";
  "log.retention.ms"; "log.retention.bytes"; "log.segment.bytes";
  "num.replica.fetchers"; "transaction.max.timeout.ms"].

(** The protocol's config sources, third-party constants. *)
Class ConfigSources := {
  ConfigSourceDynamicTopicConfig : Z;
  ConfigSourceDynamicBrokerConfig : Z;
  ConfigSourceDynamicDefaultBrokerConfig : Z;
  ConfigSourceStaticBrokerConfig : Z;
  ConfigSourceDefaultConfig : Z;
  ConfigSourceDynamicBrokerLoggerConfig : Z;
  ConfigSourceClientMetricsConfig : Z;
  ConfigSourceGroupConfig : Z;
}.

Definition kafka_sources : ConfigSources := {|
  ConfigSourceDynamicTopicConfig := 1;
  ConfigSourceDynamicBrokerConfig := 2;
  ConfigSourceDynamicDefaultBrokerConfig := 3;
  ConfigSourceStaticBrokerConfig := 4;
  ConfigSourceDefaultConfig := 5;
  ConfigSourceDynamicBrokerLoggerConfig := 6;
  ConfigSourceClientMetricsConfig := 7;
  ConfigSourceGroupConfig := 8;
|}.

(** ** Shaping one answer *)

Definition stripSensitive (cfg : ConfigRow) : option string :=
  if cr_Sensitive cfg then None else cr_Value cfg.

Definition configSourceName `{!ConfigSources} (src : Z) : string :=
  if src =? ConfigSourceDynamicTopicConfig then "DYNAMIC_TOPIC_CONFIG"
  else if src =? ConfigSourceDynamicBrokerConfig then "DYNAMIC_BROKER_CONFIG"
  else if src =? ConfigSourceDynamicDefaultBrokerConfig then "DYNAMIC_DEFAULT_BROKER_CONFIG"
  else if src =? ConfigSourceStaticBrokerConfig then "STATIC_BROKER_CONFIG"
  else if src =? ConfigSourceDefaultConfig then "DEFAULT_CONFIG"
  else if src =? ConfigSourceDynamicBrokerLoggerConfig then "DYNAMIC_BROKER_LOGGER_CONFIG"
  else if src =? ConfigSourceClientMetricsConfig then "CLIENT_METRICS_CONFIG"
  else if src =? ConfigSourceGroupConfig then "GROUP_CONFIG"
  else "".

Definition configEntry `{!ConfigSources} (cfg : ConfigRow) : ConfigEntry :=
  mkConfigEntry (cr_Key cfg) (stripSensitive cfg) (cr_Sensitive cfg) (configSourceName (cr_Source cfg)).

Definition selectConfigs `{!ConfigSources} (cfgs : list ConfigRow) (allow : list string) : slice ConfigEntry :=
  if Z.of_nat (length cfgs) =? 0 then None
  else
    let byKey : gmap string ConfigRow := foldl (fun m cfg => <[cr_Key cfg := cfg]> m) ∅ cfgs in
    let out := omap (fun key => configEntry <$> byKey !! key) allow in
    if Z.of_nat (length out) =? 0 then None else Some out.

Definition is_digit (c : ascii) : bool := (48 <=? byte_of c) && (byte_of c <=? 57).

(** The loop of [brokerIDOf], on int32: [id = id*10 + (r - '0')]. *)
Fixpoint parseID (id : Z) (s : string) : Z :=
  match s with
  | EmptyString => id
  | String c s => if negb (is_digit c) then -1 else parseID (wrapS 32 (id * 10 + (byte_of c - 48))) s
  end.

Definition brokerIDOf (name : string) : Z := if String.eqb name "" then -1 else parseID 0 name.

(** ** The two phases *)

Section configs.
Context `{!KerrCodes} `{!ConfigSources}.

Definition topicConfigRow (rc : ResourceConfig) : St section TopicConfig :=
  code ← match rc_Err rc with
         | Some err =>
             modify (recordTopic apiDescribeTopicConfigs (rc_Name rc) err) ;; mret (errorCode (Some err))
         | None => mret 0
         end;
  mret (mkTopicConfig (rc_Name rc) code (selectConfigs (rc_Configs rc) topicConfigKeys)).

Definition collectTopicConfigs {V} (c : Collector) (topics : list TopicMetrics) (run_ : bool)
    : prog V (slice TopicConfig * section) :=
  t ← now;
  let sec := c_newSection c sectionTopicConfigs t in
  if negb run_ then
    t' ← now; mret (None, stop t' (downgrade SectionSkipped sec))
  else
    let names := tm_Name <$> topics in
    if Z.of_nat (length names) =? 0 then
      t' ← now; mret (None, stop t' (downgrade SectionSkipped sec))
    else
      '(described, err) ← call (RDescribeTopicConfigs names);
      let '(ok, sec) := request apiDescribeTopicConfigs err sec in
      if negb ok && (Z.of_nat (length described) =? 0) then
        t' ← now; mret (None, stop t' sec)
      else
        let '(out, sec) := traverseM topicConfigRow described sec in
        t' ← now;
        mret (Some (sort_slice (fun a b => str_ltb (tc_Topic a) (tc_Topic b)) out), stop t' sec).

Definition brokerConfigRow (rc : ResourceConfig) : St section BrokerConfig :=
  let broker := brokerIDOf (rc_Name rc) in
  code ← match rc_Err rc with
         | Some err =>
             modify (fun sec =>
               let ce := newError sec apiDescribeBrokerConfigs err in
               record (mkCollectionError (ce_Section ce) (ce_API ce) (Some broker) (ce_Topic ce)
                 (ce_Partition ce) (ce_Dir ce) (ce_Group ce) (ce_Code ce) (ce_Kind ce) (ce_Message ce)
                 (ce_Count ce)) false sec) ;;
             mret (errorCode (Some err))
         | None => mret 0
         end;
  mret (mkBrokerConfig broker code (selectConfigs (rc_Configs rc) brokerConfigKeys)).

Definition collectBrokerConfigs {V} (c : Collector) (cluster : option ClusterMetrics) (run_ : bool)
    : prog V (slice BrokerConfig * section) :=
  t ← now;
  let sec := c_newSection c sectionBrokerConfigs t in
  let skip : prog V (slice BrokerConfig * section) :=
    t' ← now; mret (None, stop t' (downgrade SectionSkipped sec)) in
  match cluster with
  | None => skip
  | Some cluster =>
      if negb run_ then skip
      else
        let ids := b_ID <$> cm_Brokers cluster in
        if Z.of_nat (length ids) =? 0 then skip
        else
          '(described, err) ← call (RDescribeBrokerConfigs ids);
          let '(ok, sec) := request apiDescribeBrokerConfigs err sec in
          if negb ok && (Z.of_nat (length described) =? 0) then
            t' ← now; mret (None, stop t' sec)
          else
            let '(out, sec) := traverseM brokerConfigRow described sec in
            t' ← now;
            mret (Some (sort_slice (fun a b => bcf_Broker a <? bcf_Broker b) out), stop t' sec)
  end.

End configs.

(** ** Specifications *)

(** What may be shipped of one resource's answer: the allowlisted keys it contains, in
    allowlist order; an entry is some row of the answer, with the broker's own flag, and
    without the value when the broker flags it sensitive. *)
Record shipped (allow : list string) (cfgs : list ConfigRow) (out : slice ConfigEntry) : Prop := {
  sh_rows : forall en, en ∈ elems out -> exists cfg, cfg ∈ cfgs /\
    cf_Key en = cr_Key cfg /\ cf_Sensitive en = cr_Sensitive cfg /\
    cf_Value en = (if cr_Sensitive cfg then None else cr_Value cfg);
  sh_order : cf_Key <$> elems out `sublist_of` allow;
  sh_keys : forall k, k ∈ cf_Key <$> elems out <-> k ∈ allow /\ k ∈ cr_Key <$> cfgs;
  sh_null : out <> Some [];
}.

(** An answer with its secrets erased. *)
Definition masked (cfg : ConfigRow) : ConfigRow :=
  mkConfigRow (cr_Key cfg) (if cr_Sensitive cfg then None else cr_Value cfg) (cr_Sensitive cfg) (cr_Source cfg).

Definition masked_rc (rc : ResourceConfig) : ResourceConfig :=
  mkResourceConfig (rc_Name rc) (masked <$> rc_Configs rc) (rc_Err rc).

(** Two clusters that differ in nothing but the values of sensitive keys. *)
Record differ_in_secrets (e e' : env) : Prop := {
  ds_clock : forall t, clock e t = clock e' t;
  ds_topics : forall names,
    let x : withErr (list ResourceConfig) := answer e (RDescribeTopicConfigs names) in
    let y : withErr (list ResourceConfig) := answer e' (RDescribeTopicConfigs names) in
    masked_rc <$> x.1 = masked_rc <$> y.1 /\ x.2 = y.2;
  ds_brokers : forall ids,
    let x : withErr (list ResourceConfig) := answer e (RDescribeBrokerConfigs ids) in
    let y : withErr (list ResourceConfig) := answer e' (RDescribeBrokerConfigs ids) in
    masked_rc <$> x.1 = masked_rc <$> y.1 /\ x.2 = y.2;
}.

(** The unbounded decimal value of a digit string. *)
Definition decimal (s : list ascii) : Z := foldl (fun v c => v * 10 + (byte_of c - 48)) 0 s.

(** A broker that echoes a secret and an unlisted key. *)
Definition secret_env : env := mkEnv
  (fun r => match r with
            | RDescribeTopicConfigs _ =>
                ([mkResourceConfig "t" [mkConfigRow "sasl.jaas.config" (Some "secret") true 1;
                    mkConfigRow "cleanup.policy" (Some "secret") true 1] None], None)
            | r => empty_answer r
            end) Z.of_nat.

(** ** Lemmas *)

Lemma wrapS_mul w a b : 0 < w -> wrapS w (wrapS w a * b) = wrapS w (a * b).
Proof.
  intros Hw. unfold wrapS. f_equal. set (h := 2 ^ (w - 1)). set (m := 2 ^ w).
  assert (m <> 0) as Hm by (apply Z.pow_nonzero; lia).
  replace (((a + h) mod m - h) * b + h) with ((a + h) mod m * b + (h - h * b)) by lia.
  rewrite <- Z.add_mod_idemp_l, Z.mul_mod_idemp_l, Z.add_mod_idemp_l by done. f_equal. lia.
Qed.

Lemma parseID_spec s v :
  Forall (fun c => is_digit c = true) (String.list_ascii_of_string s) ->
  parseID (wrapS 32 v) s =
    wrapS 32 (foldl (fun v c => v * 10 + (byte_of c - 48)) v (String.list_ascii_of_string s)).
Proof.
  revert v. induction s as [|c s IH]; intros v Hs; [done|].
  simpl in *. apply list.Forall_cons in Hs as [Hc Hs]. rewrite Hc. simpl. rewrite <- IH by done. f_equal.
  rewrite <- (wrapS_add 32 (wrapS 32 v * 10)), wrapS_mul, wrapS_add by lia. done.
Qed.

Lemma parseID_other v s :
  ~ Forall (fun c => is_digit c = true) (String.list_ascii_of_string s) -> parseID v s = -1.
Proof.
  revert v. induction s as [|c s IH]; intros v Hs; simpl in *; [by destruct Hs|].
  destruct (is_digit c) eqn:E; simpl; [|done]. apply IH. intros H. apply Hs. by constructor.
Qed.

Section lemmas.
Context `{!KerrCodes} `{!ConfigSources}.

(** The last row of each key, as the loop leaves it. *)
Definition lastRows (cfgs : list ConfigRow) : gmap string ConfigRow :=
  foldl (fun m cfg => <[cr_Key cfg := cfg]> m) ∅ cfgs.

Lemma lastRows_lookup cfgs k cfg : lastRows cfgs !! k = Some cfg -> cfg ∈ cfgs /\ cr_Key cfg = k.
Proof.
  unfold lastRows. rewrite (foldl_insert_lookup cr_Key (fun c => c)).
  destruct (list_find _ _) as [[i x]|] eqn:E; [|by rewrite lookup_empty].
  apply list_find_Some in E as (Hi & Hx & _). intros [= <-]. split; [|done].
  apply list_elem_of_lookup_2 in Hi. by rewrite elem_of_reverse in Hi.
Qed.

Lemma lastRows_some cfgs k : k ∈ cr_Key <$> cfgs -> is_Some (lastRows cfgs !! k).
Proof.
  intros (cfg & -> & Hin)%list_elem_of_fmap. unfold lastRows. rewrite (foldl_insert_lookup cr_Key (fun c => c)).
  destruct (list_find _ _) as [[i x]|] eqn:E; [eauto|]. apply list_find_None in E.
  rewrite list.Forall_forall in E. destruct (E cfg); [by rewrite elem_of_reverse|done].
Qed.

Lemma selectConfigs_shipped cfgs allow : shipped allow cfgs (selectConfigs cfgs allow).
Proof.
  assert (forall k, k ∈ allow /\ k ∈ cr_Key <$> cfgs <->
    exists en, en ∈ omap (fun key => configEntry <$> lastRows cfgs !! key) allow /\ k = cf_Key en) as Hk.
  { intros k. split.
    - intros [Ha [cfg E]%lastRows_some]. exists (configEntry cfg). split; [|by apply lastRows_lookup in E as [_ <-]].
      apply list_elem_of_omap. exists k. by rewrite E.
    - intros (en & (k' & Hk & (cfg & E & ->)%fmap_Some)%list_elem_of_omap & ->).
      apply lastRows_lookup in E as [Hin <-]. split; [done|]. apply list_elem_of_fmap. by exists cfg. }
  unfold selectConfigs. fold (lastRows cfgs). destruct (Z.of_nat (length cfgs) =? 0) eqn:E0.
  { destruct cfgs; [|simpl in E0; lia]. split; simpl; [by intros ? ?%elem_of_nil|apply sublist_nil_l| |done].
    intros k. split; [by intros ?%elem_of_nil|by intros [_ ?]]. }
  set (out := omap _ _) in *. destruct (Z.of_nat (length out) =? 0) eqn:El.
  { destruct out; [|simpl in El; lia]. split; simpl; [by intros ? ?%elem_of_nil|apply sublist_nil_l| |done].
    intros k. rewrite Hk. split; [by intros ?%elem_of_nil|by intros (? & ?%elem_of_nil & _)]. }
  split; simpl.
  - intros en (k & _ & (cfg & E & ->)%fmap_Some)%list_elem_of_omap. exists cfg.
    by apply lastRows_lookup in E as [Hin _].
  - subst out. clear El Hk. induction allow as [|k allow IH]; simpl; [done|].
    destruct (lastRows cfgs !! k) as [cfg|] eqn:E; simpl; [|by constructor].
    apply lastRows_lookup in E as [_ <-]. by constructor.
  - intros k. rewrite Hk, list_elem_of_fmap. naive_solver.
  - intros [= E]. by rewrite E in El.
Qed.

(** A sensitive value has no influence on what is selected. *)
Lemma selectConfigs_masked cfgs allow : selectConfigs (masked <$> cfgs) allow = selectConfigs cfgs allow.
Proof.
  assert (lastRows (masked <$> cfgs) = masked <$> lastRows cfgs) as Hm.
  { assert (forall m : gmap string ConfigRow,
      foldl (fun m cfg => <[cr_Key cfg := cfg]> m) (masked <$> m) (masked <$> cfgs) =
      masked <$> foldl (fun m cfg => <[cr_Key cfg := cfg]> m) m cfgs) as Hm; [|specialize (Hm ∅); rewrite fmap_empty in Hm; exact Hm].
    induction cfgs as [|cfg cfgs IH]; intros m; [done|]. simpl. rewrite <- IH. by rewrite fmap_insert. }
  assert (forall cfg, configEntry (masked cfg) = configEntry cfg) as He.
  { intros [k v [] src]; reflexivity. }
  unfold selectConfigs. fold (lastRows (masked <$> cfgs)). fold (lastRows cfgs). rewrite Hm, length_fmap.
  assert (omap (fun key => configEntry <$> (masked <$> lastRows cfgs) !! key) allow =
          omap (fun key => configEntry <$> lastRows cfgs !! key) allow) as ->; [|done].
  apply list_omap_ext, Forall_Forall2_diag, list.Forall_true. intros k.
  cbv beta. rewrite lookup_fmap. destruct (lastRows cfgs !! k); [|done]. simpl. by rewrite He.
Qed.

Lemma topicConfigRow_masked rc : topicConfigRow (masked_rc rc) = topicConfigRow rc.
Proof. unfold topicConfigRow. simpl. by rewrite selectConfigs_masked. Qed.

Lemma brokerConfigRow_masked rc : brokerConfigRow (masked_rc rc) = brokerConfigRow rc.
Proof. unfold brokerConfigRow. simpl. by rewrite selectConfigs_masked. Qed.

Lemma traverseM_masked {A} (f : ResourceConfig -> St section A) l l' :
  (forall rc, f (masked_rc rc) = f rc) -> masked_rc <$> l = masked_rc <$> l' -> traverseM f l = traverseM f l'.
Proof.
  intros Hf. revert l'. induction l as [|rc l IH]; intros [|rc' l'] E; try done.
  assert (masked_rc rc = masked_rc rc') as Erc by exact (f_equal (hd rc) E).
  assert (masked_rc <$> l = masked_rc <$> l') as El by exact (f_equal (@tl _) E).
  simpl. by rewrite (IH l' El), <- (Hf rc), <- (Hf rc'), Erc.
Qed.

Lemma topicConfigRow_fst rc s :
  tc_Topic (topicConfigRow rc s).1 = rc_Name rc /\ tc_ErrorCode (topicConfigRow rc s).1 = errorCode (rc_Err rc) /\
  tc_Configs (topicConfigRow rc s).1 = selectConfigs (rc_Configs rc) topicConfigKeys.
Proof. unfold topicConfigRow. rewrite St_bind_eq. destruct (rc_Err rc); [rewrite St_bind_eq|]; done. Qed.

Lemma brokerConfigRow_fst rc s :
  bcf_Broker (brokerConfigRow rc s).1 = brokerIDOf (rc_Name rc) /\
  bcf_ErrorCode (brokerConfigRow rc s).1 = errorCode (rc_Err rc) /\
  bcf_Configs (brokerConfigRow rc s).1 = selectConfigs (rc_Configs rc) brokerConfigKeys.
Proof. unfold brokerConfigRow. rewrite St_bind_eq. destruct (rc_Err rc); [rewrite St_bind_eq|]; done. Qed.

Lemma topicConfigRow_kept P `{!Kept P} rc : preserves P (topicConfigRow rc).
Proof.
  unfold topicConfigRow. apply preserves_bind; [|intros; apply preserves_ret].
  destruct (rc_Err rc); [|apply preserves_ret].
  apply preserves_bind; [|intros; apply preserves_ret]. intros s Hs. simpl. by kept1.
Qed.

Lemma brokerConfigRow_kept P `{!Kept P} rc : preserves P (brokerConfigRow rc).
Proof.
  unfold brokerConfigRow. apply preserves_bind; [|intros; apply preserves_ret].
  destruct (rc_Err rc) as [err|]; [|apply preserves_ret].
  apply preserves_bind; [|intros; apply preserves_ret]. intros s Hs. simpl.
  destruct (newError_recordable s apiDescribeBrokerConfigs err false) as [Hc Hn]. simpl in *.
  by apply kept_record.
Qed.

Lemma collectTopicConfigs_sec {V} lo c topics b t : lo <= t ->
  clocked (V := V) (fun t r => sec_at lo t sectionTopicConfigs r.2) t (collectTopicConfigs c topics b).
Proof.
  intros Hlo. unfold collectTopicConfigs. timed; simpl; try sec_ok. apply sec_at_stop; [lia|].
  match goal with E : traverseM _ _ _ = _ |- _ => rewrite (pair_snd _ _ _ E) end.
  apply preserves_traverse; [intros; apply topicConfigRow_kept, _|sec_ok].
Qed.

Lemma collectBrokerConfigs_sec {V} lo c cluster b t : lo <= t ->
  clocked (V := V) (fun t r => sec_at lo t sectionBrokerConfigs r.2) t (collectBrokerConfigs c cluster b).
Proof.
  intros Hlo. unfold collectBrokerConfigs. timed; simpl; try sec_ok. apply sec_at_stop; [lia|].
  match goal with E : traverseM _ _ _ = _ |- _ => rewrite (pair_snd _ _ _ E) end.
  apply preserves_traverse; [intros; apply brokerConfigRow_kept, _|sec_ok].
Qed.

(** Either phase, run: what it makes of one answer. *)
Definition configsOf {A} (f : ResourceConfig -> St section A) (less : A -> A -> bool) (api : string)
    (sec : section) (skip : bool) (t : Z) (x : withErr (list ResourceConfig)) : slice A * section :=
  if skip then (None, stop t (downgrade SectionSkipped sec))
  else
    let '(ok, sec) := request api x.2 sec in
    if negb ok && (Z.of_nat (length x.1) =? 0) then (None, stop t sec)
    else let '(out, sec) := traverseM f x.1 sec in (Some (sort_slice less out), stop t sec).

Lemma run_topicConfigs e c topics run_ :
  let names := tm_Name <$> topics in
  result e (collectTopicConfigs c topics run_) =
    configsOf topicConfigRow (fun a b => str_ltb (tc_Topic a) (tc_Topic b)) apiDescribeTopicConfigs
      (c_newSection c sectionTopicConfigs (clock e 0)) (negb run_ || (Z.of_nat (length names) =? 0))
      (clock e 1) (answer e (RDescribeTopicConfigs names)).
Proof.
  unfold result, collectTopicConfigs, configsOf. run_step. destruct (negb run_); [done|]. cbn [orb].
  destruct (_ =? 0); [done|]. run_step. destruct (answer e _) as [described err]. simpl.
  destruct (request _ _ _) as [ok sec]. destruct (_ && _); [done|]. by destruct (traverseM _ _ _).
Qed.

Lemma run_brokerConfigs e c cluster run_ :
  let ids := b_ID <$> from_option cm_Brokers [] cluster in
  result e (collectBrokerConfigs c cluster run_) =
    configsOf brokerConfigRow (fun a b => bcf_Broker a <? bcf_Broker b) apiDescribeBrokerConfigs
      (c_newSection c sectionBrokerConfigs (clock e 0)) (negb run_ || (Z.of_nat (length ids) =? 0))
      (clock e 1) (answer e (RDescribeBrokerConfigs ids)).
Proof.
  unfold result, collectBrokerConfigs, configsOf. run_step. destruct cluster as [cluster|]; cbn [from_option].
  - destruct (negb run_); [done|]. cbn [orb]. destruct (_ =? 0); [done|]. run_step.
    destruct (answer e _) as [described err]. simpl.
    destruct (request _ _ _) as [ok sec]. destruct (_ && _); [done|]. by destruct (traverseM _ _ _).
  - by rewrite orb_true_r.
Qed.

Lemma configsOf_rows {A} (P : ResourceConfig -> A -> Prop) f less api sec skip t x row :
  (forall rc s, P rc (f rc s).1) -> row ∈ elems (configsOf f less api sec skip t x).1 ->
  exists rc, rc ∈ x.1 /\ P rc row.
Proof.
  intros Hf. unfold configsOf. destruct skip; [by intros ?%elem_of_nil|].
  destruct (request _ _ _) as [ok sec']. destruct (_ && _); [by intros ?%elem_of_nil|].
  pose proof (traverseM_Forall2 P f x.1 sec' (fun rc s _ => Hf rc s)) as HF.
  destruct (traverseM f x.1 sec') as [out sec2]. simpl. rewrite elem_of_sort_slice.
  intros Hin. apply list_elem_of_lookup in Hin as [i Hi].
  destruct (Forall2_lookup_r _ _ _ _ _ HF Hi) as (rc & Hrc & Hs). exists rc. split; [by eapply list_elem_of_lookup_2|done].
Qed.

Lemma configsOf_masked {A} (f : ResourceConfig -> St section A) less api sec skip t
    (x y : withErr (list ResourceConfig)) :
  (forall rc, f (masked_rc rc) = f rc) -> masked_rc <$> x.1 = masked_rc <$> y.1 -> x.2 = y.2 ->
  configsOf f less api sec skip t x = configsOf f less api sec skip t y.
Proof.
  intros Hf E1 E2. unfold configsOf. rewrite E2, (traverseM_masked f x.1 y.1) by done.
  assert (length x.1 = length y.1) as ->; [|done]. by rewrite <- (length_fmap masked_rc), E1, length_fmap.
Qed.

(** ** Properties *)

(** C38: no credential ships.  Whatever a broker answers, and whatever else failed,
    every row of [topic_configs] and [broker_configs] is made of one resource of the
    broker's answer: it holds exactly the allowlisted keys of that resource, in
    allowlist order, each with the broker's own sensitive flag and with its value only
    when the broker did not flag it, and null rather than an empty list when nothing was
    selected.  And nothing that leaves either phase, rows, statuses or errors, depends on
    a sensitive value: two clusters that differ only in those give the same output. *)
Theorem configs_safe (e : env) (c : Collector) (topics : list TopicMetrics)
    (cluster : option ClusterMetrics) (run_ : bool) :
  let ids := b_ID <$> from_option cm_Brokers [] cluster in
  (forall row, row ∈ elems (result e (collectTopicConfigs c topics run_)).1 ->
     exists rc, rc ∈ (answer e (RDescribeTopicConfigs (tm_Name <$> topics))).1 /\
       tc_Topic row = rc_Name rc /\ shipped topicConfigKeys (rc_Configs rc) (tc_Configs row)) /\
  (forall row, row ∈ elems (result e (collectBrokerConfigs c cluster run_)).1 ->
     exists rc, rc ∈ (answer e (RDescribeBrokerConfigs ids)).1 /\
       bcf_Broker row = brokerIDOf (rc_Name rc) /\ shipped brokerConfigKeys (rc_Configs rc) (bcf_Configs row)) /\
  (forall e', differ_in_secrets e e' ->
     result e (collectTopicConfigs c topics run_) = result e' (collectTopicConfigs c topics run_) /\
     result e (collectBrokerConfigs c cluster run_) = result e' (collectBrokerConfigs c cluster run_)).
Proof.
  intros ids. split; [|split].
  - intros row. rewrite run_topicConfigs.
    apply (configsOf_rows (fun rc row => tc_Topic row = rc_Name rc /\ shipped topicConfigKeys (rc_Configs rc) (tc_Configs row))).
    intros rc s. destruct (topicConfigRow_fst rc s) as (-> & _ & ->). split; [done|apply selectConfigs_shipped].
  - intros row. rewrite run_brokerConfigs. apply (configsOf_rows (fun rc row => bcf_Broker row = brokerIDOf (rc_Name rc) /\
      shipped brokerConfigKeys (rc_Configs rc) (bcf_Configs row))).
    intros rc s. destruct (brokerConfigRow_fst rc s) as (-> & _ & ->). split; [done|apply selectConfigs_shipped].
  - intros e' [Hc Ht Hb]. rewrite !run_topicConfigs, !run_brokerConfigs, !Hc. split.
    + apply configsOf_masked; [apply topicConfigRow_masked|apply Ht..].
    + apply configsOf_masked; [apply brokerConfigRow_masked|apply Hb..].
Qed.

End lemmas.

(** A broker id is parsed exactly, or not at all, up to int32 wrap-around.  A
    name that is not a non-empty run of digits gives -1; a run of digits gives its
    decimal value modulo 2^32 in two's complement, so exactly that value below
    2^31. *)
Theorem brokerIDOf_decimal (name : string) :
  let digits := String.list_ascii_of_string name in
  (name = ""%string \/ ~ Forall (fun c => is_digit c = true) digits -> brokerIDOf name = -1) /\
  (name <> ""%string -> Forall (fun c => is_digit c = true) digits ->
     brokerIDOf name = wrapS 32 (decimal digits) /\
     (decimal digits < 2 ^ 31 -> brokerIDOf name = decimal digits)).
Proof.
  intros digits. unfold brokerIDOf. split.
  - intros [->|Hd]; [done|]. destruct (String.eqb name "") eqn:E; [done|]. by apply parseID_other.
  - intros Hne Hd. apply String.eqb_neq in Hne as ->. change 0 with (wrapS 32 0) at 1 2.
    rewrite parseID_spec by done. fold digits. split; [done|]. intros Hlt.
    apply wrapS_small; [lia|]. unfold decimal in *. split; [|done].
    assert (forall v, 0 <= v -> 0 <= foldl (fun v c => v * 10 + (byte_of c - 48)) v digits) as Hpos; [|].
    { clear Hlt. induction Hd as [|c l Hc Hl IH]; intros v Hv; [done|]. simpl. apply IH.
      unfold is_digit in Hc. go_bools. lia. }
    specialize (Hpos 0 ltac:(lia)). lia.
Qed.

(** A broker id past the int32 range is attached to another broker: the name
    "4294967296" parses as broker 0. *)
Theorem brokerIDOf_overflows : brokerIDOf "4294967296" = 0.
Proof. vm_compute. reflexivity. Qed.

(** ** Witnesses *)

Theorem brokerIDOf_decimal_witness : brokerIDOf "1001" = 1001.
Proof.
  refine (proj2 (proj2 (brokerIDOf_decimal "1001") _ _) _); [done| |done].
  by repeat constructor.
Defined.

(** The same cluster with another password. *)
Definition other_env : env := mkEnv
  (fun r => match r with
            | RDescribeTopicConfigs _ =>
                ([mkResourceConfig "t" [mkConfigRow "sasl.jaas.config" (Some "other") true 1;
                    mkConfigRow "cleanup.policy" (Some "other") true 1] None], None)
            | r => empty_answer r
            end) Z.of_nat.

Theorem configs_safe_witness :
  let phase := @collectTopicConfigs kafka_codes kafka_sources unit sample_collector
    [mkTopicMetrics "t" "" false 0 0 [] 0] true in
  (result secret_env phase).1 = Some [mkTopicConfig "t" 0 (Some [mkConfigEntry "cleanup.policy" None true "DYNAMIC_TOPIC_CONFIG"])] /\
  result secret_env phase = result other_env phase.
Proof.
  split; [vm_compute; reflexivity|].
  destruct (@configs_safe kafka_codes kafka_sources secret_env sample_collector
    [mkTopicMetrics "t" "" false 0 0 [] 0] None true) as (_ & _ & Hs).
  apply (Hs other_env). by constructor.
Defined.
