(* ===== verification/ShareGroups.v ===== *)
(** * ShareGroups: KIP-932 share groups ([internal/collector/sharegroups.go]) *)

From Stdlib Require Import ZArith Lia.
From stdpp Require Import prelude gmap strings numbers sorting.
From S2P Require Import Prelude Wire Errors Sections Filter Kadm Collector Topics Offsets Groups.

Definition apiShareGroupDescribe : string := "ShareGroupDescribe".
Definition apiDescribeShareGroupOffsets : string := "DescribeShareGroupOffsets".
Definition shareGroupType : string := "share".

(** [sortedShareTopics] and [sortedSharePartitions]: a map's keys in order. *)
Definition sortedShareTopics (o : gmap string (gmap Z ShareOffset)) : list string :=
  sort_slice str_ltb (map_to_list o).*1.
Definition sortedSharePartitions (ps : gmap Z ShareOffset) : list Z :=
  sort_slice Z.ltb (map_to_list ps).*1.

Section shares.
Context `{!KerrCodes} `{!Kadm}.

Definition shareMember (m : DescribedShareMember) : ShareGroupMember :=
  mkShareGroupMember (dsm_MemberID m) (dsm_ClientID m) (dsm_ClientHost m) (dsm_RackID m)
    (dsm_MemberEpoch m) (dsm_SubscribedTopicNames m)
    (appended (ownedPairs (topicsSetSorted (dsm_Assignment m)))).

Definition shareRow (topic : string) (partition : Z) (so : ShareOffset) : St section ShareGroupOffset :=
  match sho_Err so with
  | Some err =>
      modify (recordPartition apiDescribeShareGroupOffsets topic partition err) ;;
      mret (mkShareGroupOffset topic partition None (sho_LeaderEpoch so) (errorCode (Some err)))
  | None =>
      mret (mkShareGroupOffset topic partition
        (if 0 <=? sho_StartOffset so then Some (sho_StartOffset so) else None) (sho_LeaderEpoch so) 0)
  end.

(** The rows of one group's offsets, in topic then partition order. *)
Definition shareOffsetKeys (o : gmap string (gmap Z ShareOffset)) : list (string * Z * ShareOffset) :=
  sortedShareTopics o ≫= fun topic =>
    let ps := default ∅ (o !! topic) in
    omap (fun p => (fun so => (topic, p, so)) <$> ps !! p) (sortedSharePartitions ps).

(** The body of the loop over the described groups. *)
Definition shareGroup (byGroup : gmap string DescribedShareGroupOffsets) (g : DescribedShareGroup)
    : St section ShareGroup :=
  code ← match dsg_Err g with
         | Some err =>
             modify (recordGroup apiShareGroupDescribe (dsg_GroupID g) err) ;;
             mret (errorCode (Some err))
         | None => mret 0
         end;
  let row code offsets :=
    mkShareGroup (dsg_GroupID g) (dsg_GroupState g) (bd_NodeID (dsg_Coordinator g)) (dsg_GroupEpoch g)
      (dsg_AssignmentEpoch g) (dsg_Assignor g) code (Z.of_nat (length (dsg_Members g)))
      (shareMember <$> dsg_Members g) offsets in
  match byGroup !! dsg_GroupID g with
  | None => mret (row code None)
  | Some o =>
      code ← match dso_Err o with
             | Some err =>
                 modify (recordGroup apiDescribeShareGroupOffsets (dsg_GroupID g) err) ;;
                 mret (if code =? 0 then errorCode (Some err) else code)
             | None => mret code
             end;
      offsets ← traverseM (fun '(topic, p, so) => shareRow topic p so) (shareOffsetKeys (dso_Offsets o));
      mret (row code (appended offsets))
  end.

Definition buildShareGroups (described : list DescribedShareGroup)
    (offsets : list DescribedShareGroupOffsets) : St section (list ShareGroup) :=
  let byGroup := foldl (fun m o => <[dso_Group o := o]> m) ∅ offsets in
  out ← traverseM (shareGroup byGroup) described;
  mret (sort_slice (fun a b => str_ltb (sg_ID a) (sg_ID b)) out).

(** The share groups of the listing that the filter keeps. *)
Definition shareIDs (c : Collector) (types : gmap string string) : list string :=
  (base.filter (fun kv => Is_true (String.eqb kv.2 shareGroupType && allow (c_groups c) kv.1 &&
     negb (isInternalGroup kv.1))) (map_to_list types)).*1.

Definition collectShareGroups {V} (c : Collector) (types : gmap string string) (run_ : bool)
    : prog V (slice ShareGroup * section) :=
  t ← now;
  let sec := c_newSection c sectionShareGroups t in
  if negb run_ then
    t' ← now; mret (None, stop t' (downgrade SectionSkipped sec))
  else
    let ids := shareIDs c types in
    if Z.of_nat (length ids) =? 0 then
      t' ← now; mret (None, stop t' (downgrade SectionSkipped sec))
    else
      let ids := sort_slice str_ltb ids in
      '(described, err) ← call (RDescribeShareGroups ids);
      let '(ok, sec) := request apiShareGroupDescribe err sec in
      if negb ok && (Z.of_nat (length described) =? 0) then
        t' ← now; mret (None, stop t' sec)
      else
        '(offsets, offErr) ← call (RDescribeShareGroupOffsets ids);
        let sec := match offErr with
                   | Some _ =>
                       (requestPartial apiDescribeShareGroupOffsets offErr
                          (0 <? Z.of_nat (length described)) sec).2
                   | None => sec
                   end in
        let '(out, sec) := buildShareGroups described offsets sec in
        t' ← now;
        mret (Some out, stop t' sec).

End shares.

(** ** Specification *)

(** What a start offset must become. *)
Definition share_offset_spec (k : string * Z * ShareOffset) (row : ShareGroupOffset) : Prop :=
  so_Topic row = k.1.1 /\ so_Partition row = k.1.2 /\ so_LeaderEpoch row = sho_LeaderEpoch k.2 /\
  so_StartOffset row = nullableOffset (sho_StartOffset k.2) (sho_Err k.2) /\
  so_ErrorCode row = errorCode (sho_Err k.2).

(** The row a described group becomes, with its offsets' shape. *)
Definition share_group_spec (offsets : list DescribedShareGroupOffsets) (g : DescribedShareGroup)
    (sg : ShareGroup) : Prop :=
  sg_ID sg = dsg_GroupID g /\ sg_State sg = dsg_GroupState g /\
  sg_MemberCount sg = Z.of_nat (length (sg_Members sg)) /\
  (dsg_Err g = None -> (forall o, o ∈ offsets -> dso_Err o = None) -> sg_ErrorCode sg = 0) /\
  (forall row, row ∈ elems (sg_StartOffsets sg) -> exists o k, o ∈ offsets /\ dso_Group o = sg_ID sg /\
     k ∈ shareOffsetKeys (dso_Offsets o) /\ share_offset_spec k row).

(** A cluster with one share group and one classic one. *)
Definition share_types : gmap string string := {["s" := "share"; "k" := "classic"]}.
Definition share_env : env := mkEnv
  (fun r => match r with
            | RDescribeShareGroups _ =>
                ([mkDescribedShareGroup "s" (mkBrokerDetail 1 "b" 9092 None) "Stable" 3 3 "simple" [] None], None)
            | RDescribeShareGroupOffsets _ =>
                ([mkDescribedShareGroupOffsets "s" {["t" := {[0 := mkShareOffset (-1) 2 None]}]} None], None)
            | r => empty_answer r
            end) Z.of_nat.

(** ** Lemmas *)

Section lemmas.
Context `{!KerrCodes} `{!Kadm}.

Lemma shareRow_fst k s : share_offset_spec k ((fun '(topic, p, so) => shareRow topic p so) k s).1.
Proof.
  destruct k as [[t p] so]. unfold share_offset_spec, shareRow, nullableOffset. simpl.
  destruct (sho_Err so) as [err|]; simpl; [done|]. split_and!; try done.
  destruct (sho_StartOffset so <? 0) eqn:E; [replace (0 <=? _) with false by lia|replace (0 <=? _) with true by lia]; done.
Qed.

Lemma shareRow_kept P `{!Kept P} k : preserves P ((fun '(topic, p, so) => shareRow topic p so) k).
Proof.
  destruct k as [[t p] so]. unfold shareRow. destruct (sho_Err so); [|apply preserves_ret].
  apply preserves_bind; [|intros; apply preserves_ret]. intros s Hs. simpl. by kept1.
Qed.

Lemma shareGroup_kept P `{!Kept P} byGroup g : preserves P (shareGroup byGroup g).
Proof.
  unfold shareGroup. apply preserves_bind.
  { destruct (dsg_Err g); [|apply preserves_ret].
    apply preserves_bind; [|intros; apply preserves_ret]. intros s Hs. simpl. by kept1. }
  intros code. destruct (byGroup !! dsg_GroupID g) as [o|]; [|apply preserves_ret].
  apply preserves_bind.
  { destruct (dso_Err o); [|apply preserves_ret].
    apply preserves_bind; [|intros; apply preserves_ret]. intros s Hs. simpl. by kept1. }
  intros code'. apply preserves_bind; [|intros; apply preserves_ret].
  apply preserves_traverse. intros k. apply shareRow_kept, _.
Qed.

Lemma buildShareGroups_kept P `{!Kept P} described offsets : preserves P (buildShareGroups described offsets).
Proof.
  unfold buildShareGroups. apply preserves_bind; [|intros; apply preserves_ret].
  apply preserves_traverse. intros. apply shareGroup_kept, _.
Qed.

Lemma collectShareGroups_sec {V} lo c types b t : lo <= t ->
  clocked (V := V) (fun t r => sec_at lo t sectionShareGroups r.2) t (collectShareGroups c types b).
Proof.
  intros Hlo. unfold collectShareGroups. timed; simpl; try sec_ok; (apply sec_at_stop; [lia|]);
    match goal with E : buildShareGroups _ _ _ = _ |- _ => rewrite (pair_snd _ _ _ E) end;
    apply (buildShareGroups_kept (sec_at _ _ _)); repeat case_match; sec_ok.
Qed.

Lemma shareGroup_fst offsets g s :
  share_group_spec offsets g
    (shareGroup (foldl (fun m o => <[dso_Group o := o]> m) ∅ offsets) g s).1.
Proof.
  unfold shareGroup, share_group_spec. rewrite St_bind_eq.
  set (m0 := match dsg_Err g with Some _ => _ | None => _ end).
  assert (dsg_Err g = None -> (m0 s).1 = 0) as Hc by (intros E; subst m0; by rewrite E).
  generalize dependent (m0 s).1. generalize (m0 s).2. clear m0 s. intros s code Hc.
  rewrite (foldl_insert_lookup dso_Group (fun o => o)), lookup_empty.
  destruct (list_find _ (reverse offsets)) as [[i o]|] eqn:E.
  - apply list_find_Some in E as (Hi & Hg & _). apply list_elem_of_lookup_2 in Hi.
    rewrite elem_of_reverse in Hi. rewrite St_bind_eq, St_bind_eq.
    set (m1 := match dso_Err o with Some _ => _ | None => _ end).
    set (rows := traverseM _ _ _). simpl. rewrite length_fmap. split_and!; try done.
    + intros Hge Hall. subst m1. rewrite (Hall o Hi). simpl. by apply Hc.
    + assert (Forall2 share_offset_spec (shareOffsetKeys (dso_Offsets o)) rows.1) as HF.
      { apply traverseM_Forall2. intros k s' _. apply shareRow_fst. }
      intros row Hrow. assert (row ∈ rows.1) as Hr by (destruct rows.1; [by apply elem_of_nil in Hrow|done]).
      apply list_elem_of_lookup in Hr as [j Hj].
      destruct (Forall2_lookup_r _ _ _ _ _ HF Hj) as (k & Hk & Hs).
      exists o, k. split_and!; try done. by eapply list_elem_of_lookup_2.
  - simpl. rewrite length_fmap. split_and!; try done; [intros; by apply Hc|]. by intros row ?%elem_of_nil.
Qed.

(** Share groups ship as a model of their own.  The phase describes exactly
    the groups the listing typed [share] that the filter keeps (and issues nothing
    when there is none), and ships one row per described group in id order, every
    start offset of it one the broker gave for that group, null when negative or
    failed, the two requests failing independently. *)
Theorem collectShareGroups_faithful (e : env) (c : Collector) (types : gmap string string) :
  let phase := collectShareGroups c types true in
  let ids := sort_slice str_ltb (shareIDs c types) in
  let '(rows, _) := result e phase in
  (forall g, g ∈ ids <-> types !! g = Some shareGroupType /\ allow (c_groups c) g = true /\
     isInternalGroup g = false) /\
  (ids = [] -> requests e phase = []) /\
  (forall sgs, rows = Some sgs -> ids <> [] /\
     exists unsorted, sgs ≡ₚ unsorted /\
       StronglySorted (not_less (fun a b => str_ltb (sg_ID a) (sg_ID b))) sgs /\
       Forall2 (share_group_spec (fst (B := option goerr) (answer e (RDescribeShareGroupOffsets ids))))
         (fst (B := option goerr) (answer e (RDescribeShareGroups ids))) unsorted).
Proof.
  intros phase ids. unfold result, requests.
  destruct (run e phase 0 tt) as [[[[rows sec] reqs] tk] v] eqn:E. cbn [fst snd]. split.
  { intros g. unfold ids. rewrite elem_of_sort_slice. unfold shareIDs.
    rewrite list_elem_of_fmap. split.
    - intros ([k t] & -> & [Hf Hin]%list_elem_of_filter). simpl in *. apply elem_of_map_to_list in Hin.
      apply Is_true_true in Hf. go_bools. subst. done.
    - intros (Ht & Ha & Hi). exists (g, shareGroupType). split; [done|]. apply list_elem_of_filter. simpl.
      rewrite Ha, Hi, elem_of_map_to_list. done. }
  revert E. unfold phase, collectShareGroups. run_step. cbn [negb]. fold ids.
  assert (ids = [] <-> Z.of_nat (length (shareIDs c types)) = 0) as Hids.
  { unfold ids. split; intros Hn.
    - pose proof (length_sort_slice str_ltb (shareIDs c types)) as Hl. rewrite Hn in Hl. simpl in Hl. lia.
    - destruct (shareIDs c types); [done|simpl in Hn; lia]. }
  destruct (Z.of_nat (length (shareIDs c types)) =? 0) eqn:Hz; go_bools.
  { run_step. rewrite run_ret. intros [= <- <- <- <- <-]. split; [done|]. done. }
  assert (ids <> []) as Hne by (by rewrite Hids).
  run_step. destruct (answer e (RDescribeShareGroups ids)) as [described err] eqn:Ed.
  destruct (request _ err _) as [ok sec1]. destruct (negb ok && _).
  { run_step. rewrite run_ret. intros [= <- <- <- <- <-]. split; [done|]. done. }
  run_step. destruct (answer e (RDescribeShareGroupOffsets ids)) as [offs offErr] eqn:Eo.
  match goal with |- context [buildShareGroups described offs ?s] => set (sec2 := s) end.
  destruct (buildShareGroups described offs sec2) as [out sec3] eqn:Eb. run_step. rewrite run_ret.
  intros [= <- <- <- <- <-]. split; [done|]. intros sgs [= <-]. split; [done|].
  unfold buildShareGroups in Eb. rewrite St_bind_eq in Eb. injection Eb as <- <-.
  eexists. split; [apply sort_slice_perm|]. split; [apply sort_slice_sorted, _|].
  apply traverseM_Forall2. intros g s _. apply shareGroup_fst.
Qed.

End lemmas.

(** ** Witness *)

Theorem collectShareGroups_faithful_witness :
  let phase : prog () _ := @collectShareGroups kafka_codes kadm_sorted _ sample_collector share_types true in
  map sg_ID (elems (result share_env phase).1) = ["s"%string] /\
  exists unsorted, elems (result share_env phase).1 ≡ₚ unsorted.
Proof.
  split; [vm_compute; reflexivity|].
  pose proof (@collectShareGroups_faithful kafka_codes kadm_sorted share_env sample_collector share_types) as H.
  cbv zeta in H. destruct (result _ _) as [[sgs|] sec] eqn:E; [|exists []; done].
  destruct H as (_ & _ & H). destruct (H sgs eq_refl) as (_ & u & Hu & _). exists u. exact Hu.
Defined.
