(* ===== verification/LogDirs.v ===== *)
(** * LogDirs: log directories and volume sizes ([internal/collector/logdirs.go])

    The report of a cycle is keyed by broker, and a broker that answered with no
    directory stays in it with an empty list: below DescribeLogDirs v3 that is
    the only trace a refusal leaves. *)

From Stdlib Require Import ZArith Lia.
From stdpp Require Import prelude gmap strings numbers sorting.
From S2P Require Import Prelude Wire Errors Sections Filter Kadm Collector Topics Reassign Groups.

Definition apiDescribeLogDirs : string := "DescribeLogDirs".
Definition errNotLogDirsResponse : goerr :=
  PlainError "broker answered DescribeLogDirs with another response type".

Record describedDir := mkDescribedDir {
  dd_broker : Z;
  dd_dir : string;
  dd_err : option goerr;
  dd_totalBytes : option Z;
  dd_usableBytes : option Z;
  dd_partitions : slice LogDirPartition;
}.

(** [map[int32][]describedDir] *)
Notation logDirReport := (gmap Z (list describedDir)).

(** The comparison of [sorted]. *)
Definition dir_less (l r : describedDir) : bool :=
  (dd_broker l <? dd_broker r) ||
  (dd_broker l =? dd_broker r) && str_ltb (dd_dir l) (dd_dir r).

Definition report_sorted (r : logDirReport) : list describedDir :=
  sort_slice dir_less (concat (map_to_list r).*2).

Definition nullableBytes (v : Z) : option Z := nullableOffset v None.

(** The comparison of [logDirPartitions]. *)
Definition part_less (l r : LogDirPartition) : bool :=
  str_ltb (lp_Topic l) (lp_Topic r) ||
  String.eqb (lp_Topic l) (lp_Topic r) && (lp_Partition l <? lp_Partition r).

Definition logDirPartitions (d : RawLogDir) : list LogDirPartition :=
  sort_slice part_less (rl_Topics d ≫= fun t =>
    (fun p => mkLogDirPartition t.1 (lp_Partition p) (lp_Size p) (lp_OffsetLag p) (lp_IsFuture p)) <$> t.2).

Definition shard_node (shard : LogDirsShard) : Z :=
  match shard with LDErr n _ | LDOther n | LDResp n _ _ => n end.

(** The text of a [*kadm.ShardErrors], third-party. *)
Class ShardErrorText := { shardErrorText : string -> list (Z * goerr) -> string }.

Section logdirs.
Context `{!KerrCodes} `{!Kadm} `{!KerrErrors} `{!ShardErrorText}.

(** One directory of one broker's answer: the body of the loop of [shardLogDirs]. *)
Definition rawDir (node : Z) (d : RawLogDir) : describedDir :=
  let err := ErrorForCode (rl_ErrorCode d) in
  mkDescribedDir node (rl_Dir d) err (nullableBytes (rl_TotalBytes d)) (nullableBytes (rl_UsableBytes d))
    match err with None => Some (logDirPartitions d) | Some _ => None end.

Definition shardLogDirs (shard : LogDirsShard) : list describedDir + goerr :=
  match shard with
  | LDErr _ err => inr err
  | LDOther _ => inr errNotLogDirsResponse
  | LDResp node code dirs =>
      match ErrorForCode code with
      | Some err => inr err
      | None => inl (rawDir node <$> dirs)
      end
  end.

Definition logDirShard (st : logDirReport * list (Z * goerr)) (shard : LogDirsShard)
    : logDirReport * list (Z * goerr) :=
  match shardLogDirs shard with
  | inr err => (st.1, st.2 ++ [(shard_node shard, err)])
  | inl dirs => (<[shard_node shard := dirs]> st.1, st.2)
  end.

Definition logDirShards (shards : list LogDirsShard) : logDirReport * option goerr :=
  let '(report, errs) := foldl logDirShard (∅, []) shards in
  if Z.of_nat (length errs) =? 0 then (report, None)
  else (report, Some (ShardErrors (shardErrorText apiDescribeLogDirs errs) errs
                        (Z.of_nat (length errs) =? Z.of_nat (length shards)))).

(** One directory as the client library decodes it: the body of [kadmLogDirs]. *)
Definition kadmDir (broker : Z) (d : DescribedLogDir) : describedDir :=
  mkDescribedDir broker (dl_Dir d) (dl_Err d) None None
    match dl_Err d with
    | None => Some ((fun p => mkLogDirPartition (lp_Topic p) (lp_Partition p) (lp_Size p)
                       (lp_OffsetLag p) (lp_IsFuture p)) <$> logDirTopicsSorted (dl_Topics d))
    | Some _ => None
    end.

Definition kadmLogDirs (described : gmap Z (gmap string DescribedLogDir)) : logDirReport :=
  map_imap (fun broker dirs => Some (kadmDir broker <$> logDirsSorted dirs)) described.

Definition logDirTopics (c : Collector) (tds : TopicDetails) : TopicsSet :=
  foldl (fun set td => foldl (fun set p => TopicsSet_Add (td_Topic td) (pd_Partition p) set) set
           (partitionsSorted (td_Partitions td)))
    ∅ (selectTopics tds (c_topics c) (o_IncludeInternalTopics (c_opts c))).

(** The topics and partitions of the raw request, in order. *)
Definition describeLogDirsRequest (set : TopicsSet) : list (string * list Z) := topicsSetSorted set.

Definition supportsLogDirVolumeBytes {V} : prog V bool :=
  '(supports, err) ← call RProbe;
  mret match (err : option goerr) with Some _ => false | None => supports end.

Definition describeLogDirs {V} (set : TopicsSet) : prog V (logDirReport * option goerr) :=
  volumes ← supportsLogDirVolumeBytes;
  if (volumes : bool) then
    shards ← call (RShardedDescribeLogDirs (describeLogDirsRequest set));
    mret (logDirShards shards)
  else
    '(described, err) ← call (RDescribeAllLogDirs set);
    mret (kadmLogDirs described, err).

(** The body of the loop over the directories. *)
Definition buildLogDir (d : describedDir) : St section LogDir :=
  match dd_err d with
  | Some err =>
      modify (recordLogDir apiDescribeLogDirs (dd_broker d) (dd_dir d) err) ;;
      mret (mkLogDir (dd_broker d) (dd_dir d) (dd_totalBytes d) (dd_usableBytes d) (errorCode (Some err)) None)
  | None =>
      mret (mkLogDir (dd_broker d) (dd_dir d) (dd_totalBytes d) (dd_usableBytes d) 0 (dd_partitions d))
  end.

(** The silent-refusal test of one broker of the metadata. *)
Definition refusal (described : logDirReport) (b : Broker) : St section () :=
  match described !! b_ID b with
  | Some [] => modify (recordLogDir apiDescribeLogDirs (b_ID b) "" errNoLogDirs)
  | _ => mret tt
  end.

Definition buildLogDirs (described : logDirReport) (cluster : ClusterMetrics) : St section (list LogDir) :=
  dirs ← traverseM buildLogDir (report_sorted described);
  iterM (refusal described) (cm_Brokers cluster) ;;
  mret dirs.

Definition collectLogDirs {V} (c : Collector) (cluster : option ClusterMetrics)
    (tds : option TopicDetails) (run_ : bool) : prog V (slice LogDir * section) :=
  t ← now;
  let sec := c_newSection c sectionLogDirs t in
  match run_, tds, cluster with
  | true, Some tds, Some cluster =>
      let set := logDirTopics c tds in
      if Z.of_nat (size set) =? 0 then
        t' ← now; mret (None, stop t' (downgrade SectionSkipped sec))
      else
        '(described, err) ← describeLogDirs set;
        let '(usable, sec) := request apiDescribeLogDirs err sec in
        if negb usable && (Z.of_nat (size described) =? 0) then
          t' ← now; mret (None, stop t' sec)
        else
          let '(dirs, sec) := buildLogDirs described cluster sec in
          t' ← now;
          mret (Some dirs, stop t' sec)
  | _, _, _ => t' ← now; mret (None, stop t' (downgrade SectionSkipped sec))
  end.

End logdirs.

(** ** Specification *)

Section spec.
Context `{!KerrCodes} `{!Kadm} `{!KerrErrors} `{!ShardErrorText}.

(** The replicas the topics phase ships, which this phase must describe. *)
Definition replicas (c : Collector) (tds : TopicDetails) : list (string * Z) :=
  selectTopics tds (c_topics c) (o_IncludeInternalTopics (c_opts c)) ≫= fun td =>
    (fun p => (td_Topic td, pd_Partition p)) <$> partitionsSorted (td_Partitions td).

(** Whether every broker reports volume sizes, as the probe answers it. *)
Definition volumes (e : env) : bool :=
  let '(supports, err) := (answer e RProbe : withErr bool) in
  supports && bool_decide (err = None).

(** What the cluster reports of a set of replicas. *)
Definition reported (e : env) (set : TopicsSet) : logDirReport * option goerr :=
  if volumes e then logDirShards (answer e (RShardedDescribeLogDirs (topicsSetSorted set)))
  else let '(described, err) := (answer e (RDescribeAllLogDirs set) : withErr _) in
       (kadmLogDirs described, err).

(** The row a directory becomes: one that could not be read keeps its volume and
    loses its partitions. *)
Definition dir_spec (d : describedDir) (row : LogDir) : Prop :=
  ld_Broker row = dd_broker d /\ ld_Dir row = dd_dir d /\
  ld_TotalBytes row = dd_totalBytes d /\ ld_UsableBytes row = dd_usableBytes d /\
  ld_ErrorCode row = errorCode (dd_err d) /\
  ld_Partitions row = (if dd_err d then None else dd_partitions d).

(** A directory whose volume is not a size is null, and one that could not be
    read has no partitions. *)
Definition dir_ok (sizes : bool) (broker : Z) (d : describedDir) : Prop :=
  dd_broker d = broker /\
  (forall v, dd_totalBytes d = Some v -> 0 <= v /\ sizes = true) /\
  (forall v, dd_usableBytes d = Some v -> 0 <= v /\ sizes = true) /\
  (dd_partitions d = None <-> is_Some (dd_err d)).

Definition report_ok (sizes : bool) (r : logDirReport) : Prop :=
  forall b ds d, r !! b = Some ds -> d ∈ ds -> dir_ok sizes b d.

Definition shard_failed (shard : LogDirsShard) : bool :=
  match shardLogDirs shard with inl _ => false | inr _ => true end.

Definition shard_error (shard : LogDirsShard) : option (Z * goerr) :=
  match shardLogDirs shard with inl _ => None | inr err => Some (shard_node shard, err) end.

End spec.

(** A cluster of three brokers: one directory read, one offline, one refusal. *)
Definition dirs_cluster : ClusterMetrics :=
  mkClusterMetrics "c" 2 [mkBroker 1 "a" 9092 None; mkBroker 2 "b" 9092 None] None.
Definition dirs_shards : list LogDirsShard :=
  [LDResp 1 0 [mkRawLogDir 56 "/d" 10 (-1) []; mkRawLogDir 0 "/a" 100 40 []]; LDResp 2 0 []; LDErr 3 (NetError "eof")].
Definition dirs_env : env := mkEnv
  (fun r => match r with
            | RProbe => (true, None)
            | RShardedDescribeLogDirs _ => dirs_shards
            | r => empty_answer r
            end) Z.of_nat.
Definition no_text : ShardErrorText := {| shardErrorText := fun _ _ => "shard errors" |}.

(** ** Lemmas *)

Lemma dir_less_lex l r : dir_less l r =
  lex_less dd_broker Z.ltb (fun a b => str_ltb (dd_dir a) (dd_dir b)) l r.
Proof.
  unfold dir_less, lex_less. destruct (decide (dd_broker l = dd_broker r)) as [->|Hne].
  - by rewrite Z.ltb_irrefl, Z.eqb_refl.
  - replace (dd_broker l =? dd_broker r) with false by lia. by rewrite orb_false_r.
Qed.

Lemma part_less_lex l r : part_less l r =
  lex_less lp_Topic str_ltb (fun a b => lp_Partition a <? lp_Partition b) l r.
Proof.
  unfold part_less, lex_less. destruct (decide (lp_Topic l = lp_Topic r)) as [->|Hne].
  - rewrite String.eqb_refl. destruct (str_ltb _ _) eqn:E; [|done]. pose proof (sw_asym _ _ E). congruence.
  - apply String.eqb_neq in Hne. by rewrite Hne, orb_false_r.
Qed.

Lemma strict_ext {A} (f g : A -> A -> bool) : (forall a b, f a b = g a b) -> StrictWeak g -> StrictWeak f.
Proof.
  intros E [Ha Hn]. split; intros a b; [|intros c]; rewrite !E; [apply Ha|apply Hn].
Qed.

#[export] Instance dir_less_strict : StrictWeak dir_less.
Proof. eapply strict_ext; [apply dir_less_lex|apply _]. Qed.

#[export] Instance part_less_strict : StrictWeak part_less.
Proof. eapply strict_ext; [apply part_less_lex|apply _]. Qed.

Section lemmas.
Context `{!KerrCodes} `{!Kadm} `{!KerrErrors} `{!ShardErrorText}.

Lemma logDirTopics_in c tds tp : in_set (logDirTopics c tds) tp <-> tp ∈ replicas c tds.
Proof.
  unfold logDirTopics, replicas. set (l := selectTopics _ _ _). clearbody l.
  assert (forall td ps set, in_set (foldl (fun set p => TopicsSet_Add (td_Topic td) (pd_Partition p) set) set ps) tp
    <-> in_set set tp \/ tp ∈ (fun p => (td_Topic td, pd_Partition p)) <$> ps) as Hin.
  { intros td ps. induction ps as [|p ps IH]; intros set; simpl; [set_solver|].
    rewrite IH, in_set_add, elem_of_cons. naive_solver. }
  assert (forall set, in_set (foldl (fun set td => foldl (fun set p => TopicsSet_Add (td_Topic td) (pd_Partition p) set)
    set (partitionsSorted (td_Partitions td))) set l) tp <-> in_set set tp \/
    tp ∈ (l ≫= fun td => (fun p => (td_Topic td, pd_Partition p)) <$> partitionsSorted (td_Partitions td))) as Hall.
  { induction l as [|td l IH]; intros set; simpl; [set_solver|].
    rewrite IH, Hin, elem_of_app. naive_solver. }
  rewrite Hall. unfold in_set. setoid_rewrite lookup_empty. naive_solver.
Qed.

(** The guard of the phase: the set is empty exactly when no replica is selected. *)
Lemma logDirTopics_size c tds : Z.of_nat (size (logDirTopics c tds)) = 0 <-> replicas c tds = [].
Proof.
  split; intros Hz.
  - destruct (replicas c tds) as [|tp l] eqn:E; [done|]. exfalso.
    apply (in_set_nonempty (logDirTopics c tds) tp); [apply logDirTopics_in; rewrite E; by left|done].
  - destruct (Z.of_nat (size (logDirTopics c tds)) =? 0) eqn:E; go_bools; [done|]. exfalso.
    assert (forall (l : list TopicDetail) (s : TopicsSet),
      (l ≫= fun td => (fun p => (td_Topic td, pd_Partition p)) <$> partitionsSorted (td_Partitions td)) = [] ->
      foldl (fun set td => foldl (fun set p => TopicsSet_Add (td_Topic td) (pd_Partition p) set)
        set (partitionsSorted (td_Partitions td))) s l = s) as Hs.
    { induction l as [|td l IH]; intros s Hl; [done|]. simpl in *.
      apply app_eq_nil in Hl as [Hl1 Hl2]. apply fmap_nil_inv in Hl1. rewrite Hl1. simpl. by apply IH. }
    unfold logDirTopics in E. rewrite Hs in E by done. by rewrite map_size_empty in E.
Qed.

Lemma nullableBytes_some v b : nullableBytes v = Some b -> 0 <= b.
Proof. unfold nullableBytes, nullableOffset. destruct (v <? 0) eqn:E; [done|]. go_bools. by intros [= <-]. Qed.

Lemma rawDir_ok node d : dir_ok true node (rawDir node d).
Proof.
  unfold rawDir, dir_ok. simpl. split; [done|].
  do 2 (split; [intros v Hv; split; [by eapply nullableBytes_some|done]|]).
  destruct (ErrorForCode _); split; try done; by eexists.
Qed.

Lemma kadmDir_ok b d : dir_ok false b (kadmDir b d).
Proof.
  unfold kadmDir, dir_ok. simpl. split; [done|]. do 2 (split; [done|]).
  destruct (dl_Err d); split; try done; by eexists.
Qed.

Lemma kadmLogDirs_ok described : report_ok false (kadmLogDirs described).
Proof.
  intros b ds d Hb Hd. unfold kadmLogDirs in Hb. rewrite map_lookup_imap in Hb.
  destruct (described !! b) as [dirs|]; [|done]. injection Hb as <-.
  apply list_elem_of_fmap in Hd as (x & -> & _). apply kadmDir_ok.
Qed.

(** The fold over the shards: failed shards accumulate in order, and a broker is
    in the report when its last answering shard put it there. *)
Lemma logDirShard_fold shards st :
  let '(report, errs) := foldl logDirShard st shards in
  errs = st.2 ++ omap shard_error shards /\
  forall b, report !! b =
    match list_find (fun sh => shard_node sh = b) (reverse (base.filter (fun sh => Is_true (negb (shard_failed sh))) shards)) with
    | Some (_, sh) => match shardLogDirs sh with inl ds => Some ds | inr _ => None end
    | None => st.1 !! b
    end.
Proof.
  revert st. induction shards as [|sh shards IH] using rev_ind; intros st; simpl.
  { destruct st. by rewrite app_nil_r. }
  rewrite foldl_app. specialize (IH st). destruct (foldl logDirShard st shards) as [report errs].
  destruct IH as [-> IH]. simpl. rewrite omap_app, list.filter_app.
  assert (base.filter (fun sh => Is_true (negb (shard_failed sh))) [sh] =
    if shardLogDirs sh then [sh] else []) as ->.
  { rewrite list.filter_cons. unfold shard_failed. by destruct (shardLogDirs sh). }
  unfold logDirShard, shard_error. simpl.
  destruct (shardLogDirs sh) as [ds|err] eqn:E; simpl.
  - rewrite !app_nil_r. split; [done|]. intros b.
    rewrite reverse_snoc. simpl.
    case_decide as Hb; [subst; rewrite lookup_insert_eq, E; done|].
    rewrite lookup_insert_ne by done. rewrite IH. by destruct (list_find _ (reverse _)) as [[??]|].
  - split; [by rewrite app_assoc|]. intros b. by rewrite app_nil_r.
Qed.

Lemma logDirShards_ok shards : report_ok true (logDirShards shards).1.
Proof.
  unfold logDirShards. pose proof (logDirShard_fold shards (∅, [])) as Hf.
  destruct (foldl _ _ _) as [report errs]. destruct Hf as [_ Hf].
  assert (report_ok true report) as Hr; [|by destruct (_ =? 0)].
  intros b ds d Hb Hd. rewrite Hf in Hb. simpl in Hb.
  destruct (list_find _ _) as [[i sh]|] eqn:Ef; [|by rewrite lookup_empty in Hb].
  apply list_find_Some in Ef as (_ & <- & _). destruct sh as [n err|n|n code dirs]; simpl in *; try done.
  destruct (ErrorForCode code); [done|]. injection Hb as <-.
  apply list_elem_of_fmap in Hd as (x & -> & _). apply rawDir_ok.
Qed.

Lemma reported_ok e set : report_ok (volumes e) (reported e set).1.
Proof.
  unfold reported. destruct (volumes e); [apply logDirShards_ok|].
  destruct (answer e (RDescribeAllLogDirs set)) as [d err]. apply kadmLogDirs_ok.
Qed.

Lemma buildLogDir_fst d s : dir_spec d (buildLogDir d s).1.
Proof. unfold buildLogDir, dir_spec. destruct (dd_err d); done. Qed.

Lemma recordLogDir_degraded api b d e s : status (recordLogDir api b d e s) <> SectionOK.
Proof. apply add_degraded. Qed.

Lemma buildLogDir_kept (P : section -> Prop) d :
  (forall api b dir err s, P s -> P (recordLogDir api b dir err s)) -> preserves P (buildLogDir d).
Proof.
  intros HP. unfold buildLogDir. destruct (dd_err d); [|apply preserves_ret].
  apply preserves_bind; [|intros; apply preserves_ret]. intros s. apply HP.
Qed.

Lemma refusal_kept (P : section -> Prop) r b :
  (forall api b dir err s, P s -> P (recordLogDir api b dir err s)) -> preserves P (refusal r b).
Proof. intros HP. unfold refusal. destruct (r !! b_ID b) as [[|]|]; try apply preserves_ret. intros s. apply HP. Qed.

Lemma buildLogDirs_kept (P : section -> Prop) r cl :
  (forall api b dir err s, P s -> P (recordLogDir api b dir err s)) -> preserves P (buildLogDirs r cl).
Proof.
  intros HP. unfold buildLogDirs. apply preserves_bind; [apply preserves_traverse; intros; by apply buildLogDir_kept|].
  intros dirs. apply preserves_bind; [|intros; apply preserves_ret].
  intros s Hs. apply iterM_inv; [|done]. intros b s' _. by apply refusal_kept.
Qed.

Lemma collectLogDirs_sec {V} lo c cluster tds b t : lo <= t ->
  clocked (V := V) (fun t r => sec_at lo t sectionLogDirs r.2) t (collectLogDirs c cluster tds b).
Proof.
  intros Hlo. unfold collectLogDirs, describeLogDirs, supportsLogDirVolumeBytes.
  timed; simpl; try sec_ok; (apply sec_at_stop; [lia|]);
    match goal with E : buildLogDirs _ _ _ = _ |- _ => rewrite (pair_snd _ _ _ E) end;
    (apply buildLogDirs_kept; [intros; by kept1|]); sec_ok.
Qed.

Lemma run_describeLogDirs {V A} e set (k : logDirReport * option goerr -> prog V A) tick (v : V) :
  run e (describeLogDirs set ≫= k) tick v =
    let '(a, rs, tick, v) := run e (k (reported e set)) tick v in
    (a, [RProbe; (if volumes e then RShardedDescribeLogDirs (topicsSetSorted set) else RDescribeAllLogDirs set)] ++ rs,
     tick, v).
Proof.
  unfold describeLogDirs, supportsLogDirVolumeBytes, reported, volumes, describeLogDirsRequest.
  rewrite run_bind. unfold mbind, prog_mbind. simpl.
  destruct (answer e RProbe : withErr bool) as [supports err]. destruct err as [err|]; simpl.
  - rewrite andb_false_r. destruct (answer e (RDescribeAllLogDirs set)) as [d er].
    simpl. by destruct (run e (k _) tick v) as [[[??]?]?].
  - destruct supports; simpl; [|destruct (answer e (RDescribeAllLogDirs set)) as [d er]; simpl];
      by destruct (run e (k _) tick v) as [[[??]?]?].
Qed.

Lemma request_refused_degraded api err s :
  (request api err s).1 = false -> status (request api err s).2 <> SectionOK.
Proof.
  intros Hr. pose proof (requestPartial_degraded api err false s) as Hp. unfold requestPartial in Hp.
  destruct (request api err s) as [u s']. simpl in *. subst u. by apply Hp.
Qed.

Lemma buildLogDirs_rows r cl s dirs s' :
  buildLogDirs r cl s = (dirs, s') -> dirs = (traverseM buildLogDir (report_sorted r) s).1.
Proof.
  unfold buildLogDirs. rewrite St_bind_eq, St_bind_eq. by intros [= <- <-].
Qed.

(** A loop of recorders over brokers ends degraded when it starts so or one of
    them records. *)
Lemma refusals_degrade r bs s :
  (status s <> SectionOK \/ exists b, b ∈ bs /\ r !! b_ID b = Some []) ->
  status (iterM (refusal r) bs s).2 <> SectionOK.
Proof.
  revert s. induction bs as [|b bs IH]; intros s [Hs|(b' & Hin & Hb)]; [done|by apply elem_of_nil in Hin| |];
    simpl; rewrite St_bind_eq.
  - apply IH. left. apply (refusal_kept (fun s => status s <> SectionOK)); [|done]. intros. apply recordLogDir_degraded.
  - apply IH. apply elem_of_cons in Hin as [->|Hin]; [|right; eauto]. left. unfold refusal. rewrite Hb.
    apply recordLogDir_degraded.
Qed.

Lemma buildLogDirs_degrades r cl s :
  let '(_, s') := buildLogDirs r cl s in
  (forall d, d ∈ report_sorted r -> is_Some (dd_err d) -> status s' <> SectionOK) /\
  (forall b, b ∈ cm_Brokers cl -> r !! b_ID b = Some [] -> status s' <> SectionOK).
Proof.
  unfold buildLogDirs. rewrite St_bind_eq, St_bind_eq. simpl. split.
  - intros d Hd [err Herr]. apply refusals_degrade. left.
    apply (traverseM_reach_at (fun s => status s <> SectionOK) _ _ d); [|done|].
    + intros d'. apply buildLogDir_kept. intros. apply recordLogDir_degraded.
    + intros s'. unfold buildLogDir. rewrite Herr. simpl. apply recordLogDir_degraded.
  - intros b Hb Hr. apply refusals_degrade. right. eauto.
Qed.

Lemma answered_elem sh (shards : list LogDirsShard) :
  sh ∈ base.filter (fun sh => Is_true (negb (shard_failed sh))) shards <->
  sh ∈ shards /\ exists ds, shardLogDirs sh = inl ds.
Proof.
  rewrite list_elem_of_filter. unfold shard_failed.
  destruct (shardLogDirs sh) as [ds|err]; simpl; naive_solver.
Qed.

(** With one answer per broker, the last answer of a broker is its only one. *)
Lemma answered_lookup (shards : list LogDirsShard) (report : logDirReport) :
  NoDup (shard_node <$> base.filter (fun sh => Is_true (negb (shard_failed sh))) shards) ->
  (forall b, report !! b =
    match list_find (fun sh => shard_node sh = b) (reverse (base.filter (fun sh => Is_true (negb (shard_failed sh))) shards)) with
    | Some (_, sh) => match shardLogDirs sh with inl ds => Some ds | inr _ => None end
    | None => (∅ : logDirReport) !! b
    end) ->
  forall b ds, report !! b = Some ds <->
    exists sh, sh ∈ shards /\ shard_node sh = b /\ shardLogDirs sh = inl ds.
Proof.
  intros Hnd Hf b ds. rewrite Hf. clear Hf. set (l := base.filter _ shards) in *.
  destruct (list_find _ _) as [[i sh]|] eqn:E.
  - apply list_find_Some in E as (Hi & Hb & _). apply list_elem_of_lookup_2 in Hi.
    rewrite elem_of_reverse in Hi. apply answered_elem in Hi as Hs. destruct Hs as [Hin [ds' Hds]]. rewrite Hds.
    split; [intros [= <-]; eauto|]. intros (sh' & Hin' & Hb' & Hds'). f_equal.
    assert (sh' ∈ l) as Hl' by (apply answered_elem; eauto).
    assert (sh = sh') as <-; [|congruence].
    apply list_elem_of_lookup in Hi as [x Hx]. apply list_elem_of_lookup in Hl' as [y Hy].
    assert (x = y) as ->; [|congruence]. apply (NoDup_lookup _ x y b Hnd);
      rewrite list_lookup_fmap; [rewrite Hx|rewrite Hy]; simpl; congruence.
  - rewrite lookup_empty. split; [done|]. intros (sh & Hin & Hb & Hds). exfalso.
    apply list_find_None in E. rewrite list.Forall_forall in E. apply (E sh); [|done].
    rewrite elem_of_reverse. apply answered_elem. eauto.
Qed.

Lemma shard_error_cons sh (shards : list LogDirsShard) : omap shard_error (sh :: shards) =
  match shard_error sh with Some x => x :: omap shard_error shards | None => omap shard_error shards end.
Proof. done. Qed.

Lemma length_omap_le (shards : list LogDirsShard) : (length (omap shard_error shards) <= length shards)%nat.
Proof.
  induction shards as [|sh shards IH]; [done|].
  rewrite shard_error_cons. destruct (shard_error sh); simpl length; lia.
Qed.

Lemma all_failed_empty (shards : list LogDirsShard) (report : logDirReport) :
  (forall b ds, report !! b = Some ds <->
    exists sh, sh ∈ shards /\ shard_node sh = b /\ shardLogDirs sh = inl ds) ->
  length (omap shard_error shards) = length shards <-> report = ∅.
Proof.
  intros Hlk. transitivity (forall sh, sh ∈ shards -> shard_error sh <> None).
  - clear Hlk. induction shards as [|sh shards IH]; [split; [by intros _ ? ?%elem_of_nil|done]|].
    pose proof (length_omap_le shards) as Hle. rewrite shard_error_cons.
    destruct (shard_error sh) as [x|] eqn:E; simpl length.
    + rewrite Nat.succ_inj_wd, IH. split; intros Hall sh'; [intros [->|Hin]%elem_of_cons; [congruence|by apply Hall]|].
      intros Hin. apply Hall. by right.
    + split; [lia|]. intros Hall. exfalso. apply (Hall sh); [by left|done].
  - unfold shard_error. split.
    + intros Hall. apply map_eq. intros b. rewrite lookup_empty. apply eq_None_not_Some. intros [ds Hds].
      apply Hlk in Hds as (sh & Hin & _ & Hsh). apply (Hall sh Hin). by rewrite Hsh.
    + intros -> sh Hin Hn. destruct (shardLogDirs sh) as [ds|] eqn:E; [|done].
      assert ((∅ : logDirReport) !! shard_node sh = Some ds) as Hx by (apply Hlk; eauto).
      by rewrite lookup_empty in Hx.
Qed.

End lemmas.

Section properties.
Context `{!KerrCodes} `{!Kadm} `{!KerrErrors} `{!ShardErrorText}.

(** The phase asks about exactly the replicas the topics phase ships: one
    probe, then one request naming each selected partition (raw and sharded when
    every broker reports volume sizes), and when none is selected it asks nothing,
    since a broker reads an empty list as the whole cluster. *)
Theorem logDirs_asks_selected (e : env) (c : Collector) (cluster : ClusterMetrics) (tds : TopicDetails) :
  let phase := collectLogDirs c (Some cluster) (Some tds) true in
  let '(rows, sec) := result e phase in
  (replicas c tds = [] -> requests e phase = [] /\ rows = None /\ status sec = SectionSkipped) /\
  (replicas c tds <> [] -> exists set,
     requests e phase = [RProbe; if volumes e then RShardedDescribeLogDirs (topicsSetSorted set)
                                 else RDescribeAllLogDirs set] /\
     (forall tp, in_set set tp <-> tp ∈ replicas c tds)).
Proof.
  intros phase. unfold result, requests.
  destruct (run e phase 0 tt) as [[[[rows sec] reqs] tk] v] eqn:E. cbn [fst snd].
  revert E. unfold phase, collectLogDirs. run_step.
  destruct (Z.of_nat (size (logDirTopics c tds)) =? 0) eqn:Hz; go_bools.
  - apply logDirTopics_size in Hz. run_step. rewrite run_ret. by intros [= <- <- <- <- <-].
  - rewrite run_describeLogDirs. destruct (reported e _) as [described err].
    destruct (request _ err _) as [ok sec1].
    assert (replicas c tds <> []) as Hne by (by rewrite <- logDirTopics_size).
    intros Hrun. split; [done|]. intros _. exists (logDirTopics c tds).
    split; [|intros; apply logDirTopics_in]. revert Hrun.
    destruct (negb ok && _); [|destruct (buildLogDirs _ _ _)]; run_step; rewrite run_ret;
      by intros [= <- <- <- <- <-].
Qed.

(** C39: what the brokers reported ships whole: one row per reported directory,
    by broker then directory, with the volume sizes null whenever the broker or
    the protocol did not give one and the partitions null exactly when the
    directory could not be read.  A directory in error, a broker that answered
    with no directory and a request that brought nothing all degrade the section. *)
Theorem logDirs_faithful (e : env) (c : Collector) (cluster : ClusterMetrics) (tds : TopicDetails) :
  let '(rows, sec) := result e (collectLogDirs c (Some cluster) (Some tds) true) in
  let report := (reported e (logDirTopics c tds)).1 in
  report_ok (volumes e) report /\
  (forall dirs, rows = Some dirs -> exists ds,
     ds ≡ₚ concat (map_to_list report).*2 /\ StronglySorted (not_less dir_less) ds /\
     Forall2 dir_spec ds dirs /\
     (forall d, d ∈ ds -> is_Some (dd_err d) -> status sec <> SectionOK) /\
     (forall b, b ∈ cm_Brokers cluster -> report !! b_ID b = Some [] -> status sec <> SectionOK)) /\
  (rows = None -> status sec <> SectionOK).
Proof.
  unfold result. destruct (run e _ 0 tt) as [[[[rows sec] reqs] tk] v] eqn:E. cbn [fst snd].
  split; [apply reported_ok|]. revert E. unfold collectLogDirs. run_step.
  destruct (Z.of_nat (size (logDirTopics c tds)) =? 0) eqn:Hz; go_bools.
  { run_step. rewrite run_ret. by intros [= <- <- <- <- <-]. }
  rewrite run_describeLogDirs. destruct (reported e _) as [described err]. cbn [fst].
  destruct (request _ err _) as [ok sec1] eqn:Er. destruct (negb ok && _) eqn:Hok; go_bools.
  - run_step. rewrite run_ret. intros [= <- <- <- <- <-]. split; [done|]. intros _. simpl.
    destruct ok; [done|]. rewrite (pair_snd _ _ _ Er). apply request_refused_degraded. by rewrite Er.
  - destruct (buildLogDirs described cluster sec1) as [dirs sec2] eqn:Eb. run_step. rewrite run_ret.
    intros [= <- <- <- <- <-]. split; [|done]. intros dirs' [= <-].
    exists (report_sorted described). split; [apply sort_slice_perm|]. split; [apply sort_slice_sorted, _|].
    pose proof (buildLogDirs_degrades described cluster sec1) as Hbd.
    rewrite Eb in Hbd. destruct Hbd as [Hd Hb]. split; [|done]. rewrite (buildLogDirs_rows _ _ _ _ _ Eb).
    apply traverseM_Forall2. intros d s _. apply buildLogDir_fst.
Qed.

(** The fan-out's fold loses no broker.  With one answer per broker, the
    report holds exactly the brokers that answered, each with its own
    directories, and the error lists exactly the shards that did not, in order,
    claiming total failure only when none answered. *)
Theorem logDirShards_exact (shards : list LogDirsShard) :
  NoDup (shard_node <$> base.filter (fun sh => Is_true (negb (shard_failed sh))) shards) ->
  let '(report, err) := logDirShards shards in
  (forall b ds, report !! b = Some ds <->
     exists sh, sh ∈ shards /\ shard_node sh = b /\ shardLogDirs sh = inl ds) /\
  match err with
  | None => omap shard_error shards = []
  | Some err => exists msg all, err = ShardErrors msg (omap shard_error shards) all /\
      omap shard_error shards <> [] /\ (all = true <-> report = ∅)
  end.
Proof.
  intros Hnd. unfold logDirShards. pose proof (logDirShard_fold shards (∅, [])) as Hf.
  destruct (foldl _ _ _) as [report errs]. simpl in Hf. destruct Hf as [-> Hf].
  pose proof (answered_lookup shards report Hnd Hf) as Hlk.
  destruct (Z.of_nat (length (omap shard_error shards)) =? 0) eqn:Hz; go_bools; (split; [done|]).
  - by destruct (omap shard_error shards).
  - eexists _, _. split; [done|]. split; [by intros Hn; rewrite Hn in Hz|].
    rewrite Z.eqb_eq. rewrite Nat2Z.inj_iff. by apply all_failed_empty.
Qed.

End properties.

(** ** Witness *)

Theorem logDirShards_exact_witness :
  let r := @logDirShards kerr_errors no_text dirs_shards in
  r.1 !! 2 = Some [] /\ (exists msg all, r.2 = Some (ShardErrors msg [(3, NetError "eof")] all)).
Proof.
  assert (NoDup (shard_node <$> base.filter (fun sh => Is_true (negb (@shard_failed kerr_errors sh))) dirs_shards)) as Hnd.
  { vm_compute. repeat constructor; set_solver. }
  pose proof (@logDirShards_exact kerr_errors no_text dirs_shards Hnd) as H. cbv zeta.
  destruct (logDirShards dirs_shards) as [report err] eqn:E. destruct H as [H1 H2]. cbn [fst snd]. split.
  - apply H1. exists (LDResp 2 0 []). split; [right; by left|]. split; [done|vm_compute; reflexivity].
  - destruct err as [err|]; [|vm_compute in H2; discriminate].
    destruct H2 as (msg & all & -> & _). exists msg, all. reflexivity.
Defined.

Fact dirs_rows :
  let '(rows, sec) := result dirs_env (@collectLogDirs kafka_codes kadm_sorted kerr_errors no_text _
    sample_collector (Some dirs_cluster) (Some sample_topics) true) in
  (fun d => (ld_Dir d, ld_TotalBytes d, ld_UsableBytes d, ld_Partitions d)) <$> elems rows =
    [("/a"%string, Some 100, Some 40, Some []); ("/d"%string, Some 10, None, None)] /\
  (fun e => (ce_BrokerID e, ce_Dir e)) <$> errs sec = [(Some 3, ""%string); (Some 1, "/d"%string); (Some 2, ""%string)].
Proof. vm_compute. done. Qed.

Definition dirs_phase : prog () (slice LogDir * section) :=
  @collectLogDirs kafka_codes kadm_sorted kerr_errors no_text _ sample_collector (Some dirs_cluster)
    (Some sample_topics) true.

Theorem logDirs_asks_selected_witness :
  exists set, requests dirs_env dirs_phase =
    [RProbe; RShardedDescribeLogDirs (@topicsSetSorted kadm_sorted set)] /\ in_set set ("t"%string, 0).
Proof.
  pose proof (@logDirs_asks_selected kafka_codes kadm_sorted kerr_errors no_text dirs_env sample_collector
    dirs_cluster sample_topics) as H. cbv zeta in H. fold dirs_phase in H.
  destruct (result dirs_env dirs_phase) as [rows sec]. destruct H as [_ H].
  destruct H as (set & Hr & Hin); [intros E; vm_compute in E; discriminate E|].
  exists set. split; [exact Hr|]. apply Hin. vm_compute. left.
Defined.

Theorem logDirs_faithful_witness :
  status (result dirs_env dirs_phase).2 <> SectionOK /\
  report_ok true (@reported kadm_sorted kerr_errors no_text dirs_env
    (@logDirTopics kadm_sorted sample_collector sample_topics)).1.
Proof.
  pose proof (@logDirs_faithful kafka_codes kadm_sorted kerr_errors no_text dirs_env sample_collector
    dirs_cluster sample_topics) as H. fold dirs_phase in H.
  destruct (result dirs_env dirs_phase) as [rows sec] eqn:E. destruct H as (Hok & Hrows & Hnone).
  split; [|exact Hok]. cbn [fst snd]. destruct rows as [dirs|]; [|apply Hnone; reflexivity].
  destruct (Hrows dirs eq_refl) as (ds & _ & _ & _ & _ & Hb).
  apply (Hb (mkBroker 2 "b" 9092 None)); [right; by left|vm_compute; reflexivity].
Defined.
