(* ===== verification/Sched.v ===== *)
(** * Sched: goroutines and their interleavings

    [Collect] starts twelve goroutines that share its local variables and order
    themselves by closing channels.  A goroutine is a [prog]; a [state] is the
    goroutines' remaining code, the channels closed so far, the shared variables,
    the clock and whether the cycle's context is done; [step] is one action of
    one goroutine, or the context ending.  A request is two actions, its issue
    and its answer, so that every overlap of requests is an interleaving.

    Closing a closed channel panics in Go: [step] has no such action, so that
    [sched_progress] also says no goroutine panics this way. *)

From Stdlib Require Import ZArith Lia.
From stdpp Require Import prelude gmap strings numbers.
From S2P Require Import Prelude Kadm.

(** What the brokers may answer; every request is answered, since a call returns
    once its context ends. *)
Class Cluster := {
  allowed : forall r, response r -> Prop;
  answers : forall r, exists x, allowed r x;
}.

(** The cluster that answers as [e] does. *)
Definition answering (e : env) : Cluster :=
  {| allowed := fun r x => x = answer e r; answers := fun r => ex_intro _ (answer e r) eq_refl |}.

Inductive thread (V : Type) : Type :=
| Run (p : prog V ())
| Pending (r : Request) (k : response r -> prog V ()).

Arguments Run {V}.
Arguments Pending {V}.

Inductive event := Issue (r : Request) | Answer (r : Request).

Definition event_request (ev : event) : Request := match ev with Issue r | Answer r => r end.

Record state (V : Type) := mkState {
  threads : list (thread V);
  closed : list chan;
  vars : V;
  time : Z;
  done_ : bool;                                      (* ctx.Done() *)
}.

Arguments mkState {V}.
Arguments threads {V}.
Arguments closed {V}.
Arguments vars {V}.
Arguments time {V}.
Arguments done_ {V}.

Section step.
Context {V : Type} `{!Cluster}.

(** One action of a goroutine: its new code, closed channels, variables, clock. *)
Inductive tstep (d : bool) (cl : list chan) (v : V) (t : Z) :
    thread V -> list event -> thread V -> list chan -> V -> Z -> Prop :=
| ts_now k t' : t <= t' -> tstep d cl v t (Run (Now k)) [] (Run (k t')) cl v t'
| ts_issue r k : tstep d cl v t (Run (Call r k)) [Issue r] (Pending r k) cl v t
| ts_answer r k x : allowed r x -> tstep d cl v t (Pending r k) [Answer r] (Run (k x)) cl v t
| ts_wait c p : c ∈ cl -> tstep d cl v t (Run (Wait c p)) [] (Run p) cl v t
| ts_waitOrDone c p : c ∈ cl \/ d = true -> tstep d cl v t (Run (WaitOrDone c p)) [] (Run p) cl v t
| ts_close c p : c ∉ cl -> tstep d cl v t (Run (Close c p)) [] (Run p) (c :: cl) v t
| ts_get k : tstep d cl v t (Run (Get k)) [] (Run (k v)) cl v t
| ts_put f p : tstep d cl v t (Run (Put f p)) [] (Run p) cl (f v) t.

Inductive step (s : state V) : list event -> state V -> Prop :=
| step_thread i th evs th' cl v t :
    threads s !! i = Some th ->
    tstep (done_ s) (closed s) (vars s) (time s) th evs th' cl v t ->
    step s evs (mkState (<[i := th']> (threads s)) cl v t (done_ s))
| step_done : done_ s = false ->
    step s [] (mkState (threads s) (closed s) (vars s) (time s) true).

(** Any number of actions, with the requests' events in order. *)
Inductive steps : state V -> list event -> state V -> Prop :=
| steps_refl s : steps s [] s
| steps_step s evs s' tr s'' : steps s tr s' -> step s' evs s'' -> steps s (tr ++ evs) s''.

Definition finished (th : thread V) : Prop := th = Run (Ret tt).
Definition final (s : state V) : Prop := Forall finished (threads s).

(** ** Goroutines

    Every goroutine of [Collect] has one shape: it waits for the channels it
    depends on, runs its phase on the shared variables, assigns the phase's
    results and, deferred, closes its channel.  [g_load] is where its results
    live, nil until it assigns them. *)
Record goroutine := mkGo {
  g_R : Type;
  g_deps : list chan;
  g_phase : V -> prog V g_R;
  g_store : g_R -> V -> V;
  g_load : V -> option g_R;
  g_closes : option chan;
}.

Definition finish_go (g : goroutine) (r : g_R g) : prog V () :=
  put (g_store g r) ;;
  match g_closes g with Some c => close c | None => mret tt end.

Definition body (g : goroutine) : prog V () :=
  v ← get; r ← g_phase g v; finish_go g r.

Definition waiting (g : goroutine) (cs : list chan) : prog V () :=
  foldr (fun c p => wait c ;; p) (body g) cs.

Definition code (g : goroutine) : prog V () := waiting g (g_deps g).

Definition start (gs : list goroutine) (v : V) (t : Z) : state V :=
  mkState ((fun g => Run (code g)) <$> gs) [] v t false.

(** ** The discipline of a system of goroutines *)

(** A phase shares nothing: it neither touches the variables nor closes a
    channel, and waits only for the channels [ok] holds of. *)
Fixpoint quiet {A} (ok : chan -> Prop) (p : prog V A) : Prop :=
  match p with
  | Ret _ => True
  | Now k => forall t, quiet ok (k t)
  | Call r k => forall x, quiet ok (k x)
  | Wait c p | WaitOrDone c p => ok c /\ quiet ok p
  | Close _ _ | Get _ | Put _ _ => False
  end.

(** [disciplined gate pos passed n p]: [p] issues a request only after waiting
    for the channels of its gate, and never one placed before another it has
    already issued. *)
Fixpoint disciplined {A} (gate : Request -> list chan) (pos : Request -> nat)
    (passed : list chan) (n : nat) (p : prog V A) : Prop :=
  match p with
  | Ret _ => True
  | Now k => forall t, disciplined gate pos passed n (k t)
  | Call r k => (n <= pos r)%nat /\ gate r ⊆ passed /\ forall x, disciplined gate pos passed (pos r) (k x)
  | Wait c p | WaitOrDone c p => disciplined gate pos (c :: passed) n p
  | Close _ p | Put _ p => disciplined gate pos passed n p
  | Get k => forall v, disciplined gate pos passed n (k v)
  end.

(** [p] only issues requests [P] holds of. *)
Fixpoint asks {A} (P : Request -> Prop) (p : prog V A) : Prop :=
  match p with
  | Ret _ => True
  | Now k => forall t, asks P (k t)
  | Call r k => P r /\ forall x, asks P (k x)
  | Wait _ p | WaitOrDone _ p | Close _ p | Put _ p => asks P p
  | Get k => forall v, asks P (k v)
  end.

(** [reach p q]: the phase [p] may come to have [q] left to do. *)
Inductive reach {A} (p : prog V A) : prog V A -> Prop :=
| reach_refl : reach p p
| reach_now k t : reach p (Now k) -> reach p (k t)
| reach_call r k x : reach p (Call r k) -> allowed r x -> reach p (k x)
| reach_wait c q : reach p (Wait c q) -> reach p q
| reach_waitOrDone c q : reach p (WaitOrDone c q) -> reach p q.

Definition can_return {A} (p : prog V A) (a : A) : Prop := reach p (Ret a).

(** [ends t p a]: begun at [t], the phase [p] may return [a]; the clock never goes
    back. *)
Inductive ends {A} : Z -> prog V A -> A -> Prop :=
| ends_ret t a : ends t (Ret a) a
| ends_now t t' k a : t <= t' -> ends t' (k t') a -> ends t (Now k) a
| ends_call t r k x a : allowed r x -> ends t (k x) a -> ends t (Call r k) a
| ends_wait t c p a : ends t p a -> ends t (Wait c p) a
| ends_waitOrDone t c p a : ends t p a -> ends t (WaitOrDone c p) a.

(** A system of goroutines whose channels carry a rank that grows from what a
    goroutine waits for to what it closes, and in which a goroutine reads only
    variables that nobody assigns, or whose goroutine closed a channel it waited
    for. *)
Record dataflow (rank : chan -> nat) (gs : list goroutine) : Prop := {
  df_quiet g v : g ∈ gs ->
    quiet (fun c => (exists g', g' ∈ gs /\ g_closes g' = Some c) /\
             forall c', g_closes g = Some c' -> (rank c < rank c')%nat) (g_phase g v);
  df_deps g c : g ∈ gs -> c ∈ g_deps g ->
    (exists g', g' ∈ gs /\ g_closes g' = Some c) /\
    forall c', g_closes g = Some c' -> (rank c < rank c')%nat;
  df_closer i j gi gj c : gs !! i = Some gi -> gs !! j = Some gj ->
    g_closes gi = Some c -> g_closes gj = Some c -> i = j;
  df_load g r v : g ∈ gs -> g_load g (g_store g r v) = Some r;
  df_self g r v : g ∈ gs -> g_phase g (g_store g r v) = g_phase g v;
  df_frame i j gi gj : gs !! i = Some gi -> gs !! j = Some gj -> i <> j ->
    (forall r v, g_load gi (g_store gj r v) = g_load gi v) /\
    ((forall r v, g_phase gi (g_store gj r v) = g_phase gi v) \/
     exists c, g_closes gj = Some c /\ c ∈ g_deps gi);
}.

(** Where a goroutine can be, given the closed channels and the variables. *)
Inductive thread_ok (cl : list chan) (v : V) (g : goroutine) : thread V -> Prop :=
| ok_wait before rest :
    g_deps g = before ++ rest -> before ⊆ cl -> g_load g v = None ->
    (forall c, g_closes g = Some c -> c ∉ cl) ->
    thread_ok cl v g (Run (waiting g rest))
| ok_run q :
    g_deps g ⊆ cl -> reach (g_phase g v) q -> g_load g v = None ->
    (forall c, g_closes g = Some c -> c ∉ cl) ->
    thread_ok cl v g (Run (q ≫= finish_go g))
| ok_pending r k :
    g_deps g ⊆ cl -> reach (g_phase g v) (Call r k) -> g_load g v = None ->
    (forall c, g_closes g = Some c -> c ∉ cl) ->
    thread_ok cl v g (Pending r (fun x => k x ≫= finish_go g))
| ok_close r c :
    g_deps g ⊆ cl -> can_return (g_phase g v) r -> g_load g v = Some r ->
    g_closes g = Some c -> c ∉ cl ->
    thread_ok cl v g (Run (close c))
| ok_end r :
    g_deps g ⊆ cl -> can_return (g_phase g v) r -> g_load g v = Some r ->
    (forall c, g_closes g = Some c -> c ∈ cl) ->
    thread_ok cl v g (Run (Ret tt)).

Definition sched_ok (gs : list goroutine) (s : state V) : Prop :=
  Forall2 (thread_ok (closed s) (vars s)) gs (threads s).

(** A goroutine's remaining code keeps the discipline, with [n] the place of the
    last request it issued. *)
Definition thread_disc (gate : Request -> list chan) (pos : Request -> nat) (n : nat)
    (d : bool) (cl : list chan) (th : thread V) : Prop :=
  exists passed, (d = false -> passed ⊆ cl) /\
    match th with
    | Run p => disciplined gate pos passed n p
    | Pending r k => (n <= pos r)%nat /\ forall x, disciplined gate pos passed (pos r) (k x)
    end.

Definition thread_asks (P : Request -> Prop) (th : thread V) : Prop :=
  match th with
  | Run p => asks P p
  | Pending r k => P r /\ forall x, asks P (k x)
  end.

(** The requests of a system: who issues each, where it stands in its
    goroutine, and the channels its goroutine has waited for by then. *)
Record protocol (gs : list goroutine) (owner : Request -> nat) (gate : Request -> list chan)
    (pos : Request -> nat) : Prop := {
  pr_asks i g v : gs !! i = Some g -> asks (fun r => owner r = i) (g_phase g v);
  pr_disc g v : g ∈ gs -> disciplined gate pos (g_deps g) 0 (g_phase g v);
}.

(** [r1] comes before [r2]: its goroutine closes a channel [r2] waits for, or is
    [r2]'s own and issues it first. *)
Definition precedes (gs : list goroutine) (owner : Request -> nat) (gate : Request -> list chan)
    (pos : Request -> nat) (r1 r2 : Request) : Prop :=
  (exists g c, gs !! owner r1 = Some g /\ g_closes g = Some c /\ c ∈ gate r2) \/
  (owner r1 = owner r2 /\ (pos r1 < pos r2)%nat).

(** The three at once, for walking through a phase. *)
Fixpoint conforms {A} (ok : chan -> Prop) (P : Request -> Prop) (gate : Request -> list chan)
    (pos : Request -> nat) (passed : list chan) (n : nat) (p : prog V A) : Prop :=
  match p with
  | Ret _ => True
  | Now k => forall t, conforms ok P gate pos passed n (k t)
  | Call r k => P r /\ (n <= pos r)%nat /\ gate r ⊆ passed /\ forall x, conforms ok P gate pos passed (pos r) (k x)
  | Wait c p | WaitOrDone c p => ok c /\ conforms ok P gate pos (c :: passed) n p
  | Close _ _ | Get _ | Put _ _ => False
  end.

(** One executable action of goroutine [i]: requests answered by [e], the clock
    still. *)
Definition act (e : env) (i : nat) (s : state V) : option (list event * state V) :=
  let next th evs cl v := Some (evs, mkState (<[i := th]> (threads s)) cl v (time s) (done_ s)) in
  match threads s !! i with
  | None | Some (Run (Ret _)) => None
  | Some (Run (Now k)) => next (Run (k (time s))) [] (closed s) (vars s)
  | Some (Run (Call r k)) => next (Pending r k) [Issue r] (closed s) (vars s)
  | Some (Run (Wait c p)) =>
      if decide (c ∈ closed s) then next (Run p) [] (closed s) (vars s) else None
  | Some (Run (WaitOrDone c p)) =>
      if decide (c ∈ closed s \/ done_ s = true) then next (Run p) [] (closed s) (vars s) else None
  | Some (Run (Close c p)) =>
      if decide (c ∈ closed s) then None else next (Run p) [] (c :: closed s) (vars s)
  | Some (Run (Get k)) => next (Run (k (vars s))) [] (closed s) (vars s)
  | Some (Run (Put f p)) => next (Run p) [] (closed s) (f (vars s))
  | Some (Pending r k) => next (Run (k (answer e r))) [Answer r] (closed s) (vars s)
  end.

(** Runs, at each turn, the first goroutine of [prio] that can act. *)
Fixpoint first_act (e : env) (prio : list nat) (s : state V) : option (list event * state V) :=
  match prio with
  | [] => None
  | i :: prio => match act e i s with Some r => Some r | None => first_act e prio s end
  end.

Fixpoint drive (e : env) (prio : list nat) (fuel : nat) (s : state V) : list event * state V :=
  match fuel with
  | O => ([], s)
  | S fuel =>
      match first_act e prio s with
      | None => ([], s)
      | Some (evs, s) => let '(tr, s) := drive e prio fuel s in (evs ++ tr, s)
      end
  end.

Definition finishedb (th : thread V) : bool :=
  match th with Run (Ret _) => true | _ => false end.

(** ** Lemmas *)

Lemma tstep_inv d cl v t th evs th' cl' v' t' :
  tstep d cl v t th evs th' cl' v' t' ->
  match th with
  | Run (Ret _) => False
  | Run (Now k) => exists t1, t <= t1 /\ evs = [] /\ th' = Run (k t1) /\ cl' = cl /\ v' = v /\ t' = t1
  | Run (Call r k) => evs = [Issue r] /\ th' = Pending r k /\ cl' = cl /\ v' = v /\ t' = t
  | Run (Wait c p) => c ∈ cl /\ evs = [] /\ th' = Run p /\ cl' = cl /\ v' = v /\ t' = t
  | Run (WaitOrDone c p) => (c ∈ cl \/ d = true) /\ evs = [] /\ th' = Run p /\ cl' = cl /\ v' = v /\ t' = t
  | Run (Close c p) => c ∉ cl /\ evs = [] /\ th' = Run p /\ cl' = c :: cl /\ v' = v /\ t' = t
  | Run (Get k) => evs = [] /\ th' = Run (k v) /\ cl' = cl /\ v' = v /\ t' = t
  | Run (Put f p) => evs = [] /\ th' = Run p /\ cl' = cl /\ v' = f v /\ t' = t
  | Pending r k => exists x, allowed r x /\ evs = [Answer r] /\ th' = Run (k x) /\ cl' = cl /\ v' = v /\ t' = t
  end.
Proof. destruct 1; naive_solver. Qed.

Lemma reach_quiet {A} ok (p q : prog V A) : reach p q -> quiet ok p -> quiet ok q.
Proof. induction 1; intros Hq; try specialize (IHreach Hq); simpl in *; naive_solver. Qed.

Lemma reach_asks {A} P (p q : prog V A) : reach p q -> asks P p -> asks P q.
Proof. induction 1; intros Hq; try specialize (IHreach Hq); simpl in *; naive_solver. Qed.

Lemma thread_ok_deps cl v g th : thread_ok cl v g th ->
  th = Run (Ret tt) \/ (exists c, th = Run (close c)) \/
  (g_load g v = None /\ forall c, g_closes g = Some c -> c ∉ cl).
Proof. destruct 1; naive_solver. Qed.

(** *** Walking through a phase *)

Section conforms.
Context {A : Type} (ok : chan -> Prop) (P : Request -> Prop) (gate : Request -> list chan)
  (pos : Request -> nat).

Lemma conforms_quiet passed n (p : prog V A) : conforms ok P gate pos passed n p -> quiet ok p.
Proof. revert passed n. induction p; intros passed n Hp; simpl in *; naive_solver. Qed.

Lemma conforms_asks passed n (p : prog V A) : conforms ok P gate pos passed n p -> asks P p.
Proof. revert passed n. induction p; intros passed n Hp; simpl in *; naive_solver. Qed.

Lemma conforms_disciplined passed n (p : prog V A) :
  conforms ok P gate pos passed n p -> disciplined gate pos passed n p.
Proof. revert passed n. induction p; intros passed n Hp; simpl in *; naive_solver. Qed.

Lemma conforms_ret passed n (a : A) : conforms ok P gate pos passed n (mret a).
Proof. done. Qed.

Lemma conforms_now passed n (k : Z -> prog V A) :
  (forall t, conforms ok P gate pos passed n (k t)) -> conforms ok P gate pos passed n (now ≫= k).
Proof. done. Qed.

Lemma conforms_call passed n r (k : response r -> prog V A) :
  P r -> (n <= pos r)%nat -> gate r ⊆ passed ->
  (forall x, conforms ok P gate pos passed (pos r) (k x)) -> conforms ok P gate pos passed n (call r ≫= k).
Proof. done. Qed.

Lemma conforms_waitOrDone passed n c (k : () -> prog V A) :
  ok c -> conforms ok P gate pos (c :: passed) n (k tt) ->
  conforms ok P gate pos passed n (waitOrDone c ≫= k).
Proof. done. Qed.

Lemma conforms_ret_bind {B} passed n (b : B) (k : B -> prog V A) :
  conforms ok P gate pos passed n (k b) -> conforms ok P gate pos passed n (mret b ≫= k).
Proof. done. Qed.

Lemma conforms_assoc {B C} passed n (p : prog V B) (k : B -> prog V C) (k' : C -> prog V A) :
  conforms ok P gate pos passed n (p ≫= fun b => k b ≫= k') ->
  conforms ok P gate pos passed n ((p ≫= k) ≫= k').
Proof.
  unfold mbind, prog_mbind. revert passed n.
  induction p as [b|f IH|r f IH|c p IH|c p IH|c p IH|f IH|g p IH]; intros passed n Hp; simpl in *; try done.
  - intros t. by apply IH.
  - destruct Hp as (? & ? & ? & Hp). split_and!; try done. intros x. by apply IH.
  - destruct Hp as (? & Hp). split; [done|]. by apply IH.
  - destruct Hp as (? & Hp). split; [done|]. by apply IH.
Qed.

End conforms.

(** Every action leaves its goroutine less to do. *)
Definition tsub (th' th : thread V) : Prop :=
  exists d cl v t evs cl' v' t', tstep d cl v t th evs th' cl' v' t'.

Lemma tsub_wf th : Acc tsub th.
Proof.
  assert (forall p, Acc tsub (Run p)) as Hrun.
  { intros p. remember () as u eqn:Hu. clear u Hu.
    induction p as [a|f IH|r f IH|c p IH|c p IH|c p IH|f IH|g p IH];
      constructor; intros th' (d & cl & v & t & evs & cl' & v' & t' & Hs); apply tstep_inv in Hs.
    - done.
    - destruct Hs as (? & _ & _ & -> & _). apply IH.
    - destruct Hs as (_ & -> & _). constructor.
      intros th2 (d2 & cl2 & v2 & t2 & evs2 & cl2' & v2' & t2' & Hs2). apply tstep_inv in Hs2.
      destruct Hs2 as (? & _ & _ & -> & _). apply IH.
    - destruct Hs as (_ & _ & -> & _). apply IH.
    - destruct Hs as (_ & _ & -> & _). apply IH.
    - destruct Hs as (_ & _ & -> & _). apply IH.
    - destruct Hs as (_ & -> & _). apply IH.
    - destruct Hs as (_ & -> & _). apply IH. }
  destruct th as [p|r k]; [apply Hrun|]. constructor.
  intros th' (d & cl & v & t & evs & cl' & v' & t' & Hs). apply tstep_inv in Hs.
  destruct Hs as (? & _ & _ & -> & _). apply Hrun.
Qed.

Definition lsub (l' l : list (thread V)) : Prop :=
  exists i th th', l !! i = Some th /\ tsub th' th /\ l' = <[i := th']> l.

Lemma lsub_wf l : Acc lsub l.
Proof.
  induction l as [|th l IH]; [constructor; by intros l' (i & th & th' & Hi & _)|].
  induction (tsub_wf th) as [th _ IHth]. induction IH as [l Hl IHl].
  constructor. intros l' ([|i] & t & t' & Hi & Ht & ->); simpl in *.
  - injection Hi as ->. apply IHth. done.
  - apply IHl; [by exists i, t, t'|]. 
    intros y Hy. destruct (IHth y Hy) as [Hacc]. apply Hacc.
    exists (S i), t, t'. done.
Qed.

(** No schedule runs for ever. *)
Lemma step_wf s : Acc (fun s' s => exists evs, step s evs s') s.
Proof.
  destruct s as [ths cl v t d]. revert cl v t d. induction (lsub_wf ths) as [ths _ IH].
  assert (forall cl v t, Acc (fun s' s => exists evs, step s evs s') (mkState ths cl v t true)) as Htrue.
  { intros cl v t. constructor. intros s' [evs Hst]. inversion Hst as [i th ? th' ???? Hi Hs|Hd]; [|done].
    apply IH. exists i, th, th'. simpl in *. split; [done|]. split; [|done]. by do 8 eexists. }
  intros cl v t [|]; [apply Htrue|]. constructor. intros s' [evs Hst].
  inversion Hst as [i th ? th' ???? Hi Hs|Hd]; [|apply Htrue].
  apply IH. exists i, th, th'. simpl in *. split; [done|]. split; [|done]. by do 8 eexists.
Qed.

(** What a phase reaches starts with what its first action leaves. *)
Lemma reach_inv {A} (p q : prog V A) : reach p q -> q = p \/
  match p with
  | Now k => exists t, reach (k t) q
  | Call r k => exists x, allowed r x /\ reach (k x) q
  | Wait _ p | WaitOrDone _ p => reach p q
  | _ => False
  end.
Proof.
  induction 1 as [|k t Hr [IH|IH]|r k x Hr [IH|IH] Hx|c q Hr [IH|IH]|c q Hr [IH|IH]]; [by left|..].
  - subst p. right. exists t. apply reach_refl.
  - right. destruct p; try done; [destruct IH as [t' IH]; exists t'|destruct IH as (x & Hx & IH); exists x; split; [done|]|..];
      by apply reach_now.
  - subst p. right. exists x. split; [done|]. apply reach_refl.
  - right. destruct p; try done; [destruct IH as [t' IH]; exists t'|destruct IH as (x' & Hx' & IH); exists x'; split; [done|]|..];
      by apply reach_call.
  - subst p. right. apply reach_refl.
  - right. destruct p; try done; [destruct IH as [t' IH]; exists t'|destruct IH as (x' & Hx' & IH); exists x'; split; [done|]|..];
      by eapply reach_wait.
  - subst p. right. apply reach_refl.
  - right. destruct p; try done; [destruct IH as [t' IH]; exists t'|destruct IH as (x' & Hx' & IH); exists x'; split; [done|]|..];
      by eapply reach_waitOrDone.
Qed.

Lemma reach_trans {A} (p q r : prog V A) : reach p q -> reach q r -> reach p r.
Proof.
  intros Hpq. induction 1; [done|by apply reach_now|by apply reach_call|by eapply reach_wait|by eapply reach_waitOrDone].
Qed.

(** What a phase returns alone it returns in some interleaving. *)
Lemma run_ends {A} ok (e : env) (p : prog V A) t tick v :
  (forall r, allowed r (answer e r)) -> quiet ok p ->
  (forall i, (tick <= i)%nat -> t <= clock e i /\ clock e i <= clock e (S i)) -> ends t p (run e p tick v).1.1.1.
Proof.
  intros He. revert t tick v.
  induction p as [a|f IH|r f IH|c p IH|c p IH|c p IH|f IH|g p IH]; intros t tick v Hq Hc; simpl in *; try done.
  - constructor.
  - apply (ends_now t (clock e tick)); [by apply Hc|]. apply IH; [done|]. intros i Hi. split; [|apply Hc; lia].
    clear -Hc Hi. induction Hi as [|i Hi IHi]; [apply Hc; lia|]. etransitivity; [exact IHi|]. apply Hc. lia.
  - specialize (IH (answer e r) t tick v (Hq _) Hc). destruct (run e (f (answer e r)) tick v) as [[[??]?]?].
    by apply (ends_call t r f (answer e r)).
  - constructor. by apply IH; [apply Hq|].
  - constructor. by apply IH; [apply Hq|].
Qed.

Lemma returns_reach {A} (Q : A -> Prop) (p q : prog V A) : reach p q -> returns Q p -> returns Q q.
Proof. intros Hr Hp. induction Hr; simpl in *; auto. Qed.

Lemma returns_can_return {A} (Q : A -> Prop) (p : prog V A) a : returns Q p -> can_return p a -> Q a.
Proof. intros Hp Hr. exact (returns_reach Q _ _ Hr Hp). Qed.

Lemma returns_ends {A} (Q : A -> Prop) (p : prog V A) t a : returns Q p -> ends t p a -> Q a.
Proof. intros Hp Hr. induction Hr; simpl in *; auto. Qed.

Lemma quiet_ends {A} ok (p : prog V A) t : quiet ok p -> exists a, ends t p a.
Proof.
  revert t. induction p as [a|f IH|r f IH|c p IH|c p IH|c p IH|f IH|g p IH]; intros t Hq; simpl in *; try done.
  - exists a. constructor.
  - destruct (IH t t (Hq t)) as [a Ha]. exists a. by apply (ends_now t t).
  - destruct (answers r) as [x Hx]. destruct (IH x t (Hq x)) as [a Ha]. exists a. by apply (ends_call t r f x).
  - destruct (IH t (proj2 Hq)) as [a Ha]. exists a. by constructor.
  - destruct (IH t (proj2 Hq)) as [a Ha]. exists a. by constructor.
Qed.

Lemma clocked_quiet {A} ok (Q : Z -> A -> Prop) t (p : prog V A) :
  quiet ok p -> (forall t' a, t <= t' -> Q t' a) -> clocked Q t p.
Proof.
  revert t. induction p as [a|f IH|r f IH|c p IH|c p IH|c p IH|f IH|g p IH]; intros t Hp HQ; simpl in *; try done; eauto.
  - intros t' Ht. apply IH; [done|]. intros t1 a Ht1. apply HQ. lia.
  - apply IH; [apply Hp|done].
  - apply IH; [apply Hp|done].
Qed.

Lemma ends_clocked {A} (Q : Z -> A -> Prop) (p : prog V A) t a :
  clocked Q t p -> ends t p a -> exists t', t <= t' /\ Q t' a.
Proof.
  intros Hc He. induction He as [t a|t t' k a Ht He IH|t r k x a Hx He IH|t c p a He IH|t c p a He IH]; simpl in Hc; auto.
  - exists t. split; [lia|]. apply Hc. lia.
  - destruct (IH (Hc t' Ht)) as (t1 & Ht1 & HQ). exists t1. split; [lia|done].
Qed.

(** When the cluster answers as [e] does, what a phase returns in some
    interleaving it returns alone, with some reading of the clock. *)
Lemma can_return_run {A} (e : env) (p : prog V A) a v :
  (forall r x, allowed r x -> x = answer e r) -> can_return p a ->
  exists clk, (run (mkEnv (answer e) clk) p 0 v).1.1.1 = a.
Proof.
  intros He Hp.
  cut (exists l : list Z, forall clk tick v, (forall i t, l !! i = Some t -> clk (tick + i)%nat = t) ->
         (run (mkEnv (answer e) clk) p tick v).1.1.1 = a).
  { intros [l Hl]. exists (fun i => default 0 (l !! i)). apply Hl. intros i t Hi. simpl. by rewrite Hi. }
  clear v. unfold can_return in Hp.
  induction p as [b|f IH|r f IH|c p IH|c p IH|c p IH|f IH|g p IH];
    destruct (reach_inv _ _ Hp) as [Heq|Hr]; try done.
  - injection Heq as <-. by exists [].
  - destruct Hr as [t Hr]. destruct (IH t Hr) as [l Hl]. exists (t :: l). intros clk tick v Hclk. simpl.
    assert (clk tick = t) as -> by (rewrite <- (Nat.add_0_r tick); by apply Hclk).
    apply Hl. intros i t' Hi. rewrite <- (Hclk (S i) t' Hi). f_equal. lia.
  - destruct Hr as (x & Hx & Hr). rewrite (He _ _ Hx) in Hr. destruct (IH _ Hr) as [l Hl]. exists l.
    intros clk tick v Hclk. simpl. specialize (Hl clk tick v Hclk).
    by destruct (run _ (f (answer e r)) tick v) as [[[??]?]?].
  - destruct (IH Hr) as [l Hl]. by exists l.
  - destruct (IH Hr) as [l Hl]. by exists l.
Qed.

Lemma steps_trans s1 tr1 s2 tr2 s3 : steps s1 tr1 s2 -> steps s2 tr2 s3 -> steps s1 (tr1 ++ tr2) s3.
Proof.
  intros H1. induction 1; [by rewrite app_nil_r|]. rewrite app_assoc. eapply steps_step; [by apply IHsteps|done].
Qed.

Lemma act_step (e : env) i s evs s' :
  (forall r, allowed r (answer e r)) -> act e i s = Some (evs, s') -> step s evs s'.
Proof.
  intros He. unfold act. destruct (threads s !! i) as [[p|r k]|] eqn:Hi; [|intros [= <- <-]; econstructor; [done|by constructor]|done].
  destruct p as [a|k|r k|c p|c p|c p|k|f p]; try case_decide; intros [= <- <-];
    (eapply step_thread; [exact Hi|]; by constructor).
Qed.

Lemma first_act_step (e : env) prio s evs s' :
  (forall r, allowed r (answer e r)) -> first_act e prio s = Some (evs, s') -> step s evs s'.
Proof.
  intros He. induction prio as [|i prio IH]; simpl; [done|].
  destruct (act e i s) as [[evs' s1]|] eqn:Hi; [intros E; injection E as -> ->; by eapply act_step|by apply IH].
Qed.

Lemma drive_steps (e : env) prio fuel s tr s' :
  (forall r, allowed r (answer e r)) -> drive e prio fuel s = (tr, s') -> steps s tr s'.
Proof.
  intros He. revert s tr s'. induction fuel as [|fuel IH]; intros s tr s' Hx; simpl in Hx.
  { injection Hx as <- <-. apply steps_refl. }
  destruct (first_act e prio s) as [[evs s1]|] eqn:Ha; [|injection Hx as <- <-; apply steps_refl].
  destruct (drive e prio fuel s1) as [tr' s2] eqn:Hx'. injection Hx as <- <-.
  eapply steps_trans; [|by apply IH]. apply (steps_step s evs s [] s1); [apply steps_refl|].
  by eapply first_act_step.
Qed.

(** The driver's clock stands still. *)
Lemma drive_time (e : env) prio fuel s : time (drive e prio fuel s).2 = time s.
Proof.
  assert (forall i s1 evs s2, act e i s1 = Some (evs, s2) -> time s2 = time s1) as Hact.
  { intros i s1 evs s2. unfold act. destruct (threads s1 !! i) as [[p|r k]|]; [|by intros [= _ <-]|done].
    destruct p as [a|k|r k|c p|c p|c p|k|f p]; try case_decide; try done; by intros [= _ <-]. }
  assert (forall s1 evs s2, first_act e prio s1 = Some (evs, s2) -> time s2 = time s1) as Hfirst.
  { intros s1 evs s2. induction prio as [|i prio IH]; simpl; [done|].
    destruct (act e i s1) as [[evs' s3]|] eqn:E; [|exact IH]. intros [= _ <-]. by eapply Hact. }
  revert s. induction fuel as [|fuel IH]; intros s; simpl; [done|].
  destruct (first_act e prio s) as [[evs s1]|] eqn:E; [|done]. rewrite <- (Hfirst _ _ _ E), <- (IH s1).
  by destruct (drive e prio fuel s1).
Qed.

(** Driving one turn more. *)
Lemma drive_snoc (e : env) prio fuel s : (drive e prio (S fuel) s).2 =
  from_option snd (drive e prio fuel s).2 (first_act e prio (drive e prio fuel s).2).
Proof.
  revert s. induction fuel as [|fuel IH]; intros s.
  - simpl. by destruct (first_act e prio s) as [[]|].
  - change (drive e prio (S (S fuel)) s) with (match first_act e prio s with None => ([], s)
      | Some (evs, s) => let '(tr, s) := drive e prio (S fuel) s in (evs ++ tr, s) end).
    change (drive e prio (S fuel) s) with (match first_act e prio s with None => ([], s)
      | Some (evs, s) => let '(tr, s) := drive e prio fuel s in (evs ++ tr, s) end).
    destruct (first_act e prio s) as [[evs s1]|] eqn:E; [|simpl; by rewrite E].
    specialize (IH s1). destruct (drive e prio (S fuel) s1), (drive e prio fuel s1). exact IH.
Qed.

Lemma finishedb_final (s : state V) : forallb finishedb (threads s) = true -> final s.
Proof.
  intros Hb. apply list.Forall_forall. intros th Hth. rewrite forallb_forall in Hb.
  specialize (Hb th (proj1 (list_elem_of_In _ _) Hth)). destruct th as [[[]| | | | | | |]|]; done.
Qed.

#[export] Instance finished_dec (th : thread V) : Decision (finished th).
Proof.
  destruct th as [[[]| | | | | | |]|]; try (by left); right; intros E; discriminate E.
Defined.

Lemma finished_closed cl v g th : thread_ok cl v g th -> finished th ->
  (exists r, g_load g v = Some r /\ can_return (g_phase g v) r) /\
  forall c, g_closes g = Some c -> c ∈ cl.
Proof.
  intros [before rest Hd Hb Hl Hc|q Hd Hr Hl Hc|r k Hd Hr Hl Hc|r c Hd Hr Hl Hc Hcl|r Hd Hr Hl Hc] Hf;
    unfold finished in Hf.
  - destruct rest; discriminate Hf.
  - destruct q; discriminate Hf.
  - discriminate Hf.
  - discriminate Hf.
  - eauto.
Qed.

Section system.
Context (rank : chan -> nat) (gs : list (goroutine)) (Hdf : dataflow rank gs).

(** The acting goroutine stays where it may be. *)
Lemma thread_step_own d cl v t g th evs th' cl' v' t' :
  g ∈ gs -> thread_ok cl v g th -> tstep d cl v t th evs th' cl' v' t' ->
  thread_ok cl' v' g th' /\
  (cl' = cl \/ exists c, g_closes g = Some c /\ cl' = c :: cl) /\
  (v' = v \/ exists r, v' = g_store g r v /\ (forall c, g_closes g = Some c -> c ∉ cl)).
Proof.
  intros Hg [before rest Hd Hb Hl Hc|q Hd Hr Hl Hc|r k Hd Hr Hl Hc|r c Hd Hr Hl Hc Hcl|r Hd Hr Hl Hc] Hs;
    apply tstep_inv in Hs.
  - destruct rest as [|c rest]; simpl in Hs.
    + destruct Hs as (-> & -> & -> & -> & ->). split; [|by auto]. apply ok_run; [|apply reach_refl|done..].
      rewrite Hd, app_nil_r. done.
    + destruct Hs as (Hin & -> & -> & -> & -> & ->). split; [|by auto].
      apply ok_wait with (before ++ [c]); [by rewrite <- app_assoc| |done..]. set_solver.
  - assert (Hq := reach_quiet _ _ _ Hr (df_quiet _ _ Hdf g v Hg)).
    destruct q as [a|k|r k|c q|c q|c q|k|f q]; simpl in Hs, Hq; try done.
    + destruct Hs as (-> & -> & -> & -> & ->). split; [|split; [by left|right; by exists a]].
      assert (can_return (g_phase g (g_store g a v)) a) as Hr' by (by rewrite (df_self _ _ Hdf)).
      destruct (g_closes g) as [c|] eqn:Ec.
      * eapply ok_close; [done|apply Hr'|by apply (df_load _ _ Hdf)|done|by apply Hc].
      * eapply ok_end; [done|apply Hr'|by apply (df_load _ _ Hdf)|by rewrite Ec].
    + destruct Hs as (t1 & _ & -> & -> & -> & -> & ->). split; [|by auto].
      apply (ok_run cl v g (k t1)); try done. by apply reach_now.
    + destruct Hs as (-> & -> & -> & -> & ->). split; [|by auto]. by apply ok_pending.
    + destruct Hs as (_ & -> & -> & -> & -> & ->). split; [|by auto].
      apply (ok_run cl v g q); try done. by eapply reach_wait.
    + destruct Hs as (_ & -> & -> & -> & -> & ->). split; [|by auto].
      apply (ok_run cl v g q); try done. by eapply reach_waitOrDone.
  - destruct Hs as (x & Hx & -> & -> & -> & -> & ->). split; [|by auto].
    apply (ok_run cl v g (k x)); try done. by apply reach_call.
  - destruct Hs as (_ & -> & -> & -> & -> & ->). split; [|split; [right; by exists c|by left]].
    apply ok_end with r; try done; [set_solver|]. intros c' E. rewrite Hc in E. injection E as <-. by left.
  - done.
Qed.

(** The others are not disturbed: what they read is already assigned for good. *)
Lemma thread_step_other i j gi gj cl cl' v v' th :
  gs !! i = Some gi -> gs !! j = Some gj -> i <> j -> thread_ok cl v gi th ->
  (cl' = cl \/ exists c, g_closes gj = Some c /\ cl' = c :: cl) ->
  (v' = v \/ exists r, v' = g_store gj r v /\ (forall c, g_closes gj = Some c -> c ∉ cl)) ->
  thread_ok cl' v' gi th.
Proof.
  intros Hi Hj Hij Hok Hcl Hv.
  assert (forall c, c ∈ cl -> c ∈ cl') as Hmono by (destruct Hcl as [->|(c & _ & ->)]; [done|by right]).
  assert (forall c, g_closes gi = Some c -> c ∉ cl -> c ∉ cl') as Hnc.
  { intros c Hc Hn. destruct Hcl as [->|(c' & Hc' & ->)]; [done|]. intros [->|?]%elem_of_cons; [|done].
    apply Hij. by eapply (df_closer _ _ Hdf). }
  assert (g_load gi v' = g_load gi v) as Hload.
  { destruct Hv as [->|(r & -> & _)]; [done|]. by apply (df_frame _ _ Hdf i j). }
  assert (g_deps gi ⊆ cl -> g_phase gi v' = g_phase gi v) as Hphase.
  { intros Hd. destruct Hv as [->|(r & -> & Hn)]; [done|].
    destruct (df_frame _ _ Hdf i j gi gj Hi Hj Hij) as [_ [Hf|(c & Hc & Hin)]]; [done|].
    exfalso. by apply (Hn c), Hd. }
  destruct Hok as [before rest Hd Hb Hl Hc|q Hd Hr Hl Hc|r k Hd Hr Hl Hc|r c Hd Hr Hl Hc Hcl'|r Hd Hr Hl Hc].
  - apply ok_wait with before; try done; [set_solver|by rewrite Hload|naive_solver].
  - apply ok_run; [set_solver|by rewrite Hphase|by rewrite Hload|naive_solver].
  - apply ok_pending; [set_solver|by rewrite Hphase|by rewrite Hload|naive_solver].
  - apply ok_close with r; [set_solver|by rewrite Hphase|by rewrite Hload|done|naive_solver].
  - apply ok_end with r; [set_solver|by rewrite Hphase|by rewrite Hload|naive_solver].
Qed.

Lemma step_ok s evs s' : sched_ok gs s -> step s evs s' -> sched_ok gs s'.
Proof.
  intros Hok [j th evs' th' cl v t Hj Hs|Hd]; [|done]. unfold sched_ok in *. simpl in *.
  destruct (Forall2_lookup_r _ _ _ _ _ Hok Hj) as (g & Hg & Hth).
  destruct (thread_step_own _ _ _ _ g _ _ _ _ _ _ (list_elem_of_lookup_2 _ _ _ Hg) Hth Hs) as (Hth' & Hcl & Hv).
  apply Forall2_same_length_lookup_2; [rewrite length_insert; by eapply Forall2_length|].
  intros i gi thi Hi Hti. destruct (decide (i = j)) as [->|Hij].
  - rewrite list_lookup_insert_eq in Hti by (by eapply lookup_lt_Some). by simplify_eq.
  - rewrite list_lookup_insert_ne in Hti by done.
    eapply (thread_step_other i j); [done|apply Hg|done| |apply Hcl|apply Hv].
    by eapply (Forall2_lookup_lr _ _ _ i gi thi Hok).
Qed.

Lemma start_ok v t : (forall g, g ∈ gs -> g_load g v = None) -> sched_ok gs (start gs v t).
Proof.
  intros Hl. unfold sched_ok, start. simpl. apply list.Forall2_fmap_r, Forall_Forall2_diag.
  apply list.Forall_forall. intros g Hg. apply ok_wait with []; try done; [by apply Hl|].
  intros c _. apply not_elem_of_nil.
Qed.

Lemma steps_ok s tr s' : sched_ok gs s -> steps s tr s' -> sched_ok gs s'.
Proof. intros Hok. induction 1; [done|]. eapply step_ok; [|done]. by apply IHsteps. Qed.

(** *** Progress and termination *)

Lemma thread_progress d cl v t g th :
  g ∈ gs -> thread_ok cl v g th ->
  finished th \/ (exists evs th' cl' v' t', tstep d cl v t th evs th' cl' v' t') \/
  (exists c, c ∉ cl /\ (exists g', g' ∈ gs /\ g_closes g' = Some c) /\
     forall c', g_closes g = Some c' -> (rank c < rank c')%nat).
Proof.
  intros Hg [before rest Hd Hb Hl Hc|q Hd Hr Hl Hc|r k Hd Hr Hl Hc|r c Hd Hr Hl Hc Hcl|r Hd Hr Hl Hc].
  - right. destruct rest as [|c rest]; [left; do 5 eexists; apply ts_get|].
    destruct (decide (c ∈ cl)); [left; do 5 eexists; by apply ts_wait|]. right. exists c. split; [done|].
    apply (df_deps _ _ Hdf g c Hg). rewrite Hd. set_solver.
  - right. assert (Hq := reach_quiet _ _ _ Hr (df_quiet _ _ Hdf g v Hg)).
    destruct q as [a|k|r k|c q|c q|c q|k|f q]; simpl in Hq; try done.
    + left. do 5 eexists. apply ts_put.
    + left. do 5 eexists. by apply (ts_now d cl v t (fun t => k t ≫= finish_go g) t).
    + left. do 5 eexists. apply (ts_issue d cl v t r (fun x => k x ≫= finish_go g)).
    + destruct (decide (c ∈ cl)); [left; do 5 eexists; by apply (ts_wait d cl v t c (q ≫= finish_go g))|].
      right. exists c. split; [done|]. apply Hq.
    + destruct (decide (c ∈ cl)); [left; do 5 eexists; apply (ts_waitOrDone d cl v t c (q ≫= finish_go g)); by left|].
      right. exists c. split; [done|]. apply Hq.
  - right. left. destruct (answers r) as [x Hx]. do 5 eexists.
    by apply (ts_answer d cl v t r (fun x => k x ≫= finish_go g) x).
  - right. left. do 5 eexists. by apply ts_close.
  - by left.
Qed.

(** While a goroutine is unfinished some goroutine can act: none waits for a
    channel nobody will close, none closes a closed one. *)
Lemma progress s : sched_ok gs s -> final s \/
  exists i th evs th' cl v t, threads s !! i = Some th /\
    tstep (done_ s) (closed s) (vars s) (time s) th evs th' cl v t.
Proof.
  intros Hok. set (acts := exists i th evs th' cl v t, _).
  assert (forall n c g, (rank c < n)%nat -> c ∉ closed s -> g ∈ gs -> g_closes g = Some c -> acts) as Hrank.
  { induction n as [|n IH]; intros c g Hn Hc Hg Hgc; [lia|].
    apply list_elem_of_lookup in Hg as [j Hj].
    destruct (Forall2_lookup_l _ _ _ _ _ Hok Hj) as (th & Hth & Hok').
    apply list_elem_of_lookup_2 in Hj as Hg.
    destruct (thread_progress (done_ s) _ _ (time s) _ _ Hg Hok') as [Hf|[(evs & th' & cl & v & t & Hs)|(c' & Hc' & (g' & Hg' & Hgc') & Hr)]].
    - exfalso. destruct (finished_closed _ _ _ _ Hok' Hf) as [_ Hcl]. by apply Hc, Hcl.
    - exists j, th, evs, th', cl, v, t. done.
    - apply (IH c' g'); try done. specialize (Hr c Hgc). lia. }
  destruct (decide (Exists (fun th => ~ finished th) (threads s))) as [He|He].
  - right. apply list.Exists_exists in He as (th & Hin & Hf). apply list_elem_of_lookup in Hin as [j Hj].
    destruct (Forall2_lookup_r _ _ _ _ _ Hok Hj) as (g & Hg & Hok').
    apply list_elem_of_lookup_2 in Hg as Hgin.
    destruct (thread_progress (done_ s) _ _ (time s) _ _ Hgin Hok') as [?|[(evs & th' & cl & v & t & Hs)|(c' & Hc' & (g' & Hg' & Hgc') & Hr)]]; [done| |].
    + exists j, th, evs, th', cl, v, t. done.
    + by apply (Hrank (S (rank c')) c' g'); [lia|..].
  - left. apply not_Exists_Forall in He; [|apply _]. eapply list.Forall_impl; [exact He|].
    intros th Hn. destruct (decide (finished th)); [done|by apply Hn in n].
Qed.

(** In a final state every goroutine has assigned its results, and they are what
    its phase returns on the variables as they finally are. *)
Lemma final_results s g : sched_ok gs s -> final s -> g ∈ gs ->
  exists r, g_load g (vars s) = Some r /\ can_return (g_phase g (vars s)) r.
Proof.
  intros Hok Hf [i Hi]%list_elem_of_lookup.
  destruct (Forall2_lookup_l _ _ _ _ _ Hok Hi) as (th & Hth & Hok').
  unfold final in Hf. rewrite list.Forall_lookup in Hf.
  by apply (finished_closed _ _ _ _ Hok' (Hf i th Hth)).
Qed.

(** Some schedule brings every goroutine to its end. *)
Lemma completes s : sched_ok gs s -> exists tr s', steps s tr s' /\ final s'.
Proof.
  induction (step_wf s) as [s _ IH]. intros Hok.
  destruct (progress s Hok) as [Hf|(i & th & evs & th' & cl & v & t & Hi & Hs)]; [by exists [], s; split; [constructor|]|].
  pose proof (step_thread s i th evs th' cl v t Hi Hs) as Hst.
  destruct (IH _ (ex_intro _ evs Hst) (step_ok _ _ _ Hok Hst)) as (tr & s' & Hs' & Hf).
  exists (evs ++ tr), s'. split; [|done]. eapply steps_trans; [|exact Hs'].
  apply (steps_step s evs s [] _); [apply steps_refl|done].
Qed.

(** *** Order *)

Lemma steps_done s tr s' : steps s tr s' -> done_ s' = false -> done_ s = false.
Proof.
  induction 1 as [|s evs s' tr s'' _ IH Hst]; [done|]. intros Hd. apply IH.
  destruct Hst; [done|done].
Qed.

Lemma tstep_closed d cl v t th evs th' cl' v' t' : tstep d cl v t th evs th' cl' v' t' -> cl ⊆ cl'.
Proof. destruct 1; set_solver. Qed.

Lemma step_closed s evs s' : step s evs s' -> closed s ⊆ closed s'.
Proof. intros [i th evs' th' cl v t _ Hs|]; [|done]. simpl. by eapply tstep_closed. Qed.

Context (owner : Request -> nat) (gate : Request -> list chan) (pos : Request -> nat)
  (Hpr : protocol gs owner gate pos).

Lemma disciplined_weaken {A} (p : prog V A) passed passed' n m :
  passed ⊆ passed' -> (m <= n)%nat -> disciplined gate pos passed n p -> disciplined gate pos passed' m p.
Proof.
  revert passed passed' n m.
  induction p as [a|f IH|r f IH|c p IH|c p IH|c p IH|f IH|g p IH]; intros passed passed' n m Hp Hn Hd;
    simpl in *; try (by eauto).
  - destruct Hd as (Hr & Hg & Hd). split; [lia|]. split; [set_solver|]. intros x. by eapply IH.
  - eapply IH; [|done|exact Hd]. set_solver.
  - eapply IH; [|done|exact Hd]. set_solver.
Qed.

Lemma disciplined_bind {A B} (p : prog V A) (k : A -> prog V B) passed n :
  disciplined gate pos passed n p ->
  (forall a passed n, disciplined gate pos passed n (k a)) ->
  disciplined gate pos passed n (p ≫= k).
Proof.
  unfold mbind, prog_mbind. intros Hp Hk. revert passed n Hp.
  induction p as [a|f IH|r f IH|c p IH|c p IH|c p IH|f IH|g p IH]; intros passed n Hp; simpl in *; auto.
  destruct Hp as (? & ? & Hp). auto.
Qed.

Lemma asks_bind {A B} P (p : prog V A) (k : A -> prog V B) :
  asks P p -> (forall a, asks P (k a)) -> asks P (p ≫= k).
Proof. unfold mbind, prog_mbind. intros Hp Hk. induction p; simpl in *; naive_solver. Qed.

Lemma finish_disciplined g r passed n : disciplined gate pos passed n (finish_go g r).
Proof. unfold finish_go. simpl. by destruct (g_closes g). Qed.

Lemma code_disciplined g : g ∈ gs -> disciplined gate pos [] 0 (code g).
Proof.
  intros Hg. unfold code.
  assert (forall passed rest, g_deps g ⊆ passed ++ rest -> disciplined gate pos passed 0 (waiting g rest)) as Hw.
  { intros passed rest. revert passed. induction rest as [|c rest IH]; intros passed Hd; simpl.
    - intros v. apply disciplined_bind; [|intros; apply finish_disciplined].
      eapply disciplined_weaken; [|reflexivity|by apply (pr_disc _ _ _ _ Hpr)]. by rewrite app_nil_r in Hd.
    - apply IH. set_solver. }
  by apply Hw.
Qed.

Lemma code_asks i g : gs !! i = Some g -> asks (fun r => owner r = i) (code g).
Proof.
  intros Hg. unfold code. induction (g_deps g) as [|c rest IH]; simpl; [|done].
  intros v. apply asks_bind; [by apply (pr_asks _ _ _ _ Hpr)|]. intros r. unfold finish_go. simpl.
  by destruct (g_closes g).
Qed.

Lemma disc_tstep n d cl v t th evs th' cl' v' t' :
  thread_disc gate pos n d cl th -> tstep d cl v t th evs th' cl' v' t' ->
  thread_disc gate pos n d cl' th' /\
  (forall ev, ev ∈ evs -> (n <= pos (event_request ev))%nat /\
     thread_disc gate pos (pos (event_request ev)) d cl' th') /\
  (forall r, evs = [Issue r] -> d = false -> gate r ⊆ cl).
Proof.
  intros (passed & Hp & Hd) Hs. unfold thread_disc.
  destruct Hs as [k t1 Ht|r k|r k x Hx|c p Hin|c p Hin|c p Hin|k|f p]; simpl in *.
  - split; [eauto|]. split; [by intros ? ?%elem_of_nil|done].
  - destruct Hd as (Hn & Hg & Hd). split; [by eauto 8|]. split.
    + intros ev ->%list_elem_of_singleton. simpl. split; [done|]. by exists passed.
    + intros r' [= <-] Hdf'. set_solver.
  - destruct Hd as [Hn Hd]. split; [exists passed; split; [done|]; by eapply disciplined_weaken|]. split; [|done].
    intros ev ->%list_elem_of_singleton. simpl. split; [done|]. by exists passed.
  - split; [|split; [by intros ? ?%elem_of_nil|done]]. exists (c :: passed). split; [|done]. set_solver.
  - split; [|split; [by intros ? ?%elem_of_nil|done]]. exists (c :: passed). split; [|done].
    intros ->. destruct Hin as [Hin|]; [|done]. set_solver.
  - split; [|split; [by intros ? ?%elem_of_nil|done]]. exists passed. split; [|done]. set_solver.
  - split; [eauto|]. split; [by intros ? ?%elem_of_nil|done].
  - split; [eauto|]. split; [by intros ? ?%elem_of_nil|done].
Qed.

Lemma asks_tstep P d cl v t th evs th' cl' v' t' :
  thread_asks P th -> tstep d cl v t th evs th' cl' v' t' ->
  thread_asks P th' /\ forall ev, ev ∈ evs -> P (event_request ev).
Proof using Type.
  clear Hpr Hdf pos owner gate gs rank. intros Ha Hs. destruct Hs; simpl in *; (split; [naive_solver|]); intros ev; set_solver.
Qed.

(** Every goroutine keeps to its own requests and to its discipline; [m] bounds
    from below the place of what goroutine [i] still issues. *)
Definition order_ok (i m : nat) (s : state V) : Prop :=
  forall j th, threads s !! j = Some th ->
    thread_asks (fun r => owner r = j) th /\
    thread_disc gate pos (if decide (j = i) then m else 0%nat) (done_ s) (closed s) th.

Lemma thread_disc_weaken n m d cl cl' th :
  (m <= n)%nat -> cl ⊆ cl' -> thread_disc gate pos n d cl th -> thread_disc gate pos m d cl' th.
Proof.
  intros Hm Hcl (passed & Hp & Hd). exists passed. split; [set_solver|].
  destruct th; [by eapply disciplined_weaken|]. destruct Hd as [? Hd]. split; [lia|done].
Qed.

Lemma order_step i m s evs s' :
  order_ok i m s -> step s evs s' ->
  order_ok i m s' /\
  (forall ev, ev ∈ evs -> owner (event_request ev) = i -> (m <= pos (event_request ev))%nat) /\
  (forall r, evs = [Issue r] -> done_ s = false -> gate r ⊆ closed s) /\
  (forall ev, ev ∈ evs -> order_ok (owner (event_request ev)) (pos (event_request ev)) s').
Proof.
  intros Hok Hst. pose proof (step_closed _ _ _ Hst) as Hcl. destruct Hst as [j th evs th' cl v t Hj Hs|Hd].
  - simpl in Hcl. destruct (Hok j th Hj) as [Ha Hdi].
    destruct (asks_tstep _ _ _ _ _ _ _ _ _ _ _ Ha Hs) as [Ha' Hown].
    destruct (disc_tstep _ _ _ _ _ _ _ _ _ _ _ Hdi Hs) as (Hdi' & Hpos & Hgate).
    split; [|split; [|split; [exact Hgate|]]].
    + intros k thk Hk. simpl in *. destruct (decide (k = j)) as [->|Hkj].
      * rewrite list_lookup_insert_eq in Hk by (by eapply lookup_lt_Some). by simplify_eq.
      * rewrite list_lookup_insert_ne in Hk by done. destruct (Hok k thk Hk) as [??]. split; [done|].
        by eapply thread_disc_weaken.
    + intros ev Hev Ho. destruct (Hpos ev Hev) as [Hle _]. specialize (Hown ev Hev). simpl in Hown.
      rewrite decide_True in Hle by congruence. done.
    + intros ev Hev k thk Hk. specialize (Hown ev Hev) as Ho. simpl in *. destruct (decide (k = j)) as [->|Hkj].
      * rewrite list_lookup_insert_eq in Hk by (by eapply lookup_lt_Some). simplify_eq. split; [done|].
        rewrite decide_True by done. by apply Hpos.
      * rewrite list_lookup_insert_ne in Hk by done. destruct (Hok k thk Hk) as [??]. split; [done|].
        rewrite decide_False by congruence. eapply thread_disc_weaken; [|done|done]. lia.
  - split; [|split; [by intros ? ?%elem_of_nil|split; [done|by intros ? ?%elem_of_nil]]].
    intros k thk Hk. simpl in *. destruct (Hok k thk Hk) as [? (passed & Hp & Hx)]. split; [done|].
    exists passed. done.
Qed.

Lemma start_order i v t : order_ok i 0 (start gs v t).
Proof.
  intros j th Hj. unfold start in Hj. simpl in Hj. rewrite list_lookup_fmap in Hj.
  destruct (gs !! j) as [g|] eqn:Hg; [|done]. injection Hj as <-. split; [by apply code_asks|].
  exists []. split; [done|]. replace (if decide (j = i) then 0%nat else 0%nat) with 0%nat by (by case_decide).
  apply code_disciplined. by eapply list_elem_of_lookup_2.
Qed.

(** A goroutine that has closed its channel does nothing more. *)
Lemma closed_quiet i m s evs s' j g c :
  sched_ok gs s -> order_ok i m s -> gs !! j = Some g -> g_closes g = Some c -> c ∈ closed s ->
  step s evs s' -> forall ev, ev ∈ evs -> owner (event_request ev) <> j.
Proof.
  intros Hok Ho Hg Hc Hin [k th evs' th' cl v t Hk Hs|_] ev Hev; [|by apply elem_of_nil in Hev].
  intros Hj. destruct (Ho k th Hk) as [Ha _].
  destruct (asks_tstep _ _ _ _ _ _ _ _ _ _ _ Ha Hs) as [_ Hown]. rewrite (Hown ev Hev) in Hj. subst k.
  pose proof (Forall2_lookup_lr _ _ _ j g th Hok Hg Hk) as Hth.
  destruct (thread_ok_deps _ _ _ _ Hth) as [->|[(c' & ->)|[_ Hn]]]; [by apply tstep_inv in Hs| |by apply (Hn c)].
  apply tstep_inv in Hs as (_ & -> & _). by apply elem_of_nil in Hev.
Qed.

(** Once [r2] is issued with the context live, nothing that precedes it happens
    any more. *)
Lemma order_after i m s1 s2 s3 r2 tr :
  sched_ok gs s1 -> order_ok i m s1 -> done_ s1 = false ->
  step s1 [Issue r2] s2 -> steps s2 tr s3 ->
  forall ev, ev ∈ tr -> ~ precedes gs owner gate pos (event_request ev) r2.
Proof.
  intros Hok Ho Hd Hst Hsts.
  destruct (order_step _ _ _ _ _ Ho Hst) as (_ & _ & Hg & Ho2).
  specialize (Hg r2 eq_refl Hd). specialize (Ho2 (Issue r2) (list_elem_of_here _ _)). simpl in Ho2.
  pose proof (step_ok _ _ _ Hok Hst) as Hok2. pose proof (step_closed _ _ _ Hst) as Hcl.
  assert (gate r2 ⊆ closed s2) as Hg2 by set_solver. clear Hst Hok Ho Hg Hcl Hd.
  cut (sched_ok gs s3 /\ order_ok (owner r2) (pos r2) s3 /\ gate r2 ⊆ closed s3 /\
       forall ev, ev ∈ tr -> ~ precedes gs owner gate pos (event_request ev) r2); [naive_solver|].
  induction Hsts as [s|s evs s' tr s'' Hsts IH Hst]; [split_and!; try done; by intros ? ?%elem_of_nil|].
  destruct (IH Ho2 Hok2 Hg2) as (Hok & Ho & Hg & Hev).
  destruct (order_step _ _ _ _ _ Ho Hst) as (Ho' & Hpos & _ & _).
  split; [by eapply step_ok|]. split; [done|]. split; [pose proof (step_closed _ _ _ Hst); set_solver|].
  intros ev [Hin|Hin]%elem_of_app; [by apply IH|]. intros [(g & c & Hj & Hc & Hcg)|[Hoe Hlt]].
  - by eapply (closed_quiet _ _ _ _ _ _ _ _ Hok Ho Hj Hc (Hg c Hcg) Hst ev Hin).
  - specialize (Hpos ev Hin Hoe). lia.
Qed.

(** ** What the clock keeps

    [J t v] is what holds of the variables at instant [t]: it survives the passing
    of time, and each phase, begun when what it waits for is loaded, returns
    something whose storing keeps it. *)
Section timing.
Context (J : Z -> V -> Prop).

Definition keeps (g : goroutine) (t : Z) (r : g_R g) : Prop := forall v, J t v -> J t (g_store g r v).

Definition loaded (g : goroutine) (v : V) : Prop :=
  forall c g', c ∈ g_deps g -> g' ∈ gs -> g_closes g' = Some c -> g_load g' v <> None.

Record timing : Prop := {
  ti_later t t' v : t <= t' -> J t v -> J t' v;
  ti_phase g v t : g ∈ gs -> J t v -> loaded g v -> clocked (keeps g) t (g_phase g v);
}.

(** A goroutine's remaining code, for what it still has to store. *)
Inductive on_time (t : Z) (g : goroutine) : thread V -> Prop :=
| ot_wait rest : on_time t g (Run (waiting g rest))
| ot_run q : clocked (keeps g) t q -> on_time t g (Run (q ≫= finish_go g))
| ot_pending r k : (forall x, clocked (keeps g) t (k x)) -> on_time t g (Pending r (fun x => k x ≫= finish_go g))
| ot_close c : on_time t g (Run (close c))
| ot_end : on_time t g (Run (Ret tt)).

Context (Hti : timing).

Lemma on_time_later t t' g th : t <= t' -> on_time t g th -> on_time t' g th.
Proof. intros Ht []; constructor; intros; eapply clocked_later; eauto. Qed.

Lemma closed_loaded cl v g th c : thread_ok cl v g th -> g_closes g = Some c -> c ∈ cl -> g_load g v <> None.
Proof.
  intros [before rest Hd Hb Hl Hn|q Hd Hr Hl Hn|r k Hd Hr Hl Hn|r c' Hd Hr Hl Hn Hc|r Hd Hr Hl Hn] E Hin;
    try (exfalso; by apply (Hn c E)); by rewrite Hl.
Qed.

(** A goroutine about to read the variables finds loaded what it waited for. *)
Lemma reads_loaded s g i : sched_ok gs s -> gs !! i = Some g -> threads s !! i = Some (Run (body g)) ->
  loaded g (vars s).
Proof.
  intros Hok Hg Hth c g' Hc Hg' Hcl.
  pose proof (Forall2_lookup_lr _ _ _ _ _ _ Hok Hg Hth) as Ht.
  assert (g_deps g ⊆ closed s) as Hd.
  { remember (Run (body g)) as th eqn:E. destruct Ht as [before rest Hd Hb Hl Hn|q Hd|r k Hd|r c' Hd|r Hd]; try done.
    destruct rest as [|c' rest]; [|discriminate E]. by rewrite Hd, app_nil_r. }
  apply list_elem_of_lookup in Hg' as [j Hj].
  destruct (Forall2_lookup_l _ _ _ _ _ Hok Hj) as (th' & Hth' & Hok').
  by apply (closed_loaded _ _ _ _ _ Hok' Hcl), Hd.
Qed.

Lemma on_time_step d cl v t g th evs th' cl' v' t' :
  g ∈ gs -> J t v -> (th = Run (body g) -> loaded g v) -> on_time t g th ->
  tstep d cl v t th evs th' cl' v' t' -> t <= t' /\ J t' v' /\ on_time t' g th'.
Proof.
  intros Hg HJ Hld Hot Hs. apply tstep_inv in Hs. destruct Hot as [rest|q Hq|r k Hk|c|].
  - destruct rest as [|c rest]; simpl in Hs.
    + destruct Hs as (-> & -> & -> & -> & ->). split; [lia|]. split; [done|]. apply ot_run.
      apply (ti_phase Hti); auto.
    + destruct Hs as (_ & -> & -> & -> & -> & ->). split; [lia|]. split; [done|]. apply ot_wait.
  - destruct q as [a|k|r k|c q|c q|c q|k|f q]; simpl in Hs, Hq; try done.
    + destruct Hs as (-> & -> & -> & -> & ->). split; [lia|]. split; [by apply (Hq t (Z.le_refl t))|].
      destruct (g_closes g); [apply ot_close|apply ot_end].
    + destruct Hs as (t1 & Ht1 & -> & -> & -> & -> & ->). split; [done|]. split; [by apply (ti_later Hti t)|].
      apply (ot_run _ _ (k t1)). by apply Hq.
    + destruct Hs as (-> & -> & -> & -> & ->). split; [lia|]. split; [done|]. by apply ot_pending.
    + destruct Hs as (_ & -> & -> & -> & -> & ->). split; [lia|]. split; [done|]. by apply (ot_run _ _ q).
    + destruct Hs as (_ & -> & -> & -> & -> & ->). split; [lia|]. split; [done|]. by apply (ot_run _ _ q).
  - destruct Hs as (x & Hx & -> & -> & -> & -> & ->). split; [lia|]. split; [done|]. by apply (ot_run _ _ (k x)).
  - destruct Hs as (_ & -> & -> & -> & -> & ->). split; [lia|]. split; [done|]. apply ot_end.
  - done.
Qed.

(** So it holds of every state the system reaches. *)
Lemma steps_timing v0 t0 tr s : (forall g, g ∈ gs -> g_load g v0 = None) -> J t0 v0 ->
  steps (start gs v0 t0) tr s -> t0 <= time s /\ J (time s) (vars s).
Proof.
  intros Hl HJ Hs.
  cut (sched_ok gs s /\ t0 <= time s /\ J (time s) (vars s) /\ Forall2 (on_time (time s)) gs (threads s)); [naive_solver|].
  remember (start gs v0 t0) as s0 eqn:E0.
  induction Hs as [s|s evs s' tr s'' Hs IH Hst]; [subst s|].
  { split; [by apply start_ok|]. split; [done|]. split; [done|]. apply list.Forall2_fmap_r, Forall_Forall2_diag.
    apply list.Forall_forall. intros g _. apply ot_wait. }
  destruct (IH E0) as (Hok & Ht & HJ' & Hot). split; [by eapply step_ok|].
  destruct Hst as [j th evs' th' cl v t Hj Hstep|Hd]; [|done]. cbn [time vars threads].
  destruct (Forall2_lookup_r _ _ _ _ _ Hot Hj) as (g & Hg & Hth).
  destruct (on_time_step _ _ _ _ g _ _ _ _ _ _ (list_elem_of_lookup_2 _ _ _ Hg) HJ'
    (fun E => reads_loaded s' g j Hok Hg (eq_trans Hj (f_equal Some E))) Hth Hstep) as (Htt & HJ'' & Hth').
  split; [lia|]. split; [done|].
  apply Forall2_same_length_lookup_2; [rewrite length_insert; by eapply Forall2_length|].
  intros i gi thi Hi Hthi. destruct (decide (i = j)) as [->|Hij].
  - rewrite list_lookup_insert_eq in Hthi by (by eapply lookup_lt_Some). by simplify_eq.
  - rewrite list_lookup_insert_ne in Hthi by done. eapply on_time_later; [exact Htt|].
    by eapply (Forall2_lookup_lr _ _ _ i gi thi Hot).
Qed.
End timing.

End system.

End step.

Arguments goroutine : clear implicits.
Arguments mkGo {V}.

(** Walks through a phase, leaving what its requests must satisfy. *)
Ltac walk :=
  repeat match goal with
  | |- conforms _ _ _ _ _ _ (mret _) => apply conforms_ret
  | |- conforms _ _ _ _ _ _ (let '(_, _) := ?x in _) => destruct x
  | |- conforms _ _ _ _ _ _ (match ?x with _ => _ end) => destruct x
  | |- conforms _ _ _ _ _ _ (mbind ?k ?m) =>
      lazymatch m with
      | mret _ => apply conforms_ret_bind
      | now => apply conforms_now; intros ?
      | call _ => apply conforms_call; [try done|try (simpl; lia)|try (simpl; set_solver)|intros ?]
      | waitOrDone _ => apply conforms_waitOrDone; [try done|]
      | mbind _ _ => apply conforms_assoc
      | match ?x with _ => _ end => destruct x
      end
  end; cbv beta zeta.
