(* ===== verification/Pipeline.v ===== *)
(** * Pipeline: one collection cycle ([Collect] of [internal/collector/collector.go])

    The twelve goroutines of a cycle, in the source's order, and the code that
    runs once they are done.  A variable the source assigns in one goroutine and
    reads in others is read here through a function of [vars] that gives the
    variable's zero value until that goroutine's assignment. *)

From Stdlib Require Import ZArith Lia.
From stdpp Require Import prelude gmap strings numbers sorting.
From S2P Require Import Prelude Wire Errors Sections Merge Filter Cadence Kadm Collector Topics Offsets Truncation Reassign Groups Configs ShareGroups LogDirs Sched.

(** The shared variables, grouped by the goroutine that assigns them. *)
Record cvars := mkVars {
  v_meta : option (option ClusterMetrics * option TopicDetails * section);
  v_listed : option (Z * (list string * gmap string string * option goerr));
  v_groups : option (slice GroupMetrics * section);
  v_offsets : option (slice ConsumerOffset * section);
  v_window : option (option ThroughputWindow * option ListedOffsets * section);
  v_topics : option (slice TopicMetrics * topicSections);
  v_logDirs : option (slice LogDir * section);
  v_share : option (slice ShareGroup * section);
  v_topicCfg : option (slice TopicConfig * section);
  v_brokerCfg : option (slice BrokerConfig * section);
  v_reassign : option (slice Reassignment * section);
  v_epoch : option (slice EpochProbe * section * probedEpochs);
}.

Definition no_vars : cvars :=
  mkVars None None None None None None None None None None None None.

Definition set_meta x v := mkVars (Some x) (v_listed v) (v_groups v) (v_offsets v) (v_window v)
  (v_topics v) (v_logDirs v) (v_share v) (v_topicCfg v) (v_brokerCfg v) (v_reassign v) (v_epoch v).
Definition set_listed x v := mkVars (v_meta v) (Some x) (v_groups v) (v_offsets v) (v_window v)
  (v_topics v) (v_logDirs v) (v_share v) (v_topicCfg v) (v_brokerCfg v) (v_reassign v) (v_epoch v).
Definition set_groups x v := mkVars (v_meta v) (v_listed v) (Some x) (v_offsets v) (v_window v)
  (v_topics v) (v_logDirs v) (v_share v) (v_topicCfg v) (v_brokerCfg v) (v_reassign v) (v_epoch v).
Definition set_offsets x v := mkVars (v_meta v) (v_listed v) (v_groups v) (Some x) (v_window v)
  (v_topics v) (v_logDirs v) (v_share v) (v_topicCfg v) (v_brokerCfg v) (v_reassign v) (v_epoch v).
Definition set_window x v := mkVars (v_meta v) (v_listed v) (v_groups v) (v_offsets v) (Some x)
  (v_topics v) (v_logDirs v) (v_share v) (v_topicCfg v) (v_brokerCfg v) (v_reassign v) (v_epoch v).
Definition set_topics x v := mkVars (v_meta v) (v_listed v) (v_groups v) (v_offsets v) (v_window v)
  (Some x) (v_logDirs v) (v_share v) (v_topicCfg v) (v_brokerCfg v) (v_reassign v) (v_epoch v).
Definition set_logDirs x v := mkVars (v_meta v) (v_listed v) (v_groups v) (v_offsets v) (v_window v)
  (v_topics v) (Some x) (v_share v) (v_topicCfg v) (v_brokerCfg v) (v_reassign v) (v_epoch v).
Definition set_share x v := mkVars (v_meta v) (v_listed v) (v_groups v) (v_offsets v) (v_window v)
  (v_topics v) (v_logDirs v) (Some x) (v_topicCfg v) (v_brokerCfg v) (v_reassign v) (v_epoch v).
Definition set_topicCfg x v := mkVars (v_meta v) (v_listed v) (v_groups v) (v_offsets v) (v_window v)
  (v_topics v) (v_logDirs v) (v_share v) (Some x) (v_brokerCfg v) (v_reassign v) (v_epoch v).
Definition set_brokerCfg x v := mkVars (v_meta v) (v_listed v) (v_groups v) (v_offsets v) (v_window v)
  (v_topics v) (v_logDirs v) (v_share v) (v_topicCfg v) (Some x) (v_reassign v) (v_epoch v).
Definition set_reassign x v := mkVars (v_meta v) (v_listed v) (v_groups v) (v_offsets v) (v_window v)
  (v_topics v) (v_logDirs v) (v_share v) (v_topicCfg v) (v_brokerCfg v) (Some x) (v_epoch v).
Definition set_epoch x v := mkVars (v_meta v) (v_listed v) (v_groups v) (v_offsets v) (v_window v)
  (v_topics v) (v_logDirs v) (v_share v) (v_topicCfg v) (v_brokerCfg v) (v_reassign v) (Some x).

(** The source's variables. *)
Definition cluster (v : cvars) : option ClusterMetrics :=
  match v_meta v with Some (x, _, _) => x | None => None end.
Definition topicDetails (v : cvars) : option TopicDetails :=
  match v_meta v with Some (_, x, _) => x | None => None end.
Definition clusterSec (v : cvars) : option section := snd <$> v_meta v.
Definition listStart (v : cvars) : Z := match v_listed v with Some (t, _) => t | None => 0 end.
Definition groupIDs (v : cvars) : list string :=
  match v_listed v with Some (_, (x, _, _)) => x | None => [] end.
Definition groupTypes (v : cvars) : gmap string string :=
  match v_listed v with Some (_, (_, x, _)) => x | None => ∅ end.
Definition listErr (v : cvars) : option goerr :=
  match v_listed v with Some (_, (_, _, x)) => x | None => None end.
Definition topics (v : cvars) : slice TopicMetrics :=
  match v_topics v with Some (x, _) => x | None => None end.
Definition offsets (v : cvars) : slice ConsumerOffset :=
  match v_offsets v with Some (x, _) => x | None => None end.
Definition window (v : cvars) : option ThroughputWindow :=
  match v_window v with Some (x, _, _) => x | None => None end.
Definition windowOffsets (v : cvars) : option ListedOffsets :=
  match v_window v with Some (_, x, _) => x | None => None end.
Definition windowSec (v : cvars) : option section := snd <$> v_window v.
Definition topicSec (f : flavour) (v : cvars) : option section :=
  (fun r => sec_of f r.2) <$> v_topics v.
Definition result_of {A} (x : option (slice A * section)) : slice A :=
  match x with Some (a, _) => a | None => None end.
Definition sec_of_result {A} (x : option (A * section)) : option section := snd <$> x.
Definition probes (v : cvars) : slice EpochProbe :=
  match v_epoch v with Some (x, _, _) => x | None => None end.
Definition epochSec (v : cvars) : option section :=
  match v_epoch v with Some (_, x, _) => Some x | None => None end.

(** The collector's mutable fields. *)
Record cstate := mkCState {
  cs_cycle : Z;
  cs_probed : probedEpochs;
}.

Section collect.
Context `{!KerrCodes} `{!Kadm} `{!KerrErrors} `{!ShardErrorText} `{!ConfigSources}.

Definition go {R} (deps : list chan) (phase : cvars -> prog cvars R) (store : R -> cvars -> cvars)
    (load : cvars -> option R) (closes : option chan) : goroutine cvars :=
  mkGo R deps phase store load closes.

(** The goroutines of cycle [n], in the order [Collect] starts them. *)
Definition goroutines (c : Collector) (n : Z) (probed : probedEpochs) : list (goroutine cvars) :=
  let o := c_opts c in
  let runWindow := runsThisCycle (o_CollectThroughputWindow o) (o_ThroughputWindowEvery o) phaseWindow n in
  let runDirs := runsThisCycle (o_CollectLogDirs o) (o_LogDirsEvery o) phaseLogDirs n in
  let runCfg := runsThisCycle (o_CollectConfigs o) (o_ConfigsEvery o) phaseConfigs n in
  let runMaxTS := runsThisCycle (o_CollectMaxTimestamp o) (o_MaxTimestampEvery o) phaseMaxTS n in
  [ go [] (fun v => collectCluster c) set_meta v_meta (Some metaDone);
    go [] (fun v => t ← now; r ← listGroups c; mret (t, r)) set_listed v_listed (Some groupsListed);
    go [groupsListed] (fun v => collectGroups c (groupIDs v) (groupTypes v) (listErr v) (listStart v))
      set_groups v_groups None;
    go [metaDone; groupsListed]
      (fun v => collectOffsets c (groupIDs v) (listErr v) (internalTopics (topicDetails v)))
      set_offsets v_offsets (Some committedDone);
    go [metaDone]
      (fun v => collectThroughputWindow c (topicDetails v) (o_ThroughputWindowWidth o) runWindow)
      set_window v_window (Some windowDone);
    go [metaDone] (fun v => collectTopics c (topicDetails v) runMaxTS [committedDone; windowDone])
      set_topics v_topics (Some endDone);
    go [metaDone; endDone] (fun v => collectLogDirs c (cluster v) (topicDetails v) runDirs)
      set_logDirs v_logDirs None;
    go [groupsListed] (fun v => collectShareGroups c (groupTypes v) (o_CollectShareGroups o))
      set_share v_share None;
    go [endDone] (fun v => collectTopicConfigs c (elems (topics v)) runCfg) set_topicCfg v_topicCfg None;
    go [metaDone; endDone] (fun v => collectBrokerConfigs c (cluster v) runCfg)
      set_brokerCfg v_brokerCfg None;
    go [endDone] (fun v => collectReassignments c (elems (topics v)) (o_CollectReassignments o))
      set_reassign v_reassign None;
    go [committedDone; endDone]
      (fun v => collectEpochProbes c (o_CollectEpochProbes o) (elems (topics v)) (elems (offsets v)) probed)
      set_epoch v_epoch None ].

(** The batch once [wg.Wait] returns, without the post-passes' parts. *)
Definition batchOf (t0 : Z) (tms : slice TopicMetrics) (rpc : option RPCStats) (ms : Z) (v : cvars) : Batch :=
  mkBatch SchemaVersion "" "" 0 t0 ms (cluster v) tms (result_of (v_groups v)) (offsets v)
    (result_of (v_logDirs v)) (window v) (result_of (v_reassign v)) (probes v)
    (result_of (v_topicCfg v)) (result_of (v_brokerCfg v)) (result_of (v_share v)) ""
    (mkAgentStats 0 0 0 0 0 0 0 "" rpc) [] [] None None.

(** The sections in wire order. *)
Definition wireSections (v : cvars) (windowSec rpcSec : option section) : list (option section) :=
  [ clusterSec v;
    topicSec Starts v; windowSec; topicSec Lso v; topicSec End_ v;
    topicSec MaxTS v; topicSec Local v; topicSec Remote v;
    sec_of_result (v_groups v); sec_of_result (v_offsets v);
    epochSec v;
    sec_of_result (v_logDirs v); sec_of_result (v_reassign v); sec_of_result (v_topicCfg v);
    sec_of_result (v_brokerCfg v); sec_of_result (v_share v); rpcSec ].

(** [windowOffsets.attach(topics)]: nil-safe, and records on the window's section. *)
Definition attachWindow (v : cvars) : slice TopicMetrics * option section :=
  match windowSec v with
  | Some sec => let '(tms, sec) := attach (windowOffsets v) (topics v) sec in (tms, Some sec)
  | None => (topics v, None)
  end.

(** What [Collect] does once every goroutine is done, having started at [t0]. *)
Definition collectEnd (c : Collector) (t0 : Z) (v : cvars) : prog () Batch :=
  let '(tms, wsec) := attachWindow v in
  '(rpc, rpcSec) ← collectRPC c;
  t ← now;
  mret (finalize (c_limits c) (Options_selection (c_opts c)) (wireSections v wsec (Some rpcSec))
          (batchOf t0 tms rpc (Milliseconds (t - t0)) v)).

(** One cycle: from the collector's fields, some interleaving of the goroutines
    to the batch and the fields it leaves.  [tr] is the requests' events. *)
Inductive Collect `{!Cluster} (c : Collector) (cs : cstate) :
    list event -> Batch -> cstate -> Prop :=
| collect_cycle t0 tr s b :
    let '(n, cycle) := cycleAdd (cs_cycle cs) in
    steps (start (goroutines c n (cs_probed cs)) no_vars t0) tr s ->
    final s ->
    ends (time s) (collectEnd c t0 (vars s)) b ->
    Collect c cs tr b
      (mkCState cycle (match v_epoch (vars s) with Some (_, _, p) => p | None => cs_probed cs end)).

End collect.

(** ** Specification *)

(** The goroutine that issues each request, its place among that goroutine's
    requests, and the channels that must be closed before it is issued. *)
Definition owner (r : Request) : nat :=
  match r with
  | RMetadata => 0
  | RShardedListGroups _ => 1
  | RDescribeGroups _ | RDescribeConsumerGroups _ => 2
  | RFetchManyOffsets _ => 3
  | RListOffsetsAfterMilli _ _ => 4
  | RListStartOffsets _ | RListCommittedOffsets _ | RListEndOffsets _ | RListMaxTimestampOffsets _
  | RListLocalLogStartOffsets _ | RListLatestRemoteOffsets _ => 5
  | RProbe | RDescribeAllLogDirs _ | RShardedDescribeLogDirs _ => 6
  | RDescribeShareGroups _ | RDescribeShareGroupOffsets _ => 7
  | RDescribeTopicConfigs _ => 8
  | RDescribeBrokerConfigs _ => 9
  | RListPartitionReassignments _ => 10
  | ROffsetForLeaderEpoch _ => 11
  | RRPCSnapshot => 12
  end.

Definition place (r : Request) : nat :=
  match r with
  | RListCommittedOffsets _ | RDescribeConsumerGroups _ | RDescribeShareGroupOffsets _
  | RDescribeAllLogDirs _ | RShardedDescribeLogDirs _ => 1
  | RListEndOffsets _ => 2
  | RListMaxTimestampOffsets _ => 3
  | RListLocalLogStartOffsets _ => 4
  | RListLatestRemoteOffsets _ => 5
  | _ => 0
  end.

Definition gate (r : Request) : list chan :=
  match r with
  | RMetadata | RShardedListGroups _ | RRPCSnapshot => []
  | RDescribeGroups _ | RDescribeConsumerGroups _
  | RDescribeShareGroups _ | RDescribeShareGroupOffsets _ => [groupsListed]
  | RFetchManyOffsets _ => [metaDone; groupsListed]
  | RListOffsetsAfterMilli _ _ | RListStartOffsets _ => [metaDone]
  | RListCommittedOffsets _ | RListEndOffsets _ | RListMaxTimestampOffsets _
  | RListLocalLogStartOffsets _ | RListLatestRemoteOffsets _ => [metaDone; committedDone; windowDone]
  | RProbe | RDescribeAllLogDirs _ | RShardedDescribeLogDirs _ => [metaDone; endDone]
  | RDescribeTopicConfigs _ => [endDone]
  | RDescribeBrokerConfigs _ => [metaDone; endDone]
  | RListPartitionReassignments _ => [endDone]
  | ROffsetForLeaderEpoch _ => [committedDone; endDone]
  end.

(** A channel's depth in the dependency graph. *)
Definition rank (c : chan) : nat :=
  match c with
  | metaDone | groupsListed => 0
  | windowDone | committedDone => 1
  | endDone => 2
  end.

(** What Collect's comments order: [r1] is over before [r2] starts.  The earlier
    edges of the differences, then the two ceilings, the flavours outside the chain,
    and the phases that wait for the end offsets.  The comments put the start offsets
    before the committed ones too; no channel does ([committed_before_start]). *)
Definition sampled_before (r1 r2 : Request) : bool :=
  match r1, r2 with
  | RMetadata, (RListStartOffsets _ | RFetchManyOffsets _ | RListOffsetsAfterMilli _ _ | RListCommittedOffsets _ |
      RListEndOffsets _ | RListMaxTimestampOffsets _ | RListLocalLogStartOffsets _ | RListLatestRemoteOffsets _ |
      RProbe | RDescribeAllLogDirs _ | RShardedDescribeLogDirs _ | RDescribeBrokerConfigs _) => true
  | RShardedListGroups _, (RDescribeGroups _ | RDescribeConsumerGroups _ | RFetchManyOffsets _ |
      RDescribeShareGroups _ | RDescribeShareGroupOffsets _) => true
  | RDescribeGroups _, RDescribeConsumerGroups _ | RDescribeShareGroups _, RDescribeShareGroupOffsets _ => true
  | (RListStartOffsets _ | RFetchManyOffsets _ | RListOffsetsAfterMilli _ _),
      (RListCommittedOffsets _ | RListEndOffsets _ | RListMaxTimestampOffsets _ | RListLocalLogStartOffsets _ |
       RListLatestRemoteOffsets _) => true
  | RListCommittedOffsets _, (RListEndOffsets _ | RListMaxTimestampOffsets _ | RListLocalLogStartOffsets _ |
      RListLatestRemoteOffsets _) => true
  | RListEndOffsets _, (RListMaxTimestampOffsets _ | RListLocalLogStartOffsets _ | RListLatestRemoteOffsets _) => true
  | RListMaxTimestampOffsets _, (RListLocalLogStartOffsets _ | RListLatestRemoteOffsets _) => true
  | RListLocalLogStartOffsets _, RListLatestRemoteOffsets _ => true
  | (RListStartOffsets _ | RListCommittedOffsets _ | RListEndOffsets _ | RListMaxTimestampOffsets _ |
      RListLocalLogStartOffsets _ | RListLatestRemoteOffsets _),
      (RProbe | RDescribeAllLogDirs _ | RShardedDescribeLogDirs _ | RDescribeTopicConfigs _ |
       RDescribeBrokerConfigs _ | RListPartitionReassignments _ | ROffsetForLeaderEpoch _) => true
  | RFetchManyOffsets _, ROffsetForLeaderEpoch _ => true
  | RProbe, (RDescribeAllLogDirs _ | RShardedDescribeLogDirs _) => true
  | _, _ => false
  end.

(** A cluster of one topic and one group, and its first cycle, for the witnesses:
    the goroutines in source order, each run as far as it goes. *)
Definition cycle_env : env := mkEnv
  (fun r => match r with
            | RMetadata => (mkMetadata "c" [mkBrokerDetail 1 "b" 9092 None] (Some sample_topics), None)
            | RShardedListGroups _ => [LGResp 0 [("g", "")]]
            | r => answer sample_env r
            end) Z.of_nat.
Definition cycle_goroutines : list (goroutine cvars) :=
  @goroutines kafka_codes kadm_sorted kerr_errors no_text kafka_sources sample_collector 0 ∅.
Definition cycle_start : state cvars := start cycle_goroutines no_vars 0.
Definition source_order : list nat := seq 0 12.
Definition driven (fuel : nat) : state cvars := (drive cycle_env source_order fuel cycle_start).2.
Lemma cycle_clock i : 0 <= clock cycle_env i <= clock cycle_env (S i).
Proof. simpl. lia. Qed.

Definition cycle_batch : Batch := result cycle_env (@collectEnd kafka_codes sample_collector 0 (vars (driven 200))).

(** ** Lemmas *)

Section phases.
Context `{!KerrCodes} `{!Kadm} `{!KerrErrors} `{!ShardErrorText} `{!ConfigSources} {V : Type}.
Notation follows ok i := (conforms (V := V) ok (fun r => owner r = i%nat) gate place).

Lemma collectCluster_conforms ok c : follows ok 0 [] 0%nat (collectCluster c).
Proof. unfold collectCluster. walk. Qed.

Lemma listGroups_conforms ok c :
  follows ok 1 [] 0%nat (t ← now; r ← listGroups c; mret (t, r)).
Proof. unfold listGroups, listGroupsWithTypes. walk. Qed.

Lemma collectGroups_conforms ok c ids types err at_ :
  follows ok 2 [groupsListed] 0%nat (collectGroups c ids types err at_).
Proof. unfold collectGroups, enrichConsumerGroups. walk. Qed.

Lemma collectOffsets_conforms ok c ids err internal :
  follows ok 3 [metaDone; groupsListed] 0%nat (collectOffsets c ids err internal).
Proof. unfold collectOffsets. walk. Qed.

Lemma collectThroughputWindow_conforms ok c tds width b :
  follows ok 4 [metaDone] 0%nat (collectThroughputWindow c tds width b).
Proof. unfold collectThroughputWindow. walk. Qed.

Lemma collectTopics_conforms (ok : chan -> Prop) c tds b :
  ok committedDone -> ok windowDone ->
  follows ok 5 [metaDone] 0%nat (collectTopics c tds b [committedDone; windowDone]).
Proof. intros. unfold collectTopics, skipped, skippedSection, listing, waitAll. cbn [foldr]. walk. Qed.

Lemma collectLogDirs_conforms ok c cl tds b :
  follows ok 6 [metaDone; endDone] 0%nat (collectLogDirs c cl tds b).
Proof. unfold collectLogDirs, describeLogDirs, supportsLogDirVolumeBytes. walk. Qed.

Lemma collectShareGroups_conforms ok c types b :
  follows ok 7 [groupsListed] 0%nat (collectShareGroups c types b).
Proof. unfold collectShareGroups. walk. Qed.

Lemma collectTopicConfigs_conforms ok c tms b :
  follows ok 8 [endDone] 0%nat (collectTopicConfigs c tms b).
Proof. unfold collectTopicConfigs. walk. Qed.

Lemma collectBrokerConfigs_conforms ok c cl b :
  follows ok 9 [metaDone; endDone] 0%nat (collectBrokerConfigs c cl b).
Proof. unfold collectBrokerConfigs. walk. Qed.

Lemma collectReassignments_conforms ok c tms b :
  follows ok 10 [endDone] 0%nat (collectReassignments c tms b).
Proof. unfold collectReassignments. walk. Qed.

Lemma askRounds_conforms {A} ok rounds asked sec (k : _ -> prog V A) :
  (forall r, follows ok 11 [committedDone; endDone] 0%nat (k r)) ->
  follows ok 11 [committedDone; endDone] 0%nat (askRounds rounds asked sec ≫= k).
Proof.
  intros Hk. revert asked sec. induction rounds as [|r rounds IH]; intros asked sec; cbn [askRounds]; [apply Hk|].
  walk. apply IH.
Qed.

Lemma collectEpochProbes_conforms ok c b tms offs probed :
  follows ok 11 [committedDone; endDone] 0%nat (collectEpochProbes c b tms offs probed).
Proof. unfold collectEpochProbes. walk; apply askRounds_conforms; intros [asked sec']; walk. Qed.

End phases.

(** A goroutine of the cycle, by its index. *)
Ltac walk_at H :=
  lazymatch type of H with
  | (_ :: _) !! ?i = Some _ => destruct i; [injection H as <-|simpl in H; walk_at H]
  | _ => discriminate H
  end.

Ltac each_at H := unfold goroutines in H; walk_at H.

Section cycle.
Context `{!KerrCodes} `{!Kadm} `{!KerrErrors} `{!ShardErrorText} `{!ConfigSources}.
Context (c : Collector) (n : Z) (probed : probedEpochs).
Notation gs := (goroutines c n probed).

Lemma conforms_go ok i g v :
  (ok committedDone /\ ok windowDone \/ i <> 5%nat) -> gs !! i = Some g ->
  conforms ok (fun r => owner r = i) gate place (g_deps g) 0%nat (g_phase g v).
Proof.
  intros Hok Hg. each_at Hg; cbn [go g_deps g_phase].
  - apply collectCluster_conforms.
  - apply listGroups_conforms.
  - apply collectGroups_conforms.
  - apply collectOffsets_conforms.
  - apply collectThroughputWindow_conforms.
  - destruct Hok as [[? ?]|?]; [by apply collectTopics_conforms|done].
  - apply collectLogDirs_conforms.
  - apply collectShareGroups_conforms.
  - apply collectTopicConfigs_conforms.
  - apply collectBrokerConfigs_conforms.
  - apply collectReassignments_conforms.
  - apply collectEpochProbes_conforms.
Qed.

Lemma cycle_protocol : protocol gs owner gate place.
Proof.
  split.
  - intros i g v Hg. eapply conforms_asks, (conforms_go (fun _ => True)); [by left|done].
  - intros g v [i Hg]%list_elem_of_lookup.
    eapply conforms_disciplined, (conforms_go (fun _ => True)); [by left|done].
Qed.

(** Every channel is closed by one goroutine. *)
Lemma closer ch : exists g, g ∈ gs /\ g_closes g = Some ch.
Proof.
  pose (i := match ch with metaDone => 0 | groupsListed => 1 | committedDone => 3 | windowDone => 4 | endDone => 5 end%nat).
  destruct (gs !! i) as [g|] eqn:Hg; [|by destruct ch].
  exists g. split; [by eapply list_elem_of_lookup_2|]. destruct ch; by injection Hg as <-.
Qed.

Lemma cycle_dataflow : dataflow rank gs.
Proof.
  split.
  - intros g v [i Hg]%list_elem_of_lookup. eapply conforms_quiet, (conforms_go _ i); [|done].
    destruct (decide (i = 5%nat)) as [->|]; [|by right]. left. simpl in Hg. injection Hg as <-.
    split; (split; [apply closer|]); intros c' [= <-]; simpl; lia.
  - intros g ch [i Hg]%list_elem_of_lookup Hd. split; [apply closer|]. revert Hd.
    each_at Hg; cbn [go g_deps g_closes]; intros Hd c' E; try done; injection E as <-; set_unfold in Hd;
      destruct ch; simpl; try lia; naive_solver.
  - intros i j gi gj ch Hi Hj Hci Hcj. each_at Hi; simpl in Hci; try done; injection Hci as <-;
      each_at Hj; by simpl in Hcj.
  - intros g r v [i Hg]%list_elem_of_lookup. revert r. by each_at Hg.
  - intros g r v [i Hg]%list_elem_of_lookup. revert r. by each_at Hg.
  - intros i j gi gj Hi Hj Hij. each_at Hi; each_at Hj; try done;
      (split; [done|]); first [by left|right; eexists; (split; [done|set_solver])].
Qed.

End cycle.

(** *** The sections of a finished cycle *)

(** What is stored of a cycle begun at [t0], at [t]. *)
Record stamped (t0 t : Z) (v : cvars) : Prop := {
  sp_start : t0 <= t;
  sp_meta r : v_meta v = Some r -> sec_at t0 t sectionCluster r.2;
  sp_listed r : v_listed v = Some r -> t0 <= r.1 <= t;
  sp_groups r : v_groups v = Some r -> sec_at t0 t sectionGroups r.2;
  sp_offsets r : v_offsets v = Some r -> sec_at t0 t sectionOffsets r.2;
  sp_window r : v_window v = Some r -> sec_at t0 t sectionTopicsWindow r.2;
  sp_topics r : v_topics v = Some r -> exists m, t0 <= m <= t /\ ts_at t0 m t r.2;
  sp_logDirs r : v_logDirs v = Some r -> sec_at t0 t sectionLogDirs r.2;
  sp_share r : v_share v = Some r -> sec_at t0 t sectionShareGroups r.2;
  sp_topicCfg r : v_topicCfg v = Some r -> sec_at t0 t sectionTopicConfigs r.2;
  sp_brokerCfg r : v_brokerCfg v = Some r -> sec_at t0 t sectionBrokerConfigs r.2;
  sp_reassign r : v_reassign v = Some r -> sec_at t0 t sectionReassignments r.2;
  sp_epoch r : v_epoch v = Some r -> sec_at t0 t sectionEpochProbes r.1.2;
}.

(** Every goroutine has stored its results. *)
Definition complete (v : cvars) : Prop :=
  is_Some (v_meta v) /\ is_Some (v_groups v) /\ is_Some (v_offsets v) /\ is_Some (v_window v) /\ is_Some (v_topics v) /\
  is_Some (v_logDirs v) /\ is_Some (v_share v) /\ is_Some (v_topicCfg v) /\ is_Some (v_brokerCfg v) /\
  is_Some (v_reassign v) /\ is_Some (v_epoch v).

Section finished.
Context `{!KerrCodes} `{!Kadm} `{!KerrErrors} `{!ShardErrorText} `{!ConfigSources} `{!Cluster}.
Context (c : Collector) (n : Z) (probed : probedEpochs).
Notation gs := (goroutines c n probed).

Lemma cycle_start_ok t0 : sched_ok gs (start gs no_vars t0).
Proof. apply start_ok. intros g [i Hg]%list_elem_of_lookup. by each_at Hg. Qed.

Lemma cycle_ok t0 tr s : steps (start gs no_vars t0) tr s -> sched_ok gs s.
Proof. apply (steps_ok rank gs (cycle_dataflow c n probed)), cycle_start_ok. Qed.

Lemma stamped_later t0 t t' v : t <= t' -> stamped t0 t v -> stamped t0 t' v.
Proof.
  intros Ht []. split; intros; try lia;
    try (eapply sec_at_later; [exact Ht|by eauto]).
  - pose proof (sp_listed0 _ H5). lia.
  - destruct (sp_topics0 _ H5) as (m & ? & Hts). exists m. split; [lia|]. by eapply ts_at_later.
Qed.

Ltac stores := intros w []; split; simpl; try assumption; intros _ [= <-]; try assumption.

(** Each phase stores a section of its own, stamped since the cycle began. *)
Lemma cycle_timing t0 : timing gs (stamped t0).
Proof.
  split; [apply stamped_later|]. intros g v t [i Hg]%list_elem_of_lookup Hv Hld.
  pose proof (sp_start _ _ _ Hv) as H0t. revert Hld. each_at Hg; cbn [go g_phase g_deps]; intros Hld.
  - eapply clocked_impl; [|by apply collectCluster_sec]. intros t' r Ht Hr. stores.
  - intros t1 Ht1 x t2 Ht2. stores. simpl. lia.
  - assert (v_listed v <> None) as Hl.
    { intros E. eapply (Hld groupsListed); [by left|by apply (list_elem_of_lookup_2 _ 1%nat)|reflexivity|exact E]. }
    destruct (v_listed v) as [[at_ l]|] eqn:El; [|done]. pose proof (sp_listed _ _ _ Hv _ El) as Hat. simpl in Hat.
    eapply clocked_impl; [|apply (collectGroups_sec t0); unfold listStart; rewrite El; lia].
    intros t' r Ht Hr. stores.
  - eapply clocked_impl; [|by apply collectOffsets_sec]. intros t' r Ht Hr. stores.
  - eapply clocked_impl; [|by apply collectThroughputWindow_sec]. intros t' r Ht Hr. stores.
  - eapply clocked_impl; [|by apply (collectTopics_sec t0)]. intros t' r Ht (m & Hm & Hr). stores.
    exists m. split; [|done]. split; [|done].
    specialize (Hr Starts). destruct Hr as (_ & Hr & _). lia.
  - eapply clocked_impl; [|by apply collectLogDirs_sec]. intros t' r Ht Hr. stores.
  - eapply clocked_impl; [|by apply collectShareGroups_sec]. intros t' r Ht Hr. stores.
  - eapply clocked_impl; [|by apply collectTopicConfigs_sec]. intros t' r Ht Hr. stores.
  - eapply clocked_impl; [|by apply collectBrokerConfigs_sec]. intros t' r Ht Hr. stores.
  - eapply clocked_impl; [|by apply collectReassignments_sec]. intros t' r Ht Hr. stores.
  - eapply clocked_impl; [|by apply collectEpochProbes_sec]. intros t' r Ht Hr. stores.
Qed.

Lemma final_complete s : sched_ok gs s -> final s -> complete (vars s).
Proof.
  intros Hok Hf.
  assert (forall i g, gs !! i = Some g -> exists r, g_load g (vars s) = Some r) as Hload.
  { intros i g Hi. destruct (final_results gs s g Hok Hf) as (r & Hr & _); [by eapply list_elem_of_lookup_2|]. by exists r. }
  unfold complete. split_and!; [apply (Hload 0%nat _ eq_refl)|apply (Hload 2%nat _ eq_refl)|apply (Hload 3%nat _ eq_refl)
    |apply (Hload 4%nat _ eq_refl)|apply (Hload 5%nat _ eq_refl)|apply (Hload 6%nat _ eq_refl)|apply (Hload 7%nat _ eq_refl)
    |apply (Hload 8%nat _ eq_refl)|apply (Hload 9%nat _ eq_refl)|apply (Hload 10%nat _ eq_refl)|apply (Hload 11%nat _ eq_refl)].
Qed.

Lemma final_stamped t0 tr s : steps (start gs no_vars t0) tr s -> final s ->
  stamped t0 (time s) (vars s) /\ complete (vars s).
Proof.
  intros Hs Hf. split; [|by eapply final_complete; [eapply cycle_ok|]].
  apply (steps_timing rank gs (cycle_dataflow c n probed) (stamped t0) (cycle_timing t0) no_vars t0 tr s); [| |done].
  - intros g [i Hg]%list_elem_of_lookup. by each_at Hg.
  - by split.
Qed.

Lemma attachWindow_ok t0 t v : stamped t0 t v -> complete v ->
  exists sec, (attachWindow v).2 = Some sec /\ sec_at t0 t sectionTopicsWindow sec.
Proof.
  intros Hv (_ & _ & _ & [[[w wo] sec] E] & _). pose proof (sp_window _ _ _ Hv _ E) as Hs. simpl in Hs.
  unfold attachWindow, windowSec.
  rewrite E. simpl. pose proof (attach_kept (sec_at t0 t sectionTopicsWindow) (windowOffsets v) (topics v) sec Hs) as Ha.
  destruct (attach _ _ sec) as [tms sec']. by exists sec'.
Qed.

(** The wire's seventeen sections, each present under its own name, stamped since
    [t0], the topics' no later than the high watermarks'. *)
Lemma wireSections_ok t0 t v wsec rpcSec :
  stamped t0 t v -> complete v -> sec_at t0 t sectionTopicsWindow wsec -> sec_at t0 t sectionBrokerRPC rpcSec ->
  exists m,
  Forall2 (fun s nm => exists sec, s = Some sec /\ sec_at t0 t nm sec /\
      (nm = sectionTopics -> started sec <= m) /\ (nm = sectionTopicsEnd -> m <= started sec))
    (wireSections v (Some wsec) (Some rpcSec)) sectionNames.
Proof.
  intros Hv ([m Em] & [g Eg] & [o Eo] & _ & [tm Et] & [l El] & [sh Esh] & [tc Etc] & [bc Ebc] & [re Ere] & [ep Eep]) Hw Hr.
  destruct (sp_topics _ _ _ Hv _ Et) as (mid & Hmid & Hts). exists mid.
  assert (forall f, sec_at t0 t (flavour_name f) (sec_of f tm.2)) as Hat.
  { intros f. pose proof (Hts f) as Hf. destruct f; destruct Hf as (? & ? & ?); (split; [done|]); (split; [lia|done]). }
  unfold wireSections, clusterSec, topicSec, sec_of_result, epochSec.
  rewrite Em, Eg, Eo, Et, El, Esh, Etc, Ebc, Ere, Eep. destruct ep as [[p es] pr]. simpl.
  assert (forall nm sec, sec_at t0 t nm sec -> nm <> sectionTopics -> nm <> sectionTopicsEnd ->
    exists s, Some sec = Some s /\ sec_at t0 t nm s /\ (nm = sectionTopics -> started s <= mid) /\
      (nm = sectionTopicsEnd -> mid <= started s)) as Hrow by (intros nm sec Hs ? ?; exists sec; by split_and!).
  unfold sectionNames. repeat (apply Forall2_cons; split;
    [first [apply Hrow; [first [exact Hw|exact Hr|apply (sp_meta _ _ _ Hv _ Em)|apply (sp_groups _ _ _ Hv _ Eg)
        |apply (sp_offsets _ _ _ Hv _ Eo)|apply (sp_logDirs _ _ _ Hv _ El)|apply (sp_share _ _ _ Hv _ Esh)
        |apply (sp_topicCfg _ _ _ Hv _ Etc)|apply (sp_brokerCfg _ _ _ Hv _ Ebc)|apply (sp_reassign _ _ _ Hv _ Ere)
        |apply (sp_epoch _ _ _ Hv _ Eep)|apply (Hat Lso)|apply (Hat MaxTS)|apply (Hat Local)|apply (Hat Remote)]
      |intros E; discriminate E|intros E; discriminate E]
     |eexists; split; [reflexivity|]; split; [apply (Hat Starts)|]; split; [intros _; apply (Hts Starts)|intros E; discriminate E]
     |eexists; split; [reflexivity|]; split; [apply (Hat End_)|]; split; [intros E; discriminate E|intros _; apply (Hts End_)]]|]).
  constructor.
Qed.

End finished.

Lemma canonical_secs secs :
  Forall2 (fun s nm => exists sec, s = Some sec /\ sec_ok nm sec) secs sectionNames ->
  secs_wf secs /\ ""%string ∉ sec_names secs /\ from_option name "" <$> secs = sectionNames.
Proof.
  intros HF.
  assert (sec_names secs = sectionNames /\ from_option name "" <$> secs = sectionNames /\
    Forall (from_option section_wf True) secs) as (En & Ef & Hwf).
  { induction HF as [|s nm secs nms (sec & -> & Hwf & Hn) _ (IH1 & IH2 & IH3)]; [done|].
    unfold sec_names in *. simpl in *. split_and!; [by f_equal|by f_equal|by constructor]. }
  split; [|split; [|done]].
  - split; [done|]. rewrite En. apply sectionNames_NoDup.
  - rewrite En. by apply (bool_decide_unpack _).
Qed.

(** *** The order the requests' gates imply *)

Lemma sampled_before_precedes `{!KerrCodes} `{!Kadm} `{!KerrErrors} `{!ShardErrorText}
    `{!ConfigSources} c n probed r1 r2 :
  sampled_before r1 r2 = true -> precedes (goroutines c n probed) owner gate place r1 r2.
Proof.
  intros Hs. unfold precedes.
  destruct r1; try discriminate Hs; destruct r2; try discriminate Hs;
    first [right; split; [reflexivity|simpl; lia]
          |left; eexists _, _; split; [reflexivity|]; split; [reflexivity|simpl; set_solver]].
Qed.

(** ** Properties *)

Lemma collectEnd_quiet `{!KerrCodes} `{!Kadm} c t0 v : quiet (fun _ => True) (collectEnd c t0 v).
Proof.
  eapply (conforms_quiet (fun _ => True) (fun _ => True) (fun _ => []) (fun _ => 0%nat) [] 0%nat).
  unfold collectEnd, collectRPC. walk.
Qed.

(** A driven schedule that finishes is a cycle. *)
Lemma drive_collect `{!KerrCodes} `{!Kadm} `{!KerrErrors} `{!ShardErrorText} `{!ConfigSources}
    `{!Cluster} (e : env) c cs prio fuel :
  (forall r, allowed r (answer e r)) -> (forall i, 0 <= clock e i <= clock e (S i)) ->
  let run_ := drive e prio fuel (start (goroutines c (cs_cycle cs) (cs_probed cs)) no_vars 0) in
  forallb finishedb (threads run_.2) = true ->
  exists cs', Collect c cs run_.1 (result e (collectEnd c 0 (vars run_.2))) cs'.
Proof.
  intros He Hclk run_ Hf. eexists. apply (collect_cycle c cs 0 run_.1 run_.2).
  - by eapply drive_steps; [|apply surjective_pairing].
  - by apply finishedb_final.
  - apply (run_ends (fun _ => True)); [done|apply collectEnd_quiet|]. intros i _. subst run_. rewrite drive_time. apply Hclk.
Qed.

Section properties.
Context `{!KerrCodes} `{!Kadm} `{!KerrErrors} `{!ShardErrorText} `{!ConfigSources} `{!Cluster}.

(** C1: the sampling order, in every interleaving.  When the last stable offsets
    or the high watermarks are requested with the cycle's context live, the
    committed offsets, the window's offsets and the start offsets have all been
    answered or will never be asked; the last stable offsets precede the high
    watermarks, and these the max-timestamp, local and remote offsets; the metadata
    and the group listing precede what needs them, and the whole topics phase
    precedes every phase that waits for it: once [r2] is issued no request of
    [sampled_before] is issued or answered any more.  The start offsets against the
    committed ones are not part of it: nothing orders these two. *)
Theorem collect_sample_order (c : Collector) (n : Z) (probed : probedEpochs) (t0 : Z)
    (tr1 tr2 : list event) (s1 s2 s3 : state cvars) (r2 : Request) :
  steps (start (goroutines c n probed) no_vars t0) tr1 s1 -> done_ s1 = false ->
  step s1 [Issue r2] s2 -> steps s2 tr2 s3 ->
  forall ev, ev ∈ tr2 -> sampled_before (event_request ev) r2 = false.
Proof.
  intros Hs1 Hd Hst Hs2 ev Hev. destruct (sampled_before _ _) eqn:E; [|done]. exfalso.
  apply (sampled_before_precedes c n probed) in E. revert E.
  pose proof (cycle_protocol c n probed) as Hpr. pose proof (cycle_dataflow c n probed) as Hdf.
  eapply (order_after rank _ Hdf owner gate place Hpr 0 0%nat); [by eapply cycle_ok| |done..].
  clear Hd Hst Hs2. remember (start _ _ _) as s0 eqn:E0.
  induction Hs1 as [|s evs s' tr s'' Hs IH Hst]; [subst; eapply start_order; eassumption|].
  specialize (IH E0). eapply order_step; eassumption.
Qed.

(** C4: a cycle ends.  From any state the goroutines can reach, every schedule is
    finite, and while one of them is unfinished one can act: none waits for a
    channel that nobody will close, and none closes a closed channel. *)
Theorem collect_terminates (c : Collector) (n : Z) (probed : probedEpochs) (t0 : Z)
    (tr : list event) (s : state cvars) :
  steps (start (goroutines c n probed) no_vars t0) tr s ->
  Acc (fun s' s => exists evs, step s evs s') s /\
  (final s \/ exists i th evs th' cl v t, threads s !! i = Some th /\
     tstep (done_ s) (closed s) (vars s) (time s) th evs th' cl v t).
Proof.
  intros Hs. split; [apply step_wf|].
  apply (progress rank _ (cycle_dataflow c n probed)). by eapply cycle_ok.
Qed.

(** C3: no goroutine reads a variable before it is assigned.  When the brokers
    answer as [e] does, in every interleaving each goroutine's final results are
    what its phase returns, run alone with some reading of the clock, on the
    variables' final values. *)
Theorem collect_dataflow (e : env) (c : Collector) (n : Z) (probed : probedEpochs) (t0 : Z)
    (tr : list event) (s : state cvars) :
  (forall r x, allowed r x -> x = answer e r) ->
  steps (start (goroutines c n probed) no_vars t0) tr s -> final s ->
  forall g, g ∈ goroutines c n probed -> exists clk,
    g_load g (vars s) = Some (run (mkEnv (answer e) clk) (g_phase g (vars s)) 0 (vars s)).1.1.1.
Proof.
  intros He Hs Hf g Hg. pose proof (cycle_ok c n probed t0 tr s Hs) as Hok.
  destruct (final_results _ s g Hok Hf Hg) as (r & Hl & Hr).
  destruct (can_return_run e _ r (vars s) He Hr) as [clk Hrun]. exists clk. by rewrite Hrun.
Qed.

(** What the consumers of a batch rely on. *)
Record wire_ok (c : Collector) (b : Batch) : Prop := {
  wo_schema : b_SchemaVersion b = SchemaVersion;
  wo_names : sr_Name <$> b_Sections b = SectionNames;
  wo_counts : errorCountOK b;
  wo_truncation : truncationOK b;
  wo_complete : b_Truncation b = None <->
    sumZ sr_ErrorsCollapsed (b_Sections b) = 0 /\ sumZ sr_ErrorsDropped (b_Sections b) = 0;
  wo_budget : 0 < MaxErrors (c_limits c) -> Z.of_nat (length (b_Errors b)) <= MaxErrors (c_limits c);
  wo_errors : forall e, e ∈ b_Errors b -> ce_Section e ∈ SectionNames /\ 0 <= ce_Count e;
  wo_times : forall row, row ∈ b_Sections b -> b_CollectedAt b <= sr_SampledAt row /\ 0 <= sr_DurationMs row;
  wo_order : forall row row', row ∈ b_Sections b -> row' ∈ b_Sections b -> sr_Name row = sectionTopics ->
    sr_Name row' = sectionTopicsEnd -> sr_SampledAt row <= sr_SampledAt row';
  wo_ms : 0 <= b_CollectionMs b;
  wo_selection : b_Selection b = Options_selection (c_opts c);
}.

Lemma Milliseconds_nonneg d : 0 <= d -> 0 <= Milliseconds d.
Proof. intros. unfold Milliseconds. apply Z.quot_pos; lia. Qed.

(** Rows of sections that keep to their names and times. *)
Lemma rows_stamped t0 t m secs rows :
  Forall2 (fun s nm => exists sec, s = Some sec /\ sec_at t0 t nm sec /\
    (nm = sectionTopics -> started sec <= m) /\ (nm = sectionTopicsEnd -> m <= started sec)) secs sectionNames ->
  row_stamp <$> rows = (fun s => row_stamp (finish s)) <$> secs ->
  forall row, row ∈ rows -> t0 <= sr_SampledAt row /\ 0 <= sr_DurationMs row /\
    (sr_Name row = sectionTopics -> sr_SampledAt row <= m) /\ (sr_Name row = sectionTopicsEnd -> m <= sr_SampledAt row).
Proof.
  intros HF E row Hin. apply (list_elem_of_fmap_2 row_stamp) in Hin. rewrite E in Hin.
  apply list_elem_of_fmap in Hin as (s & Er & Hs). apply list_elem_of_lookup in Hs as [i Hi].
  destruct (Forall2_lookup_l _ _ _ _ _ HF Hi) as (nm & _ & sec & -> & ((_ & Hn) & [Hlo _] & Hd) & Ht & He).
  unfold row_stamp in Er. simpl in Er. injection Er as -> -> ->. rewrite Hn.
  split; [done|]. split; [by apply Milliseconds_nonneg|done].
Qed.

Lemma collect_wire_ok (c : Collector) (cs cs' : cstate) (tr : list event) (b : Batch) :
  Collect c cs tr b cs' -> wire_ok c b.
Proof.
  intros [t0 tr' s b' Hs Hf Hb]. simpl in Hs.
  destruct (final_stamped _ _ _ _ _ _ Hs Hf) as [Hv Hall]. clear Hs Hf.
  destruct (attachWindow_ok _ _ _ Hv Hall) as (wsec & Hw & Hws).
  pose proof (sp_start _ _ _ Hv) as H0t.
  assert (clocked (fun t b => exists secs ms rpc m, b = finalize (c_limits c) (Options_selection (c_opts c)) secs
      (batchOf t0 (attachWindow (vars s)).1 rpc ms (vars s)) /\ 0 <= ms /\
    Forall2 (fun s nm => exists sec, s = Some sec /\ sec_at t0 t nm sec /\
      (nm = sectionTopics -> started sec <= m) /\ (nm = sectionTopicsEnd -> m <= started sec)) secs sectionNames)
    (time s) (collectEnd c t0 (vars s))) as Hret.
  { unfold collectEnd. rewrite (surjective_pairing (attachWindow (vars s))), Hw.
    apply clocked_bind. eapply clocked_impl; [|by apply (collectRPC_sec t0)]. intros t1 [rpc rpcSec] Ht1 Hrpc.
    apply clocked_bind. intros t2 Ht2 t3 Ht3 t4 Ht4. cbv beta iota. simpl in Hrpc.
    destruct (wireSections_ok t0 t4 (vars s) wsec rpcSec) as [m HF];
      [eapply stamped_later; [|exact Hv]; lia|done|eapply sec_at_later; [|exact Hws]; lia
      |eapply sec_at_later; [|exact Hrpc]; lia|].
    do 3 eexists. exists m. split; [reflexivity|]. split; [apply Milliseconds_nonneg; lia|exact HF]. }
  destruct (ends_clocked _ _ _ _ Hret Hb) as (t & _ & secs & ms & rpc & m & -> & Hms & Hsecs).
  destruct (canonical_secs secs) as (Hwf & Hne & Hnames).
  { eapply Forall2_impl; [exact Hsecs|]. intros ? nm (sec & -> & (? & _) & _). by exists sec. }
  set (b0 := batchOf t0 (attachWindow (vars s)).1 rpc ms (vars s)).
  set (fb := finalize (c_limits c) (Options_selection (c_opts c)) secs b0).
  assert (b_SchemaVersion fb = SchemaVersion /\ b_CollectedAt fb = t0 /\ b_CollectionMs fb = ms /\
    b_Selection fb = Options_selection (c_opts c)) as (Hsv & Hat & Hcm & Hsel)
    by (unfold fb, finalize; by destruct (mergeErrors _ _) as [[??]?]).
  destruct (finalize_spec (c_limits c) (Options_selection (c_opts c)) secs b0 Hwf Hne eq_refl eq_refl) as (He & Ht & Hn).
  pose proof (rows_stamped t0 t m secs (b_Sections fb) Hsecs (finalize_rows _ _ _ b0 (proj1 Hwf))) as Hrows.
  split; try done; try apply Hn.
  - unfold fb. rewrite finalize_names by apply Hwf. exact Hnames.
  - intros Hm. apply finalize_budget; [apply Hwf|done].
  - intros e (sec & Hin & Hes)%finalize_errors; [|apply Hwf]. apply list_elem_of_lookup in Hin as [i Hi].
    destruct (Forall2_lookup_l _ _ _ _ _ Hsecs Hi) as (nm & Hnm & sec' & [= <-] & ((Hsw & Hname) & _) & _).
    split; [rewrite (proj1 (list.Forall_forall _ _) (wf_name _ Hsw) _ Hes), Hname; by eapply list_elem_of_lookup_2|].
    pose proof (proj1 (list.Forall_forall _ _) (wf_weight _ Hsw) _ Hes) as Hw1. unfold occ_weight in Hw1.
    destruct (ce_Count e =? 0) eqn:Ec; lia.
  - intros row Hr. rewrite Hat. split; by apply Hrows.
  - intros row row' Hr Hr' E E'. destruct (Hrows row Hr) as (_ & _ & Htop & _), (Hrows row' Hr') as (_ & _ & _ & Hend).
    specialize (Htop E). specialize (Hend E'). lia.
  - by rewrite Hcm.
Qed.

(** C2: every batch a cycle ships is well formed: its sections are the seventeen
    canonical ones in wire order, each row declares exactly the errors that bear
    its name, the truncation block is present exactly when a section folded or
    dropped an occurrence and then sums them, and the errors keep to the cap; no
    section was sampled before the batch's own instant or lasted less than
    nothing, and the high watermarks' not before the topics'. *)
Theorem collect_batch_conforms (c : Collector) (cs cs' : cstate) (tr : list event) (b : Batch) :
  Collect c cs tr b cs' ->
  b_SchemaVersion b = SchemaVersion /\
  sr_Name <$> b_Sections b = SectionNames /\
  errorCountOK b /\ truncationOK b /\
  (b_Truncation b = None <->
     sumZ sr_ErrorsCollapsed (b_Sections b) = 0 /\ sumZ sr_ErrorsDropped (b_Sections b) = 0) /\
  (0 < MaxErrors (c_limits c) -> Z.of_nat (length (b_Errors b)) <= MaxErrors (c_limits c)) /\
  (forall row, row ∈ b_Sections b -> b_CollectedAt b <= sr_SampledAt row /\ 0 <= sr_DurationMs row) /\
  (forall row row', row ∈ b_Sections b -> row' ∈ b_Sections b -> sr_Name row = sectionTopics ->
     sr_Name row' = sectionTopicsEnd -> sr_SampledAt row <= sr_SampledAt row').
Proof. intros []%collect_wire_ok. by split_and!. Qed.

(** A cycle always ships: from any state of the collector, whatever the
    brokers answer, some schedule of the goroutines reaches a batch. *)
Theorem collect_ships (c : Collector) (cs : cstate) :
  exists tr b cs', Collect c cs tr b cs' /\ cs_cycle cs' = wrapU 64 (cs_cycle cs + 1).
Proof.
  destruct (completes rank _ (cycle_dataflow c (cs_cycle cs) (cs_probed cs)) _
    (cycle_start_ok c (cs_cycle cs) (cs_probed cs) 0)) as (tr & s & Hs & Hf).
  destruct (quiet_ends (fun _ => True) (collectEnd c 0 (vars s)) (time s)) as [b Hb]; [apply collectEnd_quiet|].
  exists tr, b. eexists. split; [exact (collect_cycle c cs 0 tr s b Hs Hf Hb)|done].
Qed.

End properties.

(** [Collect]'s comment puts the start offsets before the committed ones in the
    sampling order; no channel does.  Here, with the context live, the committed
    offsets are answered before the start offsets are requested. *)
Theorem committed_before_start :
  exists tr1 tr2 s, @steps cvars (answering cycle_env) cycle_start
    (tr1 ++ [Answer (RFetchManyOffsets ["g"])] ++ tr2 ++ [Issue (RListStartOffsets ["t"])]) s /\
    done_ s = false.
Proof.
  exists (take 7 (drive cycle_env source_order 41 cycle_start).1).
  exists (take 2 (drop 8 (drive cycle_env source_order 41 cycle_start).1)), (driven 41).
  split; [|vm_compute; reflexivity].
  assert (take 7 (drive cycle_env source_order 41 cycle_start).1 ++ [Answer (RFetchManyOffsets ["g"])] ++
    take 2 (drop 8 (drive cycle_env source_order 41 cycle_start).1) ++ [Issue (RListStartOffsets ["t"])] =
    (drive cycle_env source_order 41 cycle_start).1) as -> by (vm_compute; reflexivity).
  apply (drive_steps (H := answering cycle_env) cycle_env source_order 41); [done|apply surjective_pairing].
Qed.

(** ** Witnesses *)

Lemma driven_steps fuel :
  @steps cvars (answering cycle_env) cycle_start (drive cycle_env source_order fuel cycle_start).1 (driven fuel).
Proof.
  apply (drive_steps (H := answering cycle_env) cycle_env source_order fuel); [done|apply surjective_pairing].
Qed.

Lemma driven_next fuel : driven (S fuel) =
  from_option snd (driven fuel) (first_act cycle_env source_order (driven fuel)).
Proof. unfold driven. apply drive_snoc. Qed.

Theorem collect_sample_order_witness :
  exists r2 tr2 s3, r2 = RListCommittedOffsets ["t"] /\ steps (H := answering cycle_env) (driven 46) tr2 s3 /\
    length tr2 = 13%nat /\ forall ev, ev ∈ tr2 -> sampled_before (event_request ev) r2 = false.
Proof.
  assert (exists tr2 s3, drive cycle_env source_order 200 (driven 46) = (tr2, s3) /\ length tr2 = 13%nat)
    as (tr2 & s3 & E & Hl) by (eexists _, _; split; [apply surjective_pairing|vm_compute; reflexivity]).
  assert (steps (H := answering cycle_env) (driven 46) tr2 s3) as Hs3 by (by eapply drive_steps).
  assert (step (H := answering cycle_env) (driven 45) [Issue (RListCommittedOffsets ["t"])] (driven 46)) as Hst.
  { apply (first_act_step (H := answering cycle_env) cycle_env source_order); [done|].
    pose proof (driven_next 45) as Hn.
    assert (fst <$> first_act cycle_env source_order (driven 45) = Some [Issue (RListCommittedOffsets ["t"])])
      as He by (vm_compute; reflexivity).
    destruct (first_act cycle_env source_order (driven 45)) as [[evs s]|]; [|discriminate He].
    injection He as ->. simpl in Hn. by rewrite Hn. }
  exists (RListCommittedOffsets ["t"]), tr2, s3. split; [done|]. split; [done|]. split; [done|].
  apply (@collect_sample_order kafka_codes kadm_sorted kerr_errors no_text kafka_sources (answering cycle_env)
    sample_collector 0 ∅ 0 _ tr2 (driven 45) (driven 46) s3 _ (driven_steps 45) ltac:(vm_compute; reflexivity) Hst Hs3).
Defined.

Theorem collect_terminates_witness :
  Acc (fun s' s => exists evs, step (H := answering cycle_env) s evs s') (driven 45).
Proof.
  exact (proj1 (@collect_terminates kafka_codes kadm_sorted kerr_errors no_text kafka_sources (answering cycle_env)
    sample_collector 0 ∅ 0 _ (driven 45) (driven_steps 45))).
Defined.

Theorem collect_dataflow_witness :
  Forall (fun g => exists clk, g_load g (vars (driven 200)) =
    Some (run (mkEnv (answer cycle_env) clk) (g_phase g (vars (driven 200))) 0 (vars (driven 200))).1.1.1)
    cycle_goroutines.
Proof.
  apply list.Forall_forall.
  apply (@collect_dataflow kafka_codes kadm_sorted kerr_errors no_text kafka_sources (answering cycle_env)
    cycle_env sample_collector 0 ∅ 0 _ (driven 200) (fun r x Hx => Hx) (driven_steps 200)).
  apply finishedb_final. vm_compute. reflexivity.
Defined.

Theorem collect_batch_conforms_witness :
  sr_Name <$> b_Sections cycle_batch = SectionNames /\ length (elems (b_Topics cycle_batch)) = 1%nat /\
  errorCountOK cycle_batch.
Proof.
  destruct (@drive_collect kafka_codes kadm_sorted kerr_errors no_text kafka_sources (answering cycle_env)
    cycle_env sample_collector (mkCState 0 ∅) source_order 200 (fun _ => eq_refl) cycle_clock
    ltac:(vm_compute; reflexivity)) as [cs' Hc].
  destruct (@collect_batch_conforms kafka_codes kadm_sorted kerr_errors no_text kafka_sources
    (answering cycle_env) sample_collector _ cs' _ _ Hc) as (_ & Hn & He & _).
  split; [exact Hn|]. split; [vm_compute; reflexivity|exact He].
Defined.
