(* ===== verification/Capabilities.v ===== *)
(** * Capabilities: what the cluster can be asked
      ([internal/kafka/capabilities.go], [Probe] and [CheckGroupStateFilter] of
      [internal/kafka/client.go])

    One ApiVersions round trip per broker, folded into the lowest version any of
    them offers.  The client library's per-broker answer is a record of what its
    methods return; the order its [Sorted] gives is the class [KadmVersions]. *)

From Stdlib Require Import ZArith Lia.
From stdpp Require Import prelude gmap strings numbers pretty sorting.
From S2P Require Import Prelude Wire Errors Kadm.

(** [kadm.BrokerApiVersions], by its exported fields and methods. *)
Record BrokerApiVersions := mkBrokerApiVersions {
  bav_NodeID : Z;
  bav_Err : option goerr;
  bav_Raw : bool;                                    (* Raw() != nil *)
  bav_VersionGuess : string;
  bav_KeyMaxVersion : gmap Z Z;
}.

Notation BrokersApiVersions := (gmap Z BrokerApiVersions).

Class KadmVersions := { versionsSorted : BrokersApiVersions -> list BrokerApiVersions }.

Class KadmVersionsLaws `{!KadmVersions} : Prop := {
  versionsSorted_law vs : sorted_values Z.ltb vs (versionsSorted vs);
}.

Definition kadm_versions : KadmVersions := {| versionsSorted := sort_values Z.ltb |}.

(** ** Tables *)

Definition unknownVersion : string := "unknown".

Definition listGroupsKey : Z := 16.
Definition listGroupsStatesFilterVersion : Z := 4.
Definition listGroupsStatesFilterKafka : string := "2.6".
Definition consumerGroupDescribeKey : Z := 69.
Definition listOffsetsKey : Z := 2.
Definition listOffsetsIsolationVersion : Z := 2.
Definition listOffsetsTimestampVersion : Z := 1.
Definition metadataKey : Z := 3.
Definition describeLogDirsKey : Z := 35.
Definition describeLogDirsTotalBytesVersion : Z := 4.
Definition offsetForLeaderEpochKey : Z := 23.
Definition shareGroupDescribeKey : Z := 77.
Definition describeConfigsKey : Z := 32.
Definition listPartitionReassignmentsKey : Z := 46.

Definition probedKeys : list Z :=
  [listOffsetsKey; metadataKey; listGroupsKey; offsetForLeaderEpochKey; describeLogDirsKey;
   listPartitionReassignmentsKey; describeConfigsKey; shareGroupDescribeKey; consumerGroupDescribeKey].

Definition max_int16 : Z := 2 ^ 15 - 1.

(** ** State *)

Record BrokerSoftware := mkBrokerSoftware { bs_NodeID : Z; bs_Version : string }.

#[export] Instance BrokerSoftware_eq_dec : EqDecision BrokerSoftware.
Proof. solve_decision. Defined.

Record keyFloor := mkKeyFloor { kf_nodeID : Z; kf_version : Z; kf_present : bool }.

Record brokerKeys := mkBrokerKeys { bk_nodeID : Z; bk_version : string; bk_keys : gmap Z Z }.

Record Capabilities := mkCapabilities {
  floors : gmap Z keyFloor;
  brokers : list BrokerSoftware;
  probed : list brokerKeys;
}.

(** ** The probe *)

(** The inner loop over [probedKeys]. *)
Definition probeKeys (v : BrokerApiVersions) : gmap Z Z :=
  foldl (fun m key => match bav_KeyMaxVersion v !! key with Some max => <[key := max]> m | None => m end)
    ∅ probedKeys.

Definition probeRow (v : BrokerApiVersions) : brokerKeys :=
  mkBrokerKeys (bav_NodeID v) (if bav_Raw v then bav_VersionGuess v else unknownVersion) (probeKeys v).

Definition errNoBroker : goerr := PlainError "no broker answered the api versions probe".

Definition errNoAnswer (v : BrokerApiVersions) (e : goerr) : goerr :=
  WrapError ("broker " ++ pretty (bav_NodeID v) ++ " did not answer the api versions probe: " ++ errMsg e) e.

(** The loop over the sorted answers, which returns at the first error. *)
Fixpoint probeLoop (vs : list BrokerApiVersions) : goerr + list brokerKeys :=
  match vs with
  | [] => inr []
  | v :: vs =>
      match bav_Err v with
      | Some e => inl (errNoAnswer v e)
      | None => match probeLoop vs with
                | inl e => inl e
                | inr bs => inr (probeRow v :: bs)
                end
      end
  end.

Definition probeBrokers `{!KadmVersions} (versions : BrokersApiVersions) : goerr + list brokerKeys :=
  if decide (versions = ∅) then inl errNoBroker else probeLoop (versionsSorted versions).

(** The loop over the brokers for one key. *)
Fixpoint floorLoop (key : Z) (bs : list brokerKeys) (floor : keyFloor) : keyFloor :=
  match bs with
  | [] => floor
  | b :: bs =>
      match bk_keys b !! key with
      | None => mkKeyFloor (bk_nodeID b) 0 false
      | Some max =>
          floorLoop key bs
            (if max <? kf_version floor then mkKeyFloor (bk_nodeID b) max true else floor)
      end
  end.

Definition floorOf (bs : list brokerKeys) (key : Z) : keyFloor :=
  floorLoop key bs (mkKeyFloor 0 max_int16 (bool_decide (bs <> []))).

Definition foldCapabilities (bs : list brokerKeys) : Capabilities :=
  mkCapabilities (foldl (fun m key => <[key := floorOf bs key]> m) ∅ probedKeys)
    ((fun b => mkBrokerSoftware (bk_nodeID b) (bk_version b)) <$> bs) bs.

(** [c.floors[key]]: the zero floor when the key is not in the map. *)
Definition floor_at (c : Capabilities) (key : Z) : keyFloor :=
  default (mkKeyFloor 0 0 false) (floors c !! key).

Definition atLeast (c : Capabilities) (key version : Z) : bool :=
  kf_present (floor_at c key) && (version <=? kf_version (floor_at c key)).

(** [Client.Probe] keeps the first success for the client's lifetime; [answer] is
    what the ApiVersions round trip gives. *)
Definition Probe `{!KadmVersions} (answer : goerr + BrokersApiVersions) :
    St (option Capabilities) (goerr + Capabilities) :=
  fun caps =>
    match caps with
    | Some c => (inr c, caps)
    | None =>
        match answer with
        | inl e => (inl (WrapError ("probe broker api versions: " ++ errMsg e) e), caps)
        | inr versions =>
            match probeBrokers versions with
            | inl e => (inl e, caps)
            | inr bs => (inr (foldCapabilities bs), Some (foldCapabilities bs))
            end
        end
    end.

(** ** Questions *)

Definition SupportsGroupStatesFilter (c : Capabilities) : bool :=
  atLeast c listGroupsKey listGroupsStatesFilterVersion.
Definition SupportsConsumerGroupDescribe (c : Capabilities) : bool := atLeast c consumerGroupDescribeKey 0.
Definition SupportsListOffsetsIsolation (c : Capabilities) : bool :=
  atLeast c listOffsetsKey listOffsetsIsolationVersion.
Definition SupportsListOffsetsAfterMilli (c : Capabilities) : bool :=
  atLeast c listOffsetsKey listOffsetsTimestampVersion.
Definition SupportsLogDirTotalBytes (c : Capabilities) : bool :=
  atLeast c describeLogDirsKey describeLogDirsTotalBytesVersion.
Definition SupportsOffsetForLeaderEpoch (c : Capabilities) : bool := atLeast c offsetForLeaderEpochKey 0.
Definition SupportsListPartitionReassignments (c : Capabilities) : bool :=
  atLeast c listPartitionReassignmentsKey 0.
Definition SupportsMaxTimestampOffsets (c : Capabilities) : bool := atLeast c listOffsetsKey 7.
Definition SupportsLocalLogStartOffsets (c : Capabilities) : bool := atLeast c listOffsetsKey 8.
Definition SupportsLatestTieredOffsets (c : Capabilities) : bool := atLeast c listOffsetsKey 9.
Definition SupportsListGroupsTypes (c : Capabilities) : bool := atLeast c listGroupsKey 5.
Definition SupportsShareGroupDescribe (c : Capabilities) : bool := atLeast c shareGroupDescribeKey 0.
Definition SupportsDescribeConfigs (c : Capabilities) : bool := atLeast c describeConfigsKey 1.

Definition All (c : Capabilities) : gmap string bool :=
  list_to_map
    [("group_states_filter"%string, SupportsGroupStatesFilter c);
     ("consumer_group_describe"%string, SupportsConsumerGroupDescribe c);
     ("list_offsets_isolation"%string, SupportsListOffsetsIsolation c);
     ("list_offsets_after_milli"%string, SupportsListOffsetsAfterMilli c);
     ("log_dir_total_bytes"%string, SupportsLogDirTotalBytes c);
     ("offset_for_leader_epoch"%string, SupportsOffsetForLeaderEpoch c);
     ("list_partition_reassignments"%string, SupportsListPartitionReassignments c)].

(** The error names the broker that cannot honour the filter. *)
Definition checkGroupStateFilter (c : Capabilities) : option goerr :=
  let f := floor_at c listGroupsKey in
  if negb (kf_present f) && bool_decide (brokers c = []) then Some errNoBroker
  else if negb (kf_present f) then
    Some (PlainError ("broker " ++ pretty (kf_nodeID f) ++ " does not support ListGroups at all"))
  else if kf_version f <? listGroupsStatesFilterVersion then
    Some (PlainError ("broker " ++ pretty (kf_nodeID f) ++ " offers ListGroups v" ++ pretty (kf_version f)
      ++ ", but filtering by group state needs v" ++ pretty listGroupsStatesFilterVersion ++ " (KIP-518, Kafka "
      ++ listGroupsStatesFilterKafka ++ "+); an older broker ignores the filter and returns every group"))
  else None.

Definition CheckGroupStateFilter `{!KadmVersions} (answer : goerr + BrokersApiVersions) :
    St (option Capabilities) (option goerr) :=
  r ← Probe answer; mret (match r with inl e => Some e | inr c => checkGroupStateFilter c end).

(** The two questions that leave it to the caller what to switch off. *)
Definition Client_SupportsConsumerGroupDescribe `{!KadmVersions} (answer : goerr + BrokersApiVersions) :
    St (option Capabilities) (goerr + bool) :=
  r ← Probe answer; mret (match r with inl e => inl e | inr c => inr (SupportsConsumerGroupDescribe c) end).

Definition Client_SupportsLastStableOffset `{!KadmVersions} (answer : goerr + BrokersApiVersions) :
    St (option Capabilities) (goerr + bool) :=
  r ← Probe answer; mret (match r with inl e => inl e | inr c => inr (SupportsListOffsetsIsolation c) end).

Definition Brokers (c : Capabilities) : list BrokerSoftware := brokers c.

Definition MixedVersions (c : Capabilities) : bool :=
  match brokers c with
  | [] => false
  | b0 :: _ => existsb (fun b => negb (String.eqb (bs_Version b) (bs_Version b0))) (brokers c)
  end.

(** ** The wire block *)

Definition wireAPINames : gmap Z string :=
  list_to_map
    [(listOffsetsKey, "list_offsets"%string); (metadataKey, "metadata"%string);
     (listGroupsKey, "list_groups"%string); (offsetForLeaderEpochKey, "offset_for_leader_epoch"%string);
     (describeLogDirsKey, "describe_log_dirs"%string);
     (listPartitionReassignmentsKey, "list_partition_reassignments"%string);
     (consumerGroupDescribeKey, "consumer_group_describe"%string)].

Definition features (c : Capabilities) : gmap string bool :=
  list_to_map
    [("last_stable_offset"%string, SupportsListOffsetsIsolation c);
     ("list_offsets_after_milli"%string, SupportsListOffsetsAfterMilli c);
     ("group_state_filter"%string, SupportsGroupStatesFilter c);
     ("consumer_group_describe"%string, SupportsConsumerGroupDescribe c);
     ("log_dirs_volume_bytes"%string, SupportsLogDirTotalBytes c);
     ("offset_for_leader_epoch"%string, SupportsOffsetForLeaderEpoch c);
     ("list_partition_reassignments"%string, SupportsListPartitionReassignments c)].

(** The range over [b.keys] writes one entry per named key; its order does not
    matter, since [wireAPINames] gives distinct names. *)
Definition wireKeys (keys : gmap Z Z) : gmap string Z :=
  foldl (fun m '(key, max) => match wireAPINames !! key with Some name => <[name := max]> m | None => m end)
    ∅ (map_to_list keys).

Definition wireRow (b : brokerKeys) : BrokerCapability :=
  mkBrokerCapability (bk_nodeID b)
    (if String.eqb (bk_version b) unknownVersion then ""%string else bk_version b) (wireKeys (bk_keys b)).

(** The versions the loop appends, with [seen] the ones it has met. *)
Fixpoint wireVersions (bs : list brokerKeys) (seen : gset string) : list string :=
  match bs with
  | [] => []
  | b :: bs =>
      if decide (bk_version b <> unknownVersion /\ bk_version b ∉ seen)
      then bk_version b :: wireVersions bs ({[ bk_version b ]} ∪ seen)
      else wireVersions bs seen
  end.

Definition wireOf (c : Capabilities) : ClusterCapabilities :=
  let versions := sort_slice str_ltb (wireVersions (probed c) ∅) in
  mkClusterCapabilities (features c) versions (1 <? Z.of_nat (length versions)) (wireRow <$> probed c).

(** The receiver may be nil. *)
Definition Capabilities_Wire (c : option Capabilities) : option ClusterCapabilities := wireOf <$> c.

(** ** Specification *)

(** A broker serves an API at a version when it advertises a maximum that is at
    least that version. *)
Definition offers (keys : gmap Z Z) (key version : Z) : Prop := exists m, keys !! key = Some m /\ version <= m.

#[export] Instance offers_dec keys key version : Decision (offers keys key version).
Proof.
  unfold offers. destruct (keys !! key) as [m|].
  - destruct (decide (version <= m)) as [H|H]; [left; eauto|right; naive_solver].
  - right. naive_solver.
Defined.

(** API versions are [int16]. *)
Definition keys16 (keys : gmap Z Z) : Prop := map_Forall (fun _ m => m <= max_int16) keys.

(** ** Lemmas *)

Lemma foldl_restrict_lookup (keys : gmap Z Z) ks (m : gmap Z Z) k :
  foldl (fun m key => match keys !! key with Some max => <[key := max]> m | None => m end) m ks !! k =
  if decide (k ∈ ks) then match keys !! k with Some v => Some v | None => m !! k end else m !! k.
Proof.
  revert m. induction ks as [|k' ks IH]; intros m; [done|]. simpl. rewrite IH.
  destruct (decide (k' = k)) as [->|Hk].
  - rewrite (decide_True (P := k ∈ k :: ks)) by left.
    destruct (keys !! k) as [v|] eqn:E; [rewrite lookup_insert_eq|]; by destruct (decide _).
  - assert (match keys !! k' with Some max => <[k' := max]> m | None => m end !! k = m !! k) as ->.
    { destruct (keys !! k'); [by rewrite lookup_insert_ne|done]. }
    destruct (decide (k ∈ ks)) as [Hin|Hin].
    + by rewrite decide_True by (by right).
    + rewrite decide_False; [done|]. rewrite elem_of_cons. naive_solver.
Qed.

Lemma probeKeys_lookup v k :
  probeKeys v !! k = if decide (k ∈ probedKeys) then bav_KeyMaxVersion v !! k else None.
Proof. unfold probeKeys. rewrite foldl_restrict_lookup, lookup_empty. by repeat case_match. Qed.

Lemma probeLoop_inr vs bs :
  probeLoop vs = inr bs <-> Forall (fun v => bav_Err v = None) vs /\ bs = probeRow <$> vs.
Proof.
  revert bs. induction vs as [|v vs IH]; intros bs; simpl; [naive_solver|].
  rewrite Forall_cons. destruct (bav_Err v); [naive_solver|].
  destruct (probeLoop vs) as [e|bs'].
  - split; [done|]. intros [[_ Hv] _]. destruct (IH (probeRow <$> vs)) as [_ Hx]. by discriminate Hx.
  - destruct (IH bs') as [[Hf ->] _]; [done|]. naive_solver.
Qed.

(** The loop stops at the first broker, in node order, that did not answer. *)
Lemma probeLoop_inl vs e :
  probeLoop vs = inl e <->
  exists v err, e = errNoAnswer v err /\ bav_Err v = Some err /\
    exists pre post, vs = pre ++ v :: post /\ Forall (fun v => bav_Err v = None) pre.
Proof.
  induction vs as [|v vs IH]; simpl.
  - split; [done|]. intros (v & err & _ & _ & [|] & post & Hvs & _); done.
  - destruct (bav_Err v) as [err|] eqn:Ev.
    + split.
      * intros [= <-]. exists v, err. split; [done|]. split; [done|]. exists [], vs. split; [done|constructor].
      * intros (v' & err' & -> & Hv & pre & post & Hvs & Hpre).
        destruct pre as [|p pre]; simplify_eq/=; [done|]. apply Forall_cons in Hpre as [? _]. congruence.
    + assert (match probeLoop vs with inl e => inl e | inr bs => inr (probeRow v :: bs) end = inl e <->
        probeLoop vs = inl e) as -> by (destruct (probeLoop vs); naive_solver).
      rewrite IH. split.
      * intros (v' & err & He & Hv & pre & post & -> & Hpre). exists v', err. split; [done|]. split; [done|].
        exists (v :: pre), post. split; [done|]. by constructor.
      * intros (v' & err & He & Hv & pre & post & Hvs & Hpre). exists v', err. split; [done|]. split; [done|].
        destruct pre as [|p pre]; simplify_eq/=.
        apply Forall_cons in Hpre as [_ ?]. eauto.
Qed.

(** The fold over the brokers, from any floor reached so far. *)
Lemma floorLoop_offers key v bs f :
  kf_present f = true ->
  kf_present (floorLoop key bs f) && (v <=? kf_version (floorLoop key bs f)) = true <->
  v <= kf_version f /\ Forall (fun b => offers (bk_keys b) key v) bs.
Proof.
  revert f. induction bs as [|b bs IH]; intros f Hf; simpl.
  - rewrite Hf, Forall_nil. simpl. rewrite Z.leb_le. naive_solver.
  - rewrite Forall_cons. unfold offers at 1. destruct (bk_keys b !! key) as [m|]; [|naive_solver].
    rewrite IH by (by destruct (m <? kf_version f)).
    destruct (Z.ltb_spec m (kf_version f)); simpl; naive_solver lia.
Qed.

Lemma floor_at_fold bs key :
  floor_at (foldCapabilities bs) key = if decide (key ∈ probedKeys) then floorOf bs key else mkKeyFloor 0 0 false.
Proof.
  unfold floor_at, foldCapabilities. cbn [floors].
  destruct (foldl _ _ _ !! key) as [f|] eqn:E.
  - apply (foldl_insert_unique (fun key => key) (floorOf bs)) in E as (x & Hx & <- & <-);
      [|by apply (bool_decide_unpack _); vm_compute|done]. by rewrite decide_True.
  - rewrite decide_False; [done|]. intros Hin.
    assert (foldl (fun m key => <[key := floorOf bs key]> m) (∅ : gmap Z keyFloor) probedKeys !! key =
      Some (floorOf bs key)) as Hs; [|congruence].
    apply (foldl_insert_unique (fun key => key) (floorOf bs));
      [by apply (bool_decide_unpack _); vm_compute|done|eauto].
Qed.

Lemma atLeast_fold bs key v :
  v <= max_int16 ->
  atLeast (foldCapabilities bs) key v = true <->
  key ∈ probedKeys /\ bs <> [] /\ Forall (fun b => offers (bk_keys b) key v) bs.
Proof.
  intros Hv. unfold atLeast. rewrite floor_at_fold. destruct (decide (key ∈ probedKeys)) as [Hin|Hin].
  - destruct bs as [|b bs]; [naive_solver|]. unfold floorOf.
    rewrite floorLoop_offers by done. simpl. naive_solver.
  - simpl. naive_solver.
Qed.

(** Whom the floor names: a broker without the key, or the first of those that
    offer the least. *)
Lemma floorLoop_names key bs f :
  let f' := floorLoop key bs f in
  (exists pre b post, bs = pre ++ b :: post /\ kf_nodeID f' = bk_nodeID b /\
     ((bk_keys b !! key = None /\ kf_present f' = false) \/
      (kf_present f' = true /\ bk_keys b !! key = Some (kf_version f') /\ kf_version f' < kf_version f /\
       Forall (fun b => exists m, bk_keys b !! key = Some m /\ kf_version f' < m) pre))) \/
  f' = f /\ Forall (fun b => exists m, bk_keys b !! key = Some m /\ kf_version f <= m) bs.
Proof.
  revert f. induction bs as [|b bs IH]; intros f; simpl; [right; by constructor|].
  destruct (bk_keys b !! key) as [m|] eqn:Em.
  2:{ left. exists [], b, bs. split; [done|]. split; [done|]. by left. }
  destruct (Z.ltb_spec m (kf_version f)) as [Hlt|Hge].
  - left. destruct (IH (mkKeyFloor (bk_nodeID b) m true)) as [(pre & b' & post & -> & Hn & Hb)|[-> Hall]].
    + exists (b :: pre), b', post. split; [done|]. split; [done|].
      destruct Hb as [?|(Hp & Hk & Hv & Hpre)]; [by left|right]. simpl in *.
      split; [done|]. split; [done|]. split; [lia|]. constructor; [eauto|done].
    + exists [], b, bs. split; [done|]. split; [done|]. right. simpl. split; [done|]. split; [done|].
      split; [lia|constructor].
  - destruct (IH f) as [(pre & b' & post & -> & Hn & Hb)|[-> Hall]].
    + left. exists (b :: pre), b', post. split; [done|]. split; [done|].
      destruct Hb as [?|(Hp & Hk & Hv & Hpre)]; [by left|right].
      split; [done|]. split; [done|]. split; [done|]. constructor; [|done]. exists m. split; [done|]. lia.
    + right. split; [done|]. constructor; [eauto|done].
Qed.

#[export] Instance kadm_versions_laws : @KadmVersionsLaws kadm_versions.
Proof. constructor. intros vs. apply sort_values_sorted, _. Qed.

Lemma probeBrokers_spec `{!KadmVersions, !KadmVersionsLaws} vs bs :
  probeBrokers vs = inr bs <->
  vs <> ∅ /\ map_Forall (fun _ v => bav_Err v = None) vs /\ bs = probeRow <$> versionsSorted vs.
Proof.
  unfold probeBrokers. destruct (decide (vs = ∅)) as [->|Hne]; [naive_solver|].
  rewrite probeLoop_inr. rewrite list.Forall_forall. unfold map_Forall.
  pose proof (fun x => sorted_values_elem _ _ _ x (versionsSorted_law vs)) as Hs.
  split; intros (H1 & H2).
  - split; [done|]. split; [|done]. intros n v Hv. apply H1, Hs. eauto.
  - destruct H2 as [H2 ->]. split; [|done]. intros v Hv. apply Hs in Hv as [n Hv]. by apply (H2 n).
Qed.

(** The rows the fold reads serve exactly what the brokers' answers say, for the
    keys that were probed. *)
Lemma probeRow_offers v key version :
  key ∈ probedKeys ->
  offers (bk_keys (probeRow v)) key version <-> offers (bav_KeyMaxVersion v) key version.
Proof. intros Hk. unfold offers. simpl. by rewrite probeKeys_lookup, decide_True. Qed.

Lemma elem_of_wireVersions bs seen x :
  x ∈ wireVersions bs seen <-> x <> unknownVersion /\ x ∉ seen /\ x ∈ bk_version <$> bs.
Proof.
  revert seen. induction bs as [|b bs IH]; intros seen; simpl; [set_solver|].
  destruct (decide _) as [[Hu Hs]|Hn].
  - rewrite !elem_of_cons, IH. destruct (decide (x = bk_version b)) as [->|]; set_solver.
  - rewrite elem_of_cons, IH. destruct (decide (x = bk_version b)) as [->|]; [|set_solver]. naive_solver.
Qed.

Lemma wireVersions_NoDup bs seen : NoDup (wireVersions bs seen).
Proof.
  revert seen. induction bs as [|b bs IH]; intros seen; simpl; [constructor|].
  destruct (decide _); [|done]. constructor; [|done]. rewrite elem_of_wireVersions. set_solver.
Qed.

Lemma wireAPINames_inj k k' n : wireAPINames !! k = Some n -> wireAPINames !! k' = Some n -> k = k'.
Proof.
  assert (Forall (fun p => Forall (fun q => p.2 = q.2 -> p.1 = q.1) (map_to_list wireAPINames))
    (map_to_list wireAPINames)) as Hall by (apply (bool_decide_unpack _); vm_compute; exact I).
  rewrite list.Forall_forall in Hall. intros Hk%elem_of_map_to_list Hk'%elem_of_map_to_list.
  specialize (Hall _ Hk). rewrite list.Forall_forall in Hall. exact (Hall _ Hk' eq_refl).
Qed.

(** The wire entry of one probed key. *)
Definition named (p : Z * Z) : option (string * Z) := (fun n => (n, p.2)) <$> wireAPINames !! p.1.

Lemma wireKeys_named keys :
  wireKeys keys = foldl (fun m p => <[p.1 := p.2]> m) ∅ (omap named (map_to_list keys)).
Proof.
  unfold wireKeys. generalize (∅ : gmap string Z). induction (map_to_list keys) as [|[k v] l IH]; intros m0; [done|].
  cbn [foldl omap list_omap]. unfold named at 1. simpl. destruct (wireAPINames !! k); apply IH.
Qed.

Lemma elem_of_named (l : list (Z * Z)) n (v : Z) : (n, v) ∈ omap named l <-> exists k, (k, v) ∈ l /\ wireAPINames !! k = Some n.
Proof.
  rewrite list_elem_of_omap. unfold named. split.
  - intros ([k v'] & Hin & (n' & Hk & [= -> ->])%fmap_Some). eauto.
  - intros (k & Hin & Hk). exists (k, v). simpl. by rewrite Hk.
Qed.

Lemma named_NoDup (l : list (Z * Z)) : NoDup l.*1 -> NoDup (omap named l).*1.
Proof.
  induction l as [|[k v] l IH]; simpl; [constructor|]. intros [Hk Hnd]%NoDup_cons.
  unfold named at 1. simpl. destruct (wireAPINames !! k) as [n|] eqn:En; simpl; [|by apply IH].
  constructor; [|by apply IH]. rewrite list_elem_of_fmap. intros ([n' v'] & Hn' & Hin). simpl in Hn'. subst n'.
  apply elem_of_named in Hin as (k' & Hin & Hk'). apply Hk. rewrite (wireAPINames_inj _ _ _ En Hk').
  apply list_elem_of_fmap. by exists (k', v').
Qed.

Lemma wireKeys_lookup keys name m :
  wireKeys keys !! name = Some m <-> exists key, wireAPINames !! key = Some name /\ keys !! key = Some m.
Proof.
  rewrite wireKeys_named, (foldl_insert_unique fst snd);
    [|apply named_NoDup, NoDup_fst_map_to_list|done].
  split.
  - intros ([n v] & Hin & <- & <-). apply elem_of_named in Hin as (k & Hkv & Hn).
    apply elem_of_map_to_list in Hkv. eauto.
  - intros (k & Hn & Hk). exists (name, m). split; [|done]. apply elem_of_named.
    exists k. by rewrite elem_of_map_to_list.
Qed.

(** What the fold of a probe's answer supports. *)
Lemma atLeast_probed `{!KadmVersions, !KadmVersionsLaws} (vs : BrokersApiVersions) key version :
  vs <> ∅ -> version <= max_int16 ->
  atLeast (foldCapabilities (probeRow <$> versionsSorted vs)) key version = true <->
  key ∈ probedKeys /\ map_Forall (fun _ v => offers (bav_KeyMaxVersion v) key version) vs.
Proof.
  intros Hne Hv. rewrite atLeast_fold by done.
  pose proof (fun x => sorted_values_elem _ _ _ x (versionsSorted_law vs)) as Hs.
  rewrite Forall_fmap, list.Forall_forall. unfold map_Forall. split.
  - intros (Hk & _ & Hall). split; [done|]. intros n v Hn.
    apply probeRow_offers; [done|]. apply Hall, Hs. eauto.
  - intros [Hk Hall]. split; [done|]. split.
    + apply map_choose in Hne as (n & v & Hn). assert (v ∈ versionsSorted vs) as Hv' by (apply Hs; eauto).
      by destruct (versionsSorted vs); [apply not_elem_of_nil in Hv'|].
    + intros v [n Hn]%Hs. simpl. apply probeRow_offers; [done|]. by apply (Hall n).
Qed.

Lemma checkGroupStateFilter_none bs : bs <> [] ->
  checkGroupStateFilter (foldCapabilities bs) = None <-> SupportsGroupStatesFilter (foldCapabilities bs) = true.
Proof.
  intros Hne. set (c := foldCapabilities bs). unfold checkGroupStateFilter, SupportsGroupStatesFilter, atLeast.
  assert (bool_decide (brokers c = []) = false) as -> by (apply bool_decide_eq_false; by destruct bs).
  rewrite andb_false_r. destruct (kf_present _); simpl; [|done].
  destruct (Z.ltb_spec (kf_version (floor_at c listGroupsKey)) listGroupsStatesFilterVersion);
    rewrite Z.leb_le; naive_solver lia.
Qed.

(** ** Theorems *)

(** C33: the probe succeeds exactly when some broker was asked and every one of
    them answered; a success is kept and never asked again, a failure keeps
    nothing; and what a successful probe supports is the minimum: a probed API is
    at a version or above exactly when every broker of the answer advertises it at
    that version or above, and an API that was not probed never is. *)
Theorem probe_sound `{!KadmVersions, !KadmVersionsLaws} (vs : BrokersApiVersions) :
  ((exists c, (Probe (inr vs) None).1 = inr c) <->
     vs <> ∅ /\ map_Forall (fun _ v => bav_Err v = None) vs) /\
  (forall c, (Probe (inr vs) None).1 = inr c ->
     (Probe (inr vs) None).2 = Some c /\ (forall answer, Probe answer (Some c) = (inr c, Some c)) /\
     forall key version, version <= max_int16 ->
       atLeast c key version = true <->
       key ∈ probedKeys /\ map_Forall (fun _ v => offers (bav_KeyMaxVersion v) key version) vs) /\
  (forall answer e, (Probe answer None).1 = inl e -> (Probe answer None).2 = None).
Proof.
  split; [|split].
  - unfold Probe. split.
    + intros [c Hc]. destruct (probeBrokers vs) as [e|bs] eqn:E; [done|].
      apply probeBrokers_spec in E as (? & ? & _). done.
    + intros [Hne Hall]. pose proof (probeBrokers_spec vs (probeRow <$> versionsSorted vs)) as [_ Hr].
      rewrite Hr by done. simpl. eauto.
  - intros c. unfold Probe. destruct (probeBrokers vs) as [e|bs] eqn:E; [done|]. intros [= <-].
    split; [done|]. split; [done|]. intros key version Hv.
    apply probeBrokers_spec in E as (Hne & _ & ->). by apply atLeast_probed.
  - intros answer e. unfold Probe. destruct answer as [|vs']; [done|]. by destruct (probeBrokers vs').
Qed.

(** The answer to a question asked of the client is about every broker, whether it
    probes the cluster or remembers: asked again it is the same, whatever a new
    probe would find. *)
Theorem question_exact `{!KadmVersions, !KadmVersionsLaws} (vs : BrokersApiVersions) (answer : goerr + BrokersApiVersions) (b : bool) :
  (Client_SupportsConsumerGroupDescribe (inr vs) None).1 = inr b ->
  (b = true <-> map_Forall (fun _ v => offers (bav_KeyMaxVersion v) consumerGroupDescribeKey 0) vs) /\
  (Client_SupportsConsumerGroupDescribe answer (Client_SupportsConsumerGroupDescribe (inr vs) None).2).1 = inr b.
Proof.
  unfold Client_SupportsConsumerGroupDescribe, Probe. simpl. destruct (probeBrokers vs) as [e|bs] eqn:E; [done|]. intros [= <-].
  split; [|done]. apply probeBrokers_spec in E as (Hne & _ & ->). unfold SupportsConsumerGroupDescribe.
  rewrite atLeast_probed by done. split; [by intros [_ Hall]|]. intros Hall. split; [|done]. by apply (bool_decide_unpack _).
Qed.

(** A states filter is accepted exactly when every broker can honour it, and
    a refusal names a broker of the answer that cannot: one that does not list
    groups, or the first of those that offer the lowest version, below 4. *)
Theorem checkGroupStateFilter_names (bs : list brokerKeys) :
  Forall (fun b => keys16 (bk_keys b)) bs -> bs <> [] ->
  let c := foldCapabilities bs in
  (checkGroupStateFilter c = None <-> SupportsGroupStatesFilter c = true) /\
  (checkGroupStateFilter c = None <-> Forall (fun b => offers (bk_keys b) listGroupsKey 4) bs) /\
  (forall e, checkGroupStateFilter c = Some e ->
     exists b rest, b ∈ bs /\ errMsg e = "broker " ++ pretty (bk_nodeID b) ++ rest /\
       ~ offers (bk_keys b) listGroupsKey 4)%string.
Proof.
  intros H16 Hne c.
  pose proof (checkGroupStateFilter_none bs Hne : checkGroupStateFilter c = None <-> _) as Hiff.
  split; [done|]. split.
  { rewrite Hiff. unfold SupportsGroupStatesFilter, c. rewrite atLeast_fold by done.
    split; [by intros (_ & _ & ?)|]. intros ?. split; [by apply (bool_decide_unpack _); vm_compute|done]. }
  intros e. unfold checkGroupStateFilter.
  assert (bool_decide (brokers c = []) = false) as -> by (apply bool_decide_eq_false; by destruct bs).
  rewrite andb_false_r. unfold c. rewrite floor_at_fold, decide_True by (by apply (bool_decide_unpack _); vm_compute).
  unfold floorOf. destruct (floorLoop_names listGroupsKey bs (mkKeyFloor 0 max_int16 (bool_decide (bs <> []))))
    as [(pre & b & post & Hbs & Hn & Hb)|[-> Hall]].
  - intros He. destruct Hb as [[Hk Hp]|(Hp & Hk & _)]; rewrite Hp in He; simpl in He.
    + exists b. eexists. split; [set_solver|]. injection He as <-. rewrite Hn. split; [done|].
      unfold offers. by intros (m & ? & _); congruence.
    + destruct (Z.ltb_spec (kf_version (floorLoop listGroupsKey bs (mkKeyFloor 0 max_int16 (bool_decide (bs <> [])))))
        listGroupsStatesFilterVersion) as [Hlt|]; [|done].
      exists b. eexists. split; [set_solver|]. injection He as <-. rewrite Hn. split; [done|].
      unfold offers. intros (m & Hm & Hle). unfold listGroupsStatesFilterVersion in Hlt. simplify_eq. lia.
  - simpl. by rewrite bool_decide_eq_true_2.
Qed.

(** The wire block is the probe's answer: one row per broker in probe order,
    with its maxima under their wire names and nothing else; the software versions
    are the known ones, each once and sorted; mixed versions are reported exactly
    when two brokers run different known versions; each feature is the verdict of
    its own question, and a question that was not asked has no entry. *)
Theorem wire_faithful (bs : list brokerKeys) :
  let c := foldCapabilities bs in let w := wireOf c in
  Forall2 (fun b r => bc_BrokerID r = bk_nodeID b /\
      (bc_SoftwareVersion r = if decide (bk_version b = unknownVersion) then ""%string else bk_version b) /\
      forall name m, bc_APIMaxVersions r !! name = Some m <->
        exists key, wireAPINames !! key = Some name /\ bk_keys b !! key = Some m) bs (cc_Brokers w) /\
  (forall x, x ∈ cc_SoftwareVersions w <-> x <> unknownVersion /\ x ∈ bk_version <$> bs) /\
  NoDup (cc_SoftwareVersions w) /\ StronglySorted (not_less str_ltb) (cc_SoftwareVersions w) /\
  (cc_MixedVersions w = true <-> exists x y, x <> y /\ x <> unknownVersion /\ y <> unknownVersion /\
     x ∈ bk_version <$> bs /\ y ∈ bk_version <$> bs) /\
  cc_Features w = features c /\ size (features c) = 7%nat.
Proof.
  intros c w.
  assert (forall x, x ∈ cc_SoftwareVersions w <-> x <> unknownVersion /\ x ∈ bk_version <$> bs) as Hin.
  { intros x. simpl. rewrite elem_of_sort_slice, elem_of_wireVersions. set_solver. }
  assert (NoDup (cc_SoftwareVersions w)) as Hnd.
  { simpl. rewrite sort_slice_perm. apply wireVersions_NoDup. }
  split; [|split; [done|split; [done|split; [by apply sort_slice_sorted, _|split; [|split; [done|]]]]]].
  - simpl. apply Forall2_fmap_r, Forall2_refl'. intros b. simpl. split; [done|]. split.
    + destruct (String.eqb_spec (bk_version b) unknownVersion), (decide (bk_version b = unknownVersion)); congruence.
    + intros name m. apply wireKeys_lookup.
  - change (cc_MixedVersions w) with (1 <? Z.of_nat (length (cc_SoftwareVersions w))).
    rewrite Z.ltb_lt. destruct (cc_SoftwareVersions w) as [|x [|y l]] eqn:E; simpl length.
    + split; [lia|]. intros (x & y & _ & Hx & _ & Hxb & _). exfalso.
      apply (not_elem_of_nil x). rewrite <- E in *. by apply Hin.
    + split; [lia|]. intros (x' & y & Hne & Hx & Hy & Hxb & Hyb). exfalso. apply Hne.
      transitivity x; [|symmetry]; apply list_elem_of_singleton; apply Hin; done.
    + split; [|lia]. intros _. exists x, y.
      pose proof (proj1 (Hin x) ltac:(left)) as [Hx Hxb]. pose proof (proj1 (Hin y) ltac:(right; left)) as [Hy Hyb].
      apply NoDup_cons in Hnd as [Hxy _]. split; [intros ->; apply Hxy; left|done].
  - unfold features. rewrite map_size_list_to_map; [done|]. by apply (bool_decide_unpack _); vm_compute.
Qed.

(** [MixedVersions] counts a broker of unknown version as one more version, where
    the wire block leaves it out: the two verdicts differ on a cluster with one. *)
Example mixed_unknown :
  let c := foldCapabilities [mkBrokerKeys 1 "v3.7"%string ∅; mkBrokerKeys 2 unknownVersion ∅] in
  MixedVersions c = true /\ cc_MixedVersions (wireOf c) = false.
Proof. by vm_compute. Qed.

(** ** Witnesses *)

Definition sample_versions : BrokersApiVersions :=
  list_to_map
    [(2, mkBrokerApiVersions 2 None true "v2.5" (list_to_map [(16, 3); (2, 9)]));
     (1, mkBrokerApiVersions 1 None true "v3.7" (list_to_map [(16, 5); (2, 8); (99, 4)]))].

Definition sample_rows : list brokerKeys := probeRow <$> @versionsSorted kadm_versions sample_versions.

Theorem probe_sound_witness :
  exists c, (@Probe kadm_versions (inr sample_versions) None).1 = inr c /\
    SupportsLocalLogStartOffsets c = true /\ SupportsGroupStatesFilter c = false.
Proof.
  destruct (@probe_sound kadm_versions _ sample_versions) as (Hiff & Hc & _).
  destruct (proj2 Hiff) as [c Hp]; [by apply (bool_decide_unpack _); vm_compute|].
  exists c. split; [done|]. destruct (Hc c Hp) as (_ & _ & Ha). split.
  - apply (Ha listOffsetsKey 8); [done|].
    split; [by apply (bool_decide_unpack _); vm_compute|].
    by apply (bool_decide_unpack _); vm_compute.
  - injection Hp as <-. by vm_compute.
Defined.

Theorem checkGroupStateFilter_names_witness :
  exists e b rest, checkGroupStateFilter (foldCapabilities sample_rows) = Some e /\ b ∈ sample_rows /\
    errMsg e = ("broker " ++ pretty (bk_nodeID b) ++ rest)%string.
Proof.
  destruct (checkGroupStateFilter_names sample_rows) as (_ & _ & Hn);
    [by apply (bool_decide_unpack _); vm_compute|done|].
  destruct (checkGroupStateFilter (foldCapabilities sample_rows)) as [e|] eqn:E.
  - destruct (Hn e eq_refl) as (b & rest & Hb & He & _). by exists e, b, rest.
  - exfalso. revert E. by vm_compute.
Defined.
