(* ===== verification/Strconv.v ===== *)
(** * Strconv: what the program uses of Go's [strconv], [strings] and [time]

    Integers, booleans and durations read from text, durations written as text,
    and the trimming and splitting of lists.  Two things are parameters: the
    floating-point product [ParseDuration] computes for a fraction, and the
    Unicode tables the case functions fall back on for text that is not ASCII. *)

From Stdlib Require Import ZArith Lia Ascii.
From stdpp Require Import prelude strings numbers pretty.
From S2P Require Import Prelude Filter.

Class GoLibrary := {
  scaled : Z -> Z -> Z -> Z;          (* uint64(float64(f) * (float64(unit) / scale)) *)
  unicodeLower : string -> string;
  unicodeEqualFold : string -> string -> bool;
}.

(** ** Integers *)

Definition digit_of (c : ascii) : option Z :=
  let n := Z.of_N (N_of_ascii c) in if (48 <=? n) && (n <=? 57) then Some (n - 48) else None.

Fixpoint digits (s : string) (acc : Z) : option Z :=
  match s with
  | EmptyString => Some acc
  | String c s => match digit_of c with Some d => digits s (acc * 10 + d) | None => None end
  end.

Definition unsigned (s : string) : option Z := if String.eqb s "" then None else digits s 0.

(** [strconv.Atoi]: an optional sign and decimal digits, in [int64]. *)
Definition Atoi (s : string) : option Z :=
  n ← match s with
      | String "-" s => Z.opp <$> unsigned s
      | String "+" s => unsigned s
      | _ => unsigned s
      end;
  if (- 2 ^ 63 <=? n) && (n <=? max_int64) then Some n else None.

(** [strconv.ParseBool]. *)
Definition ParseBool (s : string) : option bool :=
  if bool_decide (s ∈ ["1"; "t"; "T"; "TRUE"; "true"; "True"]%string) then Some true
  else if bool_decide (s ∈ ["0"; "f"; "F"; "FALSE"; "false"; "False"]%string) then Some false
  else None.

(** ** Durations, in nanoseconds *)

Definition Microsecond : Z := 1000.
Definition Millisecond : Z := 1000 * Microsecond.
Definition Second : Z := 1000 * Millisecond.
Definition Minute : Z := 60 * Second.
Definition Hour : Z := 60 * Minute.

(** [Time.Sub], which saturates. *)
Definition Sub (t u : Z) : Z := Z.max (- 2 ^ 63) (Z.min max_int64 (t - u)).

(** [leadingInt]: the digits of the front and what follows; [None] on overflow. *)
Fixpoint leadingInt (x : Z) (s : string) : option (Z * string) :=
  match s with
  | EmptyString => Some (x, s)
  | String c s' =>
      match digit_of c with
      | None => Some (x, s)
      | Some d =>
          if 2 ^ 63 / 10 <? x then None
          else let x := x * 10 + d in if 2 ^ 63 <? x then None else leadingInt x s'
      end
  end.

(** [leadingFraction]: like [leadingInt], but digits past an overflow are dropped. *)
Fixpoint leadingFraction (x scale : Z) (overflow : bool) (s : string) : Z * Z * string :=
  match s with
  | EmptyString => (x, scale, s)
  | String c s' =>
      match digit_of c with
      | None => (x, scale, s)
      | Some d =>
          if overflow then leadingFraction x scale true s'
          else if max_int64 / 10 <? x then leadingFraction x scale true s'
          else let y := x * 10 + d in
               if 2 ^ 63 <? y then leadingFraction x scale true s' else leadingFraction y (scale * 10) false s'
      end
  end.

(** The unit's text: everything before the next digit or dot. *)
Fixpoint unitText (s : string) : string * string :=
  match s with
  | EmptyString => (EmptyString, EmptyString)
  | String c s' =>
      if bool_decide (c = "."%char) || bool_decide (is_Some (digit_of c)) then (EmptyString, s)
      else let '(u, rest) := unitText s' in (String c u, rest)
  end.

(** The micro sign, U+00B5, and the Greek mu, U+03BC, in UTF-8. *)
Definition micro : string := String (ascii_of_nat 194) (String (ascii_of_nat 181) EmptyString).
Definition mu : string := String (ascii_of_nat 206) (String (ascii_of_nat 188) EmptyString).

Definition unitMap (u : string) : option Z :=
  if String.eqb u "ns" then Some 1
  else if String.eqb u "us" || String.eqb u (micro ++ "s") || String.eqb u (mu ++ "s") then Some Microsecond
  else if String.eqb u "ms" then Some Millisecond
  else if String.eqb u "s" then Some Second
  else if String.eqb u "m" then Some Minute
  else if String.eqb u "h" then Some Hour
  else None.

Section duration.
Context `{!GoLibrary}.

(** One number with its unit: its nanoseconds and the rest. *)
Definition durationPart (s : string) : option (Z * string) :=
  match s with
  | EmptyString => None
  | String c _ =>
      if negb (bool_decide (c = "."%char) || bool_decide (is_Some (digit_of c))) then None
      else
        '(v, s1) ← leadingInt 0 s;
        let pre := negb (String.length s1 =? String.length s)%nat in
        let '(f, scale, s2, post) :=
          match s1 with
          | String "." s1' =>
              let '(f, scale, s2) := leadingFraction 0 1 false s1' in
              (f, scale, s2, negb (String.length s2 =? String.length s1')%nat)
          | _ => (0, 1, s1, false)
          end in
        if negb pre && negb post then None
        else
          let '(u, s3) := unitText s2 in
          unit ← unitMap u;
          if 2 ^ 63 / unit <? v then None
          else
            let v := v * unit in
            let v' := if 0 <? f then v + scaled f unit scale else v in
            if (0 <? f) && (2 ^ 63 <? v') then None else Some (v', s3)
  end.

(** The loop; each round reads a unit, so the text's length is fuel enough. *)
Fixpoint durationLoop (fuel : nat) (d : Z) (s : string) : option Z :=
  match s with
  | EmptyString => Some d
  | _ =>
      match fuel with
      | O => None
      | S fuel =>
          '(v, s) ← durationPart s;
          let d := d + v in
          if 2 ^ 63 <? d then None else durationLoop fuel d s
      end
  end.

(** [time.ParseDuration]. *)
Definition ParseDuration (s : string) : option Z :=
  let '(neg, s) := match s with
                   | String "-" s => (true, s)
                   | String "+" s => (false, s)
                   | _ => (false, s)
                   end in
  if String.eqb s "0" then Some 0
  else if String.eqb s "" then None
  else
    d ← durationLoop (String.length s) 0 s;
    if neg then Some (wrapS 64 (- d)) else if max_int64 <? d then None else Some d.
End duration.

(** [fmtFrac]: the fraction of [v] over ten to [prec], without trailing zeros. *)
Fixpoint fmtFrac (prec : nat) (v : Z) (printing : bool) (acc : string) : string :=
  match prec with
  | O => if printing then String "." acc else acc
  | S prec =>
      let digit := v mod 10 in
      let printing := printing || negb (digit =? 0) in
      fmtFrac prec (v / 10) printing
        (if printing then String (ascii_of_nat (Z.to_nat (digit + 48))) acc else acc)
  end.

(** [Duration.String]. *)
Definition Duration_String (d : Z) : string :=
  let u := wrapU 64 (if d <? 0 then - d else d) in
  let body :=
    if u <? Second then
      if u =? 0 then "0s"%string
      else if u <? Microsecond then (pretty u ++ "ns")%string
      else if u <? Millisecond then (pretty (u / 1000) ++ fmtFrac 3 u false (micro ++ "s"))%string
      else (pretty (u / 10 ^ 6) ++ fmtFrac 6 u false "ms")%string
    else
      let secs := u / Second in
      let tail := (pretty (secs mod 60) ++ fmtFrac 9 u false "s")%string in
      let mins := secs / 60 in
      if 0 <? mins then
        let tail := (pretty (mins mod 60) ++ "m" ++ tail)%string in
        let hours := mins / 60 in
        if 0 <? hours then (pretty hours ++ "h" ++ tail)%string else tail
      else tail in
  if d <? 0 then String "-" body else body.

(** ** Text *)

Fixpoint isASCII (s : string) : bool :=
  match s with EmptyString => true | String c s => (byte_of c <? 128) && isASCII s end.

Definition lowerByte (c : ascii) : ascii :=
  if (65 <=? byte_of c) && (byte_of c <=? 90) then ascii_of_nat (Z.to_nat (byte_of c + 32)) else c.

Fixpoint lowerASCII (s : string) : string :=
  match s with EmptyString => EmptyString | String c s => String (lowerByte c) (lowerASCII s) end.

Section case.
Context `{!GoLibrary}.

(** [strings.ToLower] and [strings.EqualFold], with their paths for ASCII. *)
Definition ToLower (s : string) : string := if isASCII s then lowerASCII s else unicodeLower s.

Definition EqualFold (s t : string) : bool :=
  if isASCII s && isASCII t then String.eqb (lowerASCII s) (lowerASCII t) else unicodeEqualFold s t.
End case.

(** The white space of [unicode.IsSpace], in UTF-8. *)
Definition byte_string (l : list nat) : string := String.string_of_list_ascii (ascii_of_nat <$> l).

Definition spaces : list string := byte_string <$>
  [[9]; [10]; [11]; [12]; [13]; [32]; [194; 133]; [194; 160]; [225; 154; 128];
   [226; 128; 128]; [226; 128; 129]; [226; 128; 130]; [226; 128; 131]; [226; 128; 132]; [226; 128; 133];
   [226; 128; 134]; [226; 128; 135]; [226; 128; 136]; [226; 128; 137]; [226; 128; 138];
   [226; 128; 168]; [226; 128; 169]; [226; 128; 175]; [226; 129; 159]; [227; 128; 128]]%nat.

(** Strips the encodings of [sps] from the front; each strip shortens the text. *)
Fixpoint stripLoop (fuel : nat) (sps : list string) (s : string) : string :=
  match fuel with
  | O => s
  | S fuel =>
      match list_find (fun sp => String.prefix sp s = true) sps with
      | Some (_, sp) => stripLoop fuel sps (String.substring (String.length sp) (String.length s - String.length sp) s)
      | None => s
      end
  end.

Definition strip (sps : list string) (s : string) : string := stripLoop (String.length s) sps s.

(** [strings.TrimSpace]: the back is stripped as the front of the reversed text. *)
Definition TrimSpace (s : string) : string :=
  String.rev (strip (String.rev <$> spaces) (String.rev (strip spaces s))).

(** [strings.Split(v, ",")]. *)
Fixpoint splitComma (v acc : string) : list string :=
  match v with
  | EmptyString => [String.rev acc]
  | String c v => if bool_decide (c = ","%char) then String.rev acc :: splitComma v "" else splitComma v (String c acc)
  end.

Definition SplitComma (v : string) : list string := splitComma v "".

(** [strings.Join(l, ",")]. *)
Fixpoint JoinComma (l : list string) : string :=
  match l with
  | [] => ""
  | [s] => s
  | s :: l => s ++ "," ++ JoinComma l
  end.

(** A text that a split on commas leaves whole. *)
Definition commaless (s : string) : Prop := ","%char ∉ String.list_ascii_of_string s.

(** ** Lemmas *)

(** *** Splitting on commas *)

Lemma splitComma_app p v acc : commaless p -> splitComma (p +:+ v) acc = splitComma v (String.rev_app p acc).
Proof.
  revert acc. induction p as [|c p IH]; intros acc Hp; [done|].
  unfold commaless in Hp. simpl in Hp. apply not_elem_of_cons in Hp as [Hc Hp].
  simpl. rewrite bool_decide_eq_false_2 by congruence. by apply IH.
Qed.

Lemma SplitComma_Join l : l <> [] -> Forall commaless l -> SplitComma (JoinComma l) = l.
Proof.
  intros Hne Hl. induction Hl as [|p l Hp Hl IH]; [done|]. unfold SplitComma in *. destruct l as [|q l].
  - simpl. rewrite <- (string_append_nil p), splitComma_app by done. simpl. rewrite rev_app_append, string_append_nil.
    by rewrite rev_rev, string_append_nil.
  - change (JoinComma (p :: q :: l)) with (p +:+ "," +:+ JoinComma (q :: l)). rewrite splitComma_app by done.
    simpl. rewrite rev_app_append, string_append_nil, rev_rev. f_equal. by apply IH.
Qed.

Lemma splitComma_spec v acc : exists p ps,
  splitComma v acc = (String.rev acc +:+ p) :: ps /\ v = JoinComma (p :: ps) /\ Forall commaless (p :: ps).
Proof.
  assert (commaless "") as Hnil by apply not_elem_of_nil.
  revert acc. induction v as [|c v IH]; intros acc; simpl.
  - exists ""%string, []. rewrite string_append_nil. split; [done|]. split; [done|]. by constructor.
  - case_bool_decide as Hc.
    + destruct (IH ""%string) as (p & ps & -> & -> & Hp). exists ""%string, (p :: ps). rewrite string_append_nil.
      split; [done|]. subst c. split; [done|]. by constructor.
    + destruct (IH (String c acc)) as (p & ps & -> & -> & Hp). exists (String c p), ps.
      change (String c acc) with (String c "" +:+ acc). rewrite rev_append, <- string_append_assoc.
      split; [done|]. split; [by destruct ps|]. apply Forall_cons in Hp as [Hp Hps]. constructor; [|done].
      unfold commaless. simpl. by rewrite not_elem_of_cons.
Qed.

Lemma SplitComma_spec v : SplitComma v <> [] /\ JoinComma (SplitComma v) = v /\ Forall commaless (SplitComma v).
Proof. unfold SplitComma. destruct (splitComma_spec v "") as (p & ps & -> & -> & Hp). done. Qed.

(** *** Decimal numbers *)

Lemma digit_of_char (x : N) : (x < 10)%N -> digit_of (pretty_N_char x) = Some (Z.of_N x).
Proof.
  intros Hx. assert (x = 0 \/ x = 1 \/ x = 2 \/ x = 3 \/ x = 4 \/ x = 5 \/ x = 6 \/ x = 7 \/ x = 8 \/ x = 9)%N
    as Hc by lia. by repeat destruct Hc as [->|Hc]; [..|subst].
Qed.

Lemma digits_pretty_go (x : N) s : digits (pretty_N_go x s) 0 = digits s (Z.of_N x).
Proof.
  revert s. induction (N.lt_wf_0 x) as [x _ IH]; intros s.
  destruct (decide (x = 0)%N) as [->|Hx]; [done|].
  rewrite pretty_N_go_step by lia. rewrite IH by (apply N.div_lt; lia). simpl.
  rewrite digit_of_char by (apply N.mod_lt; lia). f_equal.
  rewrite N2Z.inj_div, N2Z.inj_mod. change (Z.of_N 10) with 10.
  pose proof (Z.div_mod (Z.of_N x) 10). lia.
Qed.

Lemma digits_pretty (n : Z) : 0 < n -> digits (pretty n) 0 = Some n.
Proof.
  intros Hn. destruct n as [|p|p]; [lia| |lia]. change (pretty (Z.pos p)) with (pretty (N.pos p)).
  unfold pretty, pretty_N. rewrite decide_False by done. by rewrite digits_pretty_go.
Qed.

(** A string of digits has no sign, so [Atoi] reads it whole. *)
Lemma Atoi_digits s n :
  digits s 0 = Some n -> s <> ""%string -> 0 <= n <= max_int64 -> Atoi s = Some n.
Proof.
  intros Hd Hs Hn. assert (unsigned s = Some n) as Hu.
  { unfold unsigned. by destruct (String.eqb_spec s ""). }
  assert (forall m : option Z, m = Some n -> (n ← m;
    if (- 2 ^ 63 <=? n) && (n <=? max_int64) then Some n else None) = Some n) as Hr.
  { intros m ->. simpl. destruct (Z.leb_spec (- 2 ^ 63) n), (Z.leb_spec n max_int64);
      unfold max_int64 in *; simpl; lia || done. }
  unfold Atoi. apply Hr. destruct s as [|c s]; [done|].
  simpl in Hd. destruct c as [[] [] [] [] [] [] [] []]; try exact Hu; discriminate Hd.
Qed.

Lemma Atoi_pretty (n : Z) : 0 < n <= max_int64 -> Atoi (pretty n) = Some n.
Proof.
  intros Hn. apply Atoi_digits; [apply digits_pretty; lia| |lia].
  intros He. pose proof (digits_pretty n ltac:(lia)) as Hd. rewrite He in Hd. simpl in Hd. naive_solver lia.
Qed.


(** *** Durations *)

Lemma digit_of_range c d : digit_of c = Some d -> 0 <= d <= 9.
Proof.
  unfold digit_of. destruct (Z.leb_spec 48 (Z.of_N (N_of_ascii c))), (Z.leb_spec (Z.of_N (N_of_ascii c)) 57);
    simpl; try done. intros [= <-]. lia.
Qed.

(** Digits in range, followed by something else, are read as their number. *)
Lemma leadingInt_digits s rest x n :
  digits s x = Some n -> 0 <= x -> n <= 2 ^ 63 ->
  match rest with EmptyString => True | String c _ => digit_of c = None end ->
  leadingInt x (s ++ rest) = Some (n, rest).
Proof.
  revert x. induction s as [|c s IH]; intros x Hd Hx Hn Hr; simpl in *.
  - injection Hd as <-. destruct rest as [|c rest]; [done|]. simpl. by rewrite Hr.
  - destruct (digit_of c) as [d|] eqn:Ec; [|done]. apply digit_of_range in Ec as Hc.
    assert (x * 10 + d <= n) as Hle.
    { clear -Hd Hx Hc. assert (0 <= x * 10 + d) as H0 by lia. revert Hd H0. generalize (x * 10 + d).
      induction s as [|c s IH]; intros y; simpl; [intros [= ->]; lia|].
      destruct (digit_of c) as [d'|] eqn:E; [|done]. apply digit_of_range in E. intros Hd' H0.
      specialize (IH _ Hd'). lia. }
    rewrite (proj2 (Z.ltb_ge (2 ^ 63 / 10) x)) by (apply Z.div_le_lower_bound; lia).
    rewrite (proj2 (Z.ltb_ge (2 ^ 63) (x * 10 + d))) by lia. apply IH; done || lia.
Qed.

Lemma digits_pretty_nonneg (n : Z) : 0 <= n -> digits (pretty n) 0 = Some n.
Proof. intros Hn. destruct (decide (n = 0)) as [->|]; [done|]. apply digits_pretty. lia. Qed.

Lemma pretty_digit_head (n : Z) : 0 <= n ->
  exists c s d, pretty n = String c s /\ digit_of c = Some d.
Proof.
  intros Hn. pose proof (digits_pretty_nonneg n Hn) as Hd. destruct (pretty n) as [|c s] eqn:E.
  - injection Hd as <-. discriminate E.
  - simpl in Hd. destruct (digit_of c) as [d|] eqn:Ec; [|done]. eauto.
Qed.

(** *** Trimming *)

Definition starts_with (sps : list string) (s : string) : Prop := exists sp, sp ∈ sps /\ String.prefix sp s = true.

Lemma stripLoop_spec fuel sps s : ""%string ∉ sps -> (String.length s <= fuel)%nat ->
  (exists p, s = p +:+ stripLoop fuel sps s) /\ ~ starts_with sps (stripLoop fuel sps s).
Proof.
  intros Hne. revert s. induction fuel as [|fuel IH]; intros s Hl; simpl.
  - split; [by exists ""%string|]. destruct s; [|simpl in Hl; lia]. intros ([|c sp] & Hin & Hp); done.
  - destruct (list_find _ sps) as [[i sp]|] eqn:E.
    + apply list_find_Some in E as (Hi & Hp & _). apply prefix_append in Hp as [q ->]. rewrite substring_append.
      destruct (IH q) as [[p Hq] Hn].
      { rewrite string_append_length in Hl. destruct sp; [|simpl in Hl; lia]. by apply list_elem_of_lookup_2 in Hi. }
      split; [|done]. exists (sp +:+ p). rewrite <- string_append_assoc. by rewrite <- Hq.
    + split; [by exists ""%string|]. intros (sp & Hin & Hp). apply list_find_None in E.
      rewrite list.Forall_forall in E. by apply (E sp Hin).
Qed.

Lemma strip_spec sps s : ""%string ∉ sps ->
  (exists p, s = p +:+ strip sps s) /\ ~ starts_with sps (strip sps s).
Proof. intros. by apply stripLoop_spec. Qed.

Lemma strip_fixed sps s : ~ starts_with sps s -> strip sps s = s.
Proof.
  intros Hn. unfold strip. destruct (String.length s) as [|n]; [done|]. simpl.
  destruct (list_find _ sps) as [[i sp]|] eqn:E; [|done]. exfalso. apply Hn.
  apply list_find_Some in E as (Hi & Hp & _). exists sp. split; [by eapply list_elem_of_lookup_2|done].
Qed.

(** Trimming what was trimmed changes nothing. *)
Lemma TrimSpace_idempotent s : TrimSpace (TrimSpace s) = TrimSpace s.
Proof.
  unfold TrimSpace at 2 3. set (front := strip spaces s). set (rsp := String.rev <$> spaces).
  destruct (strip_spec spaces s) as [_ Hf]; [by apply (bool_decide_unpack _); vm_compute|]. fold front in Hf.
  destruct (strip_spec rsp (String.rev front)) as [[p Hp] Hb]; [by apply (bool_decide_unpack _); vm_compute|].
  set (back := strip rsp (String.rev front)) in *.
  unfold TrimSpace. rewrite (strip_fixed spaces), rev_rev; [by rewrite (strip_fixed rsp)|].
  intros (sp & Hin & [q Hq]%prefix_append). apply Hf. exists sp. split; [done|]. apply prefix_append.
  exists (q +:+ String.rev p). rewrite string_append_assoc, <- Hq, <- rev_append, <- Hp. by rewrite rev_rev.
Qed.

Section roundtrip.
Context `{!GoLibrary}.

(** A whole number with a one-letter unit, read back. *)
Lemma durationPart_pretty (n unit : Z) (c : ascii) (rest : string) :
  0 <= n -> unitMap (String c "") = Some unit -> n <= 2 ^ 63 / unit -> digit_of c = None -> c <> "."%char ->
  match rest with EmptyString => True | String c _ => is_Some (digit_of c) end ->
  durationPart (pretty n +:+ String c rest) = Some (n * unit, rest).
Proof.
  intros Hn Hu Hb Hc Hdot Hrest. destruct (pretty_digit_head n Hn) as (c0 & s & d & E & Hd).
  assert (n <= 2 ^ 63) as Hn63.
  { assert (0 < unit) by (unfold unitMap in Hu; repeat case_match; by simplify_eq).
    etransitivity; [exact Hb|]. apply Z.div_le_upper_bound; nia. }
  pose proof (leadingInt_digits (pretty n) (String c rest) 0 n (digits_pretty_nonneg n Hn) ltac:(lia) Hn63 Hc) as Hl.
  assert (unitText (String c rest) = (String c "", rest)) as Hut.
  { simpl. rewrite Hc, bool_decide_eq_false_2, bool_decide_eq_false_2 by (done || by intros []). simpl.
    destruct rest as [|c1 rest]; [done|]. simpl. by rewrite (bool_decide_eq_true_2 (is_Some (digit_of c1))), orb_true_r. }
  unfold durationPart. rewrite E in *. change (String c0 s +:+ String c rest) with (String c0 (s +:+ String c rest)) in *.
  cbv beta iota.
  rewrite (bool_decide_eq_true_2 (is_Some (digit_of c0))), orb_true_r by (rewrite Hd; by eexists).
  simpl negb. cbv iota. rewrite Hl. cbv beta iota zeta delta [mbind option_bind].
  assert (String.length (String c rest) =? S (String.length (s +:+ String c rest)) = false)%nat as ->.
  { apply Nat.eqb_neq. rewrite string_append_length. simpl. lia. }
  assert (match c with
    | "."%char => let '(f, scale, s2) := leadingFraction 0 1 false rest in
        (f, scale, s2, negb (String.length s2 =? String.length rest)%nat)
    | _ => (0, 1, String c rest, false) end = (0, 1, String c rest, false)) as ->.
  { clear -Hdot. by destruct c as [[] [] [] [] [] [] [] []]. }
  simpl negb. cbv beta iota. simpl andb. cbv iota. rewrite Hut. cbv beta iota. rewrite Hu. cbv beta iota. cbv beta iota zeta delta [mbind option_bind].
  rewrite (proj2 (Z.ltb_ge (2 ^ 63 / unit) n)) by lia. done.
Qed.

Lemma durationLoop_pretty fuel acc (n unit : Z) (c : ascii) (rest : string) :
  0 <= n -> unitMap (String c "") = Some unit -> n <= 2 ^ 63 / unit -> digit_of c = None -> c <> "."%char ->
  match rest with EmptyString => True | String c _ => is_Some (digit_of c) end ->
  acc + n * unit <= 2 ^ 63 ->
  durationLoop (S fuel) acc (pretty n +:+ String c rest) = durationLoop fuel (acc + n * unit) rest.
Proof.
  intros Hn Hu Hb Hc Hdot Hrest Hacc. pose proof (durationPart_pretty n unit c rest Hn Hu Hb Hc Hdot Hrest) as Hp.
  destruct (pretty n +:+ String c rest) as [|c0 s] eqn:E; [by destruct (pretty n)|].
  cbn [durationLoop]. rewrite Hp. cbv beta iota zeta delta [mbind option_bind].
  by rewrite (proj2 (Z.ltb_ge (2 ^ 63) (acc + n * unit))).
Qed.

Lemma fmtFrac_zero prec v acc : v mod 10 ^ Z.of_nat prec = 0 -> fmtFrac prec v false acc = acc.
Proof.
  revert v. induction prec as [|prec IH]; intros v Hv; [done|]. cbn [fmtFrac].
  rewrite Nat2Z.inj_succ, Z.pow_succ_r, (Z.rem_mul_r v 10) in Hv by lia.
  pose proof (Z.mod_pos_bound v 10). pose proof (Z.mod_pos_bound (v / 10) (10 ^ Z.of_nat prec)).
  assert (v mod 10 = 0) as -> by lia. simpl. apply IH. lia.
Qed.

Lemma pretty_head_digit (n : Z) (t : string) : 0 <= n ->
  match pretty n +:+ t with EmptyString => True | String c _ => is_Some (digit_of c) end.
Proof. intros Hn. destruct (pretty_digit_head n Hn) as (c & s & d & -> & Hd). simpl. by rewrite Hd. Qed.

Ltac duration_side Bd :=
  first [exact I|apply pretty_head_digit; lia|lazymatch goal with |- _ <= _ / _ => apply Bd; lia end
        |lazymatch goal with |- _ <= _ => lia end|reflexivity|discriminate|idtac].

(** The loop on what [Duration_String] writes for [secs] seconds. *)
Lemma durationLoop_seconds fuel secs : 0 <= secs -> secs * Second <= max_int64 ->
  (3 <= fuel)%nat \/ secs / 60 <= 0 /\ (1 <= fuel)%nat ->
  durationLoop fuel 0 (let tail := pretty (secs mod 60) +:+ "s" in
    if 0 <? secs / 60 then
      let tail := pretty (secs / 60 mod 60) +:+ "m" +:+ tail in
      if 0 <? secs / 60 / 60 then pretty (secs / 60 / 60) +:+ "h" +:+ tail else tail
    else tail) = Some (secs * Second).
Proof.
  intros H0 Hm Hf. unfold max_int64, Second, Millisecond, Microsecond in *.
  pose proof (Z.mod_pos_bound secs 60 ltac:(lia)) as Hs. pose proof (Z.mod_pos_bound (secs / 60) 60 ltac:(lia)) as Hmm.
  pose proof (Z.div_mod secs 60 ltac:(lia)) as E1. pose proof (Z.div_mod (secs / 60) 60 ltac:(lia)) as E2.
  assert (0 <= secs / 60 / 60) by (apply Z.div_pos; [apply Z.div_pos|]; lia).
  cbv zeta. change ("s"%string) with (String "s" ""). change ("m" +:+ ?x) with (String "m" x).
  set (S63 := 2 ^ 63) in *. assert (S63 = 9223372036854775808) as HS63 by reflexivity.
  assert (forall n u, 0 < u -> n * u <= S63 -> n <= S63 / u) as Bd
    by (intros; apply Z.div_le_lower_bound; lia).
  assert (secs * 1000000000 <= 9223372036854775807) as Hm' by exact Hm.
  destruct (Z.ltb_spec 0 (secs / 60)) as [Hmin|Hmin]; [destruct (Z.ltb_spec 0 (secs / 60 / 60)) as [Hh|Hh]|].
  - destruct fuel as [|[|[|fuel]]]; try lia. change ("h" +:+ ?x) with (String "h" x).
    rewrite (durationLoop_pretty _ _ _ 3600000000000), (durationLoop_pretty _ _ _ 60000000000),
      (durationLoop_pretty _ _ _ 1000000000); duration_side Bd.
    destruct fuel; cbn [durationLoop]; f_equal; lia.
  - destruct fuel as [|[|[|fuel]]]; try lia.
    rewrite (durationLoop_pretty _ _ _ 60000000000), (durationLoop_pretty _ _ _ 1000000000); duration_side Bd.
    destruct fuel; cbn [durationLoop]; f_equal; lia.
  - destruct fuel as [|fuel]; [lia|]. rewrite (durationLoop_pretty _ _ _ 1000000000); duration_side Bd.
    destruct fuel; cbn [durationLoop]; f_equal; lia.
Qed.

Lemma Duration_String_pos secs : 0 < secs -> secs * Second <= max_int64 ->
  Duration_String (secs * Second) =
    (let tail := pretty (secs mod 60) +:+ "s" in
     if 0 <? secs / 60 then
       let tail := pretty (secs / 60 mod 60) +:+ "m" +:+ tail in
       if 0 <? secs / 60 / 60 then pretty (secs / 60 / 60) +:+ "h" +:+ tail else tail
     else tail).
Proof.
  intros Hs Hm. unfold Duration_String.
  assert (Second = 1000000000) as HS by reflexivity. assert (max_int64 = 9223372036854775807) as HM by reflexivity.
  rewrite (proj2 (Z.ltb_ge (secs * Second) 0)) by lia.
  assert (wrapU 64 (secs * Second) = secs * Second) as ->
    by (apply wrapU_small; change (2 ^ 64) with 18446744073709551616; lia).
  rewrite (proj2 (Z.ltb_ge (secs * Second) Second)) by lia.
  rewrite Z.div_mul by lia. by rewrite fmtFrac_zero by (apply Z.mod_mul; lia).
Qed.

(** The text of a positive whole number of seconds, up to the sign. *)
Lemma durationLoop_String secs : 0 < secs -> secs * Second <= max_int64 ->
  let s := Duration_String (secs * Second) in
  durationLoop (String.length s) 0 s = Some (secs * Second) /\ (2 <= String.length s)%nat /\
  match s with EmptyString => True | String c _ => is_Some (digit_of c) end.
Proof.
  intros Hs Hm s. subst s. rewrite Duration_String_pos by done.
  assert (forall n, 0 <= n -> (1 <= String.length (pretty n))%nat) as Hl.
  { intros n Hn. destruct (pretty_digit_head n Hn) as (c & s & d & -> & _). simpl. lia. }
  pose proof (Z.mod_pos_bound secs 60 ltac:(lia)). pose proof (Z.mod_pos_bound (secs / 60) 60 ltac:(lia)).
  pose proof (Hl (secs mod 60)). pose proof (Hl (secs / 60 mod 60)). pose proof (Hl (secs / 60 / 60)).
  split; [apply durationLoop_seconds; try lia|].
  - cbv zeta. destruct (Z.ltb_spec 0 (secs / 60)); [destruct (Z.ltb_spec 0 (secs / 60 / 60))|];
      rewrite ?string_append_length; simpl; rewrite ?string_append_length; simpl; rewrite ?string_append_length; simpl; lia.
  - cbv zeta. destruct (Z.ltb_spec 0 (secs / 60)); [destruct (Z.ltb_spec 0 (secs / 60 / 60))|];
      (split; [rewrite !string_append_length; simpl; lia|apply pretty_head_digit; lia]).
Qed.

(** A duration of whole seconds is read back from its own text, whatever its
    sign, over the whole range of [int64] nanoseconds. *)
Theorem duration_roundtrip (secs : Z) :
  - max_int64 <= secs * Second <= max_int64 ->
  ParseDuration (Duration_String (secs * Second)) = Some (secs * Second).
Proof.
  intros Hr. destruct (Z.lt_trichotomy secs 0) as [Hn|[->|Hp]]; [|reflexivity|].
  - assert (Duration_String (secs * Second) = String "-" (Duration_String (- secs * Second))) as ->.
    { assert (Second = 1000000000) as HS by reflexivity.
      unfold Duration_String. rewrite (proj2 (Z.ltb_lt (secs * Second) 0)) by lia.
      rewrite (proj2 (Z.ltb_ge (- secs * Second) 0)) by lia. by rewrite Z.mul_opp_l. }
    destruct (durationLoop_String (- secs)) as (Hl & Hlen & _); [lia|lia|].
    unfold ParseDuration. destruct (Duration_String (- secs * Second)) as [|c s] eqn:E; [simpl in Hlen; lia|].
    rewrite !(proj2 (String.eqb_neq _ _)) by (intros He; rewrite He in Hlen; simpl in Hlen; lia).
    rewrite Hl. cbv beta iota zeta delta [mbind option_bind]. f_equal.
    rewrite wrapS_small by (unfold max_int64 in Hr; lia). lia.
  - destruct (durationLoop_String secs) as (Hl & Hlen & Hd); [lia|lia|].
    unfold ParseDuration. destruct (Duration_String (secs * Second)) as [|c s] eqn:E; [simpl in Hlen; lia|].
    assert (match String c s with String "-" s => (true, s) | String "+" s => (false, s) | _ => (false, String c s) end =
      (false, String c s)) as ->.
    { clear -Hd. destruct c as [[] [] [] [] [] [] [] []]; try done; destruct Hd as [? Hd]; discriminate Hd. }
    cbv beta iota. rewrite !(proj2 (String.eqb_neq _ _)) by (intros He; rewrite He in Hlen; simpl in Hlen; lia).
    rewrite Hl. cbv beta iota zeta delta [mbind option_bind].
    by rewrite (proj2 (Z.ltb_ge max_int64 (secs * Second))) by lia.
Qed.
End roundtrip.

Definition no_library : GoLibrary := {| scaled f unit scale := f * unit / scale; unicodeLower s := s; unicodeEqualFold := String.eqb |}.

Theorem duration_roundtrip_witness :
  @ParseDuration no_library (Duration_String (5415 * Second)) = Some (5415 * Second) /\
  Duration_String (5415 * Second) = "1h30m15s"%string.
Proof. split; [apply (@duration_roundtrip no_library 5415); split; vm_compute; discriminate|vm_compute; reflexivity]. Defined.

Example parse_examples :
  @ParseDuration no_library "1h15m30.918s" = Some 4530918000000 /\
  @ParseDuration no_library "-.5m" = Some (-30000000000) /\
  @ParseDuration no_library "2562048h" = None /\ @ParseDuration no_library "5" = None /\
  Duration_String 1500000 = "1.5ms"%string /\ TrimSpace " a b	 " = "a b"%string.
Proof. vm_compute. done. Qed.
