(* ===== verification/Hooks.v ===== *)
(** * Hooks: the agent's view of its own Kafka traffic ([internal/kafka/hooks.go])

    The Kafka client calls the hooks from goroutines of its own, while the
    collection cycle takes snapshots.  A hook is one atomic action, for it holds
    the mutex from end to end.  A snapshot is not: it swaps the map under the mutex
    and converts the old one outside it, broker by broker, writing to it as it
    goes.  So the maps are in a store, and a run is a sequence of the atomic
    actions of any number of hooks and snapshots. *)

From Stdlib Require Import ZArith Lia Ascii.
From stdpp Require Import prelude gmap strings numbers pretty sorting.
From S2P Require Import Prelude Wire Errors Filter Strconv.

(** What [kmsg] calls a request key. *)
Class KmsgNames := { NameForKey : Z -> string }.

(** ** Text *)

Definition isUpper (c : ascii) : bool := (65 <=? byte_of c) && (byte_of c <=? 90).

(** [s[i]]; the callers index in range, where [get] has a byte. *)
Definition at_ (s : string) (i : nat) : ascii := default "000"%char (String.get i s).

Definition startsWord (s : string) (i : nat) : bool :=
  if negb (isUpper (at_ s (i - 1))) then true
  else if (String.length s <=? i + 1)%nat || isUpper (at_ s (i + 1)) then false
  else negb (Ascii.eqb (at_ s (i + 1)) "s" && ((String.length s <=? i + 2)%nat || isUpper (at_ s (i + 2)))).

Definition toLower (c : ascii) : ascii := if isUpper c then ascii_of_N (N_of_ascii c + 32) else c.

(** The loop, from [i] on; [rest] is [s[i:]]. *)
Fixpoint snakeFrom (s : string) (i : nat) (rest : string) : string :=
  match rest with
  | EmptyString => EmptyString
  | String c rest =>
      let tail := String (toLower c) (snakeFrom s (S i) rest) in
      if (0 <? i)%nat && isUpper c && startsWord s i then String "_" tail else tail
  end.

Definition snakeCase (s : string) : string := snakeFrom s 0 s.

Definition apiName `{!KmsgNames} (key : Z) : string :=
  let name := NameForKey key in
  if String.eqb name "" || String.eqb name "Unknown" then ("unknown_" ++ pretty key)%string
  else snakeCase name.

(** The next [n] bytes continue a rune whose lead byte allows [lo..hi] first. *)
Fixpoint continues (n : nat) (lo hi : Z) (s : string) : bool :=
  match n, s with
  | O, _ => true
  | S n, EmptyString => false
  | S n, String c s => (lo <=? byte_of c) && (byte_of c <=? hi) && continues n 128 191 s
  end.

(** [strings.ToValidUTF8(s, "")]: runes are kept, and a byte that does not begin
    one is dropped; [keep] bytes of a rune are still to come. *)
Fixpoint toValid (keep : nat) (s : string) : string :=
  match s with
  | EmptyString => EmptyString
  | String c s =>
      match keep with
      | S k => String c (toValid k s)
      | O =>
          match utf8_lead (byte_of c) with
          | Some (n, lo, hi) => if continues n lo hi s then String c (toValid n s) else toValid 0 s
          | None => toValid 0 s
          end
      end
  end.

Definition truncate (s : string) (max : nat) : string :=
  if (String.length s <=? max)%nat then s else toValid 0 (String.substring 0 max s).

Definition maxConnectErrLen : nat := 256.

(** ** The accumulators *)

Record apiAccum := mkApiAccum {
  aa_e2e : LatencyHistogram;
  aa_writeWait : LatencyHistogram;
  aa_errors : Z;
  aa_bytesWritten : Z;
  aa_bytesRead : Z;
}.

Record brokerAccum := mkBrokerAccum {
  ba_apis : gmap Z apiAccum;
  ba_connectAttempts : Z;
  ba_connectFailures : Z;
  ba_connectLatency : LatencyHistogram;
  ba_disconnects : Z;
  ba_lastConnectErr : string;
  ba_throttleEvents : Z;
  ba_throttled : Z;
}.

Definition newApi : apiAccum := mkApiAccum Histogram_zero Histogram_zero 0 0 0.
Definition newBroker : brokerAccum := mkBrokerAccum ∅ 0 0 Histogram_zero 0 "" 0 0.

(** [h.broker] and [b.api]: the accumulator, made when there is none.  A hook
    writes it back under its key. *)
Definition broker (m : gmap Z brokerAccum) (nodeID : Z) : brokerAccum := default newBroker (m !! nodeID).
Definition api (b : brokerAccum) (key : Z) : apiAccum := default newApi (ba_apis b !! key).

(** [kgo.BrokerE2E], by the methods and fields the hook reads. *)
Record BrokerE2E := mkBrokerE2E {
  e2e_BytesWritten : Z;
  e2e_BytesRead : Z;
  e2e_DurationE2E : Z;
  e2e_WriteWait : Z;
  e2e_Err : option goerr;
}.

(** ** The hooks, as functions of the map [h.brokers] *)

Definition set_api (key : Z) (a : apiAccum) (b : brokerAccum) : brokerAccum :=
  mkBrokerAccum (<[key := a]> (ba_apis b)) (ba_connectAttempts b) (ba_connectFailures b) (ba_connectLatency b)
    (ba_disconnects b) (ba_lastConnectErr b) (ba_throttleEvents b) (ba_throttled b).

Definition OnBrokerE2E (node key : Z) (e : BrokerE2E) (m : gmap Z brokerAccum) : gmap Z brokerAccum :=
  let b := broker m node in
  let a := api b key in
  let w := wrapS 64 (aa_bytesWritten a + e2e_BytesWritten e) in
  let r := wrapS 64 (aa_bytesRead a + e2e_BytesRead e) in
  let a := match e2e_Err e with
           | Some _ => mkApiAccum (aa_e2e a) (aa_writeWait a) (wrapU 64 (aa_errors a + 1)) w r
           | None => mkApiAccum (Observe (e2e_DurationE2E e) (aa_e2e a))
                       (Observe (e2e_WriteWait e) (aa_writeWait a)) (aa_errors a) w r
           end in
  <[node := set_api key a b]> m.

Definition OnBrokerConnect (node initDur : Z) (err : option goerr) (m : gmap Z brokerAccum) : gmap Z brokerAccum :=
  let b := broker m node in
  let attempts := wrapU 64 (ba_connectAttempts b + 1) in
  <[node :=
    match err with
    | Some e => mkBrokerAccum (ba_apis b) attempts (wrapU 64 (ba_connectFailures b + 1)) (ba_connectLatency b)
                  (ba_disconnects b) (truncate (errMsg e) maxConnectErrLen) (ba_throttleEvents b) (ba_throttled b)
    | None => mkBrokerAccum (ba_apis b) attempts (ba_connectFailures b) (Observe initDur (ba_connectLatency b))
                (ba_disconnects b) (ba_lastConnectErr b) (ba_throttleEvents b) (ba_throttled b)
    end]> m.

Definition OnBrokerDisconnect (node : Z) (m : gmap Z brokerAccum) : gmap Z brokerAccum :=
  let b := broker m node in
  <[node := mkBrokerAccum (ba_apis b) (ba_connectAttempts b) (ba_connectFailures b) (ba_connectLatency b)
              (wrapU 64 (ba_disconnects b + 1)) (ba_lastConnectErr b) (ba_throttleEvents b) (ba_throttled b)]> m.

Definition OnBrokerThrottle (node interval : Z) (m : gmap Z brokerAccum) : gmap Z brokerAccum :=
  let b := broker m node in
  <[node := mkBrokerAccum (ba_apis b) (ba_connectAttempts b) (ba_connectFailures b) (ba_connectLatency b)
              (ba_disconnects b) (ba_lastConnectErr b) (wrapU 64 (ba_throttleEvents b + 1))
              (wrapS 64 (ba_throttled b + interval))]> m.

(** One call of a hook. *)
Inductive observation :=
| E2E (node key : Z) (e : BrokerE2E)
| Connect (node initDur : Z) (err : option goerr)
| Disconnect (node : Z)
| Throttle (node interval : Z).

Definition observe (o : observation) : gmap Z brokerAccum -> gmap Z brokerAccum :=
  match o with
  | E2E node key e => OnBrokerE2E node key e
  | Connect node d err => OnBrokerConnect node d err
  | Disconnect node => OnBrokerDisconnect node
  | Throttle node d => OnBrokerThrottle node d
  end.

(** ** The snapshot *)

Definition bucketed (a : apiAccum) : apiAccum :=
  mkApiAccum (EnsureBuckets (aa_e2e a)) (EnsureBuckets (aa_writeWait a)) (aa_errors a) (aa_bytesWritten a)
    (aa_bytesRead a).

Definition apiRow `{!KmsgNames} (key : Z) (a : apiAccum) : BrokerAPIRPC :=
  mkBrokerAPIRPC (apiName key) (aa_e2e a) (aa_writeWait a) (aa_errors a) (aa_bytesWritten a) (aa_bytesRead a).

Definition api_less (x y : BrokerAPIRPC) : bool := str_ltb (ba_API x) (ba_API y).

Definition broker_less (x y : BrokerRPC) : bool := br_BrokerID x <? br_BrokerID y.

(** One turn of [for id, b := range brokers]; [keys] is the order in which the
    inner loop meets the keys of [b.apis]. *)
Definition brokerRow `{!KmsgNames} (id : Z) (b : brokerAccum) (keys : list Z) : BrokerRPC :=
  mkBrokerRPC id (sort_slice api_less ((fun key => apiRow key (bucketed (api b key))) <$> keys))
    (ba_connectAttempts b) (ba_connectFailures b) (EnsureBuckets (ba_connectLatency b)) (ba_disconnects b)
    (ba_lastConnectErr b) (ba_throttleEvents b) (Milliseconds (ba_throttled b)).

(** What that turn leaves in [b]: [EnsureBuckets] was called on its accumulators,
    but on a copy of its connect histogram. *)
Definition converted (b : brokerAccum) : brokerAccum :=
  mkBrokerAccum (bucketed <$> ba_apis b) (ba_connectAttempts b) (ba_connectFailures b) (ba_connectLatency b)
    (ba_disconnects b) (ba_lastConnectErr b) (ba_throttleEvents b) (ba_throttled b).

(** A call of [snapshot] that has left its critical section: the map it
    detached, its window, the brokers it has still to meet, its rows. *)
Record conversion := mkConversion {
  cv_map : nat;
  cv_window : Z;
  cv_todo : list Z;
  cv_rows : list BrokerRPC;
}.

(** The fields of [rpcHooks], the maps it has made, and the snapshots under way. *)
Record rpcHooks := mkRpcHooks {
  rh_since : Z;
  rh_brokers : nat;                             (* the map [h.brokers] points to *)
  rh_maps : list (gmap Z brokerAccum);          (* all maps made, in order *)
  rh_snapshots : list (option conversion);      (* one per call, [None] once returned *)
}.

Definition newRPCHooks (start : Z) : rpcHooks := mkRpcHooks start 0 [∅] [].

Inductive action :=
| Hook (o : observation)
| Detach (now : Z)
| Convert (call : nat) (id : Z) (keys : list Z)
| Return (call : nat) (stats : RPCStats).

Inductive step `{!KmsgNames} : rpcHooks -> action -> rpcHooks -> Prop :=
| step_hook o h m :
    rh_maps h !! rh_brokers h = Some m ->
    step h (Hook o)
      (mkRpcHooks (rh_since h) (rh_brokers h) (<[rh_brokers h := observe o m]> (rh_maps h)) (rh_snapshots h))
| step_detach now ids h m :
    rh_maps h !! rh_brokers h = Some m ->
    ids ≡ₚ (map_to_list m).*1 ->
    step h (Detach now)
      (mkRpcHooks now (length (rh_maps h)) (rh_maps h ++ [∅])
        (rh_snapshots h ++ [Some (mkConversion (rh_brokers h) (Z.max 0 (Sub now (rh_since h))) ids [])]))
| step_convert i cv id todo keys h m b :
    rh_snapshots h !! i = Some (Some cv) -> cv_todo cv = id :: todo ->
    rh_maps h !! cv_map cv = Some m -> m !! id = Some b ->
    keys ≡ₚ (map_to_list (ba_apis b)).*1 ->
    step h (Convert i id keys)
      (mkRpcHooks (rh_since h) (rh_brokers h) (<[cv_map cv := <[id := converted b]> m]> (rh_maps h))
        (<[i := Some (mkConversion (cv_map cv) (cv_window cv) todo (cv_rows cv ++ [brokerRow id b keys]))]>
           (rh_snapshots h)))
| step_return i cv h :
    rh_snapshots h !! i = Some (Some cv) -> cv_todo cv = [] ->
    step h (Return i (mkRPCStats (Milliseconds (cv_window cv)) (sort_slice broker_less (cv_rows cv))))
      (mkRpcHooks (rh_since h) (rh_brokers h) (rh_maps h) (<[i := None]> (rh_snapshots h))).

Inductive run `{!KmsgNames} (start : Z) : list action -> rpcHooks -> Prop :=
| run_nil : run start [] (newRPCHooks start)
| run_snoc tr h l h' : run start tr h -> step h l h' -> run start (tr ++ [l]) h'.

(** [RPCSnapshot] of a client without hooks. *)
Definition RPCSnapshot {A} (rpc : option A) (snapshot : A -> RPCStats) : option RPCStats := snapshot <$> rpc.

(** ** What a window must report *)

Definition node_of (o : observation) : Z :=
  match o with E2E n _ _ | Connect n _ _ | Disconnect n | Throttle n _ => n end.

Definition is_connect (o : observation) : bool := match o with Connect _ _ _ => true | _ => false end.
Definition is_disconnect (o : observation) : bool := match o with Disconnect _ => true | _ => false end.
Definition refusal (o : observation) : option goerr := match o with Connect _ _ e => e | _ => None end.
Definition dialled (o : observation) : option Z := match o with Connect _ d None => Some d | _ => None end.
Definition throttle (o : observation) : option Z := match o with Throttle _ d => Some d | _ => None end.
Definition call (key : Z) (o : observation) : option BrokerE2E :=
  match o with E2E _ k e => if decide (k = key) then Some e else None | _ => None end.
Definition answered (e : BrokerE2E) : bool := match e2e_Err e with None => true | Some _ => false end.

(** [h] is the histogram of the durations [ds]. *)
Record histogram_of (ds : list Z) (h : LatencyHistogram) : Prop := {
  ho_count : lh_Count h = Z.of_nat (length ds);
  ho_sum : lh_SumUs h = wrapS 64 (sumZ (fun d => Z.max 0 (Microseconds d)) ds);
  ho_max : match lh_MaxUs h with
           | None => ds = []
           | Some m => exists d, d ∈ ds /\ m = Z.max 0 (Microseconds d) /\
                         forall d, d ∈ ds -> Z.max 0 (Microseconds d) <= m
           end;
  ho_bounds : lh_BoundsUs h = Some DefaultLatencyBoundsUs;
  ho_counts : exists cs, lh_Counts h = Some cs /\ length cs = S (length DefaultLatencyBoundsUs) /\
    forall i c, cs !! i = Some c ->
      c = Z.of_nat (count (fun d => in_bucket DefaultLatencyBoundsUs i (Z.max 0 (Microseconds d))) ds);
}.

(** [r] is the row of API [key], given the broker's calls of that key. *)
Record request_row `{!KmsgNames} (key : Z) (calls : list BrokerE2E) (r : BrokerAPIRPC) : Prop := {
  rr_api : ba_API r = apiName key;
  rr_e2e : histogram_of (e2e_DurationE2E <$> base.filter (fun e => Is_true (answered e)) calls) (ba_E2E r);
  rr_wait : histogram_of (e2e_WriteWait <$> base.filter (fun e => Is_true (answered e)) calls) (ba_WriteWait r);
  rr_errors : ba_Errors r = wrapU 64 (Z.of_nat (count (fun e => negb (answered e)) calls));
  rr_written : ba_BytesWritten r = wrapS 64 (sumZ e2e_BytesWritten calls);
  rr_read : ba_BytesRead r = wrapS 64 (sumZ e2e_BytesRead calls);
}.

(** [r] is the row of a broker, given the observations of that broker. *)
Record broker_row `{!KmsgNames} (mine : list observation) (r : BrokerRPC) : Prop := {
  br_attempts : br_ConnectAttempts r = wrapU 64 (Z.of_nat (count is_connect mine));
  br_failures : br_ConnectFailures r = wrapU 64 (Z.of_nat (length (omap refusal mine)));
  br_dials : histogram_of (omap dialled mine) (br_ConnectLatency r);
  br_closed : br_Disconnects r = wrapU 64 (Z.of_nat (count is_disconnect mine));
  br_lastErr : br_LastConnectError r =
    match last (omap refusal mine) with Some e => truncate (errMsg e) maxConnectErrLen | None => ""%string end;
  br_throttles : br_ThrottleEvents r = wrapU 64 (Z.of_nat (length (omap throttle mine)));
  br_throttledMs : br_ThrottledMs r = Milliseconds (wrapS 64 (sumZ id (omap throttle mine)));
  br_sorted : StronglySorted (not_less api_less) (br_Requests r);
  br_requests : exists keys rows, NoDup keys /\ (forall k, k ∈ keys <-> omap (call k) mine <> []) /\
    rows ≡ₚ br_Requests r /\ Forall2 (fun k row => request_row k (omap (call k) mine) row) keys rows;
}.

(** A window: when it opened, when it was detached, what was observed in it. *)
Record window := mkWindow { wi_open : Z; wi_closed : Z; wi_seen : list observation }.

Definition of_broker (n : Z) (os : list observation) : list observation := base.filter (fun o => node_of o = n) os.

Record window_stats `{!KmsgNames} (w : window) (stats : RPCStats) : Prop := {
  ws_time : rs_WindowMs stats = Milliseconds (Z.max 0 (Sub (wi_closed w) (wi_open w)));
  ws_order : StronglySorted Z.lt (br_BrokerID <$> rs_Brokers stats);
  ws_brokers : forall n, n ∈ br_BrokerID <$> rs_Brokers stats <-> exists o, o ∈ wi_seen w /\ node_of o = n;
  ws_rows : forall r, r ∈ rs_Brokers stats -> broker_row (of_broker (br_BrokerID r) (wi_seen w)) r;
}.

(** The windows a run closed, and the one it has open: a window ends where a
    snapshot detaches the map. *)
Record windows := mkWindows { wn_closed : list window; wn_open : Z; wn_seen : list observation }.

Definition cut (ws : windows) (l : action) : windows :=
  match l with
  | Hook o => mkWindows (wn_closed ws) (wn_open ws) (wn_seen ws ++ [o])
  | Detach now => mkWindows (wn_closed ws ++ [mkWindow (wn_open ws) now (wn_seen ws)]) now []
  | _ => ws
  end.

Definition windows_of (start : Z) (tr : list action) : windows := foldl cut (mkWindows [] start []) tr.

(** ** Lemmas on histograms *)

Lemma EnsureBuckets_Observe d h : EnsureBuckets (Observe d h) = Observe d (EnsureBuckets h).
Proof.
  assert (EnsureBuckets (Observe d h) = Observe d h) as ->;
    unfold Observe, EnsureBuckets; by destruct h as [? ? ? ? [?|]].
Qed.

Definition observed (ds : list Z) : LatencyHistogram := foldl (fun h d => Observe d h) Histogram_zero ds.

Lemma observed_snoc ds d : observed (ds ++ [d]) = Observe d (observed ds).
Proof. unfold observed. by rewrite foldl_app. Qed.

(** Incrementing the bucket of one more duration keeps the counts exact. *)
Lemma bump_counts (bounds cs : list Z) (f : Z -> Z) ds d :
  (forall i c, cs !! i = Some c -> c = Z.of_nat (count (fun d => in_bucket bounds i (f d)) ds)) ->
  forall i c, bump (bucket_index bounds (f d)) cs !! i = Some c ->
    c = Z.of_nat (count (fun d => in_bucket bounds i (f d)) (ds ++ [d])).
Proof.
  intros Hcs i c Hi. rewrite count_snoc. unfold bump in Hi. unfold in_bucket at 2. case_bool_decide as Hj.
  - rewrite Hj, list_lookup_alter_eq in Hi. destruct (cs !! i) as [c0|] eqn:E; [|done]. simplify_eq/=.
    rewrite (Hcs _ _ E). lia.
  - rewrite list_lookup_alter_ne in Hi by done. rewrite (Hcs _ _ Hi). lia.
Qed.

Lemma histogram_observed ds : histogram_of ds (EnsureBuckets (observed ds)).
Proof.
  induction ds as [|d ds [Hc Hs Hm Hb (cs & Hcs & Hlen & Hcounts)]] using rev_ind.
  { split; try done. exists (replicate (S (length DefaultLatencyBoundsUs)) 0). split; [done|]. split; [done|].
    intros i c [-> _]%lookup_replicate_1. done. }
  rewrite observed_snoc, EnsureBuckets_Observe. unfold Observe. rewrite EnsureBuckets_idem.
  split; cbn [lh_Count lh_SumUs lh_MaxUs lh_BoundsUs lh_Counts].
  - rewrite Hc, length_app. simpl. lia.
  - by rewrite Hs, wrapS_add, sumZ_snoc.
  - destruct (lh_MaxUs (EnsureBuckets (observed ds))) as [m|].
    + destruct Hm as (d0 & Hd0 & -> & Hmax).
      destruct (_ <? _) eqn:E; go_bools; [exists d | exists d0]; (split; [set_solver|]); (split; [done|]);
        intros d1 [Hd1| ->%list_elem_of_singleton]%elem_of_app; try (pose proof (Hmax d1 Hd1)); lia.
    + subst ds. exists d. split; [set_solver|]. split; [done|]. intros d1 ->%list_elem_of_singleton. lia.
  - done.
  - rewrite Hb, Hcs. cbn [fmap option_fmap option_map elems default]. eexists. split; [done|]. split; [by rewrite length_bump|].
    by apply (bump_counts _ _ (fun d => Z.max 0 (Microseconds d))).
Qed.

(** ** Lemmas on the accumulators *)

(** What an observation does to its broker's accumulator. *)
Definition observeBroker (o : observation) (b : brokerAccum) : brokerAccum :=
  broker (observe o {[node_of o := b]}) (node_of o).

Lemma broker_singleton n b : broker {[n := b]} n = b.
Proof. unfold broker. by rewrite lookup_singleton_eq. Qed.

Lemma broker_insert n b (m : gmap Z brokerAccum) : broker (<[n := b]> m) n = b.
Proof. unfold broker. by rewrite lookup_insert_eq. Qed.

Lemma observe_lookup o m n :
  observe o m !! n = if decide (node_of o = n) then Some (observeBroker o (broker m n)) else m !! n.
Proof.
  unfold observeBroker. destruct o; cbn [observe node_of];
    unfold OnBrokerE2E, OnBrokerConnect, OnBrokerDisconnect, OnBrokerThrottle; cbn zeta;
    (case_decide as E; [subst; rewrite lookup_insert_eq, broker_insert, broker_singleton; done|
      by rewrite lookup_insert_ne]).
Qed.

Definition observe_all (os : list observation) : gmap Z brokerAccum := foldl (fun m o => observe o m) ∅ os.

Lemma observe_all_snoc os o : observe_all (os ++ [o]) = observe o (observe_all os).
Proof. unfold observe_all. by rewrite foldl_app. Qed.

Definition accum (mine : list observation) : brokerAccum := foldl (fun b o => observeBroker o b) newBroker mine.

Lemma accum_snoc os o : accum (os ++ [o]) = observeBroker o (accum os).
Proof. unfold accum. by rewrite foldl_app. Qed.

Lemma of_broker_snoc n os o :
  of_broker n (os ++ [o]) = of_broker n os ++ (if decide (node_of o = n) then [o] else []).
Proof. unfold of_broker. rewrite list.filter_app, list.filter_cons. by case_decide. Qed.

(** A broker's accumulator depends on that broker's observations only. *)
Lemma observe_all_lookup os n :
  observe_all os !! n = match of_broker n os with [] => None | mine => Some (accum mine) end.
Proof.
  induction os as [|o os IH] using rev_ind; [done|].
  rewrite observe_all_snoc, observe_lookup, of_broker_snoc. unfold broker. rewrite IH. case_decide.
  - destruct (of_broker n os) as [|o1 l] eqn:E; [done|].
    change ((o1 :: l) ++ [o]) with (o1 :: l ++ [o]) at 1. cbn iota.
    change (o1 :: l ++ [o]) with ((o1 :: l) ++ [o]). by rewrite accum_snoc.
  - by rewrite app_nil_r.
Qed.

(** The accumulator of an API, from its calls. *)
Definition apiOf (calls : list BrokerE2E) : apiAccum :=
  let ok := base.filter (fun e => Is_true (answered e)) calls in
  mkApiAccum (observed (e2e_DurationE2E <$> ok)) (observed (e2e_WriteWait <$> ok))
    (wrapU 64 (Z.of_nat (count (fun e => negb (answered e)) calls)))
    (wrapS 64 (sumZ e2e_BytesWritten calls)) (wrapS 64 (sumZ e2e_BytesRead calls)).

Record accum_ok (mine : list observation) (b : brokerAccum) : Prop := {
  ao_attempts : ba_connectAttempts b = wrapU 64 (Z.of_nat (count is_connect mine));
  ao_failures : ba_connectFailures b = wrapU 64 (Z.of_nat (length (omap refusal mine)));
  ao_dials : ba_connectLatency b = observed (omap dialled mine);
  ao_closed : ba_disconnects b = wrapU 64 (Z.of_nat (count is_disconnect mine));
  ao_lastErr : ba_lastConnectErr b =
    match last (omap refusal mine) with Some e => truncate (errMsg e) maxConnectErrLen | None => ""%string end;
  ao_throttles : ba_throttleEvents b = wrapU 64 (Z.of_nat (length (omap throttle mine)));
  ao_throttled : ba_throttled b = wrapS 64 (sumZ id (omap throttle mine));
  ao_keys : forall k, is_Some (ba_apis b !! k) <-> omap (call k) mine <> [];
  ao_apis : forall k, api b k = apiOf (omap (call k) mine);
}.

Lemma wrapU_add_nat n k : wrapU 64 (wrapU 64 (Z.of_nat n) + Z.of_nat k) = wrapU 64 (Z.of_nat (n + k)).
Proof. rewrite wrapU_add. f_equal. lia. Qed.

Lemma apiOf_snoc calls e :
  apiOf (calls ++ [e]) =
  let a := apiOf calls in
  let w := wrapS 64 (aa_bytesWritten a + e2e_BytesWritten e) in
  let r := wrapS 64 (aa_bytesRead a + e2e_BytesRead e) in
  match e2e_Err e with
  | Some _ => mkApiAccum (aa_e2e a) (aa_writeWait a) (wrapU 64 (aa_errors a + 1)) w r
  | None => mkApiAccum (Observe (e2e_DurationE2E e) (aa_e2e a)) (Observe (e2e_WriteWait e) (aa_writeWait a))
              (aa_errors a) w r
  end.
Proof.
  unfold apiOf. cbn zeta. cbn [aa_e2e aa_writeWait aa_errors aa_bytesWritten aa_bytesRead].
  rewrite !wrapS_add, !sumZ_snoc, count_snoc, list.filter_app, list.filter_cons by done.
  replace (answered e) with (match e2e_Err e with None => true | Some _ => false end) by done.
  destruct (e2e_Err e); cbn [negb]; case_decide as D; try done.
  - rewrite list.filter_nil, !app_nil_r. by rewrite <- (wrapU_add_nat _ 1).
  - rewrite list.filter_nil, !fmap_app, Nat.add_0_r. cbn [fmap list_fmap]. by rewrite !observed_snoc.
Qed.

Lemma omap_snoc_match {A B} (f : A -> option B) l x :
  omap f (l ++ [x]) = omap f l ++ match f x with Some y => [y] | None => [] end.
Proof. rewrite omap_snoc. by destruct (f x). Qed.

Lemma accum_spec mine : accum_ok mine (accum mine).
Proof.
  induction mine as [|o mine [Ha Hf Hd Hc He Ht Hs Hk Hp]] using rev_ind.
  { split; try done. intros k. split; [by intros [? [=]]|done]. }
  rewrite accum_snoc. unfold observeBroker. destruct o as [n key e|n d [err|]|n|n d]; cbn [observe node_of];
    unfold OnBrokerE2E, OnBrokerConnect, OnBrokerDisconnect, OnBrokerThrottle;
    rewrite broker_singleton, broker_insert; split; rewrite ?count_snoc, ?omap_snoc_match;
    cbn [set_api ba_apis ba_connectAttempts ba_connectFailures ba_connectLatency ba_disconnects ba_lastConnectErr
         ba_throttleEvents ba_throttled is_connect is_disconnect refusal dialled throttle call];
    rewrite ?length_app, ?last_snoc, ?app_nil_r, ?Nat.add_0_r, ?sumZ_snoc, ?observed_snoc; try done.
  all: try (rewrite <- wrapU_add_nat; f_equal; f_equal; done).
  all: try by f_equal. all: try by rewrite Hs, wrapS_add.
  all: intros k; rewrite omap_snoc_match; cbn [call]; rewrite ?app_nil_r; try apply Hk; try apply (Hp k).
  - case_decide as E; [subst k; rewrite lookup_insert_eq|rewrite lookup_insert_ne, app_nil_r by done; apply Hk].
    split; [intros _ [_ [=]]%app_eq_nil|by eexists].
  - case_decide as E.
    + subst k. unfold api at 1. cbn [set_api ba_apis]. rewrite lookup_insert_eq. cbn [default from_option].
      rewrite apiOf_snoc, <- (Hp key). by destruct (e2e_Err e).
    + rewrite app_nil_r, <- (Hp k). unfold api at 1. cbn [set_api ba_apis]. by rewrite lookup_insert_ne.
Qed.

#[export] Instance api_less_strict : StrictWeak api_less.
Proof. apply (key_less_strict ba_API str_ltb). Qed.

#[export] Instance broker_less_strict : StrictWeak broker_less.
Proof. apply (key_less_strict br_BrokerID Z.ltb). Qed.

(** ** Lemmas on snapshots *)

Section snapshots.
Context `{!KmsgNames}.

Lemma apiRow_spec key calls : request_row key calls (apiRow key (bucketed (apiOf calls))).
Proof. split; try done; apply histogram_observed. Qed.

Lemma NoDup_map_keys {V} (m : gmap Z V) keys : keys ≡ₚ (map_to_list m).*1 -> NoDup keys.
Proof. intros ->. apply NoDup_fst_map_to_list. Qed.

Lemma elem_of_map_keys {V} (m : gmap Z V) keys k : keys ≡ₚ (map_to_list m).*1 -> k ∈ keys <-> is_Some (m !! k).
Proof.
  intros ->. rewrite list_elem_of_fmap. split.
  - intros ([k' v] & -> & Hv%elem_of_map_to_list). by eexists.
  - intros [v Hv]. exists (k, v). split; [done|]. by apply elem_of_map_to_list.
Qed.

Lemma brokerRow_spec id mine keys :
  keys ≡ₚ (map_to_list (ba_apis (accum mine))).*1 -> broker_row mine (brokerRow id (accum mine) keys).
Proof.
  intros Hkeys. destruct (accum_spec mine) as [Ha Hf Hd Hc He Ht Hs Hk Hp]. split; cbn [brokerRow
    br_ConnectAttempts br_ConnectFailures br_ConnectLatency br_Disconnects br_LastConnectError br_ThrottleEvents
    br_ThrottledMs br_Requests]; try done.
  - rewrite Hd. apply histogram_observed.
  - by rewrite Hs.
  - apply (sort_slice_sorted api_less).
  - exists keys. eexists. split; [by eapply NoDup_map_keys|]. split; [|split; [symmetry; apply sort_slice_perm|]].
    + intros k. by rewrite (elem_of_map_keys _ _ _ Hkeys), Hk.
    + apply Forall2_fmap_r, Forall_Forall2_diag. apply Forall_true. intros k. unfold compose. rewrite Hp. apply apiRow_spec.
Qed.

(** The rows of a finished conversion, sorted. *)
Lemma stats_spec w rows :
  (br_BrokerID <$> rows) ≡ₚ (map_to_list (observe_all (wi_seen w))).*1 ->
  (forall r, r ∈ rows -> broker_row (of_broker (br_BrokerID r) (wi_seen w)) r) ->
  window_stats w (mkRPCStats (Milliseconds (Z.max 0 (Sub (wi_closed w) (wi_open w)))) (sort_slice broker_less rows)).
Proof.
  intros Hids Hrows. split; cbn [rs_WindowMs rs_Brokers]; [done| | |].
  - assert (NoDup (br_BrokerID <$> sort_slice broker_less rows)) as Hnd.
    { rewrite sort_slice_perm, Hids. apply NoDup_fst_map_to_list. }
    pose proof (sort_slice_sorted broker_less rows) as Hs. clear -Hs Hnd. 
    induction Hs as [|r l Hl IH Hr]; [constructor|]. apply NoDup_cons in Hnd as [Hnot Hnd].
    rewrite fmap_cons. constructor; [by apply IH|]. apply list.Forall_forall. intros n Hn.
    apply list_elem_of_fmap in Hn as (r' & -> & Hr'). rewrite list.Forall_forall in Hr. specialize (Hr _ Hr').
    apply not_less_spec in Hr. unfold broker_less in Hr. go_bools.
    assert (br_BrokerID r <> br_BrokerID r'); [|lia]. intros E. apply Hnot. rewrite E. by apply list_elem_of_fmap_2.
  - intros n. rewrite sort_slice_perm, (elem_of_map_keys _ _ _ Hids), observe_all_lookup. split.
    + destruct (of_broker n (wi_seen w)) as [|o l] eqn:E; [by intros []|]. intros _. exists o.
      assert (o ∈ of_broker n (wi_seen w)) as Ho by (rewrite E; left). apply list_elem_of_filter in Ho. naive_solver.
    + intros (o & Ho & Hn). assert (o ∈ of_broker n (wi_seen w)) as Hin by (by apply list_elem_of_filter).
      destruct (of_broker n (wi_seen w)); [by apply not_elem_of_nil in Hin|by eexists].
  - intros r Hr. apply Hrows. by rewrite sort_slice_perm in Hr.
Qed.

Definition hooked (l : action) : option observation := match l with Hook o => Some o | _ => None end.
Definition returned (l : action) : option nat := match l with Return i _ => Some i | _ => None end.

(** A snapshot under way holds the rows of the brokers it met, and the map still
    has what the window observed of the others. *)
Record underway (h : rpcHooks) (i : nat) (w : window) (cv : conversion) : Prop := {
  uw_map : cv_map cv = i;
  uw_window : cv_window cv = Z.max 0 (Sub (wi_closed w) (wi_open w));
  uw_todo : exists m, rh_maps h !! i = Some m /\
    forall n, n ∈ cv_todo cv -> m !! n = observe_all (wi_seen w) !! n;
  uw_keys : (br_BrokerID <$> cv_rows cv) ++ cv_todo cv ≡ₚ (map_to_list (observe_all (wi_seen w))).*1;
  uw_rows : forall r, r ∈ cv_rows cv -> broker_row (of_broker (br_BrokerID r) (wi_seen w)) r;
}.

Record inv (tr : list action) (ws : windows) (h : rpcHooks) : Prop := {
  in_since : rh_since h = wn_open ws;
  in_brokers : rh_brokers h = length (wn_closed ws);
  in_maps : length (rh_maps h) = S (length (wn_closed ws));
  in_open : rh_maps h !! length (wn_closed ws) = Some (observe_all (wn_seen ws));
  in_calls : length (rh_snapshots h) = length (wn_closed ws);
  in_underway : forall i cv, rh_snapshots h !! i = Some (Some cv) ->
    exists w, wn_closed ws !! i = Some w /\ underway h i w cv;
  in_returned : forall i stats, Return i stats ∈ tr ->
    rh_snapshots h !! i = Some None /\ exists w, wn_closed ws !! i = Some w /\ window_stats w stats;
  in_once : NoDup (omap returned tr);
  in_all : concat (wi_seen <$> wn_closed ws) ++ wn_seen ws = omap hooked tr;
}.

Lemma inv_hook tr ws h o h' : inv tr ws h -> step h (Hook o) h' -> inv (tr ++ [Hook o]) (cut ws (Hook o)) h'.
Proof.
  intros [Hs Hb Hm Ho Hc Hu Hr Hn Ha] Hst. inversion Hst as [o' h0 m Hcur| | |]; subst. rewrite Hb in Hcur.
  assert (m = observe_all (wn_seen ws)) as -> by congruence.
  split; cbn [cut wn_closed wn_open wn_seen rh_since rh_brokers rh_maps rh_snapshots]; try done.
  - by rewrite length_insert.
  - rewrite Hb, observe_all_snoc, list_lookup_insert_eq by lia. done.
  - intros i cv Hi. destruct (Hu _ _ Hi) as (w & Hw & [Um Uw (m & Hmi & Ut) Uk Ur]). exists w. split; [done|].
    split; try done. exists m. split; [|done]. cbn [rh_maps]. rewrite list_lookup_insert_ne; [done|].
    apply lookup_lt_Some in Hw. lia.
  - intros i stats [Hi|[=]%list_elem_of_singleton]%elem_of_app. by apply Hr.
  - rewrite omap_snoc_match. cbn [returned]. by rewrite app_nil_r.
  - rewrite omap_snoc_match. cbn [hooked]. by rewrite <- Ha, app_assoc.
Qed.

Lemma inv_detach tr ws h now h' :
  inv tr ws h -> step h (Detach now) h' -> inv (tr ++ [Detach now]) (cut ws (Detach now)) h'.
Proof.
  intros [Hs Hb Hm Ho Hc Hu Hr Hn Ha] Hst. inversion Hst as [|now' ids h0 m Hcur Hids| |]; subst. rewrite Hb in Hcur.
  assert (m = observe_all (wn_seen ws)) as -> by congruence.
  split; cbn [cut wn_closed wn_open wn_seen rh_since rh_brokers rh_maps rh_snapshots];
    rewrite ?length_app, ?Nat.add_1_r; try done.
  - by rewrite Hm.
  - rewrite lookup_app_r by lia. by rewrite Hm, Nat.sub_diag.
  - by rewrite Hc.
  - intros i cv [Hi|[Hge Hi]]%lookup_app_Some.
    + destruct (Hu _ _ Hi) as (w & Hw & [Um Uw (m & Hmi & Ut) Uk Ur]). exists w.
      split; [by apply lookup_app_l_Some|]. split; try done. exists m. split; [|done].
      by apply lookup_app_l_Some.
    + apply list_lookup_singleton_Some in Hi as [Hi [= <-]].
      exists (mkWindow (wn_open ws) now (wn_seen ws)). assert (i = length (wn_closed ws)) as -> by lia.
      split; [by rewrite lookup_app_r, Nat.sub_diag by lia|].
      split; cbn [cv_map cv_window cv_todo cv_rows wi_open wi_closed wi_seen]; [done|by rewrite Hs| |done|].
      * exists (observe_all (wn_seen ws)). split; [|done]. by apply lookup_app_l_Some.
      * by intros r ?%not_elem_of_nil.
  - intros i stats [Hi|[=]%list_elem_of_singleton]%elem_of_app.
    destruct (Hr _ _ Hi) as (Hd & w & Hw & Hst'). split; [by apply lookup_app_l_Some|].
    exists w. split; [by apply lookup_app_l_Some|done].
  - rewrite omap_snoc_match. cbn [returned]. by rewrite app_nil_r.
  - rewrite omap_snoc_match. cbn [hooked]. rewrite fmap_app, concat_app, !app_nil_r. cbn. by rewrite app_nil_r.
Qed.

Lemma observe_all_row os n b :
  observe_all os !! n = Some b -> b = accum (of_broker n os).
Proof. rewrite observe_all_lookup. by destruct (of_broker n os); intros [= <-]. Qed.

Lemma inv_convert tr ws h i id keys h' :
  inv tr ws h -> step h (Convert i id keys) h' -> inv (tr ++ [Convert i id keys]) ws h'.
Proof.
  intros [Hs Hb Hm Ho Hc Hu Hr Hn Ha] Hst.
  inversion Hst as [| |i' cv id' todo keys' h0 m b Hi Htodo Hmi Hb' Hkeys|]; subst.
  destruct (Hu _ _ Hi) as (w & Hw & [Um Uw (m' & Hm' & Ut) Uk Ur]). pose proof (lookup_lt_Some _ _ _ Hw) as Hlt.
  rewrite Um in *. assert (m' = m) as -> by congruence. rewrite Htodo in *.
  assert (b = accum (of_broker id (wi_seen w))) as ->.
  { apply observe_all_row. rewrite <- Ut by left. done. }
  split; cbn [rh_since rh_brokers rh_maps rh_snapshots]; rewrite ?length_insert; try done.
  - rewrite list_lookup_insert_ne by lia. done.
  - intros j cv' Hj. destruct (decide (j = i)) as [->|Hji].
    + rewrite list_lookup_insert_eq in Hj by (by eapply lookup_lt_Some). simplify_eq. exists w. split; [done|].
      split; cbn [cv_map cv_window cv_todo cv_rows rh_maps]; [done|done| | |].
      * eexists. split; [apply list_lookup_insert_eq; by eapply lookup_lt_Some|]. intros n Hin.
        rewrite lookup_insert_ne; [apply Ut; by right|]. intros <-.
        apply NoDup_map_keys in Uk. apply NoDup_app in Uk as (_ & _ & Uk). by apply NoDup_cons in Uk as [? _].
      * rewrite fmap_app, <- app_assoc. done.
      * intros r [Hin|Hin]%elem_of_app; [by apply Ur|]. apply list_elem_of_singleton in Hin as ->.
        by apply brokerRow_spec.
    + rewrite list_lookup_insert_ne in Hj by done. destruct (Hu _ _ Hj) as (w' & Hw' & [Um' Uw' (m2 & Hm2 & Ut') Uk' Ur']).
      exists w'. split; [done|]. split; try done. exists m2. split; [|done]. cbn [rh_maps].
      by rewrite list_lookup_insert_ne.
  - intros j stats [Hj|[=]%list_elem_of_singleton]%elem_of_app. destruct (Hr _ _ Hj) as (Hd & Hws).
    split; [|done]. rewrite list_lookup_insert_ne; [done|]. intros ->. congruence.
  - rewrite omap_snoc_match. cbn [returned]. by rewrite app_nil_r.
  - rewrite omap_snoc_match. cbn [hooked]. by rewrite app_nil_r.
Qed.

Lemma inv_return tr ws h i stats h' :
  inv tr ws h -> step h (Return i stats) h' -> inv (tr ++ [Return i stats]) ws h'.
Proof.
  intros [Hs Hb Hm Ho Hc Hu Hr Hn Ha] Hst. inversion Hst as [| | |i' cv h0 Hi Htodo]; subst.
  destruct (Hu _ _ Hi) as (w & Hw & [Um Uw _ Uk Ur]).
  assert (window_stats w (mkRPCStats (Milliseconds (cv_window cv)) (sort_slice broker_less (cv_rows cv)))) as Hstats.
  { rewrite Uw. apply stats_spec; [|done]. by rewrite Htodo, app_nil_r in Uk. }
  split; cbn [rh_since rh_brokers rh_maps rh_snapshots]; rewrite ?length_insert; try done.
  - intros j cv' Hj. destruct (decide (j = i)) as [->|Hji].
    + rewrite list_lookup_insert_eq in Hj by (by eapply lookup_lt_Some). done.
    + rewrite list_lookup_insert_ne in Hj by done. destruct (Hu _ _ Hj) as (w' & Hw' & [? ? ? ? ?]). by exists w'.
  - intros j st [Hj|Hj]%elem_of_app.
    + destruct (Hr _ _ Hj) as [Hd Hws]. split; [|done]. rewrite list_lookup_insert_ne; [done|].
      intros ->. congruence.
    + apply list_elem_of_singleton in Hj as [= -> ->]. split; [|by exists w].
      apply list_lookup_insert_eq. by eapply lookup_lt_Some.
  - rewrite omap_snoc_match. cbn [returned]. apply NoDup_app. split; [done|]. split; [|apply NoDup_singleton].
    intros j Hj ->%list_elem_of_singleton. apply list_elem_of_omap in Hj as (l & Hl & Hlj).
    destruct l; simplify_eq/=. destruct (Hr _ _ Hl) as [Hd _]. congruence.
  - rewrite omap_snoc_match. cbn [hooked]. by rewrite app_nil_r.
Qed.

Lemma window_inv_run start tr h : run start tr h -> inv tr (windows_of start tr) h.
Proof.
  induction 1 as [|tr h l h' Hrun IH Hst].
  - split; try done; [by intros i s ?%not_elem_of_nil|constructor].
  - unfold windows_of. rewrite foldl_app. change (foldl cut _ [l]) with (cut (windows_of start tr) l).
    destruct l; eauto using inv_hook, inv_detach, inv_convert, inv_return.
Qed.

(** Each window opens when the one before it was detached. *)
Lemma windows_chain start tr :
  let ws := windows_of start tr in
  (wi_open <$> wn_closed ws) ++ [wn_open ws] = start :: (wi_closed <$> wn_closed ws).
Proof.
  cbn zeta. unfold windows_of. induction tr as [|l tr IH] using rev_ind; [done|].
  rewrite foldl_app. cbn [foldl]. destruct l; [done| |done|done]. cbn [cut wn_closed wn_open].
  rewrite !fmap_app. cbn [fmap list_fmap wi_open wi_closed]. by rewrite IH.
Qed.

(** A snapshot under way can always go on, and each broker is met once. *)
Lemma underway_progress h i w cv :
  rh_snapshots h !! i = Some (Some cv) -> underway h i w cv ->
  (exists stats h', step h (Return i stats) h') \/
  (exists id keys h' cv', step h (Convert i id keys) h' /\ rh_snapshots h' !! i = Some (Some cv') /\
     cv_todo cv = id :: cv_todo cv').
Proof.
  intros Hi [Um Uw (m & Hm & Ut) Uk Ur]. destruct (cv_todo cv) as [|n todo] eqn:Htodo.
  - left. do 2 eexists. by eapply step_return.
  - right. assert (is_Some (observe_all (wi_seen w) !! n)) as [b Hb].
    { apply (elem_of_map_keys _ _ _ Uk). apply elem_of_app. right. by left. }
    rewrite <- Ut in Hb by left. pose (keys := (map_to_list (ba_apis b)).*1). exists n, keys. eexists.
    exists (mkConversion (cv_map cv) (cv_window cv) todo (cv_rows cv ++ [brokerRow n b keys])). split.
    + eapply step_convert; [done|done|by rewrite Um|done|done].
    + split; [|reflexivity]. cbn [rh_snapshots]. apply list_lookup_insert_eq. by eapply lookup_lt_Some.
Qed.

(** C34: Whatever the hooks interleave with, each call of [snapshot] that returned
    has reported one window, and exactly what was observed in it: its rows are the
    brokers seen, in order, with the counts, sums, histograms, last error and
    per-API rows of that broker's observations.  Every observation is in exactly
    one window, the open one included, the windows leave no gap in time, no call
    returns twice, and a call under way can always go on: it meets one broker
    fewer each time, then returns. *)
Theorem window_exact start tr h :
  run start tr h ->
  let ws := windows_of start tr in
  (forall i stats, Return i stats ∈ tr -> exists w, wn_closed ws !! i = Some w /\ window_stats w stats) /\
  concat (wi_seen <$> wn_closed ws) ++ wn_seen ws = omap hooked tr /\
  (wi_open <$> wn_closed ws) ++ [wn_open ws] = start :: (wi_closed <$> wn_closed ws) /\
  NoDup (omap returned tr) /\
  (forall i cv, rh_snapshots h !! i = Some (Some cv) ->
     (exists stats h', step h (Return i stats) h') \/
     (exists id keys h' cv', step h (Convert i id keys) h' /\ rh_snapshots h' !! i = Some (Some cv') /\
        cv_todo cv = id :: cv_todo cv')).
Proof.
  intros Hrun ws. destruct (window_inv_run _ _ _ Hrun) as [_ _ _ _ _ Hu Hr Hn Ha]. fold ws in Hu, Hr, Ha.
  split; [by intros i stats [_ Hw]%Hr|]. split; [done|]. split; [apply windows_chain|]. split; [done|].
  intros i cv Hi. destruct (Hu _ _ Hi) as (w & _ & Hw). by eapply underway_progress.
Qed.

End snapshots.

(** ** Lemmas on text *)

Lemma utf8_lead_range b n lo hi : utf8_lead b = Some (n, lo, hi) ->
  (n <= 3)%nat /\ (n <> 0%nat -> 128 <= lo /\ hi <= 191).
Proof. unfold utf8_lead. repeat case_match; intros [=]; subst; split; lia. Qed.

Lemma utf8_lead_continuation b : 128 <= b <= 191 -> utf8_lead b = None.
Proof. intros H. unfold utf8_lead. rewrite (proj2 (Z.ltb_ge b 128)), (proj2 (Z.ltb_lt b 194)) by lia. done. Qed.

(** The result is valid, whatever the argument. *)
Lemma toValid_valid s n lo hi : continues n lo hi s = true -> utf8_scan n lo hi (toValid n s) = true.
Proof.
  revert n lo hi. induction s as [|c s IH]; intros [|n] lo hi Hc; try done.
  - cbn [toValid]. destruct (utf8_lead (byte_of c)) as [[[k lo'] hi']|] eqn:E; [|exact (IH 0%nat lo hi eq_refl)].
    destruct (continues k lo' hi' s) eqn:Ek; [|exact (IH 0%nat lo hi eq_refl)].
    cbn [utf8_scan]. rewrite E. by apply IH.
  - cbn [continues] in Hc. go_bools. cbn [toValid utf8_scan].
    rewrite IH by done. rewrite !andb_true_iff, !Z.leb_le. done.
Qed.

Lemma toValid_length s n : (String.length (toValid n s) <= String.length s)%nat.
Proof.
  revert n. induction s as [|c s IH]; intros [|n]; cbn [toValid String.length]; try lia;
    [|specialize (IH n); lia].
  destruct (utf8_lead _) as [[[k lo] hi]|]; [|specialize (IH 0%nat); lia].
  destruct (continues _ _ _ _); cbn [String.length]; [specialize (IH k)|specialize (IH 0%nat)]; lia.
Qed.

Lemma length_substring m s : (String.length (String.substring 0 m s) <= m)%nat.
Proof. revert m. induction s as [|c s IH]; intros [|m]; simpl; try lia. specialize (IH m). lia. Qed.

(** Continuation bytes without their lead byte are dropped. *)
Lemma toValid_headless s n lo hi m : (m <= n)%nat -> 128 <= lo -> hi <= 191 ->
  utf8_scan n lo hi s = true -> toValid 0 (String.substring 0 m s) = ""%string.
Proof.
  revert n lo hi m. induction s as [|c s IH]; intros [|n] lo hi [|m] Hm Hlo Hhi Hs; try done; try lia.
  cbn [utf8_scan] in Hs. go_bools. cbn [String.substring toValid].
  rewrite utf8_lead_continuation by lia. apply (IH n 128 191); lia || done.
Qed.

Lemma scan_continues s n lo hi m : (n <= m)%nat -> utf8_scan n lo hi s = true ->
  continues n lo hi (String.substring 0 m s) = true.
Proof.
  revert n lo hi m. induction s as [|c s IH]; intros [|n] lo hi [|m] Hm Hs; try done; try lia.
  cbn [utf8_scan] in Hs. go_bools. cbn [String.substring continues].
  rewrite IH by (lia || done). rewrite !andb_true_iff, !Z.leb_le. done.
Qed.

(** Of a cut valid text, what is kept is its longest prefix of whole runes. *)
Lemma toValid_prefix s n lo hi m : (n <= m)%nat -> utf8_scan n lo hi s = true ->
  exists k, toValid n (String.substring 0 m s) = String.substring 0 k s /\ (m - 3 <= k <= m)%nat.
Proof.
  revert n lo hi m. induction s as [|c s IH]; intros n lo hi m Hm Hs.
  - exists m. split; [|lia]. destruct n; [|by simpl in Hs]. by destruct m.
  - destruct m as [|m]; [exists 0%nat; split; [destruct n; [done|lia]|lia]|].
    destruct n as [|n]; cbn [utf8_scan] in Hs.
    + destruct (utf8_lead (byte_of c)) as [[[j lo'] hi']|] eqn:E; [|done].
      destruct (utf8_lead_range _ _ _ _ E) as [Hj Hrange].
      cbn [String.substring toValid]. rewrite E. destruct (decide (j <= m)%nat) as [Hjm|Hjm].
      * rewrite (scan_continues _ _ _ _ _ Hjm Hs). destruct (IH _ _ _ _ Hjm Hs) as (k & -> & Hk).
        exists (S k). split; [done|lia].
      * assert (continues j lo' hi' (String.substring 0 m s) = false) as ->.
        { destruct (continues _ _ _ _) eqn:Ec; [|done]. exfalso. 
          assert (forall t j lo hi, continues j lo hi t = true -> (j <= String.length t)%nat) as Hlen.
          { intros t. induction t as [|d t IHt]; intros [|i] l h Hi; try done; simpl; try lia.
            cbn [continues] in Hi. go_bools. specialize (IHt i 128 191). intuition lia. }
          apply Hlen in Ec. pose proof (length_substring m s). lia. }
        exists 0%nat. split; [|lia]. change (String.substring 0 0 (String c s)) with ""%string.
        eapply toValid_headless; [|by apply Hrange; lia|by apply Hrange; lia|done]. lia.
    + go_bools. destruct (IH n 128 191 m) as (k & Hk & Hle); [lia|done|].
      cbn [String.substring toValid]. rewrite Hk. exists (S k). split; [done|lia].
Qed.

(** A truncated text is short enough; when the text was valid it is a prefix, of
    at most three bytes less than allowed, and a valid one. *)
Theorem truncate_prefix s max :
  (String.length s <= max -> truncate s max = s)%nat /\
  (String.length (truncate s max) <= max)%nat /\
  (max < String.length s -> utf8_valid (truncate s max) = true)%nat /\
  (utf8_valid s = true -> max < String.length s ->
     exists k, truncate s max = String.substring 0 k s /\ max - 3 <= k <= max)%nat.
Proof.
  unfold truncate. destruct (_ <=? _)%nat eqn:E.
  - apply Nat.leb_le in E. split; [done|]. split; [done|]. split; intros; lia.
  - apply Nat.leb_gt in E. split; [lia|]. split.
    { pose proof (toValid_length (String.substring 0 max s) 0). pose proof (length_substring max s). lia. }
    split; [intros _; by apply (toValid_valid _ 0)|]. intros Hv _. by apply (toValid_prefix s 0 0 0); [lia|].
Qed.

Fixpoint lowered (s : string) : string :=
  match s with EmptyString => EmptyString | String c s => String (toLower c) (lowered s) end.

Fixpoint strip (s : string) : string :=
  match s with
  | EmptyString => EmptyString
  | String c s => if Ascii.eqb c "_" then strip s else String c (strip s)
  end.

Lemma strip_snakeFrom s i rest : strip (snakeFrom s i rest) = strip (lowered rest).
Proof.
  revert i. induction rest as [|c rest IH]; intros i; [done|]. cbn [snakeFrom lowered].
  destruct (_ && _ && _); cbn [strip Ascii.eqb Bool.eqb]; by rewrite IH.
Qed.

Lemma toLower_not_upper c : isUpper (toLower c) = false.
Proof. destruct c as [[] [] [] [] [] [] [] []]; reflexivity. Qed.

(** An API name has no capitals, and is the key's own name but for case and
    underscores, so two keys share a row only when [kmsg] names them alike. *)
Theorem snakeCase_spec s :
  (forall c, c ∈ String.list_ascii_of_string (snakeCase s) -> isUpper c = false) /\
  strip (snakeCase s) = strip (lowered s).
Proof.
  split; [|apply strip_snakeFrom]. unfold snakeCase. generalize 0%nat as i. generalize s at 2 as rest.
  induction rest as [|c rest IH]; intros i d; cbn [snakeFrom]; [by intros ?%not_elem_of_nil|].
  destruct (_ && _ && _); cbn [String.list_ascii_of_string]; rewrite ?elem_of_cons.
  - intros [->|[->|Hd]]; [done|apply toLower_not_upper|by apply (IH (S i))].
  - intros [->|Hd]; [apply toLower_not_upper|by apply (IH (S i))].
Qed.

Example snakeCase_examples :
  (snakeCase <$> ["ListOffsets"; "SASLHandshake"; "DescribeACLs"; "InitProducerID"; "LeaderAndISR";
                  "DescribeUserSCRAMCredentials"]) =
  ["list_offsets"; "sasl_handshake"; "describe_acls"; "init_producer_id"; "leader_and_isr";
   "describe_user_scram_credentials"]%string.
Proof. reflexivity. Qed.

(** ** A run *)

Definition demo_names : KmsgNames := {| NameForKey := fun k => if k =? 3 then "Metadata"%string else ""%string |}.

Definition demo_ok : BrokerE2E := mkBrokerE2E 100 900 4000000 500000 None.
Definition demo_bad : BrokerE2E := mkBrokerE2E 40 0 1000000 0 (Some (NetError "connection reset")).

(** A call on broker 1 fails after the map is detached and before it is
    converted: it is the next window's. *)
Theorem window_exact_witness :
  exists tr h stats,
    @run demo_names 0 tr h /\
    tr = [Hook (E2E 1 3 demo_ok); Hook (Connect 2 0 (Some (NetError "refused"))); Detach 30000000000;
          Hook (E2E 1 3 demo_bad); Convert 0 2 []; Convert 0 1 [3]; Return 0 stats] /\
    rs_WindowMs stats = 30000 /\ (br_BrokerID <$> rs_Brokers stats) = [1; 2] /\
    (ba_Errors <$> (rs_Brokers stats ≫= br_Requests)) = [0] /\
    exists w, wn_closed (windows_of 0 tr) !! 0%nat = Some w /\ @window_stats demo_names w stats.
Proof.
  assert (exists h stats, @run demo_names 0 ([] ++ [Hook (E2E 1 3 demo_ok)]
    ++ [Hook (Connect 2 0 (Some (NetError "refused")))] ++ [Detach 30000000000] ++ [Hook (E2E 1 3 demo_bad)]
    ++ [Convert 0 2 []] ++ [Convert 0 1 [3]] ++ [Return 0 stats]) h /\
    rs_WindowMs stats = 30000 /\ (br_BrokerID <$> rs_Brokers stats) = [1; 2] /\
    (ba_Errors <$> (rs_Brokers stats ≫= br_Requests)) = [0]) as (h & stats & Hrun & H1 & H2 & H3).
  { do 2 eexists. rewrite !app_assoc. split.
    - eapply run_snoc; [eapply run_snoc; [eapply run_snoc; [eapply run_snoc; [eapply run_snoc; [eapply run_snoc;
        [eapply run_snoc; [constructor|]|]|]|]|]|]|].
      + by eapply step_hook.
      + by eapply step_hook.
      + eapply (step_detach _ [2; 1]); [done|]. apply perm_swap || apply reflexivity.
      + by eapply step_hook.
      + eapply step_convert; [done|done|done|vm_compute; reflexivity|done].
      + eapply step_convert; [done|done|done|vm_compute; reflexivity|done].
      + by eapply step_return.
    - vm_compute. done. }
  exists ([] ++ [Hook (E2E 1 3 demo_ok)]
    ++ [Hook (Connect 2 0 (Some (NetError "refused")))] ++ [Detach 30000000000] ++ [Hook (E2E 1 3 demo_bad)]
    ++ [Convert 0 2 []] ++ [Convert 0 1 [3]] ++ [Return 0 stats]), h, stats.
  split; [done|]. split; [done|]. do 3 (split; [done|]).
  destruct (@window_exact demo_names 0 _ h Hrun) as [Hw _]. apply (Hw 0%nat). set_solver.
Defined.
