(* ===== verification/Export.v ===== *)
(** * Export: what the exporters share
      ([Stats], [counters], [encodeLine] of [internal/export/exporter.go]; [encodeBody],
      [idempotencyKey], the response handling and the delays of [internal/export/http.go])

    JSON and gzip are the class [Codec], and parsing an HTTP date is [HttpDate]:
    both are functions of the standard library whose results no theorem reads. *)

From Stdlib Require Import ZArith Lia Ascii.
From stdpp Require Import prelude strings numbers pretty.
From S2P Require Import Prelude Wire Errors Strconv.

Class Codec := {
  Marshal : Batch -> goerr + string;
  gzip : string -> goerr + string;
}.

(** The instant, in nanoseconds, an HTTP date names. *)
Class HttpDate := { ParseTime : string -> option Z }.

(** ** Settings *)

Definition defaultQueueSize : Z := 20.
Definition defaultMaxRetries : Z := 3.
Definition defaultBaseDelay : Z := 1 * Second.
Definition defaultHTTPTimeout : Z := 10 * Second.
Definition maxBackoff : Z := 30 * Second.
Definition maxRetryAfter : Z := 5 * Minute.
Definition maxRetryBudget : Z := Minute.
Definition errBodyLimit : nat := 4096.

(** [time.Until(t)]: the difference, saturated at the ends of [int64]. *)
Definition until (t now : Z) : Z := Z.max (- 2 ^ 63) (Z.min max_int64 (t - now)).

(** ** Counters *)

Record Stats := mkStats {
  BatchesExported : Z;
  BatchesDropped : Z;
  BatchesRejected : Z;
  ExportRetries : Z;
  QueueDepth : Z;
  LastError : string;
}.

Record counters := mkCounters {
  exported : Z;
  dropped : Z;
  rejected : Z;
  retries : Z;
  lastErr : option string;
}.

Definition no_counters : counters := mkCounters 0 0 0 0 None.

(** [c.exported.Add(1)] and its like, on [uint64]. *)
Definition addExported (c : counters) : counters :=
  mkCounters (wrapU 64 (exported c + 1)) (dropped c) (rejected c) (retries c) (lastErr c).
Definition addDropped (c : counters) : counters :=
  mkCounters (exported c) (wrapU 64 (dropped c + 1)) (rejected c) (retries c) (lastErr c).
Definition addRejected (c : counters) : counters :=
  mkCounters (exported c) (dropped c) (wrapU 64 (rejected c + 1)) (retries c) (lastErr c).
Definition addRetries (c : counters) : counters :=
  mkCounters (exported c) (dropped c) (rejected c) (wrapU 64 (retries c + 1)) (lastErr c).

(** [recordError]: the text of the error, when there is one. *)
Definition recordError (err : option string) (c : counters) : counters :=
  match err with
  | None => c
  | Some s => mkCounters (exported c) (dropped c) (rejected c) (retries c) (Some s)
  end.

Definition snapshot (c : counters) : Stats :=
  mkStats (exported c) (dropped c) (rejected c) (retries c) 0 (default ""%string (lastErr c)).

Definition ErrQueueFull : goerr := PlainError "export queue full".
Definition ErrClosed : goerr := PlainError "exporter is closed".

(** ** Encoding *)

Definition newline : string := String (ascii_of_nat 10) EmptyString.

(** [None] is the nil batch. *)
Definition encodeLine `{!Codec} (batch : option Batch) : goerr + string :=
  match batch with
  | None => inl (PlainError "nil batch")
  | Some b => match Marshal b with
              | inl err => inl (WrapError ("marshal batch: " ++ errMsg err) err)
              | inr data => inr (data ++ newline)%string
              end
  end.

Definition encodeBody `{!Codec} (batch : option Batch) : goerr + string :=
  match encodeLine batch with
  | inl err => inl err
  | inr data => match gzip data with
                | inl err => inl (WrapError ("gzip batch: " ++ errMsg err) err)
                | inr body => inr body
                end
  end.

Definition idempotencyKey (batch : Batch) : string :=
  let id := if String.eqb (b_AgentInstanceID batch) "" then "unknown"%string else b_AgentInstanceID batch in
  (id ++ "-" ++ pretty (b_BatchSeq batch))%string.

(** One batch on the queue. *)
Record queued := mkQueued { q_body : string; q_seq : Z; q_collectedAt : Z; q_key : string }.

Definition queuedOf (body : string) (batch : Batch) : queued :=
  mkQueued body (b_BatchSeq batch) (b_CollectedAt batch) (idempotencyKey batch).

(** ** One attempt's answer *)

Record httpError := mkHttpError { StatusCode : Z; RetryAfter : Z; Body : string }.

(** What [send] returns: [*httpError], or another error by its text. *)
Inductive sendErr :=
| HTTPErr (e : httpError)
| OtherErr (text : string).

Definition Error (e : httpError) : string :=
  if String.eqb (Body e) "" then ("HTTP " ++ pretty (StatusCode e))%string
  else ("HTTP " ++ pretty (StatusCode e) ++ ": " ++ Body e)%string.

Definition sendErr_text (e : sendErr) : string :=
  match e with HTTPErr e => Error e | OtherErr t => t end.

Definition retryableStatus (code : Z) : bool :=
  if (code =? 408) || (code =? 429) then true else 500 <=? code.

Definition clampRetryAfter (d : Z) : Z := if maxRetryAfter <? d then maxRetryAfter else d.

(** [time.Duration(secs) * time.Second] wraps on [int64]. *)
Definition parseRetryAfter `{!HttpDate} (now : Z) (v : string) : Z :=
  if String.eqb v "" then 0
  else match Atoi v with
       | Some secs => if secs <=? 0 then 0 else clampRetryAfter (wrapS 64 (secs * Second))
       | None => match ParseTime v with
                 | Some t => let d := until t now in if 0 <? d then clampRetryAfter d else 0
                 | None => 0
                 end
       end.

(** How one attempt can end: the request cannot be built, the round trip fails,
    or the ingest answers with a status, a Retry-After header and a body, of which
    [text] is the first [errBodyLimit] bytes, trimmed. *)
Inductive roundTrip :=
| CannotCreate (err : string)
| TransportFails (err : string)
| Answers (status : Z) (retryAfter : string) (text : string).

Definition send `{!HttpDate} (now : Z) (rt : roundTrip) : option sendErr :=
  match rt with
  | CannotCreate err => Some (OtherErr ("create request: " ++ err))
  | TransportFails err => Some (OtherErr ("send request: " ++ err))
  | Answers status ra text =>
      if 400 <=? status then Some (HTTPErr (mkHttpError status (parseRetryAfter now ra) text)) else None
  end.

(** [backoff]: [draw] is the value [Int63] gave that [Int63n] keeps; the shift
    wraps on [int64]. *)
Definition ceiling (baseDelay attempt : Z) : Z :=
  let c := wrapS 64 (Z.shiftl baseDelay (attempt - 1)) in
  if (maxBackoff <? c) || (c <=? 0) then maxBackoff else c.

Definition backoff (baseDelay attempt draw : Z) : Z := draw mod (ceiling baseDelay attempt + 1).

(** ** Lemmas *)

Lemma until_pos t now : 0 < until t now <-> now < t.
Proof. unfold until, max_int64. lia. Qed.

Lemma clampRetryAfter_le d : clampRetryAfter d <= maxRetryAfter.
Proof. unfold clampRetryAfter. destruct (Z.ltb_spec maxRetryAfter d); lia. Qed.

Lemma ceiling_range baseDelay attempt : 0 < ceiling baseDelay attempt <= maxBackoff.
Proof.
  unfold ceiling. assert (0 < maxBackoff) by done.
  destruct (Z.ltb_spec maxBackoff (wrapS 64 (Z.shiftl baseDelay (attempt - 1)))); simpl; [lia|].
  destruct (Z.leb_spec (wrapS 64 (Z.shiftl baseDelay (attempt - 1))) 0); lia.
Qed.

(** Below the overflow the ceiling is the capped exponential. *)
Lemma ceiling_exact baseDelay attempt :
  0 < baseDelay -> 1 <= attempt -> baseDelay * 2 ^ (attempt - 1) <= max_int64 ->
  ceiling baseDelay attempt = Z.min maxBackoff (baseDelay * 2 ^ (attempt - 1)).
Proof.
  intros Hb Ha Hm. unfold ceiling. rewrite Z.shiftl_mul_pow2 by lia.
  assert (0 < 2 ^ (attempt - 1)) by lia. unfold max_int64 in Hm.
  rewrite wrapS_small by nia.
  destruct (Z.ltb_spec maxBackoff (baseDelay * 2 ^ (attempt - 1))); simpl; [lia|].
  destruct (Z.leb_spec (baseDelay * 2 ^ (attempt - 1)) 0); nia.
Qed.

(** ** Theorems *)

(** the wait before a retry is bounded whatever the ingest sends: jitter never
    exceeds the capped exponential, nor half a minute even where the shift
    overflows; a Retry-After never asks for more than five minutes; a number of
    seconds whose nanoseconds fit is honoured exactly up to that, and so is a date
    to come. *)
Theorem retry_delays `{!HttpDate} (baseDelay attempt draw now : Z) (v : string) :
  0 < baseDelay -> 1 <= attempt ->
  0 <= backoff baseDelay attempt draw <= maxBackoff /\
  (baseDelay * 2 ^ (attempt - 1) <= max_int64 -> backoff baseDelay attempt draw <= baseDelay * 2 ^ (attempt - 1)) /\
  (forall d, 0 <= d < ceiling baseDelay attempt + 1 -> backoff baseDelay attempt d = d) /\
  parseRetryAfter now v <= maxRetryAfter /\
  (forall n, 0 < n -> n * Second <= max_int64 -> parseRetryAfter now (pretty n) = Z.min (n * Second) maxRetryAfter) /\
  (forall t, v <> ""%string -> Atoi v = None -> ParseTime v = Some t -> 0 <= t - now <= max_int64 ->
     parseRetryAfter now v = Z.min (t - now) maxRetryAfter).
Proof.
  intros Hb Ha. pose proof (ceiling_range baseDelay attempt) as Hc. unfold backoff.
  pose proof (Z.mod_pos_bound draw (ceiling baseDelay attempt + 1) ltac:(lia)) as Hm.
  split; [lia|]. split; [|split; [|split; [|split]]].
  - intros Hov. rewrite (ceiling_exact baseDelay attempt) in * by done. lia.
  - intros d Hd. by apply Z.mod_small.
  - unfold parseRetryAfter. assert (0 <= maxRetryAfter) by done.
    destruct (String.eqb v ""); [done|]. destruct (Atoi v) as [n|].
    + destruct (n <=? 0); [done|]. apply clampRetryAfter_le.
    + destruct (ParseTime v); [|done]. destruct (0 <? _); [apply clampRetryAfter_le|done].
  - intros n Hn Hs. unfold parseRetryAfter. pose proof (Atoi_pretty n) as Hat.
    assert (n <= max_int64) by (change Second with 1000000000 in Hs; lia). rewrite Hat by done.
    destruct (String.eqb_spec (pretty n) "") as [He|_]; [by rewrite He in Hat; discriminate Hat|].
    destruct (Z.leb_spec n 0); [lia|]. rewrite wrapS_small by (change Second with 1000000000 in *; unfold max_int64 in *; lia).
    unfold clampRetryAfter. destruct (Z.ltb_spec maxRetryAfter (n * Second)); lia.
  - intros t Hv Hat Hp Ht. unfold parseRetryAfter. destruct (String.eqb_spec v ""); [done|].
    rewrite Hat, Hp. assert (until t now = t - now) as -> by (unfold until, max_int64 in *; lia).
    unfold clampRetryAfter. assert (0 <= maxRetryAfter) by done.
    destruct (Z.ltb_spec 0 (t - now)), (Z.ltb_spec maxRetryAfter (t - now)); lia.
Qed.

(** A number of seconds whose nanoseconds overflow is not clamped but wrapped:
    317 years become no wait at all, and 584 years a third of a second. *)
Example retryAfter_wraps `{!HttpDate} :
  (forall now, parseRetryAfter now "10000000000" <= 0) /\
  (forall now, parseRetryAfter now "18446744074" = 290448384).
Proof. by split; intros now. Qed.

(** A nil batch is an error of the encoding, so that [Export] drops it before it
    reads any of its fields. *)
Lemma encodeBody_nil `{!Codec} : encodeBody None = inl (PlainError "nil batch").
Proof. done. Qed.

(** Two batches of one agent never share an idempotency key. *)
Lemma idempotencyKey_inj b b' :
  b_AgentInstanceID b = b_AgentInstanceID b' -> idempotencyKey b = idempotencyKey b' ->
  b_BatchSeq b = b_BatchSeq b'.
Proof.
  unfold idempotencyKey. intros -> He. apply (inj pretty).
  by apply (inj (String.app _)), (inj (String.app "-")) in He.
Qed.

(** ** Witness *)

Definition sample_dates : HttpDate := {| ParseTime s := if String.eqb s "later" then Some (90 * Second) else None |}.

Theorem retry_delays_witness :
  0 <= backoff (1 * Second) 3 123456789123 <= maxBackoff /\
  @parseRetryAfter sample_dates 0 "120" = 120 * Second /\
  @parseRetryAfter sample_dates (60 * Second) "later" = 30 * Second.
Proof.
  destruct (@retry_delays sample_dates (1 * Second) 3 123456789123 (60 * Second) "later")
    as (H1 & _ & _ & _ & _ & H6); [done|done|].
  destruct (@retry_delays sample_dates (1 * Second) 3 0 0 "120") as (_ & _ & _ & _ & H5 & _); [done|done|].
  split; [done|]. split; [exact (H5 120 eq_refl ltac:(done))|].
  exact (H6 (90 * Second) ltac:(done) ltac:(done) ltac:(done) ltac:(done)).
Defined.

(** ** The [Exporter] interface

    What the agent knows of an exporter: its telemetry, a call of [Export] (the
    flag says that the batch got past the check of the context), and what the
    exporter does on its own between two calls. *)
Class Exporter (X : Type) := {
  boots : X -> Prop;                                 (* as its constructor returns it *)
  Stats_ : X -> Stats;
  exports : X -> Batch -> bool -> X -> Prop;
  elapses : X -> X -> Prop;
}.

(** Batches the telemetry accounts for. *)
Definition accounted (st : Stats) : Z :=
  BatchesExported st + BatchesDropped st + BatchesRejected st + QueueDepth st.

(** No number of it is negative. *)
Definition plausible (st : Stats) : Prop :=
  0 <= BatchesExported st /\ 0 <= BatchesDropped st /\ 0 <= BatchesRejected st /\ 0 <= QueueDepth st.

(** What an exporter promises: it knows how many batches it was handed, and its
    telemetry accounts for all of them but the one being sent. *)
Class ExporterLaws (X : Type) `{!Exporter X} := {
  handed : X -> nat -> Prop;
  handed_boots x : boots x -> handed x 0;
  handed_exports x n b taken x' : handed x n -> exports x b taken x' -> handed x' (if taken then S n else n);
  handed_elapses x n x' : handed x n -> elapses x x' -> handed x' n;
  handed_stats x n : handed x n -> Z.of_nat n < 2 ^ 64 ->
    accounted (Stats_ x) <= Z.of_nat n <= accounted (Stats_ x) + 1;
  handed_plausible x n : handed x n -> plausible (Stats_ x);
}.

(** ** A codec and batches for evaluating the model *)

Definition plain_codec : Codec := {| Marshal b := inr (pretty (b_BatchSeq b)); gzip s := inr s |}.

Definition batch_of (seq : Z) : Batch :=
  mkBatch 1 "" "a" seq 0 0 None None None None None None None None None None None ""
    (mkAgentStats 0 0 0 0 0 0 0 "" None) [] [] None None.
