(* ===== verification/Http.v ===== *)
(** * Http: the HTTP exporter ([internal/export/http.go])

    A bounded queue between the collection goroutine, which calls [Export], and a
    single worker that sends.  The exporter is a step relation: the producer, the
    worker, the goroutine that closes, and time.  Each producer or worker step is
    one atomic action of the code between two points where the others can run:
    the three selects of [Export], the receive of the worker, the head of the retry
    loop, the end of a wait, the end of an attempt.

    Time passes only while everybody waits: computation takes none.  A timer or a
    request's timeout may fire up to [late] after it is due. *)

From Stdlib Require Import ZArith Lia.
From stdpp Require Import prelude strings numbers pretty.
From S2P Require Import Prelude Wire Errors Strconv Export.

(** ** Configuration *)

Record HTTPExporterConfig := mkHTTPExporterConfig {
  QueueSize : Z;
  MaxRetries : Z;
  BaseDelay : Z;
  Timeout : Z;
}.

(** The fields [NewHTTPExporter] sets once. *)
Record settings := mkSettings {
  capacity : Z;                                      (* cap(e.queue) *)
  maxRetries : Z;
  baseDelay : Z;
  timeout : Z;
  shutdownGrace : Z;
  retryBudget : Z;
}.

Definition NewHTTPExporter (cfg : HTTPExporterConfig) : settings :=
  let size := if QueueSize cfg <=? 0 then defaultQueueSize else QueueSize cfg in
  let tries := if MaxRetries cfg <? 0 then defaultMaxRetries else MaxRetries cfg in
  let base := if BaseDelay cfg <=? 0 then defaultBaseDelay else BaseDelay cfg in
  let tmo := if Timeout cfg <=? 0 then defaultHTTPTimeout else Timeout cfg in
  mkSettings size tries base tmo (wrapS 64 (2 * tmo)) maxRetryBudget.

(** ** State *)

(** The variables of [sendWithRetry]. *)
Record work := mkWork {
  w_q : queued;
  w_attempt : Z;
  w_deadline : Z;
  w_lastErr : option sendErr;
  w_retryAfter : Z;
}.

(** Where the worker stands; [drain] says it is in the loop after [<-e.done]. *)
Inductive worker :=
| Idle (drain : bool)
| Top (drain : bool) (w : work)                      (* the head of the retry loop *)
| Waiting (drain : bool) (w : work) (since delay : Z)
| Sending (drain : bool) (w : work) (since : Z)
| Exited.

Definition isExited (w : worker) : bool := match w with Exited => true | _ => false end.

(** Where [Export] stands, after its first and after its second select. *)
Inductive producer :=
| Ready
| Full (q : queued)
| Again (q : queued).

(** Where [Close] stands. *)
Inductive closer :=
| Open
| Locked                                             (* closed is set, done is not closed *)
| Draining (since : Z)
| Cancelled                                          (* the grace period is over *)
| Closed.

#[export] Instance closer_eq_dec : EqDecision closer.
Proof. solve_decision. Defined.

(** Between [close(e.done)] and the end of the drain. *)
Definition waitsForWorker (c : closer) : bool :=
  match c with Draining _ | Cancelled => true | Open | Locked | Closed => false end.

Record http := mkHttp {
  queue : list queued;
  cnt : counters;
  wk : worker;
  pr : producer;
  cl : closer;
  now : Z;
}.

Definition NewState (t : Z) : http := mkHttp [] no_counters (Idle false) Ready Open t.

Definition closedFlag (s : http) : bool := match cl s with Open => false | _ => true end.
Definition doneClosed (s : http) : bool := match cl s with Open | Locked => false | _ => true end.
(** [e.ctx] is cancelled: an attempt in flight is aborted. *)
Definition aborted (s : http) : bool := match cl s with Cancelled | Closed => true | _ => false end.

Definition set_queue (q : list queued) (s : http) : http := mkHttp q (cnt s) (wk s) (pr s) (cl s) (now s).
Definition set_cnt (f : counters -> counters) (s : http) : http :=
  mkHttp (queue s) (f (cnt s)) (wk s) (pr s) (cl s) (now s).
Definition set_wk (w : worker) (s : http) : http := mkHttp (queue s) (cnt s) w (pr s) (cl s) (now s).
Definition set_pr (p : producer) (s : http) : http := mkHttp (queue s) (cnt s) (wk s) p (cl s) (now s).
Definition set_cl (c : closer) (s : http) : http := mkHttp (queue s) (cnt s) (wk s) (pr s) c (now s).
Definition set_now (t : Z) (s : http) : http := mkHttp (queue s) (cnt s) (wk s) (pr s) (cl s) t.

(** [Stats] adds the depth of the queue to the counters. *)
Definition Stats_of (s : http) : Stats :=
  let c := snapshot (cnt s) in
  mkStats (BatchesExported c) (BatchesDropped c) (BatchesRejected c) (ExportRetries c)
    (Z.of_nat (length (queue s))) (LastError c).

(** ** The worker's decisions *)

Section worker.
Context (e : settings).

Definition startWork (q : queued) (t : Z) : work := mkWork q 0 (t + retryBudget e) None 0.

(** The delay before attempt [attempt > 0]. *)
Definition delayOf (w : work) (draw : Z) : Z :=
  if w_retryAfter w <=? 0 then backoff (baseDelay e) (w_attempt w) draw else w_retryAfter w.

Inductive decision :=
| DSend
| DWait (delay : Z)
| DAbandon                                           (* the budget is exhausted *)
| DGiveUp.                                           (* the loop ends *)

(** The head of the loop, up to the wait. *)
Definition loopTop (w : work) (t draw : Z) : decision :=
  if maxRetries e <? w_attempt w then DGiveUp
  else if w_attempt w <=? 0 then DSend
  else
    let delay := delayOf w draw in
    let remaining := until (w_deadline w) t in
    if (remaining <=? 0) || (remaining <? delay) then DAbandon else DWait delay.

Definition lastErr_text (w : work) : option string := sendErr_text <$> w_lastErr w.

(** [%w] of a nil error. *)
Definition wrapped_text (w : work) : string := default "%!w(<nil>)"%string (lastErr_text w).

Definition abandoned_text (w : work) : string :=
  "export abandoned after " ++ Duration_String (retryBudget e) ++ " retry budget: " ++ wrapped_text w.
Definition interrupted_text (w : work) : string := "export abandoned during shutdown: " ++ wrapped_text w.

(** What an attempt's outcome makes of the batch. *)
Inductive verdict :=
| VExported
| VRejected (err : sendErr)
| VRetry (w : work).

(** The end of an iteration, after [send] returned [err]. *)
Definition afterSend (w : work) (err : option sendErr) : verdict :=
  match err with
  | None => VExported
  | Some (HTTPErr he) =>
      if negb (retryableStatus (StatusCode he)) then VRejected (HTTPErr he)
      else VRetry (mkWork (w_q w) (w_attempt w + 1) (w_deadline w) (Some (HTTPErr he)) (RetryAfter he))
  | Some (OtherErr t) => VRetry (mkWork (w_q w) (w_attempt w + 1) (w_deadline w) (Some (OtherErr t)) 0)
  end.

End worker.

(** ** Steps *)

(** What a step does to the batches: the label carries the batch it is about. *)
Inductive label :=
| LCancelled                                         (* Export: the caller's context is done *)
| LUnencodable                                       (* Export: dropped, it cannot be encoded *)
| LRefused (q : queued)                              (* Export: dropped, the exporter is closed *)
| LEnqueue (q : queued)
| LOverflow (q : queued)                             (* Export: the queue is full *)
| LEvict (q : queued)                                (* Export: the oldest is dropped *)
| LLost (q : queued)                                 (* Export: dropped by the last select *)
| LTake (q : queued)
| LAttempt (q : queued)                              (* the worker posts the body *)
| LExported (q : queued)
| LRejected (q : queued)
| LDropped (q : queued)                              (* the worker gives a batch up *)
| LRetried (q : queued)
| LWork                                              (* any other step but time *)
| LTick.

Section steps.
Context `{!Codec, !HttpDate} (e : settings) (late : Z).

(** [Export], from its call to its return or its next select. *)
Inductive producer_step (s : http) : label -> http -> Prop :=
| p_cancelled : pr s = Ready -> producer_step s LCancelled s
| p_unencodable b err :
    pr s = Ready -> encodeBody (Some b) = inl err ->
    producer_step s LUnencodable (set_cnt (fun c => recordError (Some (errMsg err)) (addDropped c)) s)
| p_closed b body :
    pr s = Ready -> encodeBody (Some b) = inr body -> closedFlag s = true ->
    producer_step s (LRefused (queuedOf body b))
      (set_cnt (fun c => recordError (Some (errMsg ErrClosed)) (addDropped c)) s)
| p_enqueue b body :
    pr s = Ready -> encodeBody (Some b) = inr body -> closedFlag s = false ->
    Z.of_nat (length (queue s)) < capacity e ->
    producer_step s (LEnqueue (queuedOf body b)) (set_queue (queue s ++ [queuedOf body b]) s)
| p_full b body :
    pr s = Ready -> encodeBody (Some b) = inr body -> closedFlag s = false ->
    capacity e <= Z.of_nat (length (queue s)) ->
    producer_step s (LOverflow (queuedOf body b)) (set_pr (Full (queuedOf body b)) s)
| p_evict q stale rest :
    pr s = Full q -> queue s = stale :: rest ->
    producer_step s (LEvict stale)
      (set_pr (Again q) (set_queue rest
        (set_cnt (fun c => recordError (Some (errMsg ErrQueueFull)) (addDropped c)) s)))
| p_nothing q : pr s = Full q -> queue s = [] -> producer_step s LWork (set_pr (Again q) s)
| p_retry q :
    pr s = Again q -> Z.of_nat (length (queue s)) < capacity e ->
    producer_step s (LEnqueue q) (set_pr Ready (set_queue (queue s ++ [q]) s))
| p_lost q :
    pr s = Again q -> capacity e <= Z.of_nat (length (queue s)) ->
    producer_step s (LLost q)
      (set_pr Ready (set_cnt (fun c => recordError (Some (errMsg ErrQueueFull)) (addDropped c)) s)).

(** The end of an attempt: what the round trip of [send] makes of the batch. *)
Inductive attempt_step (s : http) (rt : roundTrip) : label -> http -> Prop :=
| w_exported d w since :
    wk s = Sending d w since -> afterSend w (send (now s) rt) = VExported ->
    attempt_step s rt (LExported (w_q w)) (set_wk (Idle d) (set_cnt addExported s))
| w_rejected d w since err :
    wk s = Sending d w since -> afterSend w (send (now s) rt) = VRejected err ->
    attempt_step s rt (LRejected (w_q w))
      (set_wk (Idle d) (set_cnt (fun c => recordError (Some (sendErr_text err)) (addRejected c)) s))
| w_failed d w since w' :
    wk s = Sending d w since -> afterSend w (send (now s) rt) = VRetry w' ->
    attempt_step s rt LWork (set_wk (Top d w') s).

(** [worker] and [sendWithRetry]. *)
Inductive worker_step (s : http) : label -> http -> Prop :=
| w_take d q rest :
    wk s = Idle d -> queue s = q :: rest ->
    worker_step s (LTake q) (set_wk (Top d (startWork e q (now s))) (set_queue rest s))
| w_drain : wk s = Idle false -> doneClosed s = true -> worker_step s LWork (set_wk (Idle true) s)
| w_exit : wk s = Idle true -> queue s = [] -> worker_step s LWork (set_wk Exited s)
| w_send d w draw :
    wk s = Top d w -> loopTop e w (now s) draw = DSend ->
    worker_step s (LAttempt (w_q w)) (set_wk (Sending d w (now s)) s)
| w_wait d w draw delay :
    wk s = Top d w -> loopTop e w (now s) draw = DWait delay ->
    worker_step s (LRetried (w_q w)) (set_wk (Waiting d w (now s) delay) (set_cnt addRetries s))
| w_abandon d w draw :
    wk s = Top d w -> loopTop e w (now s) draw = DAbandon ->
    worker_step s (LDropped (w_q w))
      (set_wk (Idle d) (set_cnt (fun c => recordError (Some (abandoned_text e w)) (addDropped c)) s))
| w_giveUp d w draw :
    wk s = Top d w -> loopTop e w (now s) draw = DGiveUp ->
    worker_step s (LDropped (w_q w))
      (set_wk (Idle d) (set_cnt (fun c => recordError (lastErr_text w) (addDropped c)) s))
| w_timer d w since delay :
    wk s = Waiting d w since delay -> since + delay <= now s ->
    worker_step s (LAttempt (w_q w)) (set_wk (Sending d w (now s)) s)
| w_interrupted d w since delay :
    wk s = Waiting d w since delay -> 0 < delay -> doneClosed s = true ->
    worker_step s (LDropped (w_q w))
      (set_wk (Idle d) (set_cnt (fun c => recordError (Some (interrupted_text w)) (addDropped c)) s))
| w_ends rt l s' : attempt_step s rt l s' -> worker_step s l s'.

(** [Close].  Setting the flag takes the lock [Export] holds for reading. *)
Inductive closer_step (s : http) : label -> http -> Prop :=
| c_lock : cl s = Open -> pr s = Ready -> closer_step s LWork (set_cl Locked s)
| c_done : cl s = Locked -> closer_step s LWork (set_cl (Draining (now s)) s)
| c_grace since :
    cl s = Draining since -> since + shutdownGrace e <= now s -> closer_step s LWork (set_cl Cancelled s)
| c_drained :
    waitsForWorker (cl s) = true -> wk s = Exited -> closer_step s LWork (set_cl Closed s).

(** How far time may go before somebody has to act. *)
Definition workerPatience (s : http) : option Z :=
  match wk s with
  | Exited => None
  | Idle d => if doneClosed s || (0 <? Z.of_nat (length (queue s))) then Some (now s) else None
  | Top _ _ => Some (now s)
  | Waiting _ _ since delay => if doneClosed s then Some (now s) else Some (since + delay + late)
  | Sending _ _ since => if aborted s then Some (now s) else Some (since + timeout e + late)
  end.

Definition closerPatience (s : http) : option Z :=
  match cl s with
  | Open => None
  | Draining since => if isExited (wk s) then Some (now s) else Some (since + shutdownGrace e + late)
  | Locked | Cancelled | Closed => Some (now s)
  end.

Definition patient (p : option Z) (t : Z) : Prop := match p with Some m => t <= m | None => True end.

(** What happens without a new call of [Export]. *)
Inductive inner_step (s : http) : label -> http -> Prop :=
| s_worker l s' : worker_step s l s' -> inner_step s l s'
| s_closer l s' : closer_step s l s' -> inner_step s l s'
| s_tick t :
    pr s = Ready -> now s < t -> patient (workerPatience s) t -> patient (closerPatience s) t ->
    inner_step s LTick (set_now t s).

Inductive step (s : http) : label -> http -> Prop :=
| s_producer l s' : producer_step s l s' -> step s l s'
| s_inner l s' : inner_step s l s' -> step s l s'.

(** Runs, with the labels in order. *)
Inductive run (s : http) : list label -> http -> Prop :=
| run_nil : run s [] s
| run_snoc tr s1 l s2 : run s tr s1 -> step s1 l s2 -> run s (tr ++ [l]) s2.

End steps.

(** ** Specification *)

(** Batches the queue admitted, and those that left it, in order. *)
Definition as_enqueued (l : label) : option queued := match l with LEnqueue q => Some q | _ => None end.
Definition enqueued (tr : list label) : list queued := omap as_enqueued tr.
Definition as_dequeued (l : label) : option queued := match l with LEvict q | LTake q => Some q | _ => None end.
Definition dequeued (tr : list label) : list queued := omap as_dequeued tr.

(** Calls of [Export] that got past the context check. *)
Definition is_offer (l : label) : bool :=
  match l with LUnencodable | LRefused _ | LEnqueue _ | LLost _ => true | _ => false end.

(** The steps each counter counts. *)
Definition is_exported (l : label) : bool := match l with LExported _ => true | _ => false end.
Definition is_rejected (l : label) : bool := match l with LRejected _ => true | _ => false end.
Definition is_dropped (l : label) : bool :=
  match l with LUnencodable | LRefused _ | LEvict _ | LLost _ | LDropped _ => true | _ => false end.
Definition is_retried (l : label) : bool := match l with LRetried _ => true | _ => false end.

(** The batch the worker holds. *)
Definition held (w : worker) : list queued :=
  match w with Top _ w | Waiting _ w _ _ | Sending _ w _ => [w_q w] | Idle _ | Exited => [] end.

(** The counters say what happened, up to the wrap of [uint64]. *)
Definition counted (tr : list label) (c : counters) : Prop :=
  exported c = wrapU 64 (Z.of_nat (count is_exported tr)) /\
  dropped c = wrapU 64 (Z.of_nat (count is_dropped tr)) /\
  rejected c = wrapU 64 (Z.of_nat (count is_rejected tr)) /\
  retries c = wrapU 64 (Z.of_nat (count is_retried tr)).

(** Batches the worker took, and those it is done with, in order. *)
Definition as_taken (l : label) : option queued := match l with LTake q => Some q | _ => None end.
Definition taken (tr : list label) : list queued := omap as_taken tr.
Definition as_settled (l : label) : option queued := match l with LExported q | LRejected q | LDropped q => Some q | _ => None end.
Definition settled (tr : list label) : list queued := omap as_settled tr.
Definition as_delivered (l : label) : option queued := match l with LExported q => Some q | _ => None end.
Definition delivered (tr : list label) : list queued := omap as_delivered tr.

(** Attempts since the last batch was taken. *)
Definition attempts (tr : list label) : Z :=
  foldl (fun n l => match l with LTake _ => 0 | LAttempt _ => n + 1 | _ => n end) 0 tr.

(** ** Invariants *)

Ltac attempt_cases :=
  try match goal with He : attempt_step _ _ _ _ |- _ => inversion He; subst; clear He end.

(** The cases of a step, with the state written out. *)
Ltac step_cases H :=
  inversion H as [? ? Hp|? ? Hi]; subst;
  [inversion Hp; subst
  |inversion Hi as [? ? Hw|? ? Hc| ]; subst; [inversion Hw; subst|inversion Hc; subst| ]];
  attempt_cases; clear H.

Lemma afterSend_retry w err w' : afterSend w err = VRetry w' ->
  w_q w' = w_q w /\ w_attempt w' = w_attempt w + 1 /\ w_deadline w' = w_deadline w.
Proof.
  destruct err as [[he|t]|]; simpl; [|by intros [= <-]|done].
  destruct (retryableStatus _); simpl; [by intros [= <-]|done].
Qed.

(** Uses what a step's guard says of the state's parts. *)
Ltac known :=
  unfold closedFlag, doneClosed, aborted in *; simpl in *;
  repeat match goal with
         | H : ?f ?s = _ |- _ => is_var s; match type of s with http => progress rewrite H in * end
         | H : _ \/ _ |- _ => destruct H
         | H : afterSend _ _ = VRetry _ |- _ => apply afterSend_retry in H as (? & ? & ?)
         end; simpl in *.

Ltac settle :=
  intros; simplify_eq/=; try done; try lia; repeat (case_match; simplify_eq/=); try done; try lia;
  repeat match goal with
         | H : true = true -> _ |- _ => specialize (H eq_refl)
         | H : forall q, Again ?p = Again q -> _ |- _ => specialize (H p eq_refl)
         end;
  simplify_eq/=; eauto with lia.

Section invariants.
Context `{!Codec, !HttpDate} (e : settings) (late : Z).
Context (Hcap : 0 < capacity e).

(** The queue: its bound, its order, and the room the eviction makes. *)
Record queue_inv (tr : list label) (s : http) : Prop := mkQueueInv {
  qi_ready : closedFlag s = true -> pr s = Ready;
  qi_len : Z.of_nat (length (queue s)) <= capacity e;
  qi_again : forall q, pr s = Again q -> Z.of_nat (length (queue s)) < capacity e;
  qi_fifo : enqueued tr = dequeued tr ++ queue s;
  qi_nolost : Forall (fun l => match l with LLost _ => False | _ => True end) tr;
}.

Lemma queue_inv_step tr s l s' : queue_inv tr s -> step e late s l s' -> queue_inv (tr ++ [l]) s'.
Proof.
  intros [H1 H2 H3 H4 H5] Hs.
  assert (enqueued (tr ++ [l]) = dequeued (tr ++ [l]) ++ queue s') as H6.
  { unfold enqueued, dequeued in *. rewrite !omap_snoc, H4.
    step_cases Hs; known; rewrite ?app_nil_r, <- ?app_assoc; simplify_eq/=; done || congruence. }
  assert (Z.of_nat (length (queue s')) <= capacity e /\
    (forall q, pr s' = Again q -> Z.of_nat (length (queue s')) < capacity e)) as [H7 H8].
  { clear H6. step_cases Hs; known; rewrite ?length_app; simpl; split; settle. }
  assert (closedFlag s' = true -> pr s' = Ready) as H9 by (clear H6 H7 H8; step_cases Hs; known; settle).
  constructor; try done. apply Forall_app. split; [done|]. constructor; [|constructor].
  clear H6 H7 H8 H9. step_cases Hs; known; settle.
Qed.

(** Accounts: the counters, where every offered batch is, and the order. *)
Record account_inv (tr : list label) (s : http) : Prop := mkAccountInv {
  ai_counted : counted tr (cnt s);
  ai_offers : (count is_offer tr = count is_exported tr + count is_rejected tr + count is_dropped tr +
                length (queue s) + length (held (wk s)))%nat;
  ai_taken : taken tr = settled tr ++ held (wk s);
}.

Lemma wrapU_succ n : wrapU 64 (wrapU 64 (Z.of_nat n) + 1) = wrapU 64 (Z.of_nat (n + 1)).
Proof. unfold wrapU. rewrite Zplus_mod_idemp_l. f_equal. lia. Qed.

Lemma counted_step tr s l s' : counted tr (cnt s) -> step e late s l s' -> counted (tr ++ [l]) (cnt s').
Proof.
  intros (H1 & H2 & H3 & H4) Hs. unfold counted. rewrite !count_snoc.
  step_cases Hs; simpl; rewrite ?Nat.add_0_r, <- ?wrapU_succ;
    unfold addExported, addDropped, addRejected, addRetries; simpl;
    try (destruct (lastErr_text w)); simpl; by rewrite ?H1, ?H2, ?H3, ?H4.
Qed.

Lemma account_inv_step tr s l s' : account_inv tr s -> step e late s l s' -> account_inv (tr ++ [l]) s'.
Proof.
  intros [H1 H2 H3] Hs. constructor; [by eapply counted_step| |].
  - clear H1 H3. rewrite !count_snoc. step_cases Hs; known; rewrite ?length_app; settle.
  - clear H1 H2. unfold taken, settled in *. rewrite !omap_snoc, H3.
    step_cases Hs; known; rewrite ?app_nil_r; simplify_eq/=; done || congruence.
Qed.

(** Attempts and time.  [patience] is the longest an attempt can overrun. *)
Context (Hlate : 0 <= late) (Htimeout : 0 <= timeout e) (Hbudget : 0 <= retryBudget e).
Context (Htries : 0 <= maxRetries e) (Hgrace : 0 <= shutdownGrace e).

Definition worker_ok (tr : list label) (s : http) : Prop :=
  match wk s with
  | Top _ w =>
      0 <= w_attempt w <= maxRetries e + 1 /\ attempts tr = w_attempt w /\
      now s <= w_deadline w + (if w_attempt w =? 0 then 0 else timeout e + 2 * late)
  | Waiting _ w since delay =>
      1 <= w_attempt w <= maxRetries e /\ attempts tr = w_attempt w /\
      since <= now s <= since + delay + late /\ 0 <= delay /\ since + delay <= w_deadline w
  | Sending _ w since =>
      0 <= w_attempt w <= maxRetries e /\ attempts tr = w_attempt w + 1 /\
      since <= now s <= since + timeout e + late /\ since <= w_deadline w + late
  | Idle _ | Exited => attempts tr <= maxRetries e + 1
  end.

Definition drain_ok (s : http) : Prop :=
  match wk s with
  | Idle true | Top true _ | Waiting true _ _ _ | Sending true _ _ => doneClosed s = true
  | Exited => doneClosed s = true /\ queue s = []
  | _ => True
  end.

Definition closer_ok (s : http) : Prop :=
  match cl s with
  | Draining since => since <= now s <= since + shutdownGrace e + late
  | Closed => wk s = Exited
  | _ => True
  end.

Lemma attempts_snoc tr l :
  attempts (tr ++ [l]) = match l with LTake _ => 0 | LAttempt _ => attempts tr + 1 | _ => attempts tr end.
Proof. unfold attempts. rewrite foldl_app. by destruct l. Qed.

(** The head of the loop: what each decision says. *)
Lemma loopTop_spec w t draw :
  0 <= w_attempt w ->
  match loopTop e w t draw with
  | DSend => w_attempt w = 0 /\ w_attempt w <= maxRetries e
  | DWait delay => 1 <= w_attempt w <= maxRetries e /\ 0 <= delay /\ t + delay <= w_deadline w
  | DAbandon => 1 <= w_attempt w <= maxRetries e
  | DGiveUp => maxRetries e < w_attempt w
  end.
Proof.
  intros Ha. unfold loopTop. destruct (Z.ltb_spec (maxRetries e) (w_attempt w)); [lia|].
  destruct (Z.leb_spec (w_attempt w) 0); [lia|].
  assert (0 <= delayOf e w draw) as Hd.
  { unfold delayOf. destruct (Z.leb_spec (w_retryAfter w) 0); [|lia]. unfold backoff.
    pose proof (ceiling_range (baseDelay e) (w_attempt w)).
    pose proof (Z.mod_pos_bound draw (ceiling (baseDelay e) (w_attempt w) + 1)). lia. }
  destruct (Z.leb_spec (until (w_deadline w) t) 0); simpl; [lia|].
  destruct (Z.ltb_spec (until (w_deadline w) t) (delayOf e w draw)); [lia|].
  unfold until in *. lia.
Qed.

Lemma worker_ok_step tr s l s' : worker_ok tr s -> step e late s l s' -> worker_ok (tr ++ [l]) s'.
Proof.
  unfold worker_ok. rewrite attempts_snoc. intros Hok Hs.
  step_cases Hs; known;
    repeat match goal with
           | Ht : loopTop _ ?w ?t ?d = _ |- _ => pose proof (loopTop_spec w t d ltac:(lia)); rewrite Ht in *; clear Ht
           end; unfold workerPatience, patient in *; known; settle.
Qed.

Lemma drain_ok_step tr s l s' :
  queue_inv tr s -> drain_ok s -> step e late s l s' -> drain_ok s'.
Proof.
  intros [Hr _ _ _ _] Hok Hs. unfold drain_ok in *. step_cases Hs; known; settle.
Qed.

Lemma closer_ok_step s l s' : closer_ok s -> step e late s l s' -> closer_ok s'.
Proof.
  intros Hok Hs. unfold closer_ok in *. step_cases Hs; known; unfold closerPatience, patient in *; known; settle.
Qed.

(** All of them hold throughout a run. *)
Record inv (tr : list label) (s : http) : Prop := mkInv {
  inv_queue : queue_inv tr s;
  inv_account : account_inv tr s;
  inv_worker : worker_ok tr s;
  inv_drain : drain_ok s;
  inv_closer : closer_ok s;
}.

Lemma inv_start t0 : inv [] (NewState t0).
Proof.
  constructor; try done.
  - constructor; simpl; try done; try lia; constructor.
  - unfold worker_ok, attempts. simpl. lia.
Qed.

Lemma inv_step tr s l s' : inv tr s -> step e late s l s' -> inv (tr ++ [l]) s'.
Proof.
  intros [Hq Ha Hw Hd Hc] Hs. constructor; eauto using queue_inv_step, account_inv_step, worker_ok_step,
    drain_ok_step, closer_ok_step.
Qed.

Lemma inv_run t0 tr s : run e late (NewState t0) tr s -> inv tr s.
Proof. induction 1 as [|tr s l s' _ IH Hs]; [apply inv_start|by eapply inv_step]. Qed.

(** ** Draining *)

(** What is left to do once no batch is accepted any more. *)
Definition workerRank (w : worker) : Z :=
  match w with
  | Exited => 0
  | Idle true => 1
  | Idle false => 2
  | Top _ w => 3 * (maxRetries e + 2 - w_attempt w) + 2
  | Waiting _ w _ _ => 3 * (maxRetries e + 2 - w_attempt w) + 1
  | Sending _ w _ => 3 * (maxRetries e + 2 - w_attempt w)
  end.

Definition closerRank (c : closer) : Z :=
  match c with Open => 4 | Locked => 3 | Draining _ => 2 | Cancelled => 1 | Closed => 0 end.

Definition batchRank : Z := 3 * (maxRetries e + 2) + 2.

Definition rank (s : http) : Z :=
  batchRank * Z.of_nat (length (queue s)) + workerRank (wk s) + closerRank (cl s).

Definition waitLeft (s : http) : Z :=
  match cl s with Draining since => since + shutdownGrace e + late - now s | _ => 0 end.

Definition drainMeasure (s : http) : Z := rank s * (shutdownGrace e + late + 1) + waitLeft s.

Lemma rank_nonneg tr s : worker_ok tr s -> 0 <= rank s.
Proof.
  unfold worker_ok, rank, batchRank. intros Hok.
  assert (0 <= workerRank (wk s)) by (destruct (wk s) as [[]| | | |]; simpl; lia).
  assert (0 <= closerRank (cl s)) by (destruct (cl s); simpl; lia). nia.
Qed.

Lemma rank_decreases tr s l s' :
  worker_ok tr s -> worker_step e s l s' \/ closer_step e s l s' -> rank s' <= rank s - 1.
Proof.
  unfold worker_ok, rank, batchRank. intros Hok [Hs|Hs]; inversion Hs; subst; attempt_cases; known; try destruct d;
    repeat match goal with
           | Ht : loopTop _ ?w ?t ?d = _ |- _ => pose proof (loopTop_spec w t d ltac:(lia)); rewrite Ht in *; clear Ht
           end; simpl in *; try lia. destruct (cl s); simpl in *; done || lia.
Qed.
End invariants.

Lemma settings_ok cfg : Timeout cfg < 2 ^ 62 ->
  let e := NewHTTPExporter cfg in
  0 < capacity e /\ 0 < timeout e /\ retryBudget e = maxRetryBudget /\ 0 <= maxRetries e /\
  shutdownGrace e = 2 * timeout e.
Proof.
  intros Ht. simpl.
  assert (0 < (if Timeout cfg <=? 0 then defaultHTTPTimeout else Timeout cfg) < 2 ^ 62) as Hr.
  { destruct (Z.leb_spec (Timeout cfg) 0); [done|lia]. }
  split; [destruct (Z.leb_spec (QueueSize cfg) 0); done || lia|].
  split; [lia|]. split; [done|].
  split; [destruct (Z.ltb_spec (MaxRetries cfg) 0); done || lia|].
  apply wrapS_small; lia.
Qed.

Lemma omap_sublist {A B} (f g : A -> option B) l :
  (forall x, f x = None \/ f x = g x) -> omap f l `sublist_of` omap g l.
Proof.
  intros Hfg. induction l as [|x l IH]; [constructor|]. simpl.
  destruct (Hfg x) as [->| ->]; destruct (g x); by try constructor.
Qed.

(** ** Theorems *)

Lemma run_app `{!Codec, !HttpDate} e late s tr s1 tr' s2 :
  run e late s tr s1 -> run e late s1 tr' s2 -> run e late s (tr ++ tr') s2.
Proof. intros H1. induction 1; [by rewrite app_nil_r|]. rewrite app_assoc. by eapply run_snoc. Qed.

Section theorems.
Context `{!Codec, !HttpDate} (cfg : HTTPExporterConfig) (late t0 : Z).
Context (Hlate : 0 <= late) (Htimeout : Timeout cfg < 2 ^ 62).

Lemma exporter_inv tr s : run (NewHTTPExporter cfg) late (NewState t0) tr s -> inv (NewHTTPExporter cfg) late tr s.
Proof.
  destruct (settings_ok cfg Htimeout) as (H1 & H2 & H3 & H4 & H5).
  apply inv_run; rewrite ?H3, ?H5; done || lia.
Qed.

(** The accounts, for the interface. *)
Lemma http_accounted tr s n :
  run (NewHTTPExporter cfg) late (NewState t0) tr s -> count is_offer tr = n -> Z.of_nat n < 2 ^ 64 ->
  accounted (Stats_of s) <= Z.of_nat n <= accounted (Stats_of s) + 1.
Proof.
  intros Hr <- Hn. destruct (exporter_inv _ _ Hr) as [_ [(H1 & H2 & H3 & _) Ho _] _ _ _].
  unfold accounted. cbn [Stats_of BatchesExported BatchesDropped BatchesRejected QueueDepth snapshot].
  rewrite H1, H2, H3, !wrapU_small by lia. assert (length (held (wk s)) <= 1)%nat by (destruct (wk s); simpl; lia). lia.
Qed.

Lemma http_plausible tr s : run (NewHTTPExporter cfg) late (NewState t0) tr s -> plausible (Stats_of s).
Proof.
  intros Hr. destruct (exporter_inv _ _ Hr) as [_ [(H1 & H2 & H3 & _) _ _] _ _ _].
  unfold plausible. cbn [Stats_of BatchesExported BatchesDropped BatchesRejected QueueDepth snapshot].
  rewrite H1, H2, H3. split_and!; try (by apply wrapU_range); lia.
Qed.

(** C15: no batch disappears: throughout every interleaving of [Export], the worker
    and [Close], each batch offered is exported, rejected, dropped, on the queue or
    in the worker's hands, and the counters of [Stats] are these numbers. *)
Theorem export_conserves (tr : list label) (s : http) :
  run (NewHTTPExporter cfg) late (NewState t0) tr s ->
  (count is_offer tr = count is_exported tr + count is_rejected tr + count is_dropped tr +
     length (queue s) + length (held (wk s)))%nat /\
  (length (held (wk s)) <= 1)%nat /\
  BatchesExported (Stats_of s) = wrapU 64 (Z.of_nat (count is_exported tr)) /\
  BatchesDropped (Stats_of s) = wrapU 64 (Z.of_nat (count is_dropped tr)) /\
  BatchesRejected (Stats_of s) = wrapU 64 (Z.of_nat (count is_rejected tr)) /\
  ExportRetries (Stats_of s) = wrapU 64 (Z.of_nat (count is_retried tr)) /\
  QueueDepth (Stats_of s) = Z.of_nat (length (queue s)).
Proof.
  intros Hr. destruct (exporter_inv _ _ Hr) as [_ [(H1 & H2 & H3 & H4) Ho _] _ _ _].
  split; [done|]. split; [destruct (wk s); simpl; lia|]. done.
Qed.

(** Batches are taken, settled and delivered in the order they were admitted. *)
Lemma taken_in_order tr s :
  run (NewHTTPExporter cfg) late (NewState t0) tr s -> taken tr `sublist_of` enqueued tr.
Proof.
  intros Hr. destruct (exporter_inv _ _ Hr) as [[_ _ _ Hf _] _ _ _ _].
  transitivity (dequeued tr); [apply omap_sublist; intros []; auto|]. rewrite Hf. by apply sublist_inserts_r.
Qed.

Lemma settled_in_order tr s :
  run (NewHTTPExporter cfg) late (NewState t0) tr s -> settled tr `sublist_of` enqueued tr.
Proof.
  intros Hr. destruct (exporter_inv _ _ Hr) as [_ [_ _ Ht] _ _ _].
  transitivity (taken tr); [|by eapply taken_in_order]. rewrite Ht. by apply sublist_inserts_r.
Qed.

Lemma delivered_settled tr : delivered tr `sublist_of` settled tr.
Proof. apply omap_sublist. intros []; auto. Qed.

Lemma delivered_in_order tr s :
  run (NewHTTPExporter cfg) late (NewState t0) tr s -> delivered tr `sublist_of` enqueued tr.
Proof.
  intros Hr. transitivity (settled tr); [apply delivered_settled|by eapply settled_in_order].
Qed.

(** Only what was taken is posted, and the batch being posted was taken last. *)
Lemma held_taken tr s :
  run (NewHTTPExporter cfg) late (NewState t0) tr s -> held (wk s) `suffix_of` taken tr.
Proof. intros Hr. destruct (exporter_inv _ _ Hr) as [_ [_ _ Ht] _ _ _]. rewrite Ht. by eexists. Qed.

Lemma attempted_taken tr s q :
  run (NewHTTPExporter cfg) late (NewState t0) tr s -> LAttempt q ∈ tr -> q ∈ taken tr.
Proof.
  remember (NewState t0) as s0 eqn:E0. induction 1 as [|tr s1 l s2 Hr IH Hs]; [by intros ?%not_elem_of_nil|].
  subst s0. unfold taken in *. rewrite omap_snoc.
  intros [Hq|Hq%list_elem_of_singleton]%elem_of_app; apply elem_of_app; left; [by apply IH|]. subst l.
  apply held_taken in Hr as [k Hk]. unfold taken in Hk. rewrite Hk. apply elem_of_app. right.
  inversion Hs as [? ? Hp|? ? [? ? Hw|? ? Hc| ]]; subst; [inversion Hp|inversion Hw; subst; attempt_cases|inversion Hc];
    match goal with H : wk s1 = _ |- _ => rewrite H end; by left.
Qed.

(** C31: the queue never outgrows its capacity and always holds the most recent
    batches admitted to it: an overflow drops from the old end; the branch of
    [Export] for a queue still full after the eviction is never taken.  Batches are
    settled - counted as exported or rejected, or given up - in the order they were
    admitted, and each at most once, however many times it is posted. *)
Theorem queue_keeps_newest (tr : list label) (s : http) :
  run (NewHTTPExporter cfg) late (NewState t0) tr s ->
  Z.of_nat (length (queue s)) <= capacity (NewHTTPExporter cfg) /\
  enqueued tr = dequeued tr ++ queue s /\
  (forall q, LLost q ∉ tr) /\
  settled tr `sublist_of` enqueued tr /\
  delivered tr `sublist_of` settled tr.
Proof.
  intros Hr. destruct (exporter_inv _ _ Hr) as [[_ Hl _ Hf Hn] _ _ _ _].
  split; [done|]. split; [done|]. split; [|split; [by eapply settled_in_order|apply delivered_settled]].
  intros q Hq. rewrite list.Forall_forall in Hn. exact (Hn _ Hq).
Qed.

(** *** One batch in the worker's hands *)

Definition is_attempt (l : label) : bool := match l with LAttempt _ => true | _ => false end.
Definition is_take (l : label) : bool := match l with LTake _ => true | _ => false end.

Definition inHand (w : worker) : option work :=
  match w with Top _ w | Waiting _ w _ _ | Sending _ w _ => Some w | Idle _ | Exited => None end.

Lemma attempts_since tr tr' : count is_take tr' = 0%nat ->
  attempts (tr ++ tr') = attempts tr + Z.of_nat (count is_attempt tr').
Proof.
  induction tr' as [|l tr' IH] using rev_ind; [rewrite app_nil_r; change (count is_attempt []) with 0%nat; lia|].
  rewrite !count_snoc, app_assoc, attempts_snoc. intros Hn.
  destruct l; simpl in *; first [lia|rewrite IH by lia; lia].
Qed.

(** Until the next take the batch and its deadline stay what they are. *)
Lemma inHand_kept e s l s' w' : step e late s l s' -> is_take l = false -> inHand (wk s') = Some w' ->
  exists w, inHand (wk s) = Some w /\ w_q w' = w_q w /\ w_deadline w' = w_deadline w.
Proof. intros Hs Ht. step_cases Hs; known; intros [= <-] || intros; simplify_eq/=; eauto 6. Qed.

Lemma take_inHand e l q s s' w : step e late s l s' -> as_taken l = Some q -> inHand (wk s') = Some w ->
  w_q w = q /\ w_deadline w = now s' + retryBudget e.
Proof. intros Hs Hl Hin. step_cases Hs; try discriminate Hl. injection Hl as <-. by injection Hin as <-. Qed.

Lemma inHand_since e q s s1 tr' s' : step e late s (LTake q) s1 -> run e late s1 tr' s' -> count is_take tr' = 0%nat ->
  forall w', inHand (wk s') = Some w' -> w_q w' = q /\ w_deadline w' = now s1 + retryBudget e.
Proof.
  intros Hs Hr. induction Hr as [|tr' s2 l s3 Hr IH Hl]; intros Hn w' Hw.
  - by eapply take_inHand.
  - rewrite count_snoc in Hn. destruct (inHand_kept _ _ _ _ _ Hl ltac:(destruct (is_take l); [lia|done]) Hw) as (w & Hw2 & -> & ->).
    apply IH; [lia|done].
Qed.

(** C32: one batch occupies the single worker for a bounded number of attempts and
    a bounded time: from the moment it is taken until the worker is done with it,
    never more than the configured retries and one, and never longer than its
    budget of a minute by more than the last request's timeout (and the delay with
    which the runtime fires two timers), whatever the ingest answers. *)
Theorem attempts_bounded (tr tr' : list label) (q : queued) (s s1 s' : http) :
  run (NewHTTPExporter cfg) late (NewState t0) tr s -> step (NewHTTPExporter cfg) late s (LTake q) s1 ->
  run (NewHTTPExporter cfg) late s1 tr' s' -> count is_take tr' = 0%nat ->
  Z.of_nat (count is_attempt tr') <= maxRetries (NewHTTPExporter cfg) + 1 /\
  (held (wk s') = [q] /\ now s' - now s1 <= maxRetryBudget + timeout (NewHTTPExporter cfg) + 2 * late \/
   held (wk s') = []).
Proof.
  intros Hr Ht Hr' Hn. destruct (settings_ok cfg Htimeout) as (_ & Hto & Hb & Hm & _).
  pose proof (run_app _ _ _ _ _ _ _ (run_snoc _ _ _ _ _ _ _ Hr Ht) Hr') as Hrun.
  destruct (exporter_inv _ _ Hrun) as [_ _ Hw _ _]. unfold worker_ok in Hw. revert Hw.
  rewrite attempts_since, attempts_snoc, Z.add_0_l by done.
  pose proof (inHand_since _ _ _ _ _ _ Ht Hr' Hn) as Hd. rewrite Hb in Hd.
  destruct (wk s') as [|d w|d w since delay|d w since|]; simpl in *; try (destruct (Hd w eq_refl) as [<- ->]);
    intros Hw; (split; [lia|]); [by right| | | |by right]; left; (split; [done|]); [destruct (w_attempt w =? 0)| |]; lia.
Qed.

Lemma drain_decreases tr s l s' :
  run (NewHTTPExporter cfg) late (NewState t0) tr s -> closedFlag s = true ->
  inner_step (NewHTTPExporter cfg) late s l s' ->
  closedFlag s' = true /\
  0 <= drainMeasure (NewHTTPExporter cfg) late s' < drainMeasure (NewHTTPExporter cfg) late s.
Proof.
  intros Hr Hc Hs. destruct (settings_ok cfg Htimeout) as (Hcap & Hto & Hb & Hm & Hg).
  assert (run (NewHTTPExporter cfg) late (NewState t0) (tr ++ [l]) s') as Hr'
    by (eapply run_snoc; [exact Hr|by apply s_inner]).
  destruct (exporter_inv _ _ Hr) as [_ _ Hw _ Hcl]. destruct (exporter_inv _ _ Hr') as [_ _ Hw' _ Hcl'].
  apply rank_nonneg in Hw' as Hn'; [|done].
  set (G := shutdownGrace (NewHTTPExporter cfg) + late) in *.
  assert (forall s, closer_ok (NewHTTPExporter cfg) late s -> 0 <= waitLeft (NewHTTPExporter cfg) late s <= G) as Hwl.
  { intros s1. unfold closer_ok, waitLeft, G. destruct (cl s1); lia. }
  apply Hwl in Hcl as Hl. apply Hwl in Hcl' as Hl'. unfold drainMeasure. fold G.
  inversion Hs as [? ? Hst|? ? Hst|t Hp Ht Hpw Hpc]; subst.
  - pose proof (rank_decreases (NewHTTPExporter cfg) late _ _ _ _ Hw (or_introl Hst)).
    split; [|nia]. destruct Hst as [| | | | | | | | |rt l s' He]; try done. by destruct He.
  - pose proof (rank_decreases (NewHTTPExporter cfg) late _ _ _ _ Hw (or_intror Hst)).
    split; [|nia]. destruct Hst; done.
  - split; [done|]. change (rank _ (set_now t s)) with (rank (NewHTTPExporter cfg) s) in *.
    unfold closedFlag, closerPatience, patient, waitLeft in *. simpl in *. destruct (cl s); [done|lia| |lia|lia].
    nia.
Qed.

Lemma drain_acc tr s :
  run (NewHTTPExporter cfg) late (NewState t0) tr s -> closedFlag s = true ->
  Acc (fun y x => exists l, inner_step (NewHTTPExporter cfg) late x l y) s.
Proof.
  remember (Z.to_nat (drainMeasure (NewHTTPExporter cfg) late s)) as n eqn:Hn.
  revert tr s Hn. induction (lt_wf n) as [n _ IH]. intros tr s -> Hr Hc. constructor. intros s' [l Hs].
  destruct (drain_decreases _ _ _ _ Hr Hc Hs) as [Hc' Hm].
  eapply IH; [|done| |done]; [|by eapply run_snoc; [|by apply s_inner]]. lia.
Qed.

Lemma drain_progress tr s :
  run (NewHTTPExporter cfg) late (NewState t0) tr s -> closedFlag s = true -> cl s <> Closed ->
  exists l s', inner_step (NewHTTPExporter cfg) late s l s'.
Proof.
  intros Hr Hc Hcl. destruct (exporter_inv _ _ Hr) as [_ _ Hw Hd _].
  destruct (decide (cl s = Locked)) as [Hl|Hl].
  { do 2 eexists. apply s_closer. by apply c_done. }
  assert (doneClosed s = true) as Hdone by (unfold closedFlag, doneClosed in *; by destruct (cl s)).
  destruct (wk s) as [d|d w|d w since delay|d w since|] eqn:E.
  - destruct (queue s) as [|q rest] eqn:Eq; [|do 2 eexists; apply s_worker; by eapply w_take].
    destruct d; do 2 eexists; apply s_worker; [by apply w_exit|by apply w_drain].
  - destruct (loopTop (NewHTTPExporter cfg) w (now s) 0) eqn:El; do 2 eexists; apply s_worker;
      [by eapply w_send|by eapply w_wait|by eapply w_abandon|by eapply w_giveUp].
  - unfold worker_ok in Hw. rewrite E in Hw.
    destruct (decide (0 < delay)); do 2 eexists; apply s_worker;
      [by eapply w_interrupted|eapply w_timer; [done|lia]].
  - do 2 eexists. apply s_worker, (w_ends _ _ (TransportFails ""%string)). by eapply w_failed.
  - do 2 eexists. apply s_closer. apply c_drained; [|done].
    unfold doneClosed in Hdone. by destruct (cl s).
Qed.

(** C16: [Close] always finishes: from the moment it refuses new batches, every
    schedule of the worker, the closing goroutine and time is finite, and does not
    stop before [Close] has returned; the drain is not waited for longer than the
    grace period; and when [Close] has returned the worker is gone, the queue is
    empty, and every batch ever offered was exported, rejected or dropped. *)
Theorem close_drains (tr : list label) (s : http) :
  run (NewHTTPExporter cfg) late (NewState t0) tr s -> closedFlag s = true ->
  Acc (fun y x => exists l, inner_step (NewHTTPExporter cfg) late x l y) s /\
  (cl s <> Closed -> exists l s', inner_step (NewHTTPExporter cfg) late s l s') /\
  (forall since, cl s = Draining since -> now s <= since + 2 * timeout (NewHTTPExporter cfg) + late) /\
  (cl s = Closed -> wk s = Exited /\ queue s = [] /\
     count is_offer tr = (count is_exported tr + count is_rejected tr + count is_dropped tr)%nat).
Proof.
  intros Hr Hc. split; [by eapply drain_acc|]. split; [by apply (drain_progress tr)|].
  destruct (exporter_inv _ _ Hr) as [_ [_ Ho _] _ Hd Hcl]. split.
  - intros since E. destruct (settings_ok cfg Htimeout) as (_ & _ & _ & _ & Hg).
    unfold closer_ok in Hcl. rewrite E in Hcl. lia.
  - intros E. unfold closer_ok in Hcl. rewrite E in Hcl. unfold drain_ok in Hd. rewrite Hcl in *.
    destruct Hd as [_ Hq]. rewrite Hq in Ho. simpl in Ho. split; [done|]. split; [done|]. lia.
Qed.
End theorems.

(** ** The interface *)

(** The steps of a call of [Export]. *)
Definition is_call (l : label) : bool :=
  match l with
  | LCancelled | LUnencodable | LRefused _ | LEnqueue _ | LOverflow _ | LEvict _ | LLost _ => true
  | _ => false
  end.

(** A call's step carries the batch it was given; the eviction is about another. *)
Definition of_batch `{!Codec} (b : Batch) (l : label) : Prop :=
  match l with
  | LRefused q | LEnqueue q | LOverflow q | LLost q => exists body, encodeBody (Some b) = inr body /\ q = queuedOf body b
  | LUnencodable => exists err, encodeBody (Some b) = inl err
  | _ => True
  end.

Section interface.
Context `{!Codec, !HttpDate} (cfg : HTTPExporterConfig) (late : Z).
Notation e := (NewHTTPExporter cfg).

(** A call of [Export], and the other goroutines' steps meanwhile. *)
Definition http_exports (s : http) (b : Batch) (taken : bool) (s' : http) : Prop :=
  exists tr, run e late s tr s' /\ pr s = Ready /\ pr s' = Ready /\ Forall (of_batch b) tr /\
    count is_offer tr = (if taken then 1%nat else 0%nat) /\ (taken = false -> LCancelled ∈ tr).

Definition http_elapses (s s' : http) : Prop :=
  exists tr, run e late s tr s' /\ Forall (fun l => is_call l = false) tr.

Definition http_exporter : Exporter http := {|
  boots s := exists t0, s = NewState t0;
  Stats_ := Stats_of;
  exports := http_exports;
  elapses := http_elapses;
|}.

Definition http_handed (s : http) (n : nat) : Prop :=
  exists t0 tr, run e late (NewState t0) tr s /\ count is_offer tr = n.

(** The exporter keeps the interface's promise. *)
Lemma http_laws : 0 <= late -> Timeout cfg < 2 ^ 62 -> @ExporterLaws http http_exporter.
Proof.
  intros Hlate Hto. apply (@Build_ExporterLaws http http_exporter http_handed).
  - intros s [t0 ->]. exists t0, []. split; [apply run_nil|done].
  - intros s n b taken s' (t0 & tr & Hr & Hn) (tr' & Hr' & _ & _ & _ & Hc & _).
    exists t0, (tr ++ tr'). split; [by eapply run_app|]. rewrite count_app, Hc, Hn. destruct taken; lia.
  - intros s n s' (t0 & tr & Hr & Hn) (tr' & Hr' & Hc). exists t0, (tr ++ tr'). split; [by eapply run_app|].
    rewrite count_app, Hn, count_0; [lia|]. intros l Hl. rewrite list.Forall_forall in Hc. specialize (Hc l Hl).
    by destruct l.
  - intros s n (t0 & tr & Hr & Hn) Hlt. by eapply http_accounted.
  - intros s n (t0 & tr & Hr & _). by eapply http_plausible.
Defined.
End interface.

(** ** Witnesses: a run with an overflow, a retry, a rejection and a shutdown *)

Definition sample_cfg : HTTPExporterConfig := mkHTTPExporterConfig 1 2 Second (10 * Second).

(** A run of [n] steps, the first one first. *)
Ltac unroll n := match n with O => apply run_nil | S ?n => eapply run_snoc; [unroll n|] end.

Lemma sample_run : exists tr s,
  @run plain_codec sample_dates (NewHTTPExporter sample_cfg) 0 (NewState 0) tr s /\
  cl s = Closed /\ now s = 2 * Second /\ q_seq <$> enqueued tr = [1; 2; 3] /\ q_seq <$> delivered tr = [1] /\
  count is_exported tr = 1%nat /\ count is_rejected tr = 1%nat /\ count is_dropped tr = 1%nat /\
  count is_retried tr = 1%nat /\ count is_offer tr = 3%nat /\ queue s = [].
Proof.
  eexists _, _. split.
  { unroll 21%nat.
    - eapply s_producer, p_enqueue with (b := batch_of 1); reflexivity || done.
    - eapply s_inner, s_worker, w_take; reflexivity || done.
    - eapply s_inner, s_worker, w_send with (draw := 0); reflexivity || done.
    - eapply s_producer, p_enqueue with (b := batch_of 2); reflexivity || done.
    - eapply s_producer, p_full with (b := batch_of 3); reflexivity || done.
    - eapply s_producer, p_evict; reflexivity || done.
    - eapply s_producer, p_retry; reflexivity || done.
    - eapply s_inner, s_worker, (w_ends _ _ (Answers 503 "2" "")), w_failed; reflexivity || done.
    - eapply s_inner, s_worker, w_wait with (draw := 0); reflexivity || done.
    - eapply s_inner, s_tick with (t := 2 * Second); reflexivity || done.
    - eapply s_inner, s_worker, w_timer; reflexivity || done.
    - eapply s_inner, s_worker, (w_ends _ _ (Answers 200 "" "")), w_exported; reflexivity || done.
    - eapply s_inner, s_worker, w_take; reflexivity || done.
    - eapply s_inner, s_worker, w_send with (draw := 0); reflexivity || done.
    - eapply s_inner, s_closer, c_lock; reflexivity || done.
    - eapply s_inner, s_worker, (w_ends _ _ (Answers 401 "" "")), w_rejected; reflexivity || done.
    - eapply s_producer. apply p_cancelled; reflexivity || done.
    - eapply s_inner, s_closer, c_done; reflexivity || done.
    - eapply s_inner, s_worker, w_drain; reflexivity || done.
    - eapply s_inner, s_worker, w_exit; reflexivity || done.
    - eapply s_inner, s_closer, c_drained; reflexivity || done. }
  by vm_compute.
Qed.

Definition sample_queued : queued := queuedOf ("1" +:+ newline) (batch_of 1).

Lemma sample_waiting : exists tr s s1 tr' s',
  @run plain_codec sample_dates (NewHTTPExporter sample_cfg) 0 (NewState 0) tr s /\
  @step plain_codec sample_dates (NewHTTPExporter sample_cfg) 0 s (LTake sample_queued) s1 /\
  @run plain_codec sample_dates (NewHTTPExporter sample_cfg) 0 s1 tr' s' /\ count is_take tr' = 0%nat /\
  wk s' = Waiting false (mkWork sample_queued 1 Minute (Some (HTTPErr (mkHttpError 503 (2 * Second) ""))) (2 * Second)) 0 (2 * Second).
Proof.
  eexists _, _, _, _, _. split; [|split; [|split]].
  - unroll 1%nat. eapply s_producer, p_enqueue with (b := batch_of 1); reflexivity || done.
  - eapply s_inner, s_worker, w_take; reflexivity || done.
  - unroll 3%nat.
    + eapply s_inner, s_worker, w_send with (draw := 0); reflexivity || done.
    + eapply s_inner, s_worker, (w_ends _ _ (Answers 503 "2" "")), w_failed; reflexivity || done.
    + eapply s_inner, s_worker, w_wait with (draw := 0); reflexivity || done.
  - split; reflexivity.
Qed.

Theorem export_conserves_witness : exists (tr : list label) (s : http),
  cl s = Closed /\ count is_offer tr = 3%nat /\ BatchesExported (Stats_of s) = 1 /\
  BatchesDropped (Stats_of s) = 1 /\ BatchesRejected (Stats_of s) = 1.
Proof.
  destruct sample_run as (tr & s & Hr & Hc & _ & _ & _ & Hx & Hj & Hp & _ & Hn & Hq). exists tr, s.
  destruct (@export_conserves plain_codec sample_dates sample_cfg 0 0 ltac:(done) ltac:(done) tr s Hr)
    as (Ho & _ & H1 & H2 & H3 & _).
  rewrite H1, H2, H3, Hx, Hj, Hp. done.
Defined.

Theorem queue_keeps_newest_witness : exists (tr : list label) (s : http),
  q_seq <$> enqueued tr = [1; 2; 3] /\ q_seq <$> delivered tr = [1] /\
  dequeued tr = enqueued tr /\ settled tr `sublist_of` enqueued tr.
Proof.
  destruct sample_run as (tr & s & Hr & _ & _ & He & Hd & _ & _ & _ & _ & _ & Hq). exists tr, s.
  destruct (@queue_keeps_newest plain_codec sample_dates sample_cfg 0 0 ltac:(done) ltac:(done) tr s Hr)
    as (_ & Hf & _ & Hs & _).
  rewrite Hq, app_nil_r in Hf. done.
Defined.

(** The first batch is taken, refused once, and waits. *)
Theorem attempts_bounded_witness : exists (tr : list label) (s1 s : http),
  wk s = Waiting false (mkWork sample_queued 1 Minute (Some (HTTPErr (mkHttpError 503 (2 * Second) ""))) (2 * Second)) 0 (2 * Second) /\
  Z.of_nat (count is_attempt tr) <= 3 /\ now s - now s1 <= maxRetryBudget + 10 * Second.
Proof.
  destruct sample_waiting as (tr & s0 & s1 & tr' & s & Hr & Ht & Hr' & Hn & Hw). exists tr', s1, s.
  destruct (@attempts_bounded plain_codec sample_dates sample_cfg 0 0 ltac:(done) ltac:(done) tr tr' _ s0 s1 s Hr Ht Hr' Hn) as [Ha Ht'].
  split; [exact Hw|]. split; [exact Ha|]. change (timeout _) with (10 * Second) in Ht'.
  destruct Ht' as [[_ Ht']|Ht']; [lia|]. rewrite Hw in Ht'. discriminate Ht'.
Defined.

Theorem close_drains_witness : exists tr s,
  @run plain_codec sample_dates (NewHTTPExporter sample_cfg) 0 (NewState 0) tr s /\ wk s = Exited /\ queue s = [].
Proof.
  destruct sample_run as (tr & s & Hr & Hc & _). exists tr, s.
  destruct (@close_drains plain_codec sample_dates sample_cfg 0 0 ltac:(done) ltac:(done) tr s Hr)
    as (_ & _ & _ & Hcl); [unfold closedFlag; by rewrite Hc|].
  destruct (Hcl Hc) as (Hx & Hq & _). done.
Defined.
