(* ===== verification/Environment.v ===== *)
(** * Environment: the agent's configuration
      ([internal/config/config.go])

    [Load] reads every setting through a parser that accumulates problems, so
    that all of them are reported at once.  The environment is a function from
    names to values, and a problem is a value of [problem] rather than its text.
    Parsing a URL is the class [NetURL]; the instance id [Load] falls back to is an
    argument of it, which [defaultInstanceID] makes of what the system answers. *)

From Stdlib Require Import ZArith Lia.
From stdpp Require Import prelude strings numbers pretty.
From S2P Require Import Prelude Wire Filter Cadence Strconv.

Record URL := mkURL { u_Scheme : string; u_Host : string; u_Hostname : string }.

Class NetURL := {
  url_Parse : string -> option URL;
  loopbackIP : string -> bool;        (* net.ParseIP(host) is a loopback address *)
}.

Definition ExportModeFile : string := "file".
Definition ExportModeHTTP : string := "http".
Definition ExportModeStdout : string := "stdout".

(** ** Defaults; those of the cadences are in [Cadence] *)

Definition DefaultExportFile : string := "./metrics.jsonl".
Definition DefaultExportFileMaxMB : Z := 100.
Definition DefaultExportMaxBackups : Z := 3.
Definition DefaultExportFileSync : bool := false.
Definition DefaultExportQueueSize : Z := 20.
Definition DefaultExportMaxRetries : Z := 3.
Definition DefaultExportBaseDelay : Z := Second.
Definition DefaultExportTimeout : Z := 10 * Second.
Definition DefaultInterval : Z := 5 * Second.
Definition DefaultLogLevel : string := "info".
Definition DefaultCollectLSO : bool := true.
Definition DefaultCollectConsumerGroups : bool := true.
Definition DefaultCollectLogDirs : bool := true.
Definition DefaultCollectThroughputWindow : bool := false.
Definition DefaultThroughputWindow : Z := 5 * Minute.
Definition DefaultThroughputWindowEvery : Z := 1.
Definition DefaultCollectConfigs : bool := true.
Definition DefaultCollectMaxTimestamp : bool := true.
Definition DefaultCollectTieredOffsets : bool := false.
Definition DefaultCollectShareGroups : bool := false.
Definition DefaultMaxErrors : Z := 1000.
Definition DefaultMaxErrorSamples : Z := 1.
Definition collectionTimeoutRatio : Z := 80.

Definition groupStates : list string :=
  ["Unknown"; "PreparingRebalance"; "CompletingRebalance"; "Stable"; "Dead"; "Empty"]%string.

(** ** Data *)

Record Config := mkConfig {
  KafkaBrokers : list string;
  SASLMechanism : string;
  SASLUsername : string;
  SASLPassword : string;
  TLSEnabled : bool;
  ExportMode : string;
  ExportEndpoint : string;
  APIKey : string;
  ExportFile : string;
  ExportFileMaxMB : Z;
  ExportFileMaxBackups : Z;
  ExportFileSync : bool;
  ExportQueueSize : Z;
  ExportMaxRetries : Z;
  ExportBaseDelay : Z;
  ExportTimeout : Z;
  CollectionInterval : Z;
  CollectionTimeout : Z;
  IncludeInternalTopics : bool;
  TopicInclude : list string;
  TopicExclude : list string;
  GroupInclude : list string;
  GroupExclude : list string;
  GroupStates : list string;
  CollectLastStableOffset : bool;
  CollectConsumerGroups : bool;
  CollectLogDirs : bool;
  LogDirsEvery : Z;
  CollectThroughputWindow : bool;
  cfg_ThroughputWindow : Z;
  ThroughputWindowEvery : Z;
  CollectConfigs : bool;
  ConfigsEvery : Z;
  CollectMaxTimestamp : bool;
  MaxTimestampEvery : Z;
  CollectTieredOffsets : bool;
  CollectShareGroups : bool;
  cfg_MaxErrors : Z;
  cfg_MaxErrorSamples : Z;
  LogLevel : string;
  AgentInstanceID : string;
}.

(** What [Load] can complain of. *)
Inductive problem :=
| Required (key : string)
| NotOneOf (key value : string)
| Malformed (key value : string)
| OutOfRange (key : string) (value : Z)
| BadScheme (value scheme : string)
| NoHost (value : string)
| EmptyRegex (key entry : string)
| BadRegex (key entry : string).

Inductive level := LevelDebug | LevelInfo | LevelWarn | LevelError.

(** ** The parser *)

Definition splitList (v : string) : list string :=
  omap (fun part => let part := TrimSpace part in if String.eqb part "" then None else Some part) (SplitComma v).

Definition parseLevel (s : string) : option level :=
  if String.eqb s "debug" then Some LevelDebug
  else if String.eqb s "info" then Some LevelInfo
  else if String.eqb s "warn" || String.eqb s "warning" then Some LevelWarn
  else if String.eqb s "error" then Some LevelError
  else None.

Definition parser : Type -> Type := St (list problem).

Definition errf (p : problem) : parser () := modify (fun errs => errs ++ [p]).

(** [if cond { p.errf(...) }]. *)
Definition complain (cond : bool) (p : problem) : parser () := if cond then errf p else mret ().

Section load.
Context `{!GoLibrary, !Regexp, !NetURL}.

Definition canonicalGroupState (s : string) : option string :=
  snd <$> list_find (fun state => EqualFold s state = true) groupStates.

Context (env : string -> option string) (defaultInstanceID : string).

Definition Getenv (key : string) : string := default ""%string (env key).

Definition str (key def : string) : string :=
  match env key with
  | Some v => if String.eqb (TrimSpace v) "" then def else v
  | None => def
  end.

(** [p.duration], [p.integer] and [p.boolean]. *)
Definition reading {A} (parse : string -> option A) (key : string) (def : A) : parser A :=
  let v := TrimSpace (Getenv key) in
  if String.eqb v "" then mret def
  else match parse v with
       | None => errf (Malformed key v) ;; mret def
       | Some a => mret a
       end.

Definition duration := reading ParseDuration.
Definition integer := reading Atoi.
Definition boolean := reading ParseBool.

(** [p.validatePattern]. *)
Definition p_validatePattern (key entry : string) : parser () :=
  if (String.length entry <? 2)%nat || negb (String.prefix "/" entry) || negb (HasSuffix entry "/") then mret ()
  else
    let body := inner entry in
    if String.eqb body "" then errf (EmptyRegex key entry)
    else match Compile body with None => errf (BadRegex key entry) | Some _ => mret () end.

Definition patterns (key : string) : parser (list string) :=
  let l := splitList (Getenv key) in
  iterM (p_validatePattern key) l ;; mret l.

(** The loop over [GROUP_STATES]. *)
Fixpoint groupStatesLoop (l : list string) : parser (list string) :=
  match l with
  | [] => mret []
  | s :: l =>
      match canonicalGroupState s with
      | None => errf (NotOneOf "GROUP_STATES" s) ;; groupStatesLoop l
      | Some state => states ← groupStatesLoop l; mret (state :: states)
      end
  end.

(** The mode before it is checked. *)
Definition exportMode (endpoint : string) : string :=
  let mode := ToLower (TrimSpace (Getenv "EXPORT_MODE")) in
  if String.eqb mode "" then if negb (String.eqb endpoint "") then ExportModeHTTP else ExportModeFile else mode.

Definition checkEndpoint (endpoint : string) : parser () :=
  if String.eqb endpoint "" then mret ()
  else match url_Parse endpoint with
       | None => errf (Malformed "EXPORT_ENDPOINT" endpoint)
       | Some u =>
           if negb (String.eqb (u_Scheme u) "http") && negb (String.eqb (u_Scheme u) "https")
           then errf (BadScheme endpoint (u_Scheme u))
           else complain (String.eqb (u_Host u) "") (NoHost endpoint)
       end.

Definition checkMode (mode endpoint apiKey : string) : parser () :=
  if String.eqb mode ExportModeFile || String.eqb mode ExportModeStdout then mret ()
  else if String.eqb mode ExportModeHTTP then
    complain (String.eqb endpoint "") (Required "EXPORT_ENDPOINT") ;;
    complain (String.eqb apiKey "") (Required "API_KEY") ;;
    checkEndpoint endpoint
  else errf (NotOneOf "EXPORT_MODE" mode).

(** A duration that has to be positive, and an integer with a lower bound. *)
Definition positive (key : string) (def : Z) : parser Z :=
  d ← duration key def; complain (d <=? 0) (OutOfRange key d) ;; mret d.

Definition bounded (key : string) (def lo : Z) : parser Z :=
  n ← integer key def; complain (n <? lo) (OutOfRange key n) ;; mret n.

(** [Load] up to [p.result()]. *)
Definition loadAll : parser Config :=
  let brokers := splitList (Getenv "KAFKA_BROKERS") in
  complain (Z.of_nat (length brokers) =? 0) (Required "KAFKA_BROKERS") ;;
  let mechanism := Getenv "KAFKA_SASL_MECHANISM" in
  let username := Getenv "KAFKA_SASL_USERNAME" in
  let password := Getenv "KAFKA_SASL_PASSWORD" in
  complain (negb (bool_decide (mechanism ∈ [""; "PLAIN"; "SCRAM-SHA-256"; "SCRAM-SHA-512"]%string)))
    (NotOneOf "KAFKA_SASL_MECHANISM" mechanism) ;;
  complain (negb (String.eqb mechanism "") && (String.eqb username "" || String.eqb password ""))
    (Required "KAFKA_SASL_PASSWORD") ;;
  tls ← boolean "KAFKA_TLS_ENABLED" false;
  let endpoint := TrimSpace (Getenv "EXPORT_ENDPOINT") in
  let apiKey := Getenv "API_KEY" in
  let mode := exportMode endpoint in
  checkMode mode endpoint apiKey ;;
  let file := str "EXPORT_FILE" DefaultExportFile in
  fileMaxMB ← integer "EXPORT_FILE_MAX_MB" DefaultExportFileMaxMB;
  fileMaxBackups ← integer "EXPORT_FILE_MAX_BACKUPS" DefaultExportMaxBackups;
  fileSync ← boolean "EXPORT_FILE_FSYNC" DefaultExportFileSync;
  complain (fileMaxBackups <? 0) (OutOfRange "EXPORT_FILE_MAX_BACKUPS" fileMaxBackups) ;;
  queueSize ← bounded "EXPORT_QUEUE_SIZE" DefaultExportQueueSize 1;
  maxRetries ← bounded "EXPORT_MAX_RETRIES" DefaultExportMaxRetries 0;
  baseDelay ← positive "EXPORT_BASE_DELAY" DefaultExportBaseDelay;
  exportTimeout ← positive "EXPORT_TIMEOUT" DefaultExportTimeout;
  interval ← positive "COLLECTION_INTERVAL" DefaultInterval;
  timeout ← positive "COLLECTION_TIMEOUT" (Z.quot (wrapS 64 (interval * collectionTimeoutRatio)) 100);
  internal ← boolean "INCLUDE_INTERNAL_TOPICS" false;
  topicInclude ← patterns "TOPIC_INCLUDE";
  topicExclude ← patterns "TOPIC_EXCLUDE";
  groupInclude ← patterns "GROUP_INCLUDE";
  groupExclude ← patterns "GROUP_EXCLUDE";
  states ← groupStatesLoop (splitList (Getenv "GROUP_STATES"));
  lso ← boolean "COLLECT_LAST_STABLE_OFFSET" DefaultCollectLSO;
  consumerGroups ← boolean "COLLECT_CONSUMER_GROUPS" DefaultCollectConsumerGroups;
  logDirs ← boolean "COLLECT_LOG_DIRS" DefaultCollectLogDirs;
  logDirsEvery ← bounded "LOG_DIRS_EVERY" DefaultLogDirsEvery 1;
  throughput ← boolean "COLLECT_THROUGHPUT_WINDOW" DefaultCollectThroughputWindow;
  window ← positive "THROUGHPUT_WINDOW" DefaultThroughputWindow;
  windowEvery ← bounded "THROUGHPUT_WINDOW_EVERY" DefaultThroughputWindowEvery 1;
  maxTS ← boolean "COLLECT_MAX_TIMESTAMP" DefaultCollectMaxTimestamp;
  maxTSEvery ← bounded "MAX_TIMESTAMP_EVERY" DefaultMaxTimestampEvery 1;
  tiered ← boolean "COLLECT_TIERED_OFFSETS" DefaultCollectTieredOffsets;
  shareGroups ← boolean "COLLECT_SHARE_GROUPS" DefaultCollectShareGroups;
  configs ← boolean "COLLECT_CONFIGS" DefaultCollectConfigs;
  configsEvery ← bounded "CONFIGS_EVERY" DefaultConfigsEvery 1;
  maxErrors ← bounded "MAX_ERRORS" DefaultMaxErrors 0;
  maxErrorSamples ← bounded "MAX_ERROR_SAMPLES" DefaultMaxErrorSamples 1;
  let logLevel := ToLower (TrimSpace (str "LOG_LEVEL" DefaultLogLevel)) in
  complain (bool_decide (parseLevel logLevel = None)) (NotOneOf "LOG_LEVEL" logLevel) ;;
  let id := TrimSpace (Getenv "AGENT_INSTANCE_ID") in
  let id := if String.eqb id "" then defaultInstanceID else id in
  mret (mkConfig brokers mechanism username password tls mode endpoint apiKey file fileMaxMB fileMaxBackups
    fileSync queueSize maxRetries baseDelay exportTimeout interval timeout internal
    topicInclude topicExclude groupInclude groupExclude states lso consumerGroups logDirs logDirsEvery
    throughput window windowEvery configs configsEvery maxTS maxTSEvery tiered shareGroups
    maxErrors maxErrorSamples logLevel id).

Definition Load : list problem + Config :=
  match loadAll [] with
  | (c, []) => inr c
  | (_, errs) => inl errs
  end.

End load.

(** [hex.EncodeToString]. *)
Definition hexDigit (d : Z) : string := String.substring (Z.to_nat d) 1 "0123456789abcdef".
Definition EncodeToString (b : list Z) : string :=
  foldr (fun x s => hexDigit (Z.shiftr x 4) +:+ hexDigit (Z.land x 15) +:+ s) "" b.

(** What the calls of the system give: the host name, four random bytes, the time. *)
Definition defaultInstanceID (Hostname : option string) (random : option (list Z)) (UnixNano : Z) : string :=
  let host := match Hostname with Some h => if String.eqb h "" then "agent" else h | None => "agent" end in
  match random with
  | None => host +:+ "-" +:+ pretty (Z.land UnixNano 4294967295)
  | Some b => host +:+ "-" +:+ EncodeToString b
  end.

(** ** What the settings are, one by one

    The reference: the value of each setting and the problems it alone has,
    without the order in which the parser comes to them. *)

Section reference.
Context `{!GoLibrary, !Regexp, !NetURL} (env : string -> option string) (defaultInstanceID : string).

Definition trimmed (key : string) : string := TrimSpace (Getenv env key).

Definition read_value {A} (parse : string -> option A) (key : string) (def : A) : A :=
  if String.eqb (trimmed key) "" then def else default def (parse (trimmed key)).

Definition read_problems {A} (parse : string -> option A) (key : string) : list problem :=
  if String.eqb (trimmed key) "" then []
  else match parse (trimmed key) with None => [Malformed key (trimmed key)] | Some _ => [] end.

Definition when (cond : bool) (p : problem) : list problem := if cond then [p] else [].

Definition int_value := read_value Atoi.
Definition bool_value := read_value ParseBool.
Definition duration_value := read_value ParseDuration.

Definition bounded_problems (key : string) (def lo : Z) : list problem :=
  read_problems Atoi key ++ when (int_value key def <? lo) (OutOfRange key (int_value key def)).
Definition positive_problems (key : string) (def : Z) : list problem :=
  read_problems ParseDuration key ++ when (duration_value key def <=? 0) (OutOfRange key (duration_value key def)).

Definition pattern_problems (key entry : string) : list problem :=
  if validatePattern entry then []
  else if String.eqb (inner entry) "" then [EmptyRegex key entry] else [BadRegex key entry].
Definition patterns_problems (key : string) : list problem :=
  concat (pattern_problems key <$> splitList (Getenv env key)).

Definition states_value : list string := omap canonicalGroupState (splitList (Getenv env "GROUP_STATES")).
Definition states_problems : list problem :=
  omap (fun s => match canonicalGroupState s with None => Some (NotOneOf "GROUP_STATES" s) | Some _ => None end)
    (splitList (Getenv env "GROUP_STATES")).

Definition endpoint_problems (endpoint : string) : list problem :=
  if String.eqb endpoint "" then []
  else match url_Parse endpoint with
       | None => [Malformed "EXPORT_ENDPOINT" endpoint]
       | Some u =>
           if bool_decide (u_Scheme u ∈ ["http"; "https"]%string)
           then when (String.eqb (u_Host u) "") (NoHost endpoint)
           else [BadScheme endpoint (u_Scheme u)]
       end.
Definition mode_problems (mode endpoint apiKey : string) : list problem :=
  if bool_decide (mode ∈ [ExportModeFile; ExportModeStdout]) then []
  else if bool_decide (mode = ExportModeHTTP) then
    when (String.eqb endpoint "") (Required "EXPORT_ENDPOINT") ++
    when (String.eqb apiKey "") (Required "API_KEY") ++ endpoint_problems endpoint
  else [NotOneOf "EXPORT_MODE" mode].

(** The default of [COLLECTION_TIMEOUT]: four fifths of the interval. *)
Definition default_timeout : Z :=
  Z.quot (wrapS 64 (duration_value "COLLECTION_INTERVAL" DefaultInterval * collectionTimeoutRatio)) 100.

Definition config_of : Config :=
  let endpoint := TrimSpace (Getenv env "EXPORT_ENDPOINT") in
  mkConfig (splitList (Getenv env "KAFKA_BROKERS"))
    (Getenv env "KAFKA_SASL_MECHANISM") (Getenv env "KAFKA_SASL_USERNAME") (Getenv env "KAFKA_SASL_PASSWORD")
    (bool_value "KAFKA_TLS_ENABLED" false)
    (exportMode env endpoint) endpoint (Getenv env "API_KEY") (str env "EXPORT_FILE" DefaultExportFile)
    (int_value "EXPORT_FILE_MAX_MB" DefaultExportFileMaxMB)
    (int_value "EXPORT_FILE_MAX_BACKUPS" DefaultExportMaxBackups)
    (bool_value "EXPORT_FILE_FSYNC" DefaultExportFileSync)
    (int_value "EXPORT_QUEUE_SIZE" DefaultExportQueueSize) (int_value "EXPORT_MAX_RETRIES" DefaultExportMaxRetries)
    (duration_value "EXPORT_BASE_DELAY" DefaultExportBaseDelay)
    (duration_value "EXPORT_TIMEOUT" DefaultExportTimeout)
    (duration_value "COLLECTION_INTERVAL" DefaultInterval) (duration_value "COLLECTION_TIMEOUT" default_timeout)
    (bool_value "INCLUDE_INTERNAL_TOPICS" false)
    (splitList (Getenv env "TOPIC_INCLUDE")) (splitList (Getenv env "TOPIC_EXCLUDE"))
    (splitList (Getenv env "GROUP_INCLUDE")) (splitList (Getenv env "GROUP_EXCLUDE")) states_value
    (bool_value "COLLECT_LAST_STABLE_OFFSET" DefaultCollectLSO)
    (bool_value "COLLECT_CONSUMER_GROUPS" DefaultCollectConsumerGroups)
    (bool_value "COLLECT_LOG_DIRS" DefaultCollectLogDirs) (int_value "LOG_DIRS_EVERY" DefaultLogDirsEvery)
    (bool_value "COLLECT_THROUGHPUT_WINDOW" DefaultCollectThroughputWindow)
    (duration_value "THROUGHPUT_WINDOW" DefaultThroughputWindow)
    (int_value "THROUGHPUT_WINDOW_EVERY" DefaultThroughputWindowEvery)
    (bool_value "COLLECT_CONFIGS" DefaultCollectConfigs) (int_value "CONFIGS_EVERY" DefaultConfigsEvery)
    (bool_value "COLLECT_MAX_TIMESTAMP" DefaultCollectMaxTimestamp)
    (int_value "MAX_TIMESTAMP_EVERY" DefaultMaxTimestampEvery)
    (bool_value "COLLECT_TIERED_OFFSETS" DefaultCollectTieredOffsets)
    (bool_value "COLLECT_SHARE_GROUPS" DefaultCollectShareGroups)
    (int_value "MAX_ERRORS" DefaultMaxErrors) (int_value "MAX_ERROR_SAMPLES" DefaultMaxErrorSamples)
    (ToLower (TrimSpace (str env "LOG_LEVEL" DefaultLogLevel)))
    (if String.eqb (trimmed "AGENT_INSTANCE_ID") "" then defaultInstanceID else trimmed "AGENT_INSTANCE_ID").

Definition problems_of : list problem :=
  let c := config_of in
  concat
    [ when (bool_decide (KafkaBrokers c = [])) (Required "KAFKA_BROKERS");
      when (negb (bool_decide (SASLMechanism c ∈ [""; "PLAIN"; "SCRAM-SHA-256"; "SCRAM-SHA-512"]%string)))
        (NotOneOf "KAFKA_SASL_MECHANISM" (SASLMechanism c));
      when (bool_decide (SASLMechanism c <> "" /\ (SASLUsername c = "" \/ SASLPassword c = ""))%string)
        (Required "KAFKA_SASL_PASSWORD");
      read_problems ParseBool "KAFKA_TLS_ENABLED";
      mode_problems (ExportMode c) (ExportEndpoint c) (APIKey c);
      read_problems Atoi "EXPORT_FILE_MAX_MB";
      read_problems Atoi "EXPORT_FILE_MAX_BACKUPS";
      read_problems ParseBool "EXPORT_FILE_FSYNC";
      when (ExportFileMaxBackups c <? 0) (OutOfRange "EXPORT_FILE_MAX_BACKUPS" (ExportFileMaxBackups c));
      bounded_problems "EXPORT_QUEUE_SIZE" DefaultExportQueueSize 1;
      bounded_problems "EXPORT_MAX_RETRIES" DefaultExportMaxRetries 0;
      positive_problems "EXPORT_BASE_DELAY" DefaultExportBaseDelay;
      positive_problems "EXPORT_TIMEOUT" DefaultExportTimeout;
      positive_problems "COLLECTION_INTERVAL" DefaultInterval;
      positive_problems "COLLECTION_TIMEOUT" default_timeout;
      read_problems ParseBool "INCLUDE_INTERNAL_TOPICS";
      patterns_problems "TOPIC_INCLUDE"; patterns_problems "TOPIC_EXCLUDE";
      patterns_problems "GROUP_INCLUDE"; patterns_problems "GROUP_EXCLUDE";
      states_problems;
      read_problems ParseBool "COLLECT_LAST_STABLE_OFFSET"; read_problems ParseBool "COLLECT_CONSUMER_GROUPS";
      read_problems ParseBool "COLLECT_LOG_DIRS"; bounded_problems "LOG_DIRS_EVERY" DefaultLogDirsEvery 1;
      read_problems ParseBool "COLLECT_THROUGHPUT_WINDOW";
      positive_problems "THROUGHPUT_WINDOW" DefaultThroughputWindow;
      bounded_problems "THROUGHPUT_WINDOW_EVERY" DefaultThroughputWindowEvery 1;
      read_problems ParseBool "COLLECT_MAX_TIMESTAMP";
      bounded_problems "MAX_TIMESTAMP_EVERY" DefaultMaxTimestampEvery 1;
      read_problems ParseBool "COLLECT_TIERED_OFFSETS"; read_problems ParseBool "COLLECT_SHARE_GROUPS";
      read_problems ParseBool "COLLECT_CONFIGS"; bounded_problems "CONFIGS_EVERY" DefaultConfigsEvery 1;
      bounded_problems "MAX_ERRORS" DefaultMaxErrors 0;
      bounded_problems "MAX_ERROR_SAMPLES" DefaultMaxErrorSamples 1;
      when (bool_decide (parseLevel (LogLevel c) = None)) (NotOneOf "LOG_LEVEL" (LogLevel c)) ].

End reference.

(** ** Lemmas *)

Section lemmas.
Context `{!GoLibrary, !Regexp, !NetURL} (env : string -> option string) (id : string).

(** A parser step's value does not depend on the problems so far, and it only
    adds to them. *)
Definition writes {A} (m : parser A) (a : A) (k : list problem) : Prop := forall s, m s = (a, s ++ k).

Lemma writes_ret {A} (a : A) : writes (mret a) a [].
Proof. intros s. by rewrite app_nil_r. Qed.

Lemma writes_bind {A B} (m : parser A) (f : A -> parser B) a b k k' :
  writes m a k -> writes (f a) b k' -> writes (m ≫= f) b (k ++ k').
Proof. intros Hm Hf s. unfold mbind, St_bind. rewrite Hm, Hf. by rewrite app_assoc. Qed.

Lemma writes_map {A B} (m : parser A) (g : A -> B) a k : writes m a k -> writes (x ← m; mret (g x)) (g a) k.
Proof. intros Hm. rewrite <- (app_nil_r k). eapply writes_bind; [exact Hm|apply writes_ret]. Qed.

Lemma writes_errf p : writes (errf p) tt [p].
Proof. done. Qed.

Lemma writes_complain cond p : writes (complain cond p) tt (when cond p).
Proof. destruct cond; [apply writes_errf|apply writes_ret]. Qed.

Lemma writes_reading {A} (parse : string -> option A) key def :
  writes (reading env parse key def) (read_value env parse key def) (read_problems env parse key).
Proof.
  unfold reading, read_value, read_problems, trimmed.
  destruct (String.eqb _ ""); [apply writes_ret|]. destruct (parse _); [apply writes_ret|].
  rewrite <- (app_nil_r [Malformed _ _]). eapply writes_bind; [apply writes_errf|apply writes_ret].
Qed.

Lemma writes_bounded key def lo :
  writes (bounded env key def lo) (int_value env key def) (bounded_problems env key def lo).
Proof.
  unfold bounded, bounded_problems. eapply writes_bind; [apply writes_reading|].
  rewrite <- (app_nil_r (when _ _)). eapply writes_bind; [apply writes_complain|apply writes_ret].
Qed.

Lemma writes_positive key def :
  writes (positive env key def) (duration_value env key def) (positive_problems env key def).
Proof.
  unfold positive, positive_problems. eapply writes_bind; [apply writes_reading|].
  rewrite <- (app_nil_r (when _ _)). eapply writes_bind; [apply writes_complain|apply writes_ret].
Qed.

Lemma writes_pattern key entry : writes (p_validatePattern key entry) tt (pattern_problems key entry).
Proof.
  unfold p_validatePattern, pattern_problems, validatePattern. destruct (_ || _ || _); [apply writes_ret|].
  destruct (String.eqb _ ""); [apply writes_errf|]. destruct (Compile _); [apply writes_ret|apply writes_errf].
Qed.

Lemma writes_patterns key : writes (patterns env key) (splitList (Getenv env key)) (patterns_problems env key).
Proof.
  unfold patterns, patterns_problems. rewrite <- (app_nil_r (concat _)). eapply writes_bind; [|apply writes_ret].
  induction (splitList (Getenv env key)) as [|e l IH]; [apply writes_ret|].
  simpl. eapply writes_bind; [apply writes_pattern|apply IH].
Qed.

Lemma writes_states : writes (groupStatesLoop (splitList (Getenv env "GROUP_STATES")))
  (states_value env) (states_problems env).
Proof.
  unfold states_value, states_problems. induction (splitList _) as [|s l IH]; [apply writes_ret|].
  simpl. destruct (canonicalGroupState s) as [state|].
  - exact (writes_map _ (cons state) _ _ IH).
  - change (?x :: ?l) with ([x] ++ l). eapply writes_bind; [apply writes_errf|apply IH].
Qed.

Lemma writes_endpoint endpoint : writes (checkEndpoint endpoint) tt (endpoint_problems endpoint).
Proof.
  unfold checkEndpoint, endpoint_problems. destruct (String.eqb endpoint ""); [apply writes_ret|].
  destruct (url_Parse endpoint) as [u|]; [|apply writes_errf].
  assert (negb (String.eqb (u_Scheme u) "http") && negb (String.eqb (u_Scheme u) "https") =
    negb (bool_decide (u_Scheme u ∈ ["http"; "https"]%string))) as ->.
  { rewrite <- negb_orb. f_equal. apply eq_true_iff_eq.
    rewrite orb_true_iff, !String.eqb_eq, bool_decide_eq_true. set_solver. }
  destruct (bool_decide _); [apply writes_complain|apply writes_errf].
Qed.

Lemma writes_mode mode endpoint apiKey :
  writes (checkMode mode endpoint apiKey) tt (mode_problems mode endpoint apiKey).
Proof.
  unfold checkMode, mode_problems.
  assert (String.eqb mode ExportModeFile || String.eqb mode ExportModeStdout =
    bool_decide (mode ∈ [ExportModeFile; ExportModeStdout])) as ->.
  { apply eq_true_iff_eq. rewrite orb_true_iff, !String.eqb_eq, bool_decide_eq_true. set_solver. }
  destruct (bool_decide _); [apply writes_ret|].
  assert (String.eqb mode ExportModeHTTP = bool_decide (mode = ExportModeHTTP)) as ->.
  { apply eq_true_iff_eq. by rewrite String.eqb_eq, bool_decide_eq_true. }
  destruct (bool_decide _); [|apply writes_errf].
  eapply writes_bind; [apply writes_complain|]. eapply writes_bind; [apply writes_complain|apply writes_endpoint].
Qed.

Lemma writes_checked {B} cond cond' p (f : () -> parser B) b k :
  cond = cond' -> writes (f tt) b k -> writes (complain cond p ≫= f) b (when cond' p ++ k).
Proof. intros <- Hf. eapply writes_bind; [apply writes_complain|exact Hf]. Qed.

Lemma length_zero {A} (l : list A) `{!Decision (l = [])} : (Z.of_nat (length l) =? 0) = bool_decide (l = []).
Proof. apply eq_true_iff_eq. rewrite Z.eqb_eq, bool_decide_eq_true. destruct l; simpl; split; (done || lia). Qed.

Lemma sasl_incomplete m u p :
  negb (String.eqb m "") && (String.eqb u "" || String.eqb p "") =
  bool_decide (m <> "" /\ (u = "" \/ p = ""))%string.
Proof.
  apply eq_true_iff_eq. rewrite andb_true_iff, negb_true_iff, orb_true_iff, !String.eqb_eq,
    String.eqb_neq, bool_decide_eq_true. done.
Qed.

(** The parser, as a whole, is the reference. *)
Lemma loadAll_spec : writes (loadAll env id) (config_of env id) (problems_of env id).
Proof.
  unfold loadAll, problems_of, config_of. cbn [concat SASLMechanism SASLUsername SASLPassword KafkaBrokers
    ExportMode ExportEndpoint APIKey ExportFileMaxBackups LogLevel]. cbv zeta.
  apply writes_checked; [apply length_zero|]. apply writes_checked; [done|].
  apply writes_checked; [apply sasl_incomplete|].
  eapply writes_bind; [apply writes_reading|].
  eapply writes_bind; [apply writes_mode|].
  do 3 (eapply writes_bind; [apply writes_reading|]).
  apply writes_checked; [done|].
  do 2 (eapply writes_bind; [apply writes_bounded|]).
  do 4 (eapply writes_bind; [apply writes_positive|]).
  eapply writes_bind; [apply writes_reading|].
  do 4 (eapply writes_bind; [apply writes_patterns|]).
  eapply writes_bind; [apply writes_states|].
  do 3 (eapply writes_bind; [apply writes_reading|]).
  eapply writes_bind; [apply writes_bounded|].
  eapply writes_bind; [apply writes_reading|].
  eapply writes_bind; [apply writes_positive|].
  eapply writes_bind; [apply writes_bounded|].
  eapply writes_bind; [apply writes_reading|].
  eapply writes_bind; [apply writes_bounded|].
  do 3 (eapply writes_bind; [apply writes_reading|]).
  do 3 (eapply writes_bind; [apply writes_bounded|]).
  apply writes_checked; [done|]. apply writes_ret.
Qed.

Lemma Load_spec :
  Load env id = match problems_of env id with [] => inr (config_of env id) | ps => inl ps end.
Proof. unfold Load. rewrite loadAll_spec. simpl. by destruct (problems_of env id). Qed.

Lemma when_nil cond p : when cond p = [] -> cond = false.
Proof. by destruct cond. Qed.

Lemma bounded_nil key def lo : bounded_problems env key def lo = [] -> lo <= int_value env key def.
Proof. intros [_ Hw%when_nil]%app_eq_nil. lia. Qed.

Lemma positive_nil key def : positive_problems env key def = [] -> 0 < duration_value env key def.
Proof. intros [_ Hw%when_nil]%app_eq_nil. lia. Qed.

Lemma patterns_nil key : patterns_problems env key = [] ->
  Forall (fun entry => validatePattern entry = true) (splitList (Getenv env key)).
Proof.
  unfold patterns_problems. induction (splitList _) as [|e l IH]; [constructor|]. simpl.
  intros [He Hl]%app_eq_nil. constructor; [|by apply IH]. unfold pattern_problems in He.
  destruct (validatePattern e); [done|]. by destruct (String.eqb _ "").
Qed.

Lemma canonical_in s state : canonicalGroupState s = Some state ->
  state ∈ groupStates /\ EqualFold s state = true.
Proof.
  unfold canonicalGroupState. destruct (list_find _ groupStates) as [[i x]|] eqn:E; [|done].
  apply list_find_Some in E as (Hi & Hx & _). intros [= <-]. split; [by eapply list_elem_of_lookup_2|done].
Qed.

End lemmas.

Lemma defaultInstanceID_named host random nano : defaultInstanceID host random nano <> ""%string.
Proof.
  unfold defaultInstanceID. set (h := match host with Some _ => _ | None => _ end).
  assert (h <> ""%string) as Hh by (unfold h; destruct host as [x|]; [|done]; by destruct (String.eqb_spec x "")).
  by destruct h, random.
Qed.

Lemma splitList_trimmed v : Forall (fun e => TrimSpace e <> ""%string) (splitList v).
Proof.
  unfold splitList. induction (SplitComma v) as [|part l IH]; [constructor|]. simpl.
  destruct (String.eqb_spec (TrimSpace part) ""); [done|]. constructor; [by rewrite TrimSpace_idempotent|done].
Qed.

(** What loads has a name, and no blank entry in its lists. *)
Lemma Load_named `{!GoLibrary, !Regexp, !NetURL} env id c : Load env id = inr c -> id <> ""%string ->
  AgentInstanceID c <> ""%string /\
  Forall (fun e => TrimSpace e <> ""%string) (TopicInclude c ++ TopicExclude c ++ GroupInclude c ++ GroupExclude c).
Proof.
  rewrite Load_spec. destruct (problems_of env id); [|done]. intros [= <-] Hid. split; simpl.
  - by destruct (String.eqb_spec (trimmed env "AGENT_INSTANCE_ID") "").
  - rewrite !Forall_app. by split_and!; apply splitList_trimmed.
Qed.

(** ** Theorems *)

(** What every configuration that loads guarantees to the rest of the program. *)
Record valid `{!GoLibrary, !Regexp, !NetURL} (c : Config) : Prop := {
  v_brokers : KafkaBrokers c <> [];
  v_mechanism : SASLMechanism c ∈ [""; "PLAIN"; "SCRAM-SHA-256"; "SCRAM-SHA-512"]%string;
  v_sasl : SASLMechanism c <> ""%string -> SASLUsername c <> ""%string /\ SASLPassword c <> ""%string;
  v_mode : ExportMode c ∈ [ExportModeFile; ExportModeHTTP; ExportModeStdout];
  v_http : ExportMode c = ExportModeHTTP -> APIKey c <> ""%string /\ ExportEndpoint c <> ""%string /\
    exists u, url_Parse (ExportEndpoint c) = Some u /\ u_Scheme u ∈ ["http"; "https"]%string /\ u_Host u <> ""%string;
  v_backups : 0 <= ExportFileMaxBackups c;
  v_export : 1 <= ExportQueueSize c /\ 0 <= ExportMaxRetries c /\ 0 < ExportBaseDelay c /\ 0 < ExportTimeout c;
  v_times : 0 < CollectionInterval c /\ 0 < CollectionTimeout c /\ 0 < cfg_ThroughputWindow c;
  v_every : 1 <= LogDirsEvery c /\ 1 <= ThroughputWindowEvery c /\ 1 <= ConfigsEvery c /\ 1 <= MaxTimestampEvery c;
  v_caps : 0 <= cfg_MaxErrors c /\ 1 <= cfg_MaxErrorSamples c;
  v_patterns : Forall (fun entry => validatePattern entry = true)
    (TopicInclude c ++ TopicExclude c ++ GroupInclude c ++ GroupExclude c);
  v_states : Forall (fun s => s ∈ groupStates) (GroupStates c);
  v_level : is_Some (parseLevel (LogLevel c));
}.

Section valid.
Context `{!GoLibrary, !Regexp, !NetURL}.

Lemma mode_nil mode endpoint apiKey : mode_problems mode endpoint apiKey = [] ->
  mode ∈ [ExportModeFile; ExportModeHTTP; ExportModeStdout] /\
  (mode = ExportModeHTTP -> apiKey <> ""%string /\ endpoint <> ""%string /\
    exists u, url_Parse endpoint = Some u /\ u_Scheme u ∈ ["http"; "https"]%string /\ u_Host u <> ""%string).
Proof.
  unfold mode_problems. case_bool_decide as Hm.
  - intros _. split; [set_solver|]. intros ->. exfalso. revert Hm. by apply (bool_decide_unpack _); vm_compute.
  - case_bool_decide as Hh; [|done]. subst. intros [He%when_nil [Ha%when_nil Hu]%app_eq_nil]%app_eq_nil.
    split; [by apply (bool_decide_unpack _); vm_compute|]. intros _. apply String.eqb_neq in Ha.
    unfold endpoint_problems in Hu. rewrite He in Hu. apply String.eqb_neq in He. split; [done|]. split; [done|]. destruct (url_Parse endpoint) as [u|]; [|done].
    case_bool_decide; [|done]. apply when_nil, String.eqb_neq in Hu. eauto.
Qed.
End valid.

(** ** What is logged of the configuration *)

Section report.
Context `{!NetURL} (c : Config).

Definition HasSASL : bool :=
  negb (String.eqb (SASLMechanism c) "") && negb (String.eqb (SASLUsername c) "") &&
  negb (String.eqb (SASLPassword c) "").

Definition ExportTarget : string :=
  if String.eqb (ExportMode c) ExportModeHTTP then ExportEndpoint c
  else if String.eqb (ExportMode c) ExportModeFile then ExportFile c
  else if String.eqb (ExportMode c) ExportModeStdout then "stdout" else "".

Definition SlogLevel : level := default LevelInfo (parseLevel (LogLevel c)).

Definition secret (v : string) : string := if String.eqb v "" then "unset" else "***".
Definition orNone (v : string) : string := if String.eqb v "" then "-" else v.
Definition fmt_t (b : bool) : string := if b then "true" else "false".

Definition Redacted : string :=
  "brokers=" +:+ JoinComma (KafkaBrokers c)
  +:+ " tls=" +:+ fmt_t (TLSEnabled c) +:+ " sasl_mechanism=" +:+ orNone (SASLMechanism c)
  +:+ " sasl_username=" +:+ orNone (SASLUsername c) +:+ " sasl_password=" +:+ secret (SASLPassword c)
  +:+ " export_mode=" +:+ ExportMode c +:+ " export_target=" +:+ orNone ExportTarget
  +:+ " api_key=" +:+ secret (APIKey c)
  +:+ (if String.eqb (ExportMode c) ExportModeFile then
         " export_file_max_mb=" +:+ pretty (ExportFileMaxMB c)
         +:+ " export_file_max_backups=" +:+ pretty (ExportFileMaxBackups c)
         +:+ " export_file_fsync=" +:+ fmt_t (ExportFileSync c) else "")
  +:+ (if String.eqb (ExportMode c) ExportModeHTTP then
         " export_queue_size=" +:+ pretty (ExportQueueSize c)
         +:+ " export_max_retries=" +:+ pretty (ExportMaxRetries c)
         +:+ " export_base_delay=" +:+ Duration_String (ExportBaseDelay c)
         +:+ " export_timeout=" +:+ Duration_String (ExportTimeout c) else "")
  +:+ " collection_interval=" +:+ Duration_String (CollectionInterval c)
  +:+ " collection_timeout=" +:+ Duration_String (CollectionTimeout c)
  +:+ " include_internal_topics=" +:+ fmt_t (IncludeInternalTopics c)
  +:+ " topic_include=" +:+ orNone (JoinComma (TopicInclude c))
  +:+ " topic_exclude=" +:+ orNone (JoinComma (TopicExclude c))
  +:+ " group_include=" +:+ orNone (JoinComma (GroupInclude c))
  +:+ " group_exclude=" +:+ orNone (JoinComma (GroupExclude c))
  +:+ " group_states=" +:+ orNone (JoinComma (GroupStates c))
  +:+ " collect_last_stable_offset=" +:+ fmt_t (CollectLastStableOffset c)
  +:+ " collect_consumer_groups=" +:+ fmt_t (CollectConsumerGroups c)
  +:+ " collect_log_dirs=" +:+ fmt_t (CollectLogDirs c)
  +:+ (if CollectLogDirs c then " log_dirs_every=" +:+ pretty (LogDirsEvery c) else "")
  +:+ " collect_throughput_window=" +:+ fmt_t (CollectThroughputWindow c)
  +:+ (if CollectThroughputWindow c then
         " throughput_window=" +:+ Duration_String (cfg_ThroughputWindow c)
         +:+ " throughput_window_every=" +:+ pretty (ThroughputWindowEvery c) else "")
  +:+ " collect_max_timestamp=" +:+ fmt_t (CollectMaxTimestamp c)
  +:+ (if CollectMaxTimestamp c then " max_timestamp_every=" +:+ pretty (MaxTimestampEvery c) else "")
  +:+ " collect_tiered_offsets=" +:+ fmt_t (CollectTieredOffsets c)
  +:+ " collect_share_groups=" +:+ fmt_t (CollectShareGroups c)
  +:+ " collect_configs=" +:+ fmt_t (CollectConfigs c)
  +:+ (if CollectConfigs c then " configs_every=" +:+ pretty (ConfigsEvery c) else "")
  +:+ " max_errors=" +:+ pretty (cfg_MaxErrors c) +:+ " max_error_samples=" +:+ pretty (cfg_MaxErrorSamples c)
  +:+ " log_level=" +:+ LogLevel c +:+ " agent_instance_id=" +:+ AgentInstanceID c.

Definition isCleartextRemote (endpoint : string) : bool :=
  match url_Parse endpoint with
  | None => false
  | Some u =>
      if negb (String.eqb (u_Scheme u) "http") then false
      else if String.eqb (u_Hostname u) "localhost" then false
      else negb (loopbackIP (u_Hostname u))
  end.

Definition warn (cond : bool) (text : string) : list string := if cond then [text] else [].

Definition Warnings : list string :=
  warn (HasSASL && negb (TLSEnabled c))
    ("KAFKA_SASL_MECHANISM=" +:+ SASLMechanism c +:+ " with KAFKA_TLS_ENABLED=false: the SASL exchange is unencrypted, so PLAIN sends the username and password in the clear (SCRAM withholds the password but is still unprotected against an attacker in the path)") ++
  warn (CollectionInterval c <? CollectionTimeout c)
    ("COLLECTION_TIMEOUT (" +:+ Duration_String (CollectionTimeout c) +:+ ") exceeds COLLECTION_INTERVAL ("
     +:+ Duration_String (CollectionInterval c) +:+ "): slow cycles will delay ticks") ++
  warn (negb (String.eqb (ExportMode c) ExportModeHTTP) && negb (String.eqb (ExportEndpoint c) ""))
    ("EXPORT_ENDPOINT is set but EXPORT_MODE=" +:+ ExportMode c +:+ ", so it is ignored") ++
  warn (String.eqb (ExportMode c) ExportModeHTTP && isCleartextRemote (ExportEndpoint c))
    "EXPORT_ENDPOINT is an http:// URL to a remote host: the API key in the X-API-Key header and the whole batch travel in cleartext" ++
  warn (String.eqb (ExportMode c) ExportModeFile && (ExportFileMaxMB c <? 0))
    "EXPORT_FILE_MAX_MB is negative: file rotation is disabled and the file will grow without bound" ++
  warn (cfg_MaxErrors c =? 0) "MAX_ERRORS=0 leaves errors[] unbounded" ++
  warn (50 <? cfg_MaxErrorSamples c)
    ("MAX_ERROR_SAMPLES=" +:+ pretty (cfg_MaxErrorSamples c) +:+ " largely defeats error deduplication") ++
  (if 0 <? Z.of_nat (length (GroupStates c)) then
     ("GROUP_STATES=" +:+ JoinComma (GroupStates c) +:+ " filters the listing broker-side: groups in other states are absent from both groups[] and offsets[], and a group leaving the set looks deleted")
     :: warn (negb (bool_decide ("Empty"%string ∈ GroupStates c)))
          "GROUP_STATES excludes Empty: a group whose consumers have all died is an Empty group, so that outage will not appear in the batch"
   else []) ++
  warn (negb (CollectLastStableOffset c))
    "COLLECT_LAST_STABLE_OFFSET=false: end_offset is the high watermark, so read_committed consumers on transactional topics will report permanent false lag" ++
  warn (CollectLogDirs c && (LogDirsEvery c =? 1))
    ("COLLECT_LOG_DIRS=true with LOG_DIRS_EVERY=1 requests an O(replicas) response from every broker on every "
     +:+ Duration_String (CollectionInterval c) +:+ " cycle") ++
  warn (CollectThroughputWindow c && (cfg_ThroughputWindow c <? CollectionInterval c))
    ("THROUGHPUT_WINDOW (" +:+ Duration_String (cfg_ThroughputWindow c) +:+ ") is narrower than COLLECTION_INTERVAL ("
     +:+ Duration_String (CollectionInterval c) +:+ "): a backend can already difference two batches over that span, so the extra ListOffsets fan-out buys nothing").

End report.

(** The configuration with other credentials. *)
Definition with_secrets (password key : string) (c : Config) : Config :=
  mkConfig (KafkaBrokers c) (SASLMechanism c) (SASLUsername c) password (TLSEnabled c) (ExportMode c)
    (ExportEndpoint c) key (ExportFile c) (ExportFileMaxMB c) (ExportFileMaxBackups c) (ExportFileSync c)
    (ExportQueueSize c) (ExportMaxRetries c) (ExportBaseDelay c) (ExportTimeout c) (CollectionInterval c)
    (CollectionTimeout c) (IncludeInternalTopics c) (TopicInclude c) (TopicExclude c) (GroupInclude c)
    (GroupExclude c) (GroupStates c) (CollectLastStableOffset c) (CollectConsumerGroups c) (CollectLogDirs c)
    (LogDirsEvery c) (CollectThroughputWindow c) (cfg_ThroughputWindow c) (ThroughputWindowEvery c)
    (CollectConfigs c) (ConfigsEvery c) (CollectMaxTimestamp c) (MaxTimestampEvery c) (CollectTieredOffsets c)
    (CollectShareGroups c) (cfg_MaxErrors c) (cfg_MaxErrorSamples c) (LogLevel c) (AgentInstanceID c).

Section theorems.
Context `{!GoLibrary, !Regexp, !NetURL}.

(** C20: a misconfigured deployment is told everything at once: [Load] refuses the
    environment exactly when some setting has a problem of its own, with exactly
    the problems of all of them, and otherwise every setting has the value its text
    or its default gives. *)
Theorem load_reports_all (env : string -> option string) (id : string) :
  (forall ps, Load env id = inl ps <-> ps = problems_of env id /\ ps <> []) /\
  (forall c, Load env id = inr c <-> c = config_of env id /\ problems_of env id = []).
Proof.
  rewrite Load_spec. destruct (problems_of env id) as [|p ps]; split; intros x; split;
    (intros [= <-] || intros [-> ?]); done.
Qed.

Lemma Load_valid (env : string -> option string) (id : string) (c : Config) :
  Load env id = inr c ->
  valid c /\
  (Forall (fun e => utf8_valid e = true) (TopicInclude c ++ TopicExclude c ++ GroupInclude c ++ GroupExclude c) ->
     is_Some (newFilter (TopicInclude c) (TopicExclude c)) /\
     is_Some (newFilter (GroupInclude c) (GroupExclude c))).
Proof.
  rewrite Load_spec. destruct (problems_of env id) as [|p ps] eqn:E; [|done]. intros [= <-].
  apply app_eq_nil in E as [Hbrokers E]. apply app_eq_nil in E as [Hmech E].
  apply app_eq_nil in E as [Hsasl E]. apply app_eq_nil in E as [_ E].
  apply app_eq_nil in E as [Hmode E]. do 3 apply app_eq_nil in E as [_ E].
  apply app_eq_nil in E as [Hback E].
  apply app_eq_nil in E as [Hq%bounded_nil E]. apply app_eq_nil in E as [Hr%bounded_nil E].
  apply app_eq_nil in E as [Hd%positive_nil E]. apply app_eq_nil in E as [Ht%positive_nil E].
  apply app_eq_nil in E as [Hi%positive_nil E]. apply app_eq_nil in E as [Hct%positive_nil E].
  apply app_eq_nil in E as [_ E].
  apply app_eq_nil in E as [Hti%patterns_nil E]. apply app_eq_nil in E as [Hte%patterns_nil E].
  apply app_eq_nil in E as [Hgi%patterns_nil E]. apply app_eq_nil in E as [Hge%patterns_nil E].
  do 4 apply app_eq_nil in E as [_ E]. apply app_eq_nil in E as [Hle%bounded_nil E].
  apply app_eq_nil in E as [_ E]. apply app_eq_nil in E as [Hw%positive_nil E].
  apply app_eq_nil in E as [Hwe%bounded_nil E]. apply app_eq_nil in E as [_ E].
  apply app_eq_nil in E as [Hme%bounded_nil E]. do 3 apply app_eq_nil in E as [_ E].
  apply app_eq_nil in E as [Hce%bounded_nil E]. apply app_eq_nil in E as [Hmx%bounded_nil E].
  apply app_eq_nil in E as [Hms%bounded_nil E]. apply app_eq_nil in E as [Hlv _].
  apply when_nil in Hbrokers, Hsasl, Hback, Hlv. apply bool_decide_eq_false in Hbrokers, Hsasl, Hlv.
  apply mode_nil in Hmode as [Hm Hh].
  split.
  - constructor; try done.
    + apply when_nil, negb_false_iff, bool_decide_eq_true in Hmech. done.
    + intros Hne. split; intros He; apply Hsasl; (split; [done|]); [by left|by right].
    + simpl in *. lia.
    + by rewrite !Forall_app.
    + simpl. apply list.Forall_forall. intros x (s & _ & Hs)%list_elem_of_omap. by apply canonical_in in Hs as [? _].
    + simpl in *. destruct (parseLevel _); [eauto|done].
  - rewrite !Forall_app. intros (U1 & U2 & U3 & U4). unfold newFilter, config_of in *.
    cbn [TopicInclude TopicExclude GroupInclude GroupExclude] in *.
    apply validate_compiles in Hti as [? ->]; [|done]. apply validate_compiles in Hte as [? ->]; [|done].
    apply validate_compiles in Hgi as [? ->]; [|done]. apply validate_compiles in Hge as [? ->]; [|done]. eauto.
Qed.

(** C21: whatever the environment, a configuration that loads is valid: every setting
    is in the range the rest of the program takes it to be in.  Its four selection
    lists compile into the collector's filters provided their text is UTF-8; a pattern
    that is not can load and still fail there. *)
Theorem load_valid (env : string -> option string) (id : string) (c : Config) :
  Load env id = inr c ->
  valid c /\
  (Forall (fun e => utf8_valid e = true) (TopicInclude c ++ TopicExclude c ++ GroupInclude c ++ GroupExclude c) ->
     is_Some (newFilter (TopicInclude c) (TopicExclude c)) /\
     is_Some (newFilter (GroupInclude c) (GroupExclude c))).
Proof. apply Load_valid. Qed.

(** C35: no credential reaches the log: the startup line and the warnings are the
    same for two configurations that differ only in their password and key, as long
    as each is set or unset in both. *)
Theorem redacted_hides (c : Config) (password key : string) :
  (password = "" <-> SASLPassword c = "")%string -> (key = "" <-> APIKey c = "")%string ->
  Redacted (with_secrets password key c) = Redacted c /\
  Warnings (with_secrets password key c) = Warnings c.
Proof.
  intros Hp Hk.
  assert (String.eqb password "" = String.eqb (SASLPassword c) "") as Ep
    by (apply eq_true_iff_eq; by rewrite !String.eqb_eq).
  assert (String.eqb key "" = String.eqb (APIKey c) "") as Ek
    by (apply eq_true_iff_eq; by rewrite !String.eqb_eq).
  split.
  - unfold Redacted, secret, ExportTarget. simpl. by rewrite Ep, Ek.
  - unfold Warnings, HasSASL. simpl. by rewrite Ep.
Qed.
End theorems.

(** ** Witnesses *)

Definition no_urls : NetURL :=
  {| url_Parse s := if String.eqb s "https://ingest/v1" then Some (mkURL "https" "ingest" "ingest") else None;
     loopbackIP _ := false |}.

Definition sample_environment (key : string) : option string :=
  if String.eqb key "KAFKA_BROKERS" then Some " a:9092, b:9092"%string
  else if String.eqb key "EXPORT_ENDPOINT" then Some "https://ingest/v1"%string
  else if String.eqb key "API_KEY" then Some "k"%string
  else if String.eqb key "GROUP_STATES" then Some "stable,EMPTY"%string
  else if String.eqb key "COLLECTION_INTERVAL" then Some "30s"%string
  else None.

Definition sample_config : Config := @config_of no_library sample_environment "host-1".

Theorem load_valid_witness :
  @Load no_library no_regexp no_urls sample_environment "host-1" = inr sample_config /\
  GroupStates sample_config = ["Stable"; "Empty"]%string /\ CollectionTimeout sample_config = 24 * Second /\
  is_Some (@newFilter no_regexp (TopicInclude sample_config) (TopicExclude sample_config)).
Proof.
  assert (@Load no_library no_regexp no_urls sample_environment "host-1" = inr sample_config) as Hl
    by (vm_compute; reflexivity).
  destruct (@load_valid no_library no_regexp no_urls sample_environment "host-1" sample_config Hl) as [_ Hf].
  split; [exact Hl|]. split; [vm_compute; reflexivity|]. split; [vm_compute; reflexivity|].
  apply Hf. vm_compute. constructor.
Defined.

(** Two settings wrong, both reported. *)
Example load_two_problems :
  @Load no_library no_regexp no_urls
    (fun key => if String.eqb key "MAX_ERRORS" then Some "-1"%string
                else if String.eqb key "THROUGHPUT_WINDOW" then Some "5"%string else None) "host-1" =
  inl [Required "KAFKA_BROKERS"; Malformed "THROUGHPUT_WINDOW" "5"; OutOfRange "MAX_ERRORS" (-1)].
Proof. vm_compute. reflexivity. Qed.

Theorem redacted_hides_witness :
  Redacted (with_secrets "" "other" sample_config) = Redacted sample_config.
Proof.
  refine (proj1 (@redacted_hides no_urls sample_config "" "other" _ _)).
  - split; reflexivity.
  - split; intros H; vm_compute in H; discriminate H.
Defined.
