(* ===== verification/Client.v ===== *)
(** * Client: what the Kafka client is built with ([internal/kafka/client.go])

    The client library is not modelled: its options are values of [Opt], and
    whether [kgo.NewClient] accepts them is an argument.  The probe the client
    caches is in [Capabilities], its hooks in [Hooks]. *)

From Stdlib Require Import ZArith Lia.
From stdpp Require Import prelude gmap strings numbers.
From S2P Require Import Prelude Wire Errors Filter Strconv Capabilities Hooks Environment.

Definition maxRetryTimeout : Z := 15 * Second.
Definition minRetryTimeout : Z := 2 * Second.
Definition requestRetries : Z := 3.
Definition dialTimeout : Z := 10 * Second.
Definition metadataMinAgeFloor : Z := 10 * Millisecond.
Definition metadataMinAgeCeil : Z := 5 * Second.

Definition retryTimeout (collectionTimeout : Z) : Z :=
  let d := Z.quot collectionTimeout 2 in
  if maxRetryTimeout <? d then maxRetryTimeout
  else if d <? minRetryTimeout then minRetryTimeout
  else d.

Definition metadataMinAge (collectionInterval : Z) : Z :=
  let d := Z.quot collectionInterval 2 in
  if metadataMinAgeCeil <? d then metadataMinAgeCeil
  else if d <? metadataMinAgeFloor then metadataMinAgeFloor
  else d.

(** [sasl.Mechanism], by what it was made from. *)
Inductive Mechanism :=
| Plain (user pass : string)
| Sha256 (user pass : string)
| Sha512 (user pass : string).

(** [kgo.Opt], for the options the agent uses. *)
Inductive Opt :=
| SeedBrokers (seeds : list string)
| ClientID (id : string)
| DialTimeout (d : Z)
| RequestRetries (n : Z)
| RetryTimeout (d : Z)
| MetadataMinAge (d : Z)
| SASL (m : Mechanism)
| DialTLSConfig (minVersion : Z)
| WithHooks (h : rpcHooks).

Definition VersionTLS12 : Z := 0x0303.

Definition buildSASL (cfg : Config) : goerr + Opt :=
  if String.eqb (SASLMechanism cfg) "PLAIN" then inr (SASL (Plain (SASLUsername cfg) (SASLPassword cfg)))
  else if String.eqb (SASLMechanism cfg) "SCRAM-SHA-256" then inr (SASL (Sha256 (SASLUsername cfg) (SASLPassword cfg)))
  else if String.eqb (SASLMechanism cfg) "SCRAM-SHA-512" then inr (SASL (Sha512 (SASLUsername cfg) (SASLPassword cfg)))
  else inl (PlainError ("unsupported SASL mechanism: " ++ SASLMechanism cfg)).

(** The options [NewClient] assembles; [start] is its [time.Now()]. *)
Definition clientOpts (cfg : Config) (version : string) (start : Z) : goerr + list Opt :=
  let version := if String.eqb version "" then "dev"%string else version in
  let opts := [
    SeedBrokers (KafkaBrokers cfg);
    ClientID ("streamsight-agent/" ++ version ++ " (" ++ AgentInstanceID cfg ++ ")");
    DialTimeout dialTimeout;
    RequestRetries requestRetries;
    RetryTimeout (retryTimeout (CollectionTimeout cfg));
    MetadataMinAge (metadataMinAge (CollectionInterval cfg)) ] in
  match (if HasSASL cfg then match buildSASL cfg with inl err => inl err | inr o => inr [o] end else inr []) with
  | inl err => inl err
  | inr sasl =>
      let tls := if TLSEnabled cfg then [DialTLSConfig VersionTLS12] else [] in
      inr (opts ++ sasl ++ tls ++ [WithHooks (newRPCHooks start)])
  end.

(** The fields of [Client]: what the library was built with, the hooks, and the
    cached probe. *)
Record Client := mkClient {
  c_opts : list Opt;
  c_rpc : option rpcHooks;
  c_caps : option Capabilities;
}.

Definition NewClient (kgoNewClient : list Opt -> option goerr) (cfg : Config) (version : string) (start : Z) :
    goerr + Client :=
  match clientOpts cfg version start with
  | inl err => inl err
  | inr opts =>
      match kgoNewClient opts with
      | Some err => inl (WrapError ("failed to create kafka client: " ++ errMsg err) err)
      | None => inr (mkClient opts (Some (newRPCHooks start)) None)
      end
  end.

(** ** What the options are *)

Definition opt_kind (o : Opt) : nat :=
  match o with
  | SeedBrokers _ => 0 | ClientID _ => 1 | DialTimeout _ => 2 | RequestRetries _ => 3 | RetryTimeout _ => 4
  | MetadataMinAge _ => 5 | SASL _ => 6 | DialTLSConfig _ => 7 | WithHooks _ => 8
  end%nat.

(** The mechanism a valid configuration selects. *)
Definition mechanism_of (cfg : Config) : option Mechanism :=
  let u := SASLUsername cfg in
  let p := SASLPassword cfg in
  if decide (SASLMechanism cfg = "PLAIN"%string) then Some (Plain u p)
  else if decide (SASLMechanism cfg = "SCRAM-SHA-256"%string) then Some (Sha256 u p)
  else if decide (SASLMechanism cfg = "SCRAM-SHA-512"%string) then Some (Sha512 u p)
  else None.

Lemma HasSASL_valid `{!GoLibrary, !Regexp, !NetURL} cfg :
  valid cfg -> HasSASL cfg = negb (String.eqb (SASLMechanism cfg) "").
Proof.
  intros Hv. unfold HasSASL. destruct (String.eqb_spec (SASLMechanism cfg) "") as [E|E]; [done|].
  destruct (v_sasl _ Hv E) as [Hu%String.eqb_neq Hp%String.eqb_neq]. by rewrite Hu, Hp.
Qed.

Lemma buildSASL_valid cfg :
  SASLMechanism cfg ∈ [""; "PLAIN"; "SCRAM-SHA-256"; "SCRAM-SHA-512"]%string -> SASLMechanism cfg <> ""%string ->
  exists m, mechanism_of cfg = Some m /\ buildSASL cfg = inr (SASL m).
Proof.
  unfold mechanism_of, buildSASL. intros Hin Hne. rewrite !elem_of_cons in Hin.
  destruct Hin as [E|[E|[E|[E|E]]]]; [done|..|by apply not_elem_of_nil in E]; rewrite E; simpl; eauto.
Qed.

Lemma retryTimeout_range t :
  minRetryTimeout <= retryTimeout t <= maxRetryTimeout /\ (2 * minRetryTimeout <= t -> 2 * retryTimeout t <= t).
Proof.
  unfold retryTimeout. pose proof (Z.quot_rem' t 2). pose proof (Z.rem_bound_pos t 2).
  assert (minRetryTimeout < maxRetryTimeout /\ 0 < minRetryTimeout) by done.
  destruct (_ <? Z.quot t 2) eqn:E; go_bools; [lia|]. destruct (_ <? minRetryTimeout) eqn:E'; go_bools; lia.
Qed.

Lemma metadataMinAge_range t :
  metadataMinAgeFloor <= metadataMinAge t <= metadataMinAgeCeil /\
  (metadataMinAgeFloor < t -> metadataMinAge t < t).
Proof.
  unfold metadataMinAge. pose proof (Z.quot_rem' t 2). pose proof (Z.rem_bound_pos t 2).
  assert (metadataMinAgeFloor < metadataMinAgeCeil /\ 0 < metadataMinAgeFloor) by done.
  destruct (_ <? Z.quot t 2) eqn:E; go_bools; [lia|]. destruct (_ <? metadataMinAgeFloor) eqn:E'; go_bools; lia.
Qed.

(** A configuration that loaded gives the client options: each is set
    once; the seeds are the configured brokers; the credentials are in the SASL
    option, which is there exactly when a mechanism is configured, and of that
    mechanism; TLS is dialled exactly when it is enabled; the hooks open their first
    window now.  A request's retries take between two and fifteen seconds, and at
    most half the collection timeout once that is four; metadata is cached for less
    than an interval, down to the library's own 10 ms.  Only the library can then
    refuse to build the client. *)
Theorem client_options `{!GoLibrary, !Regexp, !NetURL} cfg version start :
  valid cfg ->
  exists opts, clientOpts cfg version start = inr opts /\
    NoDup (opt_kind <$> opts) /\
    SeedBrokers (KafkaBrokers cfg) ∈ opts /\
    (forall m, SASL m ∈ opts <-> mechanism_of cfg = Some m) /\
    ((exists m, SASL m ∈ opts) <-> SASLMechanism cfg <> ""%string) /\
    (forall v, DialTLSConfig v ∈ opts <-> TLSEnabled cfg = true /\ v = VersionTLS12) /\
    WithHooks (newRPCHooks start) ∈ opts /\
    (forall d, RetryTimeout d ∈ opts -> 2 * Second <= d <= 15 * Second /\
       (4 * Second <= CollectionTimeout cfg -> 2 * d <= CollectionTimeout cfg)) /\
    (forall d, MetadataMinAge d ∈ opts -> 10 * Millisecond <= d <= 5 * Second /\
       (10 * Millisecond < CollectionInterval cfg -> d < CollectionInterval cfg)) /\
    (forall kgoNewClient err, NewClient kgoNewClient cfg version start = inl err ->
       exists e, kgoNewClient opts = Some e).
Proof.
  intros Hv.
  assert (exists sasl, (forall m, SASL m ∈ sasl <-> mechanism_of cfg = Some m) /\
    (sasl = [] /\ SASLMechanism cfg = ""%string \/ exists m, sasl = [SASL m] /\ SASLMechanism cfg <> ""%string) /\
    (if HasSASL cfg then match buildSASL cfg with inl err => inl err | inr o => inr [o] end else inr []) = inr sasl)
    as (sasl & Hm & Hs & Heq).
  { rewrite (HasSASL_valid _ Hv). destruct (String.eqb_spec (SASLMechanism cfg) "") as [E|E].
    - exists []. split; [|by eauto]. intros m. unfold mechanism_of. rewrite E. simpl. set_solver.
    - destruct (buildSASL_valid cfg (v_mechanism _ Hv) E) as (m & Hm & ->). exists [SASL m].
      split; [|by eauto 6]. intros m'. rewrite Hm, list_elem_of_singleton. naive_solver. }
  unfold NewClient, clientOpts. rewrite Heq. eexists. split; [reflexivity|].
  pose proof (retryTimeout_range (CollectionTimeout cfg)) as [Hr1 Hr2].
  pose proof (metadataMinAge_range (CollectionInterval cfg)) as [Ha1 Ha2].
  destruct Hs as [[-> Hs]|(m & -> & Hs)]; destruct (TLSEnabled cfg) eqn:Ht;
    (split; [by apply (bool_decide_unpack _); vm_compute|]); cbn [app];
    repeat setoid_rewrite elem_of_cons; setoid_rewrite elem_of_nil.
  all: split; [by left|].
  all: split; [intros m'; rewrite <- Hm; rewrite ?elem_of_cons, ?elem_of_nil; naive_solver|].
  all: split; [naive_solver|].
  all: split; [naive_solver|].
  all: split; [naive_solver|].
  all: split; [intros d Hd; assert (d = retryTimeout (CollectionTimeout cfg)) as -> by naive_solver; done|].
  all: split; [intros d Hd; assert (d = metadataMinAge (CollectionInterval cfg)) as -> by naive_solver; done|].
  all: intros kgo err; destruct (kgo _); [by eexists|done].
Qed.

Definition sasl_environment (key : string) : option string :=
  if String.eqb key "KAFKA_SASL_MECHANISM" then Some "SCRAM-SHA-256"%string
  else if String.eqb key "KAFKA_SASL_USERNAME" then Some "u"%string
  else if String.eqb key "KAFKA_SASL_PASSWORD" then Some "p"%string
  else sample_environment key.

Definition sasl_config : Config := @config_of no_library sasl_environment "host-1".

Theorem client_options_witness :
  @valid no_library no_regexp no_urls sasl_config /\
  exists opts, clientOpts sasl_config "1.0" 0 = inr opts /\ SASL (Sha256 "u" "p") ∈ opts /\
    (forall v, DialTLSConfig v ∉ opts) /\ NoDup (opt_kind <$> opts).
Proof.
  assert (@Load no_library no_regexp no_urls sasl_environment "host-1" = inr sasl_config) as Hl
    by (vm_compute; reflexivity).
  pose proof (proj1 (@Load_valid no_library no_regexp no_urls _ _ _ Hl)) as Hv. split; [exact Hv|].
  destruct (@client_options no_library no_regexp no_urls sasl_config "1.0" 0 Hv)
    as (opts & Ho & Hn & _ & Hm & _ & Ht & _).
  exists opts. split; [exact Ho|]. split; [|split; [|exact Hn]].
  - apply Hm. vm_compute. reflexivity.
  - intros v Hv'. apply Ht in Hv' as [Hv' _]. revert Hv'. vm_compute. discriminate.
Defined.
