(* ===== verification/Gates.v ===== *)
(** * Gates: which phases run on this cluster
      ([collectorOptions] and [applyCapabilityGates] of [internal/agent/agent.go])

    The options come from the configuration, and the gates switch off what some
    broker cannot serve.  The theorem follows that through the collector: no
    schedule of a cycle issues a request its options switched off. *)

From Stdlib Require Import ZArith Lia.
From stdpp Require Import prelude gmap strings numbers.
From S2P Require Import Prelude Wire Errors Sections Filter Cadence Kadm Collector Topics Offsets Truncation Reassign Groups Configs ShareGroups LogDirs Sched Pipeline Capabilities Strconv Environment.

(** [collectorOptions]; [Logger] is not modelled. *)
Definition collectorOptions (cfg : Config) : Options := {|
  o_Timeout := CollectionTimeout cfg;
  o_IncludeInternalTopics := IncludeInternalTopics cfg;
  o_TopicInclude := TopicInclude cfg;
  o_TopicExclude := TopicExclude cfg;
  o_GroupInclude := GroupInclude cfg;
  o_GroupExclude := GroupExclude cfg;
  o_GroupStates := GroupStates cfg;
  o_CollectConsumerGroups := CollectConsumerGroups cfg;
  o_CollectLastStableOffset := CollectLastStableOffset cfg;
  o_CollectLogDirs := CollectLogDirs cfg;
  o_LogDirsEvery := LogDirsEvery cfg;
  o_CollectThroughputWindow := CollectThroughputWindow cfg;
  o_ThroughputWindowWidth := cfg_ThroughputWindow cfg;
  o_ThroughputWindowEvery := ThroughputWindowEvery cfg;
  o_CollectMaxTimestamp := CollectMaxTimestamp cfg;
  o_CollectTieredOffsets := CollectTieredOffsets cfg;
  o_CollectLatestTiered := true;
  o_CollectShareGroups := CollectShareGroups cfg;
  o_CollectConfigs := CollectConfigs cfg;
  o_ConfigsEvery := ConfigsEvery cfg;
  o_MaxTimestampEvery := MaxTimestampEvery cfg;
  o_CollectReassignments := true;
  o_CollectEpochProbes := true;
  o_Limits := mkLimits (cfg_MaxErrors cfg) (cfg_MaxErrorSamples cfg);
|}.

(** [if *gate.on && !gate.supported { *gate.on = false }]. *)
Definition gate_on (on supported : bool) : bool := if on && negb supported then false else on.

(** The gates write ten distinct fields, so their order does not matter. *)
Definition applyCapabilityGates (caps : option Capabilities) (o : Options) : Options :=
  match caps with
  | None => o
  | Some caps => {|
      o_Timeout := o_Timeout o;
      o_IncludeInternalTopics := o_IncludeInternalTopics o;
      o_TopicInclude := o_TopicInclude o;
      o_TopicExclude := o_TopicExclude o;
      o_GroupInclude := o_GroupInclude o;
      o_GroupExclude := o_GroupExclude o;
      o_GroupStates := o_GroupStates o;
      o_CollectConsumerGroups := gate_on (o_CollectConsumerGroups o) (SupportsConsumerGroupDescribe caps);
      o_CollectLastStableOffset := gate_on (o_CollectLastStableOffset o) (SupportsListOffsetsIsolation caps);
      o_CollectLogDirs := o_CollectLogDirs o;
      o_LogDirsEvery := o_LogDirsEvery o;
      o_CollectThroughputWindow := gate_on (o_CollectThroughputWindow o) (SupportsListOffsetsAfterMilli caps);
      o_ThroughputWindowWidth := o_ThroughputWindowWidth o;
      o_ThroughputWindowEvery := o_ThroughputWindowEvery o;
      o_CollectMaxTimestamp := gate_on (o_CollectMaxTimestamp o) (SupportsMaxTimestampOffsets caps);
      o_CollectTieredOffsets := gate_on (o_CollectTieredOffsets o) (SupportsLocalLogStartOffsets caps);
      o_CollectLatestTiered := gate_on (o_CollectLatestTiered o) (SupportsLatestTieredOffsets caps);
      o_CollectShareGroups := gate_on (o_CollectShareGroups o) (SupportsShareGroupDescribe caps);
      o_CollectConfigs := gate_on (o_CollectConfigs o) (SupportsDescribeConfigs caps);
      o_ConfigsEvery := o_ConfigsEvery o;
      o_MaxTimestampEvery := o_MaxTimestampEvery o;
      o_CollectReassignments := gate_on (o_CollectReassignments o) (SupportsListPartitionReassignments caps);
      o_CollectEpochProbes := gate_on (o_CollectEpochProbes o) (SupportsOffsetForLeaderEpoch caps);
      o_Limits := o_Limits o;
    |}
  end.

(** ** Specification *)

(** The options a request needs. *)
Definition enabled (o : Options) (r : Request) : bool :=
  match r with
  | RDescribeConsumerGroups _ => o_CollectConsumerGroups o
  | RListCommittedOffsets _ => o_CollectLastStableOffset o
  | RListOffsetsAfterMilli _ _ => o_CollectThroughputWindow o
  | RListMaxTimestampOffsets _ => o_CollectMaxTimestamp o
  | RListLocalLogStartOffsets _ => o_CollectTieredOffsets o
  | RListLatestRemoteOffsets _ => o_CollectTieredOffsets o && o_CollectLatestTiered o
  | RDescribeShareGroups _ | RDescribeShareGroupOffsets _ => o_CollectShareGroups o
  | RDescribeTopicConfigs _ | RDescribeBrokerConfigs _ => o_CollectConfigs o
  | RListPartitionReassignments _ => o_CollectReassignments o
  | ROffsetForLeaderEpoch _ => o_CollectEpochProbes o
  | RProbe | RDescribeAllLogDirs _ | RShardedDescribeLogDirs _ => o_CollectLogDirs o
  | RMetadata | RListStartOffsets _ | RListEndOffsets _ | RFetchManyOffsets _ | RDescribeGroups _
  | RShardedListGroups _ | RRPCSnapshot => true
  end.

(** The APIs the gates watch, with the first version that answers the request as it
    is meant (the gates' own messages give the KIP and the Kafka release); [None]
    for a request no gate watches. *)
Definition needs (r : Request) : option (Z * Z) :=
  match r with
  | RDescribeConsumerGroups _ => Some (consumerGroupDescribeKey, 0)
  | RListCommittedOffsets _ => Some (listOffsetsKey, listOffsetsIsolationVersion)
  | RListOffsetsAfterMilli _ _ => Some (listOffsetsKey, listOffsetsTimestampVersion)
  | RListMaxTimestampOffsets _ => Some (listOffsetsKey, 7)
  | RListLocalLogStartOffsets _ => Some (listOffsetsKey, 8)
  | RListLatestRemoteOffsets _ => Some (listOffsetsKey, 9)
  | RDescribeShareGroups _ | RDescribeShareGroupOffsets _ => Some (shareGroupDescribeKey, 0)
  | RDescribeTopicConfigs _ | RDescribeBrokerConfigs _ => Some (describeConfigsKey, 1)
  | RListPartitionReassignments _ => Some (listPartitionReassignmentsKey, 0)
  | ROffsetForLeaderEpoch _ => Some (offsetForLeaderEpochKey, 0)
  | _ => None
  end.

(** ** Lemmas: each phase asks only what its options enable *)

(** [walk], keeping what each test found. *)
Ltac walk_eq :=
  repeat match goal with
  | |- conforms _ _ _ _ _ _ (mret _) => apply conforms_ret
  | |- conforms _ _ _ _ _ _ (let '(_, _) := ?x in _) => destruct x
  | |- conforms _ _ _ _ _ _ (match ?x with _ => _ end) => destruct x eqn:?
  | |- conforms _ _ _ _ _ _ (mbind ?k ?m) =>
      lazymatch m with
      | mret _ => apply conforms_ret_bind
      | now => apply conforms_now; intros ?
      | call _ => apply conforms_call; [cbn [enabled]|apply Nat.le_0_l|set_solver|intros ?]
      | waitOrDone _ => apply conforms_waitOrDone; [exact I|]
      | mbind _ _ => apply conforms_assoc
      | match ?x with _ => _ end => destruct x eqn:?
      end
  end; cbv beta zeta.

(** What a request needs, from the tests passed on the way to it. *)
Ltac enable :=
  go_bools; simplify_eq/=; try done; try congruence;
  repeat match goal with
         | H : true = true -> _ |- _ => specialize (H eq_refl)
         | H : ?b = true -> _, H' : ?b = true |- _ => specialize (H H')
         end;
  try done; try (apply andb_true_intro; done).

Section phases.
Context `{!KerrCodes} `{!Kadm} `{!KerrErrors} `{!ShardErrorText} `{!ConfigSources} {V : Type} (c : Collector).
Notation o := (c_opts c).
Notation within p :=
  (conforms (V := V) (fun _ => True) (fun r => enabled o r = true) (fun _ => []) (fun _ => 0%nat) [] 0%nat p).

Lemma collectCluster_enabled : within (collectCluster c).
Proof. unfold collectCluster. walk_eq; enable. Qed.

Lemma listGroups_enabled : within (t ← now; r ← listGroups c; mret (t, r)).
Proof. unfold listGroups, listGroupsWithTypes. walk_eq; enable. Qed.

Lemma collectGroups_enabled ids types err at_ : within (collectGroups c ids types err at_).
Proof. unfold collectGroups, enrichConsumerGroups. walk_eq; enable. Qed.

Lemma collectOffsets_enabled ids err internal : within (collectOffsets c ids err internal).
Proof. unfold collectOffsets. walk_eq; enable. Qed.

Lemma collectThroughputWindow_enabled tds width b :
  (b = true -> o_CollectThroughputWindow o = true) -> within (collectThroughputWindow c tds width b).
Proof. intros Hb. unfold collectThroughputWindow. walk_eq; enable. Qed.

Lemma collectTopics_enabled tds b :
  (b = true -> o_CollectMaxTimestamp o = true) -> within (collectTopics c tds b [committedDone; windowDone]).
Proof.
  intros Hb. unfold collectTopics, skipped, skippedSection, listing, waitAll. cbn [foldr]. walk_eq; enable.
Qed.

Lemma collectLogDirs_enabled cl tds b : (b = true -> o_CollectLogDirs o = true) -> within (collectLogDirs c cl tds b).
Proof. intros Hb. unfold collectLogDirs, describeLogDirs, supportsLogDirVolumeBytes. walk_eq; enable. Qed.

Lemma collectShareGroups_enabled types b :
  (b = true -> o_CollectShareGroups o = true) -> within (collectShareGroups c types b).
Proof. intros Hb. unfold collectShareGroups. walk_eq; enable. Qed.

Lemma collectTopicConfigs_enabled tms b :
  (b = true -> o_CollectConfigs o = true) -> within (collectTopicConfigs c tms b).
Proof. intros Hb. unfold collectTopicConfigs. walk_eq; enable. Qed.

Lemma collectBrokerConfigs_enabled cl b :
  (b = true -> o_CollectConfigs o = true) -> within (collectBrokerConfigs c cl b).
Proof. intros Hb. unfold collectBrokerConfigs. walk_eq; enable. Qed.

Lemma collectReassignments_enabled tms b :
  (b = true -> o_CollectReassignments o = true) -> within (collectReassignments c tms b).
Proof. intros Hb. unfold collectReassignments. walk_eq; enable. Qed.

Lemma askRounds_enabled {A} rounds asked sec (k : _ -> prog V A) :
  o_CollectEpochProbes o = true -> (forall r, within (k r)) -> within (askRounds rounds asked sec ≫= k).
Proof.
  intros Ho Hk. revert asked sec. induction rounds as [|r rounds IH]; intros asked sec; cbn [askRounds]; [apply Hk|].
  walk_eq; try apply IH; enable.
Qed.

Lemma collectEpochProbes_enabled b tms offs probed :
  (b = true -> o_CollectEpochProbes o = true) -> within (collectEpochProbes c b tms offs probed).
Proof.
  intros Hb. unfold collectEpochProbes. walk_eq; apply askRounds_enabled; enable; intros [asked sec']; walk_eq; by intros ?.
Qed.
End phases.

(** *** The cycle *)

(** A request event of a run satisfies what every goroutine keeps to. *)
Lemma steps_asks {V} `{!Cluster} (P : Request -> Prop) (s s' : state V) tr :
  steps s tr s' -> Forall (thread_asks P) (threads s) ->
  Forall (thread_asks P) (threads s') /\ forall ev, ev ∈ tr -> P (event_request ev).
Proof.
  intros Hs. induction Hs as [|s evs1 s1 tr1 s2 _ IH Hst]; intros Ha; [split; [done|by intros ? ?%elem_of_nil]|].
  destruct (IH Ha) as [H1 Hev]. clear IH Ha.
  destruct Hst as [i th evs th' cl v t Hi Ht|Hd]; simpl.
  - destruct (asks_tstep P _ _ _ _ _ _ _ _ _ _ (Forall_lookup_1 _ _ _ _ H1 Hi) Ht) as [Hth Hevs].
    split; [by apply Forall_insert|]. intros ev [?|?]%elem_of_app; auto.
  - split; [done|]. intros ev. rewrite app_nil_r. auto.
Qed.

Lemma asks_code {V} (P : Request -> Prop) (g : goroutine V) :
  (forall v, asks P (g_phase g v)) -> asks P (code g).
Proof.
  intros Hg. unfold code, waiting. induction (g_deps g) as [|ch rest IH]; simpl; [|done].
  intros v. apply asks_bind; [apply Hg|]. intros r. unfold finish_go. simpl. by destruct (g_closes g).
Qed.

Section cycle.
Context `{!KerrCodes} `{!Kadm} `{!KerrErrors} `{!ShardErrorText} `{!ConfigSources} `{!Cluster}.
Context (c : Collector) (n : Z) (probed : probedEpochs).
Notation o := (c_opts c).

Lemma runsThisCycle_on b every offset : runsThisCycle b every offset n = true -> b = true.
Proof. unfold runsThisCycle. by intros [? _]%andb_true_iff. Qed.

Lemma goroutine_enabled i g v : goroutines c n probed !! i = Some g ->
  asks (fun r => enabled o r = true) (g_phase g v).
Proof.
  intros Hg. eapply (conforms_asks (fun _ => True) _ (fun _ => []) (fun _ => 0%nat) [] 0%nat).
  each_at Hg; cbn [go g_deps g_phase].
  - apply collectCluster_enabled.
  - apply listGroups_enabled.
  - apply collectGroups_enabled.
  - apply collectOffsets_enabled.
  - apply collectThroughputWindow_enabled, runsThisCycle_on.
  - apply collectTopics_enabled, runsThisCycle_on.
  - apply collectLogDirs_enabled, runsThisCycle_on.
  - by apply collectShareGroups_enabled.
  - apply collectTopicConfigs_enabled, runsThisCycle_on.
  - apply collectBrokerConfigs_enabled, runsThisCycle_on.
  - by apply collectReassignments_enabled.
  - by apply collectEpochProbes_enabled.
Qed.

Lemma cycle_enabled t0 tr s :
  steps (start (goroutines c n probed) no_vars t0) tr s -> forall r, Issue r ∈ tr -> enabled o r = true.
Proof.
  intros Hs r Hr. destruct (steps_asks (fun r => enabled o r = true) _ _ _ Hs) as [_ Hev].
  - unfold start. cbn [threads]. apply Forall_fmap, Forall_lookup_2. intros i g Hg. cbn [compose thread_asks].
    apply asks_code. intros v. by eapply goroutine_enabled.
  - exact (Hev _ Hr).
Qed.
End cycle.

Lemma gate_on_true b s : gate_on b s = true <-> b = true /\ s = true.
Proof. destruct b, s; naive_solver. Qed.

Lemma New_opts `{!Regexp} o c : New o = Some c -> c_opts c = o.
Proof. unfold New. destruct (newFilter _ _); [|done]. destruct (newFilter _ _); [|done]. by intros [= <-]. Qed.

Lemma atLeast_down caps key v v' : v' <= v -> atLeast caps key v = true -> atLeast caps key v' = true.
Proof. unfold atLeast. intros Hv [? ?]%andb_true_iff. apply andb_true_iff. split; [done|]. lia. Qed.

(** The gates leave on exactly what was configured and is supported. *)
Lemma gated_enabled caps o r :
  enabled (applyCapabilityGates (Some caps) o) r = true <->
  enabled o r = true /\ (forall key v, needs r = Some (key, v) -> atLeast caps key v = true).
Proof.
  destruct r; cbn [enabled needs applyCapabilityGates o_CollectConsumerGroups o_CollectLastStableOffset
    o_CollectThroughputWindow o_CollectMaxTimestamp o_CollectTieredOffsets o_CollectLatestTiered
    o_CollectShareGroups o_CollectConfigs o_CollectReassignments o_CollectEpochProbes o_CollectLogDirs];
    rewrite ?gate_on_true;
    try (split; [intros [He Hs]; split; [exact He|by intros ? ? [= <- <-]]|intros [He Hs]; split; [exact He|by apply Hs]]);
    try (split; [intros He; split; [exact He|done]|by intros [He _]]).
  rewrite !andb_true_iff, !gate_on_true. split.
  - intros [[? ?] [? ?]]. split; [done|]. by intros ? ? [= <- <-].
  - intros [[? ?] Hs]. pose proof (Hs _ _ eq_refl) as H9. split_and!; try done. by apply (atLeast_down _ _ 9).
Qed.

Lemma needs_16 r key v : needs r = Some (key, v) -> v <= max_int16 /\ key ∈ probedKeys.
Proof.
  intros Hn. destruct r; simpl in Hn; try done; injection Hn as <- <-;
    (split; [by vm_compute|by apply (bool_decide_unpack _); vm_compute]).
Qed.

(** The same collector on a cluster of one broker that answers old versions. *)
Definition old_broker : list brokerKeys := [mkBrokerKeys 1 "v2.1" (list_to_map [(listOffsetsKey, 5); (listGroupsKey, 2)])].
Definition gated_opts : Options := applyCapabilityGates (Some (foldCapabilities old_broker)) sample_opts.
Definition gated_collector : Collector :=
  mkCollector gated_opts (Some (mkFilter [] [])) (Some (mkFilter [] [])) (mkLimits 1000 3).
Definition gated_goroutines : list (goroutine cvars) :=
  @goroutines kafka_codes kadm_sorted kerr_errors no_text kafka_sources gated_collector 0 ∅.
Definition gated_run : list event * state cvars := drive cycle_env source_order 200 (start gated_goroutines no_vars 0).

(** ** Theorems *)

Section theorems.
Context `{!KerrCodes} `{!Kadm} `{!KerrErrors} `{!ShardErrorText} `{!ConfigSources} `{!Cluster} `{!Regexp}.

(** C19: the gates keep the questions they know of off the wire, and no others.  For a
    collector made from gated options, a request is enabled exactly when its option
    was configured and, where its API is one the gates watch ([needs]: consumer
    group describe, the five special ListOffsets, share groups, configs,
    reassignments and epochs), every probed broker offers the version it is meant for;
    and no schedule of any cycle issues a request that is not enabled.  Metadata, the
    plain ListOffsets, the classic group requests, the committed offsets and the log
    directories are not gated: they are asked of any cluster. *)
Theorem gated_requests_served (bs : list brokerKeys) (o : Options) (c : Collector) :
  New (applyCapabilityGates (Some (foldCapabilities bs)) o) = Some c ->
  (forall r, enabled (c_opts c) r = true <->
     enabled o r = true /\
     (forall key v, needs r = Some (key, v) -> bs <> [] /\ Forall (fun b => offers (bk_keys b) key v) bs)) /\
  (forall cs cs' tr b r, Collect c cs tr b cs' -> Issue r ∈ tr -> enabled (c_opts c) r = true).
Proof.
  intros Hc%New_opts. split.
  - intros r. rewrite Hc, gated_enabled. apply and_iff_compat_l. split; intros Ha key v Hn;
      destruct (needs_16 r key v Hn) as [Hv Hk].
    + by apply atLeast_fold; [|apply Ha].
    + apply atLeast_fold; [done|]. split; [done|]. by apply Ha.
  - intros cs cs' tr b r Hrun Hr. destruct Hrun as [t0 tr s b Hs _ _]. simpl in Hs.
    exact (cycle_enabled c _ _ _ _ _ Hs r Hr).
Qed.
End theorems.

Theorem gated_requests_served_witness :
  Issue (RListCommittedOffsets ["t"]%string) ∈ gated_run.1 /\
  Forall (fun b => offers (bk_keys b) listOffsetsKey listOffsetsIsolationVersion) old_broker.
Proof.
  assert (Issue (RListCommittedOffsets ["t"]%string) ∈ gated_run.1) as Hr.
  { apply list_elem_of_In. vm_compute. tauto. }
  split; [exact Hr|].
  destruct (@drive_collect kafka_codes kadm_sorted kerr_errors no_text kafka_sources (answering cycle_env)
    cycle_env gated_collector (mkCState 0 ∅) source_order 200 (fun _ => eq_refl) cycle_clock
    ltac:(vm_compute; reflexivity)) as [cs' Hc].
  destruct (@gated_requests_served kafka_codes kadm_sorted kerr_errors no_text kafka_sources (answering cycle_env)
    no_regexp old_broker sample_opts gated_collector eq_refl) as [Hiff Hask].
  pose proof (Hask _ cs' _ _ (RListCommittedOffsets ["t"]%string) Hc
    ltac:(apply list_elem_of_In; vm_compute; tauto)) as He.
  by apply (proj2 (proj1 (Hiff _) He) listOffsetsKey listOffsetsIsolationVersion).
Defined.

(** The newer questions are not asked there. *)
Example gated_not_asked : forallb (fun ev => match ev with
  | Issue (RListMaxTimestampOffsets _ | RListLocalLogStartOffsets _ | RDescribeConsumerGroups _ | RDescribeTopicConfigs _) => false
  | _ => true end) gated_run.1 = true.
Proof. vm_compute. reflexivity. Qed.
