(* ===== verification/File.v ===== *)
(** * File: the file and stdout exporters
      ([internal/export/file.go], [internal/export/stdout.go])

    The exporter's fields and the disk are one state.  Every system call may fail:
    the class [OS] says which ones do, by their number, and how much of a failed
    write reached the disk; the theorems hold whatever it says, or for the [OS]
    where nothing fails.  [bufio.Writer] is modelled as far as the exporter uses
    it, with its buffer and its sticky error.  Sizes are the file system's: they
    fit [int64], so adding them does not wrap. *)

From Stdlib Require Import ZArith Lia Ascii.
From stdpp Require Import prelude gmap strings numbers pretty.
From S2P Require Import Prelude Wire Errors Strconv Export.

(** ** The operating system *)

(** A system call's error, and whether [os.IsNotExist] holds of it. *)
Record oserr := mkOserr { oe_text : string; oe_NotExist : bool }.

Class OS := {
  fault : nat -> option oserr;                       (* of the n-th system call *)
  partial : nat -> nat;                              (* what a failed write wrote *)
  Dir : string -> string;                            (* filepath.Dir *)
}.

Definition os_err (e : oserr) : goerr := PlainError (oe_text e).

(** [bufio.Writer]: [werr] is its sticky error. *)
Record writer := mkWriter { buf : string; werr : option goerr }.

Definition bufsize : nat := 4096.

(** ** State *)

Record FileExporterConfig := mkFileExporterConfig { cfg_Path : string; cfg_MaxMB : Z; cfg_MaxBackups : Z; cfg_Sync : bool }.

(** The fields [NewFileExporter] sets once. *)
Record settings := mkSettings { path : string; maxBytes : Z; maxBackups : Z; syncs : bool }.

(** The others.  [e_file] is [e.file != nil]; [e_open] says that the file opened
    last, which [e.w] writes to and [e.file] is unless nil, is still open. *)
Record FileExporter := mkFileExporter {
  e_counters : counters;
  e_file : bool;
  e_open : bool;
  e_w : option writer;
  e_size : Z;
  e_needsReopen : bool;
  e_closed : bool;
  disk : gmap string string;
  calls : nat;
}.

Definition set_counters f s := mkFileExporter (f (e_counters s)) (e_file s) (e_open s) (e_w s) (e_size s)
  (e_needsReopen s) (e_closed s) (disk s) (calls s).
Definition set_file b s := mkFileExporter (e_counters s) b (e_open s) (e_w s) (e_size s)
  (e_needsReopen s) (e_closed s) (disk s) (calls s).
Definition set_open b s := mkFileExporter (e_counters s) (e_file s) b (e_w s) (e_size s)
  (e_needsReopen s) (e_closed s) (disk s) (calls s).
Definition set_w w s := mkFileExporter (e_counters s) (e_file s) (e_open s) w (e_size s)
  (e_needsReopen s) (e_closed s) (disk s) (calls s).
Definition set_size n s := mkFileExporter (e_counters s) (e_file s) (e_open s) (e_w s) n
  (e_needsReopen s) (e_closed s) (disk s) (calls s).
Definition set_needsReopen b s := mkFileExporter (e_counters s) (e_file s) (e_open s) (e_w s) (e_size s)
  b (e_closed s) (disk s) (calls s).
Definition set_closed b s := mkFileExporter (e_counters s) (e_file s) (e_open s) (e_w s) (e_size s)
  (e_needsReopen s) b (disk s) (calls s).
Definition set_disk d s := mkFileExporter (e_counters s) (e_file s) (e_open s) (e_w s) (e_size s)
  (e_needsReopen s) (e_closed s) d (calls s).
Definition set_calls n s := mkFileExporter (e_counters s) (e_file s) (e_open s) (e_w s) (e_size s)
  (e_needsReopen s) (e_closed s) (disk s) n.

Definition op : Type -> Type := St FileExporter.

(** The fields, as they are now. *)
Definition fields : op FileExporter := fun s => (s, s).

(** The result of [fmt.Errorf] with the path and [%w]. *)
Definition failing (what path : string) (e : goerr) : goerr :=
  WrapError (what ++ " " ++ path ++ ": " ++ errMsg e) e.

Definition backupPath (path : string) (n : nat) : string := path ++ "." ++ pretty n.

(** [if err := m; err != nil { return f(err) }]. *)
Definition orReturn (m : op (option goerr)) (f : goerr -> goerr) (k : op (option goerr)) : op (option goerr) :=
  r ← m; match r with Some e => mret (Some (f e)) | None => k end.

(** ** System calls *)

Section calls.
Context `{!OS}.

(** A call that fails changes nothing. *)
Definition sys {A} (f : FileExporter -> (oserr + A) * FileExporter) : op (oserr + A) := fun s =>
  let s' := set_calls (S (calls s)) s in
  match fault (calls s) with Some e => (inl e, s') | None => f s' end.

Definition notExist (what p : string) : oserr :=
  mkOserr (what ++ " " ++ p ++ ": no such file or directory") true.

Definition fileClosed (what : string) : goerr := PlainError (what ++ ": file already closed").

Definition os_MkdirAll (p : string) : op (oserr + ()) := sys (fun s => (inr tt, s)).

Definition os_OpenFile (p : string) : op (oserr + ()) :=
  sys (fun s => (inr tt, set_disk (match disk s !! p with Some _ => disk s | None => <[p := ""%string]> (disk s) end) s)).

Definition os_Remove (p : string) : op (oserr + ()) :=
  sys (fun s => match disk s !! p with
                | Some _ => (inr tt, set_disk (delete p (disk s)) s)
                | None => (inl (notExist "remove" p), s)
                end).

Definition os_Stat (p : string) : op (oserr + ()) :=
  sys (fun s => match disk s !! p with Some _ => (inr tt, s) | None => (inl (notExist "stat" p), s) end).

Definition os_Rename (p q : string) : op (oserr + ()) :=
  sys (fun s => match disk s !! p with
                | Some x => (inr tt, set_disk (<[q := x]> (delete p (disk s))) s)
                | None => (inl (notExist "rename" p), s)
                end).

(** The error of a call, for the callers that report every one. *)
Definition strict (m : op (oserr + ())) : op (option goerr) :=
  r ← m; mret (match r with inl e => Some (os_err e) | inr _ => None end).

(** [err != nil && !os.IsNotExist(err)]. *)
Definition lenient (m : op (oserr + ())) : op (option goerr) :=
  r ← m; mret (match r with inl e => if oe_NotExist e then None else Some (os_err e) | inr _ => None end).

Section file.
Context (p : string).

(** The methods of the open file. *)
Definition file_Size : op Z :=
  r ← sys (fun s => (inr (Z.of_nat (String.length (default ""%string (disk s !! p)))), s));
  mret (match r with inr n => n | inl _ => 0 end).

Definition append (data : string) (s : FileExporter) : FileExporter :=
  set_disk (<[p := default ""%string (disk s !! p) ++ data]> (disk s))%string s.

Definition file_Write (data : string) : op (nat * option goerr) := fun s =>
  let s' := set_calls (S (calls s)) s in
  if negb (e_open s) then ((0%nat, Some (fileClosed "write")), s')
  else match fault (calls s) with
       | Some e =>
           let n := Nat.min (partial (calls s)) (String.length data) in
           ((n, Some (os_err e)), append (String.substring 0 n data) s')
       | None => ((String.length data, None), append data s')
       end.

Definition file_Sync : op (option goerr) := fun s =>
  let s' := set_calls (S (calls s)) s in
  if negb (e_open s) then (Some (fileClosed "sync"), s')
  else (os_err <$> fault (calls s), s').

(** A file is closed even when its [Close] reports an error. *)
Definition file_Close : op (option goerr) := fun s =>
  let s' := set_calls (S (calls s)) s in
  if negb (e_open s) then (Some (fileClosed "close"), s')
  else (os_err <$> fault (calls s), set_open false s').

(** [bufio.Writer.Flush] and [Write]; a nil writer panics, which [nil_writer]
    stands for: only a closed exporter has one. *)
Definition nil_writer : goerr := PlainError "panic: nil writer".

Definition drop_prefix (n : nat) (s : string) : string := String.substring n (String.length s - n) s.

Definition bufio_Flush : op (option goerr) := fun s =>
  match e_w s with
  | None => (Some nil_writer, s)
  | Some (mkWriter b (Some e)) => (Some e, s)
  | Some (mkWriter "" None) => (None, s)
  | Some (mkWriter b None) =>
      let '((n, err), s) := file_Write b s in
      match err with
      | Some e => (Some e, set_w (Some (mkWriter (drop_prefix n b) (Some e))) s)
      | None => (None, set_w (Some (mkWriter "" None)) s)
      end
  end.

(** The loop of [Write]; a turn either fills the buffer and flushes it, or writes
    through, or copies what is left.  A write without error takes everything, so
    three turns are enough. *)
Fixpoint bufio_Write (turns : nat) (data : string) (nn : nat) : op (nat * option goerr) := fun s =>
  match e_w s with
  | None => ((nn, Some nil_writer), s)
  | Some (mkWriter b (Some e)) => ((nn, Some e), s)
  | Some (mkWriter b None) =>
      let room := (bufsize - String.length b)%nat in
      if (String.length data <=? room)%nat
      then ((nn + String.length data, None)%nat, set_w (Some (mkWriter (b ++ data) None)) s)
      else match turns with
           | O => ((nn, Some nil_writer), s)
           | S turns =>
               if String.eqb b "" then
                 let '((n, err), s) := file_Write data s in
                 bufio_Write turns (drop_prefix n data) (nn + n)%nat (set_w (Some (mkWriter "" err)) s)
               else
                 let s := set_w (Some (mkWriter (b ++ String.substring 0 room data) None)) s in
                 let '(_, s) := bufio_Flush s in
                 bufio_Write turns (drop_prefix room data) (nn + room)%nat s
           end
  end.
End file.
End calls.

Definition turns : nat := 3.

(** ** The file exporter *)

Definition defaultFileMaxMB : Z := 100.
Definition defaultFileMaxBackups : Z := 3.

Section exporter.
Context `{!OS, !Codec} (cfg : settings).
Notation path := (path cfg).

Definition open : op (option goerr) :=
  let dir := Dir path in
  orReturn (if negb (String.eqb dir "") && negb (String.eqb dir ".") then strict (os_MkdirAll dir) else mret None)
    (failing "create dir" dir)
    (orReturn (strict (os_OpenFile path)) (failing "open" path)
       (modify (set_open true) ;;
        size ← file_Size path;
        modify (set_file true) ;; modify (set_size size) ;; modify (set_w (Some (mkWriter "" None))) ;;
        mret None)).

Definition reopen : op (option goerr) :=
  modify (set_needsReopen true) ;;
  orReturn open (fun err => err) (modify (set_needsReopen false) ;; mret None).

(** [for i := e.maxBackups - 1; i >= 1; i--]. *)
Fixpoint shiftBackups (i : nat) : op (option goerr) :=
  match i with
  | O => mret None
  | S i' =>
      let from := backupPath path i in
      st ← os_Stat from;
      match st with
      | inl _ => shiftBackups i'
      | inr _ => orReturn (strict (os_Rename from (backupPath path (S i)))) (failing "rotate" from) (shiftBackups i')
      end
  end.

Definition rotate : op (option goerr) :=
  s ← fields;
  orReturn (match e_w s with Some _ => bufio_Flush path | None => mret None end)
    (fun e => WrapError ("flush " ++ path ++ " before rotate: " ++ errMsg e) e)
  (orReturn
    (if e_file s
     then orReturn file_Close (fun e => WrapError ("close " ++ path ++ " before rotate: " ++ errMsg e) e)
            (modify (set_file false) ;; mret None)
     else mret None) (fun err => err)
  (if maxBackups cfg <=? 0 then
     orReturn (lenient (os_Remove path)) (failing "remove" path) reopen
   else
     let oldest := backupPath path (Z.to_nat (maxBackups cfg)) in
     orReturn (lenient (os_Remove oldest)) (failing "remove" oldest)
     (orReturn (shiftBackups (Z.to_nat (maxBackups cfg - 1))) (fun err => err)
     (orReturn (lenient (os_Rename path (backupPath path 1))) (failing "rotate" path) reopen)))).

(** [e.dropped.Add(1); e.recordError(err); return err]. *)
Definition drop_ (err : goerr) : op (option goerr) :=
  modify (set_counters (fun c => recordError (Some (errMsg err)) (addDropped c))) ;; mret (Some err).

(** [if err := m; err != nil { drop f(err) }]. *)
Definition orDrop (m : op (option goerr)) (f : goerr -> goerr) (k : op (option goerr)) : op (option goerr) :=
  r ← m; match r with Some e => drop_ (f e) | None => k end.

(** [Export] from the acquisition of the lock. *)
Definition exportLocked (line : string) : op (option goerr) :=
  s ← fields;
  if e_closed s then drop_ ErrClosed
  else
    orDrop (if e_needsReopen s then orReturn open (fun err => err) (modify (set_needsReopen false) ;; mret None)
            else mret None) (fun err => err)
    (s ← fields;
     orDrop (if (0 <? maxBytes cfg) && (0 <? e_size s) && (maxBytes cfg <? e_size s + Z.of_nat (String.length line))
             then rotate else mret None) (fun err => err)
     ('(n, err) ← bufio_Write path turns line 0;
      modify (fun s => set_size (e_size s + Z.of_nat n) s) ;;
      orDrop (mret err) (failing "write" path)
      (orDrop (bufio_Flush path) (failing "flush" path)
       (s ← fields;
        orDrop (if syncs cfg && e_file s then file_Sync else mret None) (failing "fsync" path)
        (modify (set_counters addExported) ;; mret None))))).

Definition FileExporter_Export (ctx_Err : option goerr) (batch : option Batch) : op (option goerr) :=
  match ctx_Err with
  | Some err => mret (Some err)
  | None => match encodeLine batch with
            | inl err => drop_ err
            | inr line => exportLocked line
            end
  end.

Definition FileExporter_Stats (s : FileExporter) : Stats := snapshot (e_counters s).

Definition FileExporter_Close : op (option goerr) :=
  s ← fields;
  if e_closed s then mret None
  else
    modify (set_closed true) ;;
    flushed ← match e_w s with Some _ => bufio_Flush path | None => mret None end;
    let firstErr := failing "flush" path <$> flushed in
    closed ← (if e_file s then file_Close else mret None);
    let firstErr := match firstErr with Some _ => firstErr | None => failing "close" path <$> closed end in
    modify (set_w None) ;; modify (set_file false) ;;
    modify (set_counters (recordError (errMsg <$> firstErr))) ;;
    mret firstErr.
End exporter.

(** [int64(cfg.MaxMB) * 1024 * 1024]. *)
Definition settings_of (cfg : FileExporterConfig) : settings :=
  let mb := if cfg_MaxMB cfg =? 0 then defaultFileMaxMB else cfg_MaxMB cfg in
  let backups := if cfg_MaxBackups cfg <? 0 then defaultFileMaxBackups else cfg_MaxBackups cfg in
  mkSettings (cfg_Path cfg) (if 0 <? mb then wrapS 64 (mb * 1024 * 1024) else 0) backups (cfg_Sync cfg).

Definition fresh (d : gmap string string) : FileExporter :=
  mkFileExporter no_counters false false None 0 false false d 0.

(** The error, or the settings and the open exporter, on the disk it leaves. *)
Definition NewFileExporter `{!OS} (cfg : FileExporterConfig) (d : gmap string string) :
    goerr + settings * FileExporter :=
  if String.eqb (cfg_Path cfg) "" then inl (PlainError "file exporter: path is required")
  else
    let e := settings_of cfg in
    match open e (fresh d) with
    | (Some err, _) => inl err
    | (None, s) => inr (e, s)
    end.

(** ** The stdout exporter *)

Record StdoutExporter := mkStdoutExporter { so_counters : counters; so_out : string }.

Section stdout.
Context `{!Codec}.

(** [write] is the outcome of the one [Write] call: an error and how much was
    written nevertheless, or nothing. *)
Definition StdoutExporter_Export (ctx_Err : option goerr) (batch : option Batch) (write : option (goerr * nat))
    (s : StdoutExporter) : option goerr * StdoutExporter :=
  let dropped err out :=
    (Some err, mkStdoutExporter (recordError (Some (errMsg err)) (addDropped (so_counters s))) out) in
  match ctx_Err with
  | Some err => (Some err, s)
  | None =>
      match encodeLine batch with
      | inl err => dropped err (so_out s)
      | inr line =>
          match write with
          | Some (err, n) =>
              dropped (WrapError ("write stdout: " ++ errMsg err) err) (so_out s ++ String.substring 0 n line)%string
          | None => (None, mkStdoutExporter (addExported (so_counters s)) (so_out s ++ line)%string)
          end
      end
  end.

Definition StdoutExporter_Stats (s : StdoutExporter) : Stats := snapshot (so_counters s).
End stdout.

(** ** Lemmas *)

Section names.
Context (path : string).

Lemma backupPath_inj i j : backupPath path i = backupPath path j -> i = j.
Proof. unfold backupPath. intros He. by apply (inj (String.append path)), (inj (String.append ".")), (inj pretty) in He. Qed.

Lemma backupPath_ne i : backupPath path i <> path.
Proof.
  unfold backupPath. intros He. apply (f_equal String.length) in He.
  rewrite !string_append_length in He. simpl in He. lia.
Qed.
End names.

Lemma drop_prefix_all s : drop_prefix (String.length s) s = ""%string.
Proof. unfold drop_prefix. rewrite Nat.sub_diag. induction s as [|a s IH]; [done|]. simpl. exact IH. Qed.

(** ** Specification: a log of lines

    The files as lists of whole lines, newest file first.  A line that does not
    fit starts a new file, unless the current one is empty; at most [backups] older
    files are kept. *)

Definition text (lines : list string) : string := foldr String.append ""%string lines.

Definition fits (max : Z) (cur : list string) (line : string) : bool :=
  negb ((0 <? max) && (0 <? Z.of_nat (String.length (text cur))) &&
    (max <? Z.of_nat (String.length (text cur)) + Z.of_nat (String.length line))).

Definition push (max backups : Z) (log : list (list string)) (line : string) : list (list string) :=
  match log with
  | [] => [[line]]
  | cur :: rest =>
      if fits max cur line then (cur ++ [line]) :: rest else take (S (Z.to_nat backups)) ([line] :: log)
  end.

Lemma text_single line : text [line] = line.
Proof. apply string_append_nil. Qed.

Lemma text_app l k : text (l ++ k) = text l +:+ text k.
Proof. induction l as [|x l IH]; [done|]. simpl. rewrite IH. apply string_append_assoc. Qed.

Section healthy.
Context `{!OS, !Codec} (cfg : settings) (Hok : forall n, fault n = None).
Notation path := (path cfg).

Definition touch (d : gmap string string) : gmap string string :=
  match d !! path with Some _ => d | None => <[path := ""%string]> d end.

Definition live (d : gmap string string) : string := default ""%string (d !! path).

(** Where the N-th most recent file is: the live one is the 0-th. *)
Definition name (i : nat) : string := match i with O => path | S _ => backupPath path i end.

(** Runs the calls of an operation, none of which fails. *)
Ltac calls :=
  unfold orReturn, orDrop, strict, lenient, os_MkdirAll, os_OpenFile, os_Remove, os_Stat, os_Rename, file_Size,
    sys, modify, fields, mbind, St_bind, mret, St_ret; cbn -[name backupPath];
  repeat (rewrite Hok; cbn -[name backupPath]).

Lemma open_ok c f o w sz nr cl d k : exists k',
  open cfg (mkFileExporter c f o w sz nr cl d k) =
  (None, mkFileExporter c true true (Some (mkWriter "" None)) (Z.of_nat (String.length (live (touch d)))) nr cl (touch d) k').
Proof.
  unfold open. destruct (negb _ && negb _); calls; eexists; reflexivity.
Qed.

Lemma name_inj i j : name i = name j -> i = j.
Proof.
  destruct i, j; simpl; intros He; [done| | |by apply backupPath_inj in He].
  - by apply eq_sym, backupPath_ne in He.
  - by apply backupPath_ne in He.
Qed.

Lemma shift_ok n c f o w sz nr cl d k :
  d !! name (S n) = None -> exists d' k',
    shiftBackups cfg n (mkFileExporter c f o w sz nr cl d k) = (None, mkFileExporter c f o w sz nr cl d' k') /\
    (forall i, (1 <= i <= n)%nat -> d' !! name (S i) = d !! name i) /\ d' !! name 1 = None /\
    (forall p, (forall i, (1 <= i <= S n)%nat -> p <> name i) -> d' !! p = d !! p).
Proof.
  revert d k. induction n as [|n IH]; intros d k Hn.
  { exists d, k. split; [done|]. split; [lia|]. done. }
  cbn [shiftBackups]. change (backupPath path (S n)) with (name (S n)).
  change (backupPath path (S (S n))) with (name (S (S n))).
  destruct (d !! name (S n)) as [x|] eqn:E.
  - assert (name (S (S n)) <> name (S n)) as Hne by (intros He%name_inj; lia).
    edestruct (IH (<[name (S (S n)) := x]> (delete (name (S n)) d)) (S (S k))) as (d' & k' & Hr & Hs & H1 & Ho).
    { by rewrite lookup_insert_ne, lookup_delete_eq. }
    exists d', k'. split; [calls; repeat (rewrite ?E, ?Hok; cbn -[name backupPath]); exact Hr|].
    split; [|split; [done|]].
    + intros i Hi. destruct (decide (i = S n)) as [->|Hin].
      * rewrite Ho; [by rewrite lookup_insert_eq, E|]. intros j Hj He%name_inj. lia.
      * rewrite Hs by lia. rewrite lookup_insert_ne, lookup_delete_ne; [done|intros He%name_inj; lia|].
        intros He%name_inj. lia.
    + intros p Hp. rewrite Ho by (intros i Hi; apply Hp; lia).
      rewrite lookup_insert_ne, lookup_delete_ne; [done|apply not_eq_sym, Hp; lia|apply not_eq_sym, Hp; lia].
  - destruct (IH d (S k) E) as (d' & k' & Hr & Hs & H1 & Ho).
    exists d', k'. split; [calls; rewrite E; cbn -[name backupPath]; exact Hr|]. split; [|split; [done|]].
    + intros i Hi. destruct (decide (i = S n)) as [->|Hin]; [|apply Hs; lia].
      rewrite Ho; [by rewrite E|]. intros j Hj He%name_inj. lia.
    + intros p Hp. apply Ho. intros i Hi. apply Hp. lia.
Qed.

Lemma orReturn_ok m f k s s' : m s = (None, s') -> orReturn m f k s = k s'.
Proof. intros Hm. unfold orReturn, mbind, St_bind. by rewrite Hm. Qed.

Lemma remove_ok p c f o w sz nr cl d k :
  lenient (os_Remove p) (mkFileExporter c f o w sz nr cl d k) =
  (None, mkFileExporter c f o w sz nr cl (delete p d) (S k)).
Proof.
  calls. destruct (d !! p) eqn:E; cbn; [done|]. by rewrite delete_id.
Qed.

Lemma rename_ok p q c f o w sz nr cl d k x : d !! p = Some x ->
  lenient (os_Rename p q) (mkFileExporter c f o w sz nr cl d k) =
  (None, mkFileExporter c f o w sz nr cl (<[q := x]> (delete p d)) (S k)).
Proof. intros Hp. calls. by rewrite Hp. Qed.

(** The disk after a rotation: every file is one generation older. *)
Definition rotated (N : nat) (d d' : gmap string string) : Prop :=
  d' !! name 0 = Some ""%string /\
  (forall i, (i < N)%nat -> d' !! name (S i) = d !! name i) /\
  (forall p, (forall i, (i <= N)%nat -> p <> name i) -> d' !! p = d !! p).

Lemma touch_fresh d : d !! name 0 = None -> touch d = <[name 0 := ""%string]> d.
Proof. unfold touch. simpl. by intros ->. Qed.

Lemma rotate_ok c nr cl d k sz x :
  d !! name 0 = Some x -> exists d' k',
    rotate cfg (mkFileExporter c true true (Some (mkWriter "" None)) sz nr cl d k) =
      (None, mkFileExporter c true true (Some (mkWriter "" None)) 0 false cl d' k') /\
    rotated (Z.to_nat (maxBackups cfg)) d d'.
Proof.
  intros Hx. unfold rotate.
  assert (forall c f o w sz nr cl d k, d !! name 0 = None -> exists k',
    reopen cfg (mkFileExporter c f o w sz nr cl d k) =
    (None, mkFileExporter c true true (Some (mkWriter "" None)) 0 false cl (<[name 0 := ""%string]> d) k')) as Hre.
  { intros c0 f0 o0 w0 sz0 nr0 cl0 d0 k0 Hd. unfold reopen.
    destruct (open_ok c0 f0 o0 w0 sz0 true cl0 d0 k0) as [k' Ho]. exists k'.
    calls. unfold set_needsReopen. cbn. rewrite Ho. cbn. rewrite touch_fresh by done. unfold live.
    change (path) with (name 0). by rewrite lookup_insert_eq. }
  destruct (Z.leb_spec (maxBackups cfg) 0) as [Hb|Hb].
  - edestruct (Hre c false false (Some (mkWriter "" None)) sz nr cl (delete (name 0) d) (S (S k))) as [k' Hr];
      [by rewrite lookup_delete_eq|].
    eexists _, k'. split; [|split; [by rewrite lookup_insert_eq|split; [lia|]]].
    + calls. unfold set_open, set_file, set_calls. cbn. change path with (name 0). rewrite Hx. cbn.
      unfold set_disk. cbn. exact Hr.
    + intros p Hp. rewrite lookup_insert_ne, lookup_delete_ne by (apply not_eq_sym, Hp; lia). done.
  - set (N := Z.to_nat (maxBackups cfg)) in *. assert (Z.to_nat (maxBackups cfg - 1) = pred N) as -> by lia.
    destruct N as [|n] eqn:EN; [lia|]. cbn [pred]. change (backupPath path (S n)) with (name (S n)).
    edestruct (shift_ok n c false false (Some (mkWriter "" None)) sz nr cl (delete (name (S n)) d) (S (S k)))
      as (d1 & k1 & Hs & Hsh & H1 & Ho); [by rewrite lookup_delete_eq|].
    assert (d1 !! name 0 = Some x) as Hx1.
    { rewrite Ho by (intros i Hi He%name_inj; lia). rewrite lookup_delete_ne; [done|intros He%name_inj; lia]. }
    edestruct (Hre c false false (Some (mkWriter "" None)) sz nr cl (<[name 1 := x]> (delete (name 0) d1)) (S k1))
      as [k' Hr].
    { rewrite lookup_insert_ne, lookup_delete_eq; [done|intros He%name_inj; lia]. }
    eexists _, k'. split.
    + unfold mbind at 1, St_bind at 1, fields at 1. cbn -[name orReturn backupPath]. erewrite orReturn_ok by done.
      erewrite orReturn_ok by (calls; reflexivity). erewrite orReturn_ok by apply remove_ok.
      erewrite orReturn_ok by exact Hs. change path with (name 0) at 1. change (backupPath path 1) with (name 1).
      erewrite orReturn_ok by (by apply rename_ok). exact Hr.
    + split; [by rewrite lookup_insert_eq|]. split.
      * intros [|i] Hi; [by rewrite lookup_insert_ne, lookup_insert_eq by (intros He%name_inj; lia)|].
        rewrite !lookup_insert_ne, lookup_delete_ne by (intros He%name_inj; lia).
        rewrite Hsh by lia. by rewrite lookup_delete_ne by (intros He%name_inj; lia).
      * intros p Hp. rewrite !lookup_insert_ne, lookup_delete_ne by (apply not_eq_sym, Hp; lia).
        rewrite Ho by (intros i Hi; apply Hp; lia). rewrite lookup_delete_ne; [done|apply not_eq_sym, Hp; lia].
Qed.

Lemma orDrop_ok m f k s s' : m s = (None, s') -> orDrop m f k s = k s'.
Proof. intros Hm. unfold orDrop, mbind, St_bind. by rewrite Hm. Qed.

(** An open exporter between two calls of [Export]. *)
Definition ready (c : counters) (d : gmap string string) (k : nat) : FileExporter :=
  mkFileExporter c true true (Some (mkWriter "" None)) (Z.of_nat (String.length (live d))) false false d k.

(** What [Write] and [Flush] do together. *)
Lemma write_flush_ok line c nr cl d k sz : exists s1 k',
  bufio_Write path turns line 0 (mkFileExporter c true true (Some (mkWriter "" None)) sz nr cl d k) =
    ((String.length line, None), s1) /\
  e_size s1 = sz /\
  bufio_Flush path (set_size (sz + Z.of_nat (String.length line)) s1) =
    (None, mkFileExporter c true true (Some (mkWriter "" None)) (sz + Z.of_nat (String.length line)) nr cl
       (if String.eqb line "" then d else <[path := live d +:+ line]> d) k').
Proof.
  unfold turns. cbn [bufio_Write e_w]. destruct (Nat.leb_spec (String.length line) (bufsize - String.length "")) as [Hl|Hl].
  - exists (mkFileExporter c true true (Some (mkWriter line None)) sz nr cl d k), (if String.eqb line "" then k else S k).
    split; [done|]. split; [done|]. cbn. destruct line as [|a line]; [done|].
    unfold file_Write. cbn. by rewrite Hok.
  - assert (String.eqb line "" = false) as ->.
    { apply String.eqb_neq. intros ->. simpl in Hl. lia. }
    cbn -[bufsize]. unfold file_Write. cbn -[bufsize]. rewrite Hok. cbn -[bufsize].
    rewrite drop_prefix_all. cbn. rewrite Nat.add_0_r. eexists _, _. split; [reflexivity|]. split; [done|]. reflexivity.
Qed.

(** The first action of an operation that reads the fields or sets some. *)
Ltac peel := unfold mbind at 1, St_bind at 1; try unfold fields at 1; cbn -[name orDrop orReturn backupPath bufio_Write bufio_Flush rotate open file_Sync].

(** One line, with every call succeeding. *)
Definition rotates (d : gmap string string) (line : string) : bool :=
  (0 <? maxBytes cfg) && (0 <? Z.of_nat (String.length (live d))) &&
  (maxBytes cfg <? Z.of_nat (String.length (live d)) + Z.of_nat (String.length line)).

Lemma exportLocked_ok line c d k x :
  d !! name 0 = Some x -> exists d1 d' k',
    exportLocked cfg line (ready c d k) = (None, ready (addExported c) d' k') /\
    (if rotates d line then rotated (Z.to_nat (maxBackups cfg)) d d1 else d1 = d) /\
    d' = <[name 0 := live d1 +:+ line]> d1.
Proof.
  intros Hx. unfold exportLocked. peel.
  erewrite orDrop_ok by reflexivity. peel.
  fold (live d). change (_ && _ && _) with (rotates d line).
  assert (exists d1 k1 y, d1 !! name 0 = Some y /\
    (if rotates d line then rotate cfg else mret None) (ready c d k) = (None, ready c d1 k1) /\
    (if rotates d line then rotated (Z.to_nat (maxBackups cfg)) d d1 else d1 = d)) as (d1 & k1 & y & Hy & Hr & Hd).
  { destruct (rotates d line); [|by eexists _, _, _].
    destruct (rotate_ok c false false d k (Z.of_nat (String.length (live d))) x Hx) as (d1 & k1 & Hr & Hrot).
    exists d1, k1, ""%string. destruct Hrot as (H1 & H2 & H3). split; [done|]. split; [|done].
    unfold ready at 1. rewrite Hr. unfold ready, live. change path with (name 0). by rewrite H1. }
  rewrite (orDrop_ok _ _ _ _ _ Hr).
  destruct (write_flush_ok line c false false d1 k1 (Z.of_nat (String.length (live d1)))) as (s1 & k' & Hw & Hsz & Hf).
  exists d1, (<[name 0 := live d1 +:+ line]> d1), (if syncs cfg then S k' else k'). split; [|done].
  unfold mbind at 1, St_bind at 1. unfold ready at 1. rewrite Hw. peel.
  rewrite Hsz. erewrite orDrop_ok by reflexivity. erewrite orDrop_ok by exact Hf.
  assert ((if String.eqb line "" then d1 else <[path := live d1 +:+ line]> d1) =
    <[name 0 := live d1 +:+ line]> d1) as ->.
  { destruct (String.eqb_spec line "") as [->|]; [|done]. unfold live. change path with (name 0). rewrite Hy. simpl.
    rewrite string_append_nil. by rewrite insert_id. }
  peel. rewrite andb_true_r.
  erewrite (orDrop_ok _ _ _ _ (mkFileExporter c true true _ _ false false _ (if syncs cfg then S k' else k')));
    [|destruct (syncs cfg); [unfold file_Sync; cbn; rewrite Hok; reflexivity|reflexivity]].
  unfold ready, live. cbn -[name]. change path with (name 0). rewrite lookup_insert_eq, Hy. cbn -[name].
  rewrite string_append_length, Nat2Z.inj_add. reflexivity.
Qed.

(** *** The log the files hold *)

(** The disk holds the log, newest file first. *)
Definition holds (d : gmap string string) (log : list (list string)) : Prop :=
  forall i, (i <= Z.to_nat (maxBackups cfg))%nat -> d !! name i = text <$> log !! i.

Lemma rotated_holds d d1 log line :
  holds d log -> rotated (Z.to_nat (maxBackups cfg)) d d1 ->
  holds (<[name 0 := live d1 +:+ line]> d1) (take (S (Z.to_nat (maxBackups cfg))) ([line] :: log)).
Proof.
  intros Hd (H1 & H2 & _) i Hi. rewrite lookup_take_lt by lia. destruct i as [|i].
  - rewrite lookup_insert_eq. unfold live. change path with (name 0). rewrite H1. simpl. unfold text. simpl.
    by rewrite string_append_nil.
  - rewrite lookup_insert_ne by (intros He%name_inj; lia). rewrite H2 by lia. apply Hd. lia.
Qed.

Lemma appended_holds d log cur rest line :
  holds d log -> log = cur :: rest -> holds (<[name 0 := live d +:+ line]> d) ((cur ++ [line]) :: rest).
Proof.
  intros Hd -> i Hi. destruct i as [|i].
  - rewrite lookup_insert_eq. unfold live. change path with (name 0). rewrite Hd by lia. simpl. by rewrite text_app, text_single.
  - rewrite lookup_insert_ne by (intros He%name_inj; lia). by rewrite Hd by lia.
Qed.

Lemma holds_live d log cur rest : holds d log -> log = cur :: rest -> live d = text cur.
Proof. intros Hd ->. unfold live. change path with (name 0). by rewrite Hd by lia. Qed.
End healthy.

Section log.
Context (max backups : Z).
Notation pushed := (push max backups).

Lemma concat_suffix {A} (l k : list (list A)) : l `suffix_of` k -> concat l `suffix_of` concat k.
Proof. intros [m ->]. rewrite concat_app. by apply suffix_app_r. Qed.

(** Nothing but the oldest lines is lost, and no line moves or is repeated. *)
Lemma push_suffix log line :
  concat (reverse (pushed log line)) `suffix_of` concat (reverse log) ++ [line].
Proof.
  unfold push. destruct log as [|cur rest]; [done|]. destruct (fits max cur line).
  - rewrite !reverse_cons, !concat_app. simpl. by rewrite !app_nil_r, app_assoc.
  - trans (concat (reverse ([line] :: cur :: rest))).
    + apply concat_suffix. rewrite <- (take_drop (S (Z.to_nat backups)) ([line] :: cur :: rest)) at 2.
      rewrite reverse_app. by apply suffix_app_r.
    + rewrite (reverse_cons _ [line]), concat_app. done.
Qed.

(** A file keeps to the threshold, or is a single line; lines are not empty. *)
Definition file_ok (lines : list string) : Prop :=
  Forall (fun line => line <> ""%string) lines /\
  (max <= 0 \/ Z.of_nat (String.length (text lines)) <= max \/ (length lines <= 1)%nat).

Lemma push_ok log line : Forall file_ok log -> line <> ""%string -> Forall file_ok (pushed log line).
Proof.
  intros Hl Hne. assert (file_ok [line]) as H1.
  { split; [by constructor|]. right. right. simpl. lia. }
  unfold push. destruct log as [|cur rest]; [by constructor|].
  destruct (fits max cur line) eqn:E; [|by apply Forall_take; constructor].
  inversion Hl as [|? ? [Hc Hm] Hr]; subst. constructor; [|done]. split; [by apply Forall_app; split; [|constructor]|].
  unfold fits in E. rewrite text_app, text_single, string_append_length, length_app.
  apply negb_true_iff, andb_false_iff in E as [E|E]; [|apply Z.ltb_ge in E; lia].
  apply andb_false_iff in E as [E|E]; apply Z.ltb_ge in E; [by left|].
  destruct cur as [|x cur]; [right; right; simpl; lia|]. exfalso.
  inversion Hc as [|? ? Hx _]; subst. simpl in E. rewrite string_append_length in E. destruct x; [done|simpl in E; lia].
Qed.

Lemma push_length log line :
  (length log <= S (Z.to_nat backups))%nat -> (length (pushed log line) <= S (Z.to_nat backups))%nat.
Proof.
  unfold push. destruct log as [|cur rest]; simpl; [lia|]. destruct (fits max cur line); simpl; [lia|].
  rewrite length_take. simpl. lia.
Qed.

Lemma push_cons log line : exists cur rest, pushed log line = cur :: rest.
Proof. unfold push. destruct log as [|cur rest]; [eauto|]. destruct (fits max cur line); simpl; eauto. Qed.

(** What any number of lines does to the log. *)
Lemma pushes_spec lines log :
  Forall file_ok log -> Forall (fun line => line <> ""%string) lines -> (length log <= S (Z.to_nat backups))%nat ->
  let log' := foldl pushed log lines in
  Forall file_ok log' /\ (length log' <= S (Z.to_nat backups))%nat /\
  concat (reverse log') `suffix_of` concat (reverse log) ++ lines.
Proof.
  intros Hl Hn Hlen. induction lines as [|line lines IH] using rev_ind; simpl.
  - split; [done|]. split; [done|]. by rewrite app_nil_r.
  - apply Forall_app in Hn as [Hn Hx]. inversion Hx; subst. rewrite foldl_snoc.
    destruct (IH Hn) as (I1 & I2 & [m I3]). split; [by apply push_ok|]. split; [by apply push_length|].
    etrans; [apply push_suffix|]. exists m. by rewrite !app_assoc, I3.
Qed.
End log.

(** ** Theorems on a healthy disk *)

(** [Export] on each batch in turn, with a live context. *)
Definition exportAll `{!OS, !Codec} (cfg : settings) (batches : list Batch) : op (list (option goerr)) :=
  traverseM (fun b => FileExporter_Export cfg None (Some b)) batches.

Section refinement.
Context `{!OS, !Codec} (Hok : forall n, fault n = None).

Lemma export_push cfg b line c d k log :
  encodeLine (Some b) = inr line -> holds cfg d log -> log <> [] -> exists d' k',
    FileExporter_Export cfg None (Some b) (ready cfg c d k) = (None, ready cfg (addExported c) d' k') /\
    holds cfg d' (push (maxBytes cfg) (maxBackups cfg) log line).
Proof.
  intros Hb Hd Hl. unfold FileExporter_Export. rewrite Hb. destruct log as [|cur rest]; [done|].
  destruct (exportLocked_ok cfg Hok line c d k (text cur)) as (d1 & d' & k' & He & Hr & ->).
  { by rewrite Hd by lia. }
  exists (<[name cfg 0 := live cfg d1 +:+ line]> d1), k'. split; [exact He|].
  assert (rotates cfg d line = negb (fits (maxBytes cfg) cur line)) as Ef.
  { unfold rotates, fits. by rewrite (holds_live cfg d _ cur rest Hd eq_refl), negb_involutive. }
  rewrite Ef in Hr. unfold push. destruct (fits (maxBytes cfg) cur line); simpl in Hr.
  - subst d1. by eapply appended_holds.
  - by eapply rotated_holds.
Qed.

Lemma exportAll_push cfg batches lines c d k log :
  Forall2 (fun b line => encodeLine (Some b) = inr line) batches lines -> holds cfg d log -> log <> [] ->
  exists d' k',
    exportAll cfg batches (ready cfg c d k) =
      (replicate (length batches) None, ready cfg (Nat.iter (length batches) addExported c) d' k') /\
    holds cfg d' (foldl (push (maxBytes cfg) (maxBackups cfg)) log lines).
Proof.
  intros Hb. revert c d k log. induction Hb as [|b line batches lines Hb _ IH]; intros c d k log Hd Hl.
  { by exists d, k. }
  destruct (export_push cfg b line c d k log Hb Hd Hl) as (d1 & k1 & He & Hd1).
  destruct (push_cons (maxBytes cfg) (maxBackups cfg) log line) as (cur & rest & Hp).
  destruct (IH (addExported c) d1 k1 _ Hd1) as (d' & k' & Hr & Hd'); [by rewrite Hp|].
  exists d', k'. split; [|exact Hd']. unfold exportAll in *. cbn [traverseM]. rewrite St_bind_eq, He. cbn [fst snd].
  rewrite St_bind_eq, Hr. cbn [fst snd length replicate]. by rewrite Nat.iter_succ_r.
Qed.

Lemma encodeLine_nonempty b line : encodeLine (Some b) = inr line -> line <> ""%string.
Proof.
  unfold encodeLine. destruct (Marshal b) as [|data]; [done|]. intros [= <-] He.
  apply (f_equal String.length) in He. rewrite string_append_length in He. simpl in He. lia.
Qed.

Lemma exported_iter n c : exported (Nat.iter n addExported c) = wrapU 64 (exported c + Z.of_nat n) \/ n = O.
Proof.
  destruct n as [|n]; [by right|left]. induction n as [|n IH]; [done|].
  simpl. simpl in IH. rewrite IH. unfold wrapU. rewrite Zplus_mod_idemp_l. f_equal. lia.
Qed.

(** C23: with every system call succeeding, the exporter refines an append-only log
    cut into files: from a directory that holds any log, each batch is written (and
    counted) as one whole line, in order, a line that would take the current file
    past the threshold starting a new one; the directory then holds the log the
    specification gives, which has at most the configured number of backups, no
    file over the threshold unless it is a single line, and has lost nothing but
    the oldest lines. *)
Theorem file_refines_log (cfg : FileExporterConfig) (d : gmap string string) (log : list (list string))
    (batches : list Batch) (lines : list string) :
  let e := settings_of cfg in
  cfg_Path cfg <> ""%string ->
  holds e (touch e d) log -> (0 < length log <= S (Z.to_nat (maxBackups e)))%nat -> Forall (file_ok (maxBytes e)) log ->
  Forall2 (fun b line => encodeLine (Some b) = inr line) batches lines ->
  exists s s' log',
    NewFileExporter cfg d = inr (e, s) /\
    exportAll e batches s = (replicate (length batches) None, s') /\
    log' = foldl (push (maxBytes e) (maxBackups e)) log lines /\ holds e (disk s') log' /\
    BatchesExported (FileExporter_Stats s') = wrapU 64 (Z.of_nat (length batches)) /\
    BatchesDropped (FileExporter_Stats s') = 0 /\
    Forall (file_ok (maxBytes e)) log' /\ (length log' <= S (Z.to_nat (maxBackups e)))%nat /\
    concat (reverse log') `suffix_of` concat (reverse log) ++ lines.
Proof.
  intros e Hp Hd Hlen Hf Hb.
  destruct (open_ok e Hok no_counters false false None 0 false false d 0) as [k Ho].
  destruct (exportAll_push e batches lines no_counters (touch e d) k log Hb Hd) as (d' & k' & He & Hd');
    [by destruct log; simpl in *; [lia|]|].
  eexists (ready e no_counters (touch e d) k), _, _.
  split. { unfold NewFileExporter. apply String.eqb_neq in Hp as ->. fold e. unfold fresh. by rewrite Ho. }
  split; [exact He|]. split; [done|]. split; [exact Hd'|]. split.
  { cbn. by destruct (exported_iter (length batches) no_counters) as [->|Hn]; [|rewrite Hn]. }
  split; [by cbn; clear; induction (length batches)|].
  apply pushes_spec; [done| |lia].
  apply Forall2_flip in Hb. eapply Forall2_Forall_l; [exact Hb|].
  apply list.Forall_forall. intros b _ line. apply encodeLine_nonempty.
Qed.
End refinement.

(** ** Whatever fails *)

(** A partial-correctness triple, for a run in which any call may fail. *)
Definition triple {A} (P : FileExporter -> Prop) (m : op A) (Q : A -> FileExporter -> Prop) : Prop :=
  forall s, P s -> Q (m s).1 (m s).2.

Section triples.
Lemma triple_ret {A} (P : FileExporter -> Prop) (a : A) (Q : A -> FileExporter -> Prop) :
  (forall s, P s -> Q a s) -> triple P (mret a) Q.
Proof. done. Qed.

Lemma triple_bind {A B} P (m : op A) (k : A -> op B) R Q :
  triple P m R -> (forall a, triple (R a) (k a) Q) -> triple P (m ≫= k) Q.
Proof. intros Hm Hk s Hs. unfold mbind, St_bind. specialize (Hm s Hs). destruct (m s) as [a s1]. by apply Hk. Qed.

Lemma triple_modify (P : FileExporter -> Prop) (f : FileExporter -> FileExporter) (Q : () -> FileExporter -> Prop) :
  (forall s, P s -> Q tt (f s)) -> triple P (modify f) Q.
Proof. done. Qed.

Lemma triple_get P {B} (k : FileExporter -> op B) Q :
  (forall s, P s -> triple (fun s' => s' = s) (k s) Q) -> triple P (fields ≫= k) Q.
Proof. intros Hk s Hs. by apply (Hk s Hs). Qed.

Lemma triple_orReturn P m f k R (Q : option goerr -> FileExporter -> Prop) :
  triple P m (fun r s => match r with Some e => Q (Some (f e)) s | None => R s end) -> triple R k Q ->
  triple P (orReturn m f k) Q.
Proof. intros Hm Hk. eapply triple_bind; [exact Hm|]. intros [e|]; [by apply triple_ret|done]. Qed.

Lemma triple_conseq {A} P P' (m : op A) Q Q' :
  triple P m Q -> (forall s, P' s -> P s) -> (forall a s, Q a s -> Q' a s) -> triple P' m Q'.
Proof. intros Hm HP HQ s Hs. by apply HQ, Hm, HP. Qed.
End triples.

Section faults.
Context `{!OS, !Codec} (cfg : settings) (c0 : counters) (x0 : string).
Notation path := (path cfg).

(** Between two steps of a call of [Export] that began with the counters [c0] and
    the live file [x0]. *)
Record inv (s : FileExporter) : Prop := mkInv {
  inv_counters : e_counters s = c0;
  inv_open : e_closed s = false;
  inv_writer : exists b e, e_w s = Some (mkWriter b e) /\ (e = None -> b = ""%string);
  inv_live : live cfg (disk s) = x0 \/ live cfg (disk s) = ""%string;
}.

Definition clean (s : FileExporter) : Prop := inv s /\ e_w s = Some (mkWriter "" None).

(** An operation that keeps the invariant, and leaves [R] when it succeeds. *)
Notation keeps m R := (triple inv m (fun r s => match r with Some _ => inv s | None => R s end)).

Lemma sys_inv {A} (f : FileExporter -> (oserr + A) * FileExporter) :
  (forall s, inv s -> inv (f s).2) -> triple inv (sys f) (fun _ => inv).
Proof.
  intros Hf s Hs. unfold sys. assert (inv (set_calls (S (calls s)) s)) as Hs' by by destruct Hs.
  destruct (fault (calls s)); [done|by apply Hf].
Qed.

Lemma inv_disk d s :
  inv s -> live cfg d = live cfg (disk s) \/ live cfg d = ""%string -> inv (set_disk d s).
Proof.
  intros [H1 H2 H3 H4] Hd. constructor; try done. simpl.
  destruct Hd as [->|]; [done|by right].
Qed.

Lemma live_other p x d : p <> path -> live cfg (<[p := x]> d) = live cfg d.
Proof. intros Hp. unfold live. by rewrite lookup_insert_ne. Qed.

Lemma live_delete p d : live cfg (delete p d) = live cfg d \/ live cfg (delete p d) = ""%string.
Proof.
  unfold live. destruct (decide (p = path)) as [->|]; [right; by rewrite lookup_delete_eq|left; by rewrite lookup_delete_ne].
Qed.

Lemma strict_inv m : triple inv m (fun _ => inv) -> keeps (strict m) inv.
Proof. intros Hm. eapply triple_bind; [exact Hm|]. intros [e|[]]; by apply triple_ret. Qed.

Lemma lenient_inv m : triple inv m (fun _ => inv) -> keeps (lenient m) inv.
Proof. intros Hm. eapply triple_bind; [exact Hm|]. intros [e|[]]; [destruct (oe_NotExist e)|]; by apply triple_ret. Qed.

Lemma MkdirAll_inv p : triple inv (os_MkdirAll p) (fun _ => inv).
Proof. by apply sys_inv. Qed.

Lemma OpenFile_inv : triple inv (os_OpenFile path) (fun _ => inv).
Proof.
  apply sys_inv. intros s Hs. apply inv_disk; [done|]. left. unfold live.
  destruct (disk s !! path) eqn:E; [by rewrite E|by rewrite lookup_insert_eq].
Qed.

Lemma Remove_inv p : triple inv (os_Remove p) (fun _ => inv).
Proof.
  apply sys_inv. intros s Hs. destruct (disk s !! p); [|done]. apply inv_disk; [done|apply live_delete].
Qed.

Lemma Stat_inv p : triple inv (os_Stat p) (fun _ => inv).
Proof. apply sys_inv. intros s Hs. by destruct (disk s !! p). Qed.

Lemma Rename_inv p q : q <> path -> triple inv (os_Rename p q) (fun _ => inv).
Proof.
  intros Hq. apply sys_inv. intros s Hs. destruct (disk s !! p); [|done]. apply inv_disk; [done|].
  rewrite live_other by done. apply live_delete.
Qed.

Lemma open_inv : keeps (open cfg) clean.
Proof.
  unfold open. apply triple_orReturn with (R := inv).
  { destruct (_ && _); [apply strict_inv, MkdirAll_inv|by apply triple_ret]. }
  apply triple_orReturn with (R := inv); [apply strict_inv, OpenFile_inv|].
  eapply (triple_bind _ _ _ (fun _ => inv)); [apply triple_modify; by intros s []|]. intros _.
  eapply (triple_bind _ _ _ (fun _ => inv)).
  { unfold file_Size. eapply triple_bind; [apply sys_inv; done|]. intros r. by apply triple_ret. }
  intros size. repeat (eapply (triple_bind _ _ _ (fun _ => inv)); [apply triple_modify; by intros s []|intros _]).
  eapply (triple_bind _ _ _ (fun _ => clean)); [apply triple_modify|intros _; by apply triple_ret].
  intros s [H1 H2 H3 H4]. split; [|done]. constructor; try done. simpl. by exists ""%string, None.
Qed.

Lemma reopen_inv : keeps (reopen cfg) clean.
Proof.
  unfold reopen. eapply (triple_bind _ _ _ (fun _ => inv)); [apply triple_modify; by intros s []|]. intros _.
  apply triple_orReturn with (R := clean); [apply open_inv|].
  eapply (triple_bind _ _ _ (fun _ => clean)); [|intros _; by apply triple_ret].
  apply triple_modify. by intros s [[] ?].
Qed.

Lemma shift_inv n : keeps (shiftBackups cfg n) inv.
Proof.
  induction n as [|n IH]; [by apply triple_ret|]. cbn [shiftBackups].
  eapply triple_bind; [apply Stat_inv|]. intros [e|[]]; [exact IH|].
  eapply triple_orReturn; [|exact IH]. apply strict_inv, Rename_inv, backupPath_ne.
Qed.

(** Flushing an empty buffer, or one that failed before. *)
Lemma idle_flush s : inv s ->
  bufio_Flush path s = (match e_w s with Some (mkWriter _ e) => e | None => None end, s).
Proof. intros [_ _ (b & [e|] & Hw & Hb) _]; unfold bufio_Flush; rewrite Hw; [by destruct b|by rewrite Hb]. Qed.

Lemma Close_inv : keeps file_Close inv.
Proof.
  intros s [H1 H2 H3 H4]. unfold file_Close. destruct (negb (e_open s)); simpl; [done|].
  by destruct (os_err <$> fault (calls s)).
Qed.

Lemma rotate_inv : keeps (rotate cfg) clean.
Proof.
  unfold rotate. apply triple_get. intros s Hs.
  apply triple_conseq with (P := inv) (Q := fun r s => match r with Some _ => inv s | None => clean s end);
    [|by intros ? ->|done].
  apply triple_orReturn with (R := inv).
  { destruct (e_w s); [|by apply triple_ret]. intros s1 Hs1. rewrite (idle_flush s1 Hs1). simpl.
    destruct (e_w s1) as [[? [?|]]|]; done. }
  apply triple_orReturn with (R := inv).
  { destruct (e_file s); [|by apply triple_ret].
    apply triple_orReturn with (R := inv); [apply Close_inv|].
    eapply (triple_bind _ _ _ (fun _ => inv)); [apply triple_modify; by intros s1 []|intros _; by apply triple_ret]. }
  destruct (maxBackups cfg <=? 0).
  - apply triple_orReturn with (R := inv); [apply lenient_inv, Remove_inv|apply reopen_inv].
  - apply triple_orReturn with (R := inv); [apply lenient_inv, Remove_inv|].
    apply triple_orReturn with (R := inv); [apply shift_inv|].
    apply triple_orReturn with (R := inv); [apply lenient_inv, Rename_inv, backupPath_ne|apply reopen_inv].
Qed.

(** The line is in the buffer, or written through after the live file. *)
Definition pending (line : string) (s : FileExporter) : Prop :=
  e_counters s = c0 /\ e_closed s = false /\ exists pre, (pre = x0 \/ pre = ""%string) /\
  ((e_w s = Some (mkWriter line None) /\ live cfg (disk s) = pre) \/
   (e_w s = Some (mkWriter "" None) /\ disk s !! path = Some (pre +:+ line))).

(** What a call leaves that did not write its line. *)
Definition failed (s : FileExporter) : Prop :=
  e_counters s = c0 /\ e_closed s = false /\ exists b e, e_w s = Some (mkWriter b e) /\ (e = None -> b = ""%string).

Definition written (line : string) (s : FileExporter) : Prop :=
  e_counters s = c0 /\ e_closed s = false /\ e_w s = Some (mkWriter "" None) /\
  exists pre, (pre = x0 \/ pre = ""%string) /\ disk s !! path = Some (pre +:+ line).

Lemma inv_failed (s : FileExporter) : inv s -> failed s.
Proof. by intros [H1 H2 H3 _]. Qed.

Lemma Write_spec line : line <> ""%string ->
  triple inv (bufio_Write path turns line 0)
    (fun '(n, err) s => match err with Some _ => failed s | None => pending line s end).
Proof.
  intros Hl s Hs. pose proof (inv_failed s Hs) as Hf. destruct Hs as [H1 H2 (b & [e|] & Hw & Hb) H4]; unfold turns; cbn [bufio_Write];
    rewrite Hw; [done|]. rewrite (Hb eq_refl). clear Hb.
  destruct (Nat.leb_spec (String.length line) (bufsize - String.length "")) as [Hn|Hn].
  - split; [done|]. split; [done|]. exists (live cfg (disk s)). split; [done|]. by left.
  - unfold file_Write. cbn -[bufsize]. destruct (e_open s); cbn -[bufsize].
    + destruct (fault (calls s)) as [e|]; cbn -[bufsize].
      * split; [done|]. split; [done|]. by eexists _, _.
      * rewrite drop_prefix_all. cbn. split; [done|]. split; [done|].
        exists (live cfg (disk s)). split; [done|]. right. split; [done|]. exact (lookup_insert_eq _ _ _).
    + split; [done|]. split; [done|]. by eexists _, _.
Qed.

Lemma Flush_spec line : line <> ""%string ->
  triple (pending line) (bufio_Flush path)
    (fun err s => match err with Some _ => failed s | None => written line s end).
Proof.
  intros Hl s (H1 & H2 & pre & Hp & [[Hw Hd]|[Hw Hd]]); unfold bufio_Flush; rewrite Hw.
  - destruct line as [|a line]; [done|]. unfold file_Write. destruct (e_open s); cbn; [|by split_and!; [..|eexists _, _]].
    destruct (fault (calls s)) as [e|]; cbn; [by split_and!; [..|eexists _, _]|].
    split_and!; try done. exists pre. split; [done|]. rewrite <- Hd. exact (lookup_insert_eq _ _ _).
  - cbn. split; [done|]. split; [done|]. split; [done|]. by exists pre.
Qed.

Lemma Sync_spec line : triple (written line) file_Sync
  (fun err s => match err with Some _ => failed s | None => written line s end).
Proof.
  intros s Hs. assert (failed s) as Hf. { destruct Hs as (H1 & H2 & Hw & _). split_and!; try done. by exists ""%string, None. }
  unfold file_Sync. destruct (negb (e_open s)); cbn; [done|]. by destruct (os_err <$> fault (calls s)).
Qed.

(** How a call ends. *)
Definition outcome (line : string) (r : option goerr) (s : FileExporter) : Prop :=
  e_closed s = false /\ (exists b e, e_w s = Some (mkWriter b e) /\ (e = None -> b = ""%string)) /\
  match r with
  | Some err => e_counters s = recordError (Some (errMsg err)) (addDropped c0)
  | None => e_counters s = addExported c0 /\
      exists pre, (pre = x0 \/ pre = ""%string) /\ disk s !! path = Some (pre +:+ line)
  end.

Lemma triple_orDrop line (P R : FileExporter -> Prop) m f k :
  triple P m (fun r s => match r with Some _ => failed s | None => R s end) -> triple R k (outcome line) ->
  triple P (orDrop m f k) (outcome line).
Proof.
  intros Hm Hk. eapply triple_bind; [exact Hm|]. intros [e|]; [|done].
  intros s (H1 & H2 & H3). split; [done|]. split; [done|]. simpl. by rewrite H1.
Qed.

Lemma keeps_failed (m : op (option goerr)) (R : FileExporter -> Prop) : keeps m R -> triple inv m (fun r s => match r with Some _ => failed s | None => R s end).
Proof. intros Hm s Hs. specialize (Hm s Hs). destruct (m s).1; [by apply inv_failed|exact Hm]. Qed.

Lemma exportLocked_outcome line : line <> ""%string -> triple inv (exportLocked cfg line) (outcome line).
Proof.
  intros Hl. unfold exportLocked. apply triple_get. intros s Hs. rewrite (inv_open s Hs).
  apply triple_conseq with (P := inv) (Q := outcome line); [|by intros ? ->|done]. clear Hs.
  apply triple_orDrop with (R := inv).
  { apply keeps_failed. destruct (e_needsReopen _); [|by apply triple_ret].
    apply triple_orReturn with (R := clean); [apply open_inv|].
    eapply (triple_bind _ _ _ (fun _ => inv)); [apply triple_modify; intros s1 [[] ?]; by constructor|intros _; by apply triple_ret]. }
  apply triple_get. intros s0 Hs0.
  apply triple_conseq with (P := inv) (Q := outcome line); [|by intros ? ->|done].
  apply triple_orDrop with (R := inv).
  { apply keeps_failed. destruct (_ && _); [|by apply triple_ret].
    eapply triple_conseq; [apply rotate_inv|done|]. intros [e|] s1; [done|by intros [? _]]. }
  eapply triple_bind; [by apply Write_spec|]. intros [n err].
  eapply (triple_bind _ _ _ (fun _ s => match err with Some _ => failed s | None => pending line s end)).
  { apply triple_modify. destruct err; intros s1 Hs1; exact Hs1. }
  intros _. apply triple_orDrop with (R := pending line); [apply triple_ret; by destruct err|].
  apply triple_orDrop with (R := written line); [by apply Flush_spec|].
  apply triple_get. intros s1 Hs1.
  apply triple_conseq with (P := written line) (Q := outcome line); [|by intros ? ->|done].
  apply triple_orDrop with (R := written line).
  { destruct (_ && _); [apply Sync_spec|by apply triple_ret]. }
  eapply (triple_bind _ _ _ (fun _ => outcome line None)); [apply triple_modify|intros _; by apply triple_ret].
  intros s2 (H1 & H2 & H3 & H4). split; [done|]. split; [by exists ""%string, None|]. split; [by rewrite <- H1|done].
Qed.
End faults.

(** ** Theorems whatever fails *)

(** What a program can make of an exporter. *)
Inductive reach `{!OS, !Codec} (cfg : FileExporterConfig) (d : gmap string string) : FileExporter -> Prop :=
| reach_new s : NewFileExporter cfg d = inr (settings_of cfg, s) -> reach cfg d s
| reach_export s ctx batch : reach cfg d s -> reach cfg d (FileExporter_Export (settings_of cfg) ctx batch s).2
| reach_close s : reach cfg d s -> reach cfg d (FileExporter_Close (settings_of cfg) s).2.

Section anything.
Context `{!OS, !Codec} (cfg : FileExporterConfig) (d : gmap string string).
Notation e := (settings_of cfg).

Definition open_writer (s : FileExporter) : Prop :=
  e_closed s = false -> exists b err, e_w s = Some (mkWriter b err) /\ (err = None -> b = ""%string).

Lemma inv_of s : e_closed s = false -> open_writer s -> inv e (e_counters s) (live e (disk s)) s.
Proof. intros Hc Hw. constructor; try done; [by apply Hw|by left]. Qed.

(** A call with a live context and a batch that encodes. *)
Lemma exportLocked_cases line s : line <> ""%string -> open_writer s ->
  if e_closed s then exportLocked e line s = drop_ ErrClosed s
  else outcome e (e_counters s) (live e (disk s)) line (exportLocked e line s).1 (exportLocked e line s).2.
Proof.
  intros Hl Hw. destruct (e_closed s) eqn:E.
  - unfold exportLocked, mbind, St_bind, fields. simpl. by rewrite E.
  - by apply exportLocked_outcome, inv_of.
Qed.

Lemma export_open_writer ctx batch s :
  open_writer s -> open_writer (FileExporter_Export e ctx batch s).2.
Proof.
  intros Hw. unfold FileExporter_Export. destruct ctx; [done|]. destruct (encodeLine batch) as [err|line] eqn:El; [done|].
  assert (line <> ""%string) as Hl by (destruct batch; [by eapply encodeLine_nonempty|done]).
  pose proof (exportLocked_cases line s Hl Hw) as Hc. destruct (e_closed s) eqn:E; [by rewrite Hc|].
  intros _. by destruct Hc as (_ & Hc & _).
Qed.

Lemma close_closed s : e_closed (FileExporter_Close e s).2 = true.
Proof.
  assert (triple (fun _ => True) (FileExporter_Close e) (fun _ s => e_closed s = true)) as Ht; [|by apply Ht].
  unfold FileExporter_Close. apply triple_get. intros s0 _. destruct (e_closed s0) eqn:E; [by intros ? ->|].
  eapply (triple_bind _ _ _ (fun _ s => e_closed s = true)); [by apply triple_modify|intros _].
  eapply (triple_bind _ _ _ (fun _ s => e_closed s = true)); [|intros fl].
  { destruct (e_w s0); [|by apply triple_ret]. intros s1 Hs1. unfold bufio_Flush, file_Write.
    repeat case_match; simplify_eq/=; done. }
  eapply (triple_bind _ _ _ (fun _ s => e_closed s = true)); [|intros cl].
  { destruct (e_file s0); [|by apply triple_ret]. intros s1 Hs1. unfold file_Close.
    repeat case_match; simplify_eq/=; done. }
  repeat (eapply (triple_bind _ _ _ (fun _ s => e_closed s = true)); [by apply triple_modify|intros _]).
  by apply triple_ret.
Qed.

Lemma open_opens : triple (fun _ => True) (open e) (fun r s => r = None -> e_w s = Some (mkWriter "" None)).
Proof.
  unfold open. apply triple_orReturn with (R := fun _ => True).
  { intros s _. cbv beta. by case_match. }
  apply triple_orReturn with (R := fun _ => True); [intros s _; cbv beta; by case_match|].
  do 4 (eapply (triple_bind _ _ _ (fun _ _ => True)); [done|intros ?]).
  eapply (triple_bind _ _ _ (fun _ s => e_w s = Some (mkWriter "" None))); [by apply triple_modify|intros _].
  by apply triple_ret.
Qed.

Lemma reach_open_writer s : reach cfg d s -> open_writer s.
Proof.
  induction 1 as [s Hn|s ctx batch _ IH|s _ _].
  - unfold NewFileExporter in Hn. destruct (String.eqb _ _); [done|].
    pose proof (open_opens (fresh d) I) as Ho. destruct (open e (fresh d)) as [[err|] s1]; [done|].
    injection Hn as <-. intros _. exists ""%string, None. split; [by apply Ho|done].
  - by apply export_open_writer.
  - unfold open_writer. by rewrite close_closed.
Qed.

Lemma Export_result (b : Batch) (s : FileExporter) :
  open_writer s ->
  let '(r, s') := FileExporter_Export e None (Some b) s in
  match r with
  | None => e_counters s' = addExported (e_counters s) /\ exists line pre, encodeLine (Some b) = inr line /\
      (pre = live e (disk s) \/ pre = ""%string) /\ disk s' !! path e = Some (pre +:+ line)
  | Some err => e_counters s' = recordError (Some (errMsg err)) (addDropped (e_counters s)) /\
      LastError (FileExporter_Stats s') = errMsg err
  end.
Proof.
  intros Hw. unfold FileExporter_Export.
  destruct (encodeLine (Some b)) as [err|line] eqn:El; [done|].
  pose proof (exportLocked_cases line s (encodeLine_nonempty b line El) Hw) as Hc.
  destruct (e_closed s); [by rewrite Hc|].
  destruct (exportLocked e line s) as [[err|] s1]; destruct Hc as (_ & _ & Hc); simpl in Hc.
  - unfold FileExporter_Stats. by rewrite Hc.
  - destruct Hc as (Hc & pre & Hp & Hd). split; [done|]. by exists line, pre.
Qed.

(** C30: the result of [Export] is the truth, whatever the system calls do and
    whatever came before: a nil error means that the whole line is now the end of
    the live file, after what was there or alone, and that exactly the exported
    counter moved; an error means that exactly the dropped counter moved and that
    the error is the one [Stats] shows. *)
Theorem export_result (b : Batch) (s : FileExporter) :
  reach cfg d s ->
  let '(r, s') := FileExporter_Export e None (Some b) s in
  match r with
  | None => e_counters s' = addExported (e_counters s) /\ exists line pre, encodeLine (Some b) = inr line /\
      (pre = live e (disk s) \/ pre = ""%string) /\ disk s' !! path e = Some (pre +:+ line)
  | Some err => e_counters s' = recordError (Some (errMsg err)) (addDropped (e_counters s)) /\
      LastError (FileExporter_Stats s') = errMsg err
  end.
Proof. intros Hw%reach_open_writer. by apply Export_result. Qed.

(** A writer that has failed. *)
Definition stuck (s : FileExporter) : Prop :=
  e_closed s = false /\ e_needsReopen s = false /\ exists b err, e_w s = Some (mkWriter b (Some err)).

Lemma stuck_export b s : stuck s -> exists err,
  FileExporter_Export e None (Some b) s =
    (Some err, set_counters (fun c => recordError (Some (errMsg err)) (addDropped c)) s).
Proof.
  intros (Hc & Hn & bf & err & Hw). unfold FileExporter_Export. destruct (encodeLine _) as [e1|line]; [by eexists|].
  unfold exportLocked, orDrop, mbind, St_bind, fields, mret, St_ret. rewrite Hc, Hn. cbv beta iota.
  destruct (_ && _ && _).
  - unfold rotate, orReturn, mbind, St_bind, fields, mret, St_ret. rewrite Hw. unfold bufio_Flush. rewrite Hw.
    destruct bf; by eexists.
  - unfold turns. cbn [bufio_Write]. rewrite Hw. cbn. eexists. f_equal. destruct s; unfold set_size, set_counters; simpl.
    by rewrite Z.add_0_r.
Qed.

(** One failed write or flush is for ever: once the buffered writer has an
    error, no later [Export] writes anything or reaches the rotation that would
    reset the writer, however healthy the disk has become: every batch is dropped
    until the exporter is closed. *)
Theorem write_error_permanent (batches : list Batch) (s : FileExporter) :
  stuck s ->
  let '(rs, s') := exportAll e batches s in
  Forall is_Some rs /\ length rs = length batches /\ disk s' = disk s /\ stuck s' /\
  exported (e_counters s') = exported (e_counters s).
Proof.
  revert s. induction batches as [|b batches IH]; intros s Hs; [by split_and!|].
  destruct (stuck_export b s Hs) as [err He]. unfold exportAll in *. cbn [traverseM]. rewrite St_bind_eq, He. cbn [fst snd].
  rewrite St_bind_eq.
  assert (stuck (set_counters (fun c => recordError (Some (errMsg err)) (addDropped c)) s)) as Hs' by exact Hs.
  specialize (IH _ Hs'). destruct (traverseM _ _ _) as [rs s']. destruct IH as (H1 & H2 & H3 & H4 & H5). simpl.
  split_and!; try done; [by constructor|by f_equal].
Qed.
End anything.

(** ** The interface *)

Section interface.
Context `{!OS, !Codec} (cfg : FileExporterConfig).

(** Nothing happens between two calls. *)
Definition file_exporter : Exporter FileExporter := {|
  boots s := exists d, NewFileExporter cfg d = inr (settings_of cfg, s);
  Stats_ := FileExporter_Stats;
  exports s b taken s' := exists ctx_Err,
    s' = (FileExporter_Export (settings_of cfg) ctx_Err (Some b) s).2 /\ (taken = true <-> ctx_Err = None);
  elapses s s' := s' = s;
|}.

(** The counters of a synchronous exporter that was handed [n] batches. *)
Definition tallied (c : counters) (n : nat) : Prop :=
  rejected c = 0 /\ exists x y, (x + y = n)%nat /\ exported c = wrapU 64 (Z.of_nat x) /\ dropped c = wrapU 64 (Z.of_nat y).

Lemma tallied_exported c n : tallied c n -> tallied (addExported c) (S n).
Proof.
  intros (Hr & x & y & <- & Hx & Hy). split; [done|]. exists (S x), y. split; [done|]. split; [|done].
  simpl. rewrite Hx. unfold wrapU. rewrite Zplus_mod_idemp_l. f_equal. lia.
Qed.

Lemma tallied_dropped err c n : tallied c n -> tallied (recordError (Some err) (addDropped c)) (S n).
Proof.
  intros (Hr & x & y & <- & Hx & Hy). split; [done|]. exists x, (S y). split; [lia|]. split; [done|].
  simpl. rewrite Hy. unfold wrapU. rewrite Zplus_mod_idemp_l. f_equal. lia.
Qed.

Lemma tallied_stats c n : tallied c n -> Z.of_nat n < 2 ^ 64 ->
  accounted (snapshot c) <= Z.of_nat n <= accounted (snapshot c) + 1.
Proof.
  intros (Hr & x & y & <- & Hx & Hy) Hn. unfold accounted. simpl. rewrite Hr, Hx, Hy, !wrapU_small by lia. lia.
Qed.

Lemma tallied_plausible c n : tallied c n -> plausible (snapshot c).
Proof. intros (Hr & x & y & _ & Hx & Hy). split_and!; simpl; rewrite ?Hr, ?Hx, ?Hy; try (by apply wrapU_range); lia. Qed.

Lemma tallied_zero : tallied no_counters 0.
Proof. split; [done|]. by exists 0%nat, 0%nat. Qed.

Lemma open_counters s : e_counters (open (settings_of cfg) s).2 = e_counters s.
Proof.
  unfold open, orReturn, strict, os_MkdirAll, os_OpenFile, file_Size, sys, modify, mbind, St_bind, mret, St_ret.
  repeat case_match; simplify_eq/=; done.
Qed.

(** A call with an expired context does nothing. *)
Lemma export_tally (ctx_Err : option goerr) b s n :
  open_writer s -> tallied (e_counters s) n ->
  tallied (e_counters (FileExporter_Export (settings_of cfg) ctx_Err (Some b) s).2)
    (if ctx_Err is None then S n else n).
Proof.
  intros Hw Ht. destruct ctx_Err as [err|]; [done|]. pose proof (Export_result cfg b s Hw) as Hr.
  destruct (FileExporter_Export _ None _ s) as [[err|] s']; destruct Hr as [Hc _]; simpl; rewrite Hc.
  - by apply tallied_dropped.
  - by apply tallied_exported.
Qed.

Lemma file_laws : @ExporterLaws FileExporter file_exporter.
Proof.
  apply (@Build_ExporterLaws FileExporter file_exporter (fun s n => open_writer s /\ tallied (e_counters s) n)).
  - intros s [d Hn]. split; [by eapply reach_open_writer, reach_new|].
    unfold NewFileExporter in Hn. destruct (String.eqb _ _); [done|].
    pose proof (open_counters (fresh d)) as Ho. destruct (open _ _) as [[err|] s1]; [done|].
    injection Hn as <-. simpl in Ho. rewrite Ho. apply tallied_zero.
  - intros s n b taken s' [Hw Ht] (ctx & -> & Hi). split; [by apply export_open_writer|].
    pose proof (export_tally ctx b s n Hw Ht) as Hr. destruct ctx, taken; try done; naive_solver.
  - by intros s n s' Hs ->.
  - intros s n [_ Ht]. by apply tallied_stats.
  - intros s n [_ Ht]. by eapply tallied_plausible.
Defined.
End interface.

Definition stdout_exporter `{!Codec} : Exporter StdoutExporter := {|
  boots s := exists out, s = mkStdoutExporter no_counters out;
  Stats_ := StdoutExporter_Stats;
  exports s b taken s' := exists ctx_Err write,
    s' = (StdoutExporter_Export ctx_Err (Some b) write s).2 /\ (taken = true <-> ctx_Err = None);
  elapses s s' := s' = s;
|}.

Lemma stdout_laws `{!Codec} : @ExporterLaws StdoutExporter stdout_exporter.
Proof.
  apply (@Build_ExporterLaws StdoutExporter stdout_exporter (fun s n => tallied (so_counters s) n)).
  - intros s [out ->]. apply tallied_zero.
  - intros s n b taken s' Ht (ctx & write & -> & Hi). unfold StdoutExporter_Export.
    destruct ctx as [err|], taken; try (by naive_solver).
    destruct (encodeLine (Some b)); [by apply tallied_dropped|].
    destruct write as [[err k]|]; [by apply tallied_dropped|by apply tallied_exported].
  - by intros s n s' Hs ->.
  - intros s n Ht. by apply tallied_stats.
  - intros s n Ht. by eapply tallied_plausible.
Defined.

(** ** Witnesses *)

(** A system where the listed calls fail. *)
Definition failing_calls (ns : list nat) : OS := {|
  fault n := if decide (n ∈ ns) then Some (mkOserr "no space left on device" false) else None;
  partial _ := 0%nat;
  Dir _ := "."%string
|}.

Definition sample_file : FileExporterConfig := mkFileExporterConfig "m" 1 2 true.

Theorem file_refines_log_witness : exists s s',
  @NewFileExporter (failing_calls []) sample_file ∅ = inr (settings_of sample_file, s) /\
  @exportAll (failing_calls []) plain_codec (settings_of sample_file) [batch_of 1; batch_of 2] s = ([None; None], s') /\
  disk s' !! "m"%string = Some ("1" ++ newline ++ "2" ++ newline)%string.
Proof.
  destruct (@file_refines_log (failing_calls []) plain_codec (fun _ => eq_refl) sample_file ∅ [[]]
    [batch_of 1; batch_of 2] ["1" ++ newline; "2" ++ newline]%string) as (s & s' & log' & Hn & He & Hl & Hd & _).
  - done.
  - intros [|[|i]] Hi; [by vm_compute|by vm_compute|]. by destruct i as [|i]; [vm_compute|simpl in Hi; lia].
  - simpl. lia.
  - constructor; [|constructor]. split; [constructor|]. right. right. simpl. lia.
  - repeat constructor.
  - exists s, s'. split; [exact Hn|]. split; [exact He|].
    specialize (Hd 0%nat ltac:(lia)). subst log'. simpl in Hd. exact Hd.
Defined.

(** A rotation: the third line does not fit, and the fourth makes the first file
    the oldest backup. *)
Example file_rotates :
  let e := mkSettings "m"%string 5 2 false in
  let s := (@open (failing_calls []) e (fresh ∅)).2 in
  let s' := (@exportAll (failing_calls []) plain_codec e (batch_of <$> [1; 2; 3; 44; 555]) s).2 in
  disk s' !! "m"%string = Some ("555" ++ newline)%string /\ disk s' !! "m.1"%string = Some ("3" ++ newline ++ "44" ++ newline)%string /\
  disk s' !! "m.2"%string = Some ("1" ++ newline ++ "2" ++ newline)%string /\ disk s' !! "m.3"%string = None.
Proof. vm_compute. done. Qed.

(** The first write fails: an exporter that has just been opened, and its state after. *)
Definition full_disk : OS := failing_calls [2%nat].
Definition opened : FileExporter := (@open full_disk (settings_of sample_file) (fresh ∅)).2.
Definition after_failure : FileExporter :=
  (@FileExporter_Export full_disk plain_codec (settings_of sample_file) None (Some (batch_of 1)) opened).2.

Theorem export_result_witness :
  e_counters after_failure = recordError (Some "flush m: no space left on device"%string) (addDropped no_counters) /\
  LastError (FileExporter_Stats after_failure) = "flush m: no space left on device"%string.
Proof.
  exact (@export_result full_disk plain_codec sample_file ∅ (batch_of 1) opened
    (@reach_new full_disk plain_codec sample_file ∅ opened eq_refl)).
Defined.

Theorem write_error_permanent_witness :
  let '(rs, s') := @exportAll full_disk plain_codec (settings_of sample_file) [batch_of 2; batch_of 3] after_failure in
  Forall is_Some rs /\ length rs = 2%nat /\ disk s' = disk after_failure /\ stuck s' /\
  exported (e_counters s') = 0.
Proof.
  refine (@write_error_permanent full_disk plain_codec sample_file [batch_of 2; batch_of 3] after_failure _).
  split; [vm_compute; reflexivity|]. split; [vm_compute; reflexivity|]. eexists _, _. vm_compute. reflexivity.
Defined.

(** The rename of the live file fails twice: the backups are shifted both times,
    and both are gone without a batch having been written. *)
Definition sample_disk : gmap string string := list_to_map [("m", "1234" ++ newline); ("m.1", "a"); ("m.2", "b")]%string.

Example failed_rename_shifts_again :
  let e := mkSettings "m"%string 5 2 false in
  let os := failing_calls [6%nat; 9%nat] in
  let s := (@open os e (fresh sample_disk)).2 in
  let '(rs, s') := @exportAll os plain_codec e (batch_of <$> [6; 7]) s in
  forallb (fun r => bool_decide (is_Some r)) rs = true /\
  disk s' !! "m"%string = Some ("1234" ++ newline)%string /\ disk s' !! "m.1"%string = None /\ disk s' !! "m.2"%string = None.
Proof. vm_compute. done. Qed.

(** The close before a rotation reports an error once: the file is closed but not
    forgotten, so that every later rotation closes it again, and fails. *)
Example failed_close_is_permanent :
  let e := mkSettings "m"%string 5 2 false in
  let os := failing_calls [2%nat] in
  let s := (@open os e (fresh sample_disk)).2 in
  let '(rs, s') := @exportAll os plain_codec e (batch_of <$> [6; 7; 8; 9]) s in
  forallb (fun r => bool_decide (is_Some r)) rs = true /\ disk s' !! "m"%string = Some ("1234" ++ newline)%string.
Proof. vm_compute. done. Qed.
