(* ===== verification/Agent.v ===== *)
(** * Agent: the collection loop ([internal/agent/agent.go], [New] of
      [internal/export/exporter.go])

    The loop is written against two interfaces, as in the code: [batchCollector],
    which the cycle of [Pipeline] implements, and [Exporter] of [Export], which the
    three exporters implement.  The startup sequence is a function of what the
    client's calls return. *)

From Stdlib Require Import ZArith Lia Ascii.
From stdpp Require Import prelude gmap strings numbers.
From S2P Require Import Prelude Wire Errors Sections Merge Filter Cadence Kadm Collector Topics Truncation Groups Configs LogDirs Sched Pipeline Capabilities Strconv Environment Gates.
From S2P Require Import Export.
From S2P Require Http File.

(** ** Startup *)

(** [export.New]: the exporter the mode names, built with its own settings. *)
Inductive exporter_of :=
| HTTPOf (e : Http.HTTPExporterConfig)
| FileOf (e : File.FileExporterConfig) (s : File.FileExporter)
| StdoutOf (s : File.StdoutExporter).

(** [%q] of a text without special characters. *)
Definition quoted (s : string) : string := String (ascii_of_nat 34) (s +:+ String (ascii_of_nat 34) "").

Definition modes : string := quoted "file" +:+ ", " +:+ quoted "http" +:+ " or " +:+ quoted "stdout".

Section export_New.
Context `{!File.OS} (d : gmap string string).

Definition export_New (cfg : Config) : goerr + exporter_of :=
  let mode := ExportMode cfg in
  if String.eqb mode "http" then
    if String.eqb (ExportEndpoint cfg) "" then inl (PlainError ("export mode " +:+ quoted "http" +:+ " requires EXPORT_ENDPOINT"))
    else if String.eqb (APIKey cfg) "" then inl (PlainError ("export mode " +:+ quoted "http" +:+ " requires API_KEY"))
    else inr (HTTPOf (Http.mkHTTPExporterConfig (ExportQueueSize cfg) (ExportMaxRetries cfg)
                (ExportBaseDelay cfg) (ExportTimeout cfg)))
  else if String.eqb mode "file" then
    if String.eqb (ExportFile cfg) "" then inl (PlainError ("export mode " +:+ quoted "file" +:+ " requires EXPORT_FILE"))
    else
      let e := File.mkFileExporterConfig (ExportFile cfg) (ExportFileMaxMB cfg) (ExportFileMaxBackups cfg)
                 (ExportFileSync cfg) in
      match File.NewFileExporter e d with inl err => inl err | inr (_, s) => inr (FileOf e s) end
  else if String.eqb mode "stdout" then inr (StdoutOf (File.mkStdoutExporter no_counters ""))
  else if String.eqb mode "" then inl (PlainError ("export mode is empty (want " +:+ modes +:+ ")"))
  else inl (PlainError ("unknown export mode " +:+ quoted mode +:+ " (want " +:+ modes +:+ ")")).
End export_New.

(** Which step of the startup failed. *)
Inductive startErr :=
| ErrClient (err : goerr)
| ErrPing (err : goerr)
| ErrGroupStates (err : goerr)
| ErrCollector
| ErrExporter (err : goerr).

Inductive client := NoClient | OpenClient | ClosedClient.

(** The fields the loop only reads. *)
Record Agent := mkAgent {
  a_cfg : Config;
  a_version : string;
  a_caps : option ClusterCapabilities;
  a_startedAt : Z;
}.

(** A running agent as [New] returns it. *)
Record started := mkStarted { st_agent : Agent; st_collector : Collector; st_exporter : exporter_of }.

Section New.
Context `{!KadmVersions, !Regexp, !File.OS}.

(** [NewClient] and [Ping] are what those calls return, [answer1] and [answer2]
    what the ApiVersions round trips do: the second is made only when the first
    was not, since a success is kept and a failure ends the startup. *)
Definition New (cfg : Config) (version : string) (d : gmap string string) (NewClient Ping : option goerr)
    (answer1 answer2 : goerr + BrokersApiVersions) (now : Z) : startErr * client + started :=
  match NewClient with
  | Some err => inl (ErrClient err, NoClient)
  | None =>
  match Ping with
  | Some err => inl (ErrPing err, ClosedClient)
  | None =>
  let '(check, cached) := if 0 <? Z.of_nat (length (GroupStates cfg)) then CheckGroupStateFilter answer1 None else (None, None) in
  match check with
  | Some err => inl (ErrGroupStates err, ClosedClient)
  | None =>
  let caps := match (Probe answer2 cached).1 with inl _ => None | inr c => Some c end in
  match Collector.New (applyCapabilityGates caps (collectorOptions cfg)) with
  | None => inl (ErrCollector, ClosedClient)
  | Some coll =>
  match export_New d cfg with
  | inl err => inl (ErrExporter err, ClosedClient)
  | inr exporter => inr (mkStarted (mkAgent cfg version (Capabilities_Wire caps) now) coll exporter)
  end end end end end.

(** [Close]: the exporter's result, if there is one, then the client. *)
Definition Agent_Close (exporter : option (option goerr)) (c : client) : option goerr * client :=
  (match exporter with
   | Some (Some cerr) => Some (WrapError ("close exporter: " ++ errMsg cerr) cerr)
   | _ => None
   end,
   match c with OpenClient => ClosedClient | c => c end).
End New.

(** ** The loop *)

(** [batchCollector]: a cycle may give no batch. *)
Class batchCollector (C : Type) := { collects : C -> option Batch -> C -> Prop }.

(** The collector of [Pipeline]: always a batch, by some schedule of the cycle. *)
Definition pipeline_collector `{!KerrCodes, !Kadm, !KerrErrors, !ShardErrorText, !ConfigSources, !Cluster}
    (c : Collector) : batchCollector cstate :=
  {| collects cs ob cs' := exists tr b, ob = Some b /\ Collect c cs tr b cs' |}.

Definition set_Capabilities (caps : option ClusterCapabilities) (c : ClusterMetrics) : ClusterMetrics :=
  mkClusterMetrics (cm_ID c) (cm_BrokerCount c) (cm_Brokers c) caps.

Section agent.
Context {C X : Type} `{!batchCollector C, !Exporter X} (a : Agent).

(** [int64(d.Seconds())], a computation on [float64]. *)
Context (seconds : Z -> Z).

(** [stamp], with the sequence number and the exporter's telemetry it reads. *)
Definition stamp (batchSeq : Z) (stats : Stats) (now : Z) (b : Batch) : Batch :=
  mkBatch SchemaVersion (a_version a) (AgentInstanceID (a_cfg a)) batchSeq (b_CollectedAt b) (b_CollectionMs b)
    (set_Capabilities (a_caps a) <$> b_Cluster b)
    (b_Topics b) (b_Groups b) (b_Offsets b) (b_LogDirs b) (b_ThroughputWindow b) (b_Reassignments b)
    (b_EpochProbes b) (b_TopicConfigs b) (b_BrokerConfigs b) (b_ShareGroups b) (SASLUsername (a_cfg a))
    (mkAgentStats (seconds (now - a_startedAt a)) batchSeq (BatchesExported stats) (BatchesDropped stats)
       (BatchesRejected stats) (ExportRetries stats) (QueueDepth stats) (LastError stats) (as_RPC (b_Agent b)))
    (b_Sections b) (b_Errors b) (b_Truncation b) (b_Selection b).

(** The agent's sequence number, the two components, the clock, and whether a
    signal has cancelled the context. *)
Record state := mkState { batchSeq : Z; coll : C; expo : X; clock : Z; cancelled : bool }.

Definition boot (s : state) : Prop := batchSeq s = 0 /\ boots (expo s).

(** Time passes: the exporter works, a signal may arrive. *)
Inductive waits (s : state) : state -> Prop :=
| waits_for x t stop : elapses (expo s) x -> clock s <= t -> (cancelled s = true -> stop = true) ->
    waits s (mkState (batchSeq s) (coll s) x t stop).

(** What one cycle did: what [Collect] returned, whether the context was cancelled
    when it returned, and the batch handed to the exporter, if any, with whether the
    exporter took it. *)
Record cycle := mkCycle {
  cy_collected : option Batch;
  cy_stopped : bool;
  cy_handed : option (Batch * bool);
}.

(** [runCycle].  The context is consulted once, after [Collect]: a signal that
    arrives while the batch is stamped and exported does not withdraw it. *)
Inductive runCycle (s : state) : cycle -> state -> Prop :=
| cycle_nil s1 c' :
    waits s s1 -> collects (coll s) None c' ->
    runCycle s (mkCycle None (cancelled s1) None) (mkState (batchSeq s) c' (expo s1) (clock s1) (cancelled s1))
| cycle_discarded s1 b c' :
    waits s s1 -> collects (coll s) (Some b) c' -> cancelled s1 = true ->
    runCycle s (mkCycle (Some b) (cancelled s1) None) (mkState (batchSeq s) c' (expo s1) (clock s1) (cancelled s1))
| cycle_exported s1 s2 b c' taken x :
    waits s s1 -> collects (coll s) (Some b) c' -> cancelled s1 = false -> waits s1 s2 ->
    let seq := wrapU 64 (batchSeq s + 1) in
    let stamped := stamp seq (Stats_ (expo s2)) (clock s2) b in
    exports (expo s2) stamped taken x ->
    runCycle s (mkCycle (Some b) (cancelled s1) (Some (stamped, taken))) (mkState seq c' x (clock s2) (cancelled s2)).

(** [Run] up to the head of its loop: the first cycle at once, then one per tick. *)
Inductive Cycles : state -> list cycle -> state -> Prop :=
| cycles_first s o s' : boot s -> runCycle s o s' -> Cycles s [o] s'
| cycles_tick s tr s1 s2 o s' : Cycles s tr s1 -> waits s1 s2 -> runCycle s2 o s' -> Cycles s (tr ++ [o]) s'.

Definition handed_over (cs : list cycle) : list (Batch * bool) := omap cy_handed cs.

(** The same, with only what was handed to the exporter. *)
Definition Run (s : state) (tr : list (Batch * bool)) (s' : state) : Prop :=
  exists cs, Cycles s cs s' /\ tr = handed_over cs.

(** [Run] returns at the head of its loop once the context is done; the [select]
    may still take a tick that is ready, as often as it likes. *)
Definition Returned (s : state) (tr : list (Batch * bool)) (s' : state) : Prop := Run s tr s' /\ cancelled s' = true.
End agent.

(** ** Lemmas *)

Section loop.
Context {C X : Type} `{!batchCollector C, !Exporter X} (a : Agent) (seconds : Z -> Z).
Notation stamp := (stamp a seconds).
Notation state := (@state C X).

Lemma run_first s o s' : boot s -> runCycle a seconds s o s' -> Run a seconds s (option_list (cy_handed o)) s'.
Proof. intros Hb Ho. exists [o]. split; [by constructor|]. unfold handed_over. simpl. by destruct (cy_handed o). Qed.

Lemma run_tick s tr s1 s2 o s' : Run a seconds s tr s1 -> waits s1 s2 -> runCycle a seconds s2 o s' ->
  Run a seconds s (tr ++ option_list (cy_handed o)) s'.
Proof.
  intros (cs & Hcs & ->) Hw Ho. exists (cs ++ [o]). split; [by eapply cycles_tick|].
  unfold handed_over. rewrite omap_app. simpl. by destruct (cy_handed o).
Qed.

(** What holds of every batch a run hands over, from what one cycle does. *)
Lemma Run_cycles (P : list (Batch * bool) -> state -> Prop) :
  (forall s, boot s -> P [] s) ->
  (forall tr s1 s2, P tr s1 -> waits s1 s2 -> P tr s2) ->
  (forall tr s o s', P tr s -> runCycle a seconds s o s' -> P (tr ++ option_list (cy_handed o)) s') ->
  forall s tr s', Run a seconds s tr s' -> P tr s'.
Proof.
  intros Hb Hw Hc s tr s' (cs & Hcs & ->). unfold handed_over.
  induction Hcs as [s o s' Hs Ho|s tr s1 s2 o s' _ IH Hs Ho].
  - specialize (Hc [] s o s' (Hb s Hs) Ho). simpl in *. by destruct (cy_handed o).
  - specialize (Hc _ s2 o s' (Hw _ _ _ IH Hs) Ho). rewrite omap_app. simpl. by destruct (cy_handed o).
Qed.

(** One cycle against the context: what is handed over is what was collected with
    the context still open, and a context stays cancelled. *)
Definition cycle_fair (cy : cycle) : Prop :=
  (is_Some (cy_handed cy) <-> is_Some (cy_collected cy) /\ cy_stopped cy = false) /\
  (forall b taken, cy_handed cy = Some (b, taken) -> exists b0 seq stats t,
     cy_collected cy = Some b0 /\ b = stamp seq stats t b0).

Lemma runCycle_ok s cy s' : runCycle a seconds s cy s' ->
  cycle_fair cy /\ (cancelled s = true -> cy_stopped cy = true) /\ (cy_stopped cy = true -> cancelled s' = true).
Proof.
  assert (forall s1 s2 : state, waits s1 s2 -> cancelled s1 = true -> cancelled s2 = true) as Hmon by (intros s1 s2 []; auto).
  intros [s1 c' Hw _|s1 b c' Hw _ Hs|s1 s2 b c' taken x Hw _ Hs Hw2 seq stamped _]; simpl.
  - split; [|by eauto]. split; [|done]. split; [by intros []|]. by intros [[] _].
  - rewrite Hs. split; [|done]. split; [|done]. split; [by intros []|by intros [_ ?]].
  - rewrite Hs. split; [|split; [|done]].
    + split; [by split; [|eauto]|]. intros b' taken' [= <- <-]. by eexists b, seq, _, _.
    + intros Hc. rewrite (Hmon _ _ Hw Hc) in Hs. done.
Qed.

(** The cycles of a run: each is in order, and none follows a cancelled one with a
    batch of its own. *)
Lemma Cycles_ok s cs s' : Cycles a seconds s cs s' ->
  Forall cycle_fair cs /\
  (forall pre cy post, cs = pre ++ cy :: post -> cy_stopped cy = true -> handed_over (cy :: post) = []) /\
  (forall cy, cy ∈ cs -> cy_stopped cy = true -> cancelled s' = true).
Proof.
  assert (forall s cy s', runCycle a seconds s cy s' -> cy_stopped cy = true -> cy_handed cy = None) as Hnone.
  { intros s1 cy s1' Hc Hs. destruct (runCycle_ok _ _ _ Hc) as [[Hok _] _].
    destruct (cy_handed cy); [|done]. destruct (proj1 Hok ltac:(eauto)) as [_ ?]. congruence. }
  induction 1 as [s cy s' _ Hc|s cs s1 s2 cy s' _ (IH1 & IH2 & IH3) Hw Hc];
    destruct (runCycle_ok _ _ _ Hc) as (Hok & Hin & Hout).
  - split; [by constructor|]. split.
    + intros [|? []] cy' post [= <- <-] Hs. unfold handed_over. simpl. by rewrite (Hnone _ _ _ Hc Hs).
    + by intros cy' ->%list_elem_of_singleton.
  - assert (cancelled s1 = true -> cancelled s2 = true) as Hmon by (destruct Hw; auto).
    split; [by apply Forall_app; split; [|constructor]|]. split.
    + intros pre cy' post He Hs. destruct post as [|y post _] using rev_ind.
      * apply app_inj_tail in He as [_ <-]. unfold handed_over. simpl. by rewrite (Hnone _ _ _ Hc Hs).
      * rewrite app_comm_cons, app_assoc in He. apply app_inj_tail in He as [-> <-].
        rewrite app_comm_cons. unfold handed_over. rewrite omap_app. fold (handed_over (cy' :: post)).
        rewrite (IH2 pre cy' post eq_refl Hs). simpl. rewrite (Hnone _ _ _ Hc); [done|].
        apply Hin, Hmon, (IH3 cy'); [|done]. rewrite elem_of_app. right. by left.
    + intros cy' [Hc'|Hc'%list_elem_of_singleton]%elem_of_app Hs; [|subst cy'; by apply Hout].
      assert (cancelled s2 = true) as H2 by (by eapply Hmon, IH3). by apply Hout, Hin.
Qed.

Lemma seqZ_snoc n : seqZ 1 (Z.of_nat n + 1) = seqZ 1 (Z.of_nat n) ++ [Z.of_nat n + 1].
Proof. rewrite seqZ_app by lia. f_equal. rewrite (Z.add_comm (Z.of_nat n) 1). by rewrite seqZ_cons by lia. Qed.

Definition numbered (tr : list (Batch * bool)) (s : state) : Prop :=
  Z.of_nat (length tr) < 2 ^ 64 ->
  b_BatchSeq <$> tr.*1 = seqZ 1 (Z.of_nat (length tr)) /\ batchSeq s = Z.of_nat (length tr).

Lemma numbered_run s tr s' : Run a seconds s tr s' -> numbered tr s'.
Proof.
  apply Run_cycles; clear s tr s'.
  - by intros s [Hs _] _.
  - intros tr s1 s2 Hn Hw Hlt. destruct Hw. by apply Hn.
  - intros tr s o s' Hn Hc Hlt. rewrite length_app in Hlt.
    destruct (Hn ltac:(lia)) as [Hl Hs]. destruct Hc as [s1 c' _ _|s1 b c' _ _ _|s1 s2 b c' taken x _ _ _ _ seq stamped _];
      simpl in *; [by rewrite !app_nil_r|by rewrite !app_nil_r|].
    rewrite !fmap_app, Hl, length_app. simpl. rewrite Nat2Z.inj_add, seqZ_snoc. unfold seq.
    rewrite Hs, wrapU_small by lia. done.
Qed.

(** Everything a batch was stamped with, apart from the numbers. *)
Lemma Run_stamped s tr s' b taken : Run a seconds s tr s' -> (b, taken) ∈ tr ->
  exists cs cs' b0 seq stats t, collects cs (Some b0) cs' /\ b = stamp seq stats t b0.
Proof.
  intros Hr Hb. revert b taken Hb.
  apply (Run_cycles (fun tr _ => forall b taken, (b, taken) ∈ tr ->
    exists cs cs' b0 seq stats t, collects cs (Some b0) cs' /\ b = stamp seq stats t b0)) with (s := s) (s' := s');
    [|done| |done]; clear s tr s' Hr.
  - by intros s _ b taken ?%not_elem_of_nil.
  - intros tr s o s' IH Hc b taken [Hin|Hin]%elem_of_app; [by eapply IH|].
    destruct Hc as [s1 c' _ _|s1 b0 c' _ _ _|s1 s2 b0 c' taken' x _ Hcol _ _ seq stamped _]; simpl in Hin;
      [by apply not_elem_of_nil in Hin|by apply not_elem_of_nil in Hin|].
    apply list_elem_of_singleton in Hin as [= -> ->]. by eexists _, _, b0, _, _, _.
Qed.

(** What a batch says of the exporter. *)
Definition reported (b : Batch) : Z :=
  as_BatchesExported (b_Agent b) + as_BatchesDropped (b_Agent b) + as_BatchesRejected (b_Agent b) +
  as_QueueDepth (b_Agent b).

(** The numbers a batch gives are those of [st]. *)
Definition reports (b : Batch) (st : Stats) : Prop :=
  as_BatchesExported (b_Agent b) = BatchesExported st /\ as_BatchesDropped (b_Agent b) = BatchesDropped st /\
  as_BatchesRejected (b_Agent b) = BatchesRejected st /\ as_QueueDepth (b_Agent b) = QueueDepth st.

(** Each batch gives the telemetry of an exporter handed the batches before it. *)
Definition telemetry_ok `{!ExporterLaws X} (tr : list (Batch * bool)) : Prop :=
  forall pre b taken post, tr = pre ++ (b, taken) :: post -> exists x, handed x (count snd pre) /\ reports b (Stats_ x).

Lemma telemetry_snoc `{!ExporterLaws X} tr b taken x :
  telemetry_ok tr -> handed x (count snd tr) -> reports b (Stats_ x) -> telemetry_ok (tr ++ [(b, taken)]).
Proof.
  intros Ht Hx Hb pre b' taken' post He. destruct post as [|y post _] using rev_ind.
  - apply app_inj_tail in He as [-> [= -> ->]]. by exists x.
  - rewrite app_comm_cons, app_assoc in He. apply app_inj_tail in He as [-> _]. by eapply Ht.
Qed.

Lemma Run_telemetry `{!ExporterLaws X} s tr s' : Run a seconds s tr s' -> telemetry_ok tr.
Proof.
  intros Hr. enough (handed (expo s') (count snd tr) /\ telemetry_ok tr) as [_ ?] by done. revert Hr.
  apply (Run_cycles (fun tr s' => handed (expo s') (count snd tr) /\ telemetry_ok tr)); clear s tr s'.
  - intros s [_ Hb]. split; [by apply handed_boots|]. intros pre b taken post He. by destruct pre.
  - intros tr s1 s2 [Hh Ht] Hw. split; [|done]. destruct Hw. by eapply handed_elapses.
  - intros tr s o s' [Hh Ht] Hc.
    destruct Hc as [s1 c' Hw _|s1 b c' Hw _ _|s1 s2 b c' taken x Hw _ _ Hw2 seq stamped Hx]; simpl.
    + rewrite app_nil_r. split; [|done]. destruct Hw. by eapply handed_elapses.
    + rewrite app_nil_r. split; [|done]. destruct Hw. by eapply handed_elapses.
    + assert (handed (expo s2) (count snd tr)) as Hh2.
      { destruct Hw, Hw2. simpl in *. eapply handed_elapses; [|done]. by eapply handed_elapses. }
      split.
      * eapply handed_exports in Hx; [|exact Hh2]. rewrite count_app.
        replace (count snd tr + _)%nat with (if taken then S (count snd tr) else count snd tr); [exact Hx|].
        unfold count. destruct taken; simpl; lia.
      * eapply telemetry_snoc; [done|exact Hh2|]. by split_and!.
Qed.

(** The accounts of the exporter, as a batch gives them. *)
Lemma Run_accounts `{!ExporterLaws X} s s' pre b taken post : Run a seconds s (pre ++ (b, taken) :: post) s' ->
  Z.of_nat (length pre) < 2 ^ 64 ->
  reported b <= Z.of_nat (count snd pre) <= reported b + 1 /\
  0 <= as_BatchesExported (b_Agent b) /\ 0 <= as_BatchesDropped (b_Agent b) /\
  0 <= as_BatchesRejected (b_Agent b) /\ 0 <= as_QueueDepth (b_Agent b).
Proof.
  intros Hr Hl. destruct (Run_telemetry _ _ _ Hr pre b taken post eq_refl) as (x & Hx & He & Hd & Hj & Hq).
  pose proof (count_le snd pre). unfold reported. rewrite He, Hd, Hj, Hq.
  split; [apply (handed_stats x _ Hx); lia|exact (handed_plausible x _ Hx)].
Qed.
End loop.

Lemma stamp_wire_ok a seconds seq stats t c b : wire_ok c b -> wire_ok c (stamp a seconds seq stats t b).
Proof. intros []. by split. Qed.

(** ** Theorems *)

Section startup.
Context `{!KadmVersions, !KadmVersionsLaws, !GoLibrary, !Regexp, !NetURL, !File.OS}.

Lemma gates_filters caps o :
  o_TopicInclude (applyCapabilityGates caps o) = o_TopicInclude o /\
  o_TopicExclude (applyCapabilityGates caps o) = o_TopicExclude o /\
  o_GroupInclude (applyCapabilityGates caps o) = o_GroupInclude o /\
  o_GroupExclude (applyCapabilityGates caps o) = o_GroupExclude o.
Proof. by destruct caps. Qed.

(** A configuration that loads builds a collector. *)
Lemma New_collector env id cfg caps :
  Load env id = inr cfg ->
  Forall (fun x => utf8_valid x = true) (TopicInclude cfg ++ TopicExclude cfg ++ GroupInclude cfg ++ GroupExclude cfg) ->
  is_Some (Collector.New (applyCapabilityGates caps (collectorOptions cfg))).
Proof.
  intros Hl Hu. destruct (Load_valid env id cfg Hl) as [_ Hf]. destruct (Hf Hu) as [[f1 F1] [f2 F2]].
  destruct (gates_filters caps (collectorOptions cfg)) as (E1 & E2 & E3 & E4).
  unfold Collector.New. rewrite E1, E2, E3, E4. simpl. rewrite F1, F2. eauto.
Qed.

(** And an exporter, unless the file cannot be opened. *)
Lemma export_New_fails env id cfg d err :
  Load env id = inr cfg -> export_New d cfg = inl err -> ExportMode cfg = ExportModeFile.
Proof.
  intros Hl He. destruct (Load_valid env id cfg Hl) as [[_ _ _ Hm Hh _ _ _ _ _ _ _ _] _]. unfold export_New in He.
  assert (ExportMode cfg = ExportModeFile \/ ExportMode cfg = ExportModeHTTP \/ ExportMode cfg = ExportModeStdout)
    as [?|[Hx|Hx]] by set_solver; [done| |by rewrite Hx in He].
  clear Hm. rename Hx into Hm.
  destruct (Hh Hm) as (Hk & He0 & _). rewrite Hm in He. simpl in He.
  apply String.eqb_neq in Hk, He0. by rewrite He0, Hk in He.
Qed.

(** The round trip reached some broker and every one of them answered it. *)
Definition all_answer (answer : goerr + BrokersApiVersions) (vs : BrokersApiVersions) : Prop :=
  answer = inr vs /\ vs <> ∅ /\ map_Forall (fun _ v => bav_Err v = None) vs.

Definition probed_caps (vs : BrokersApiVersions) : Capabilities := foldCapabilities (probeRow <$> versionsSorted vs).

Lemma Probe_answered answer vs : all_answer answer vs -> (Probe answer None).1 = inr (probed_caps vs).
Proof.
  intros (-> & Hne & Hall). unfold Probe. pose proof (probeBrokers_spec vs (probeRow <$> versionsSorted vs)) as [_ Hr].
  by rewrite Hr.
Qed.

Lemma Probe_inr answer c : (Probe answer None).1 = inr c -> exists vs, all_answer answer vs /\ c = probed_caps vs.
Proof.
  unfold Probe. destruct answer as [e|vs]; [done|]. destruct (probeBrokers vs) as [e|bs] eqn:E; [done|]. intros [= <-].
  apply probeBrokers_spec in E as (Hne & Hall & ->). by exists vs.
Qed.

(** The check that passes: the probe it made, and what that says. *)
Lemma check_passes answer cached :
  CheckGroupStateFilter answer None = (None, cached) ->
  exists vs, all_answer answer vs /\ cached = Some (probed_caps vs) /\
    map_Forall (fun _ v => offers (bav_KeyMaxVersion v) listGroupsKey listGroupsStatesFilterVersion) vs.
Proof.
  unfold CheckGroupStateFilter, mbind, St_bind. intros E.
  destruct (Probe answer None) as [[e|c] cached'] eqn:Ep; [done|]. injection E as Hc ->.
  destruct (Probe_inr answer c) as (vs & Hans & ->); [by rewrite Ep|]. exists vs. split; [done|].
  destruct Hans as (-> & Hne & Hall). split.
  - unfold Probe in Ep. pose proof (probeBrokers_spec vs (probeRow <$> versionsSorted vs)) as [_ Hr].
    rewrite Hr in Ep by done. by injection Ep as <-.
  - unfold probed_caps in Hc. assert (probeRow <$> versionsSorted vs <> []) as Hr.
    { apply map_choose in Hne as (n & v & Hn). assert (v ∈ versionsSorted vs) as Hv.
      { apply (sorted_values_elem _ _ _ v (versionsSorted_law vs)). eauto. }
      by destruct (versionsSorted vs); [apply not_elem_of_nil in Hv|]. }
    apply checkGroupStateFilter_none in Hc; [|done]. unfold SupportsGroupStatesFilter in Hc.
    by apply atLeast_probed in Hc as [_ Hc].
Qed.

(** The answer the startup's fingerprint is taken from: the group state check's, when
    there is one to make. *)
Definition probe_answer (cfg : Config) (answer1 answer2 : goerr + BrokersApiVersions) : goerr + BrokersApiVersions :=
  match GroupStates cfg with [] => answer2 | _ => answer1 end.

Lemma gates_probed cfg vs r : vs <> ∅ ->
  enabled (applyCapabilityGates (Some (probed_caps vs)) (collectorOptions cfg)) r = true <->
  enabled (collectorOptions cfg) r = true /\
  (forall key v, needs r = Some (key, v) -> map_Forall (fun _ b => offers (bav_KeyMaxVersion b) key v) vs).
Proof.
  intros Hne. rewrite gated_enabled. apply and_iff_compat_l. split; intros Ha key v Hn;
    destruct (needs_16 r key v Hn) as [Hv Hk].
  - by apply (atLeast_probed vs key v Hne Hv), Ha.
  - apply (atLeast_probed vs key v Hne Hv). split; [done|]. by apply Ha.
Qed.

(** C22: what a startup guarantees.  For any configuration that loads, its patterns
    being UTF-8, any answer of the brokers and any disk: a startup that fails has left
    no client open, and never fails for want of a setting.  One that succeeds has probed
    the cluster, with the group state check's own probe when it made one.  If that probe
    failed - no answer, no broker, or one that did not answer - no gate is closed: the
    collector runs the options as configured and no fingerprint is stamped.  If it
    succeeded, the fingerprint is its own, and a request is enabled exactly when it was
    configured and, if it is gated, every broker of the answer serves it.  And when a
    group state filter is configured, every broker honours it. *)
Theorem startup_guarantees (env : string -> option string) (id : string) (cfg : Config) (version : string)
    (d : gmap string string) (NewClient Ping : option goerr) (answer1 answer2 : goerr + BrokersApiVersions) (t : Z) :
  Load env id = inr cfg ->
  Forall (fun x => utf8_valid x = true) (TopicInclude cfg ++ TopicExclude cfg ++ GroupInclude cfg ++ GroupExclude cfg) ->
  match New cfg version d NewClient Ping answer1 answer2 t with
  | inl (err, c) =>
      c <> OpenClient /\ (c = NoClient -> err = ErrClient (default (PlainError "") NewClient)) /\
      err <> ErrCollector /\ (forall e, err = ErrExporter e -> ExportMode cfg = ExportModeFile)
  | inr s =>
      let answer := probe_answer cfg answer1 answer2 in
      ((forall vs, ~ all_answer answer vs) ->
         c_opts (st_collector s) = collectorOptions cfg /\ a_caps (st_agent s) = None) /\
      (forall vs, all_answer answer vs ->
         c_opts (st_collector s) = applyCapabilityGates (Some (probed_caps vs)) (collectorOptions cfg) /\
         a_caps (st_agent s) = Some (wireOf (probed_caps vs)) /\
         forall r, enabled (c_opts (st_collector s)) r = true <->
           enabled (collectorOptions cfg) r = true /\
           (forall key v, needs r = Some (key, v) -> map_Forall (fun _ b => offers (bav_KeyMaxVersion b) key v) vs)) /\
      (GroupStates cfg <> [] -> exists vs, all_answer answer1 vs /\
         map_Forall (fun _ v => offers (bav_KeyMaxVersion v) listGroupsKey listGroupsStatesFilterVersion) vs)
  end.
Proof.
  intros Hl Hu. unfold New. destruct NewClient as [err|]; [done|]. destruct Ping as [err|]; [done|].
  destruct (if 0 <? Z.of_nat (length (GroupStates cfg)) then CheckGroupStateFilter answer1 None else (None, None))
    as [[err|] cached] eqn:E; [done|].
  assert (GroupStates cfg <> [] -> exists vs, all_answer answer1 vs /\ cached = Some (probed_caps vs) /\
    map_Forall (fun _ v => offers (bav_KeyMaxVersion v) listGroupsKey listGroupsStatesFilterVersion) vs) as Hg.
  { intros Hne. destruct (GroupStates cfg) as [|g gs]; [done|]. by apply check_passes in E. }
  set (caps := match (Probe answer2 cached).1 with inl _ => None | inr c => Some c end).
  assert (caps = match (Probe (probe_answer cfg answer1 answer2) None).1 with inl _ => None | inr c => Some c end) as Hcaps.
  { unfold caps, probe_answer. destruct (GroupStates cfg) as [|g gs]; [by injection E as <-|].
    destruct (Hg ltac:(done)) as (vs & Hvs & -> & _). by rewrite (Probe_answered _ _ Hvs). }
  destruct (New_collector env id cfg caps Hl Hu) as [coll Hcoll]. rewrite Hcoll.
  destruct (export_New d cfg) as [err|ex] eqn:Ex.
  - split; [done|]. split; [done|]. split; [done|]. intros e _. by eapply export_New_fails.
  - cbv zeta. cbn [st_collector st_agent a_caps]. rewrite (New_opts _ _ Hcoll). split; [|split; [|naive_solver]].
    + intros Hno. destruct (Probe (probe_answer _ _ _) None).1 as [e|c] eqn:Ep; [by rewrite Hcaps|].
      apply Probe_inr in Ep as (vs & Hvs & _). by destruct (Hno vs).
    + intros vs Hvs. rewrite (Probe_answered _ _ Hvs) in Hcaps. rewrite Hcaps. split; [done|]. split; [done|].
      intros r. by apply gates_probed, Hvs.
Qed.
End startup.

Section properties.
Context {C X : Type} `{!batchCollector C, !Exporter X} (a : Agent) (seconds : Z -> Z).
Notation state := (@state C X).

(** C17: the sequence has no hole, and what shutdown interrupts consumes no number.
    In any run, the batches handed to the exporter are numbered 1, 2, 3 and so on in
    that order, and each says so itself and carries the agent's identity.  A cycle
    hands over exactly the batch it collected, stamped, and does so exactly when it
    collected one and the context was still open when the collection returned: a batch
    whose collection a signal cut short is discarded, a signal that comes later does
    not withdraw the batch.  From the first collection that returns cancelled, nothing
    is handed over, and no later cycle could. *)
Theorem batches_numbered (s s' : state) (cs : list cycle) :
  Cycles a seconds s cs s' ->
  let tr := handed_over cs in
  Z.of_nat (length tr) < 2 ^ 64 ->
  b_BatchSeq <$> tr.*1 = seqZ 1 (Z.of_nat (length tr)) /\ batchSeq s' = Z.of_nat (length tr) /\
  Forall (fun b => as_BatchesCollected (b_Agent b) = b_BatchSeq b /\ b_SchemaVersion b = SchemaVersion /\
    b_AgentVersion b = a_version a /\ b_AgentInstanceID b = AgentInstanceID (a_cfg a)) tr.*1 /\
  Forall (fun cy =>
    (is_Some (cy_handed cy) <-> is_Some (cy_collected cy) /\ cy_stopped cy = false) /\
    (forall b taken, cy_handed cy = Some (b, taken) -> exists b0 seq stats t,
       cy_collected cy = Some b0 /\ b = stamp a seconds seq stats t b0)) cs /\
  (forall pre cy post, cs = pre ++ cy :: post -> cy_stopped cy = true -> handed_over (cy :: post) = []) /\
  (cancelled s' = true -> forall cy s2, runCycle a seconds s' cy s2 -> cy_handed cy = None).
Proof.
  intros Hcs tr Hlt. assert (Run a seconds s tr s') as Hr by by exists cs.
  destruct (numbered_run a seconds s tr s' Hr Hlt) as [H1 H2]. split; [done|]. split; [done|]. split; [|split; [|split]].
  - apply list.Forall_forall. intros b ([b' taken] & -> & Hb)%list_elem_of_fmap.
    destruct (Run_stamped a seconds _ _ _ _ _ Hr Hb) as (cc & cs' & b0 & seq & stats & t & _ & ->). done.
  - by apply (Cycles_ok a seconds s cs s').
  - by apply (Cycles_ok a seconds s cs s').
  - intros Hc cy s2 Hcyc. destruct (runCycle_ok a seconds _ _ _ Hcyc) as ([Hok _] & Hin & _).
    destruct (cy_handed cy); [|done]. destruct (proj1 Hok ltac:(eauto)) as [_ Hs]. rewrite Hin in Hs; done.
Qed.

(** C18: the telemetry adds up, for every exporter that keeps the interface's
    promise: in each batch, exported, dropped, rejected and queued batches
    together are all the earlier ones the exporter took, but possibly the one it
    is sending at that moment. *)
Theorem telemetry_accounts `{!ExporterLaws X} (s s' : state) (pre post : list (Batch * bool)) (b : Batch) (taken : bool) :
  Run a seconds s (pre ++ (b, taken) :: post) s' -> Z.of_nat (length pre) < 2 ^ 64 ->
  reported b <= Z.of_nat (count snd pre) <= reported b + 1.
Proof. intros Hr Hl. by apply (Run_accounts a seconds _ _ _ _ _ _ Hr Hl). Qed.
End properties.

(** What leaves the agent is what the collector made: with the collector of
    the program, every batch handed to the exporter is a stamped batch of some
    cycle, so it keeps to everything a cycle's batch keeps to; it describes the
    cluster's capabilities exactly when it describes the cluster, and the broker
    round trips are the collector's own. *)
Theorem shipped_conforms `{!KerrCodes, !Kadm, !KerrErrors, !ShardErrorText, !ConfigSources, !Cluster, !Exporter X}
    (c : Collector) (a : Agent) (seconds : Z -> Z) (s s' : @state cstate X) (tr : list (Batch * bool)) (b : Batch) (taken : bool) :
  @Run cstate X (pipeline_collector c) _ a seconds s tr s' -> (b, taken) ∈ tr ->
  wire_ok c b /\
  (forall cm, b_Cluster b = Some cm -> cm_Capabilities cm = a_caps a) /\
  exists cs cs' evs b0, Collect c cs evs b0 cs' /\ as_RPC (b_Agent b) = as_RPC (b_Agent b0) /\
    b_Topics b = b_Topics b0 /\ b_Groups b = b_Groups b0 /\ b_Offsets b = b_Offsets b0 /\ b_Errors b = b_Errors b0 /\
    (b_Cluster b = None <-> b_Cluster b0 = None).
Proof.
  intros Hr Hb. destruct (Run_stamped a seconds _ _ _ _ _ Hr Hb) as (cs & cs' & b0 & seq & stats & t & (evs & b1 & [= <-] & Hc) & ->).
  split; [by eapply stamp_wire_ok, collect_wire_ok|]. split.
  - intros cm. simpl. destruct (b_Cluster b0); [|done]. by intros [= <-].
  - exists cs, cs', evs, b0. split; [done|]. split_and!; try done. simpl. by destruct (b_Cluster b0).
Qed.

(** ** Witnesses *)

Definition new_versions : BrokersApiVersions :=
  list_to_map [(1, mkBrokerApiVersions 1 None true "v3.7" (list_to_map [(16, 5); (2, 8)]))].

Theorem startup_guarantees_witness : exists s,
  @New kadm_versions no_regexp (File.failing_calls []) sample_config "1.0" ∅ None None (inr new_versions) (inl errNoBroker) 0 = inr s /\
  is_Some (a_caps (st_agent s)) /\
  map_Forall (fun _ v => offers (bav_KeyMaxVersion v) listGroupsKey listGroupsStatesFilterVersion) new_versions.
Proof.
  pose proof (@startup_guarantees kadm_versions _ no_library no_regexp no_urls (File.failing_calls [])
    sample_environment "host-1" sample_config "1.0" ∅ None None (inr new_versions) (inl errNoBroker) 0
    ltac:(vm_compute; reflexivity) ltac:(vm_compute; constructor)) as Hs.
  destruct (@New kadm_versions no_regexp (File.failing_calls []) sample_config "1.0" ∅ None None
    (inr new_versions) (inl errNoBroker) 0) as [[err c]|s] eqn:E; [vm_compute in E; discriminate E|].
  exists s. destruct Hs as (_ & Hp & Hg). split; [reflexivity|].
  destruct Hg as (vs & Hvs & Hg); [by vm_compute|]. pose proof (proj1 Hvs) as [= <-]. split; [|exact Hg].
  destruct (Hp new_versions) as (_ & Hw & _); [exact Hvs|]. by rewrite Hw.
Defined.

(** A collector that always gives the same batch, and two cycles of it to stdout. *)
Definition steady : batchCollector () := {| collects _ ob _ := ob = Some (batch_of 0) |}.
Definition sample_agent : Agent := mkAgent sample_config "1.0" None 0.
Definition to_stdout : Exporter File.StdoutExporter := @File.stdout_exporter plain_codec.

Definition booted : @state () File.StdoutExporter := mkState 0 tt (File.mkStdoutExporter no_counters "") 0 false.

Lemma waits_refl {C X} `{!Exporter X} (s : @state C X) : elapses (expo s) (expo s) -> waits s s.
Proof.
  intros He. pose proof (waits_for s (expo s) (clock s) (cancelled s) He (Z.le_refl _) (fun h => h)) as Hw. by destruct s.
Qed.

Lemma sample_loop : exists b1 b2 s',
  @Run () File.StdoutExporter steady to_stdout sample_agent (fun n => n / Second) booted [(b1, true); (b2, true)] s' /\
  b_BatchSeq b2 = 2 /\ as_BatchesExported (b_Agent b2) = 1.
Proof.
  eexists _, _, _. split.
  - eapply (run_tick _ _ booted [_] _ _ (mkCycle _ _ (Some _))).
    + eapply (run_first _ _ _ (mkCycle _ _ (Some _))); [split; [done|by eexists]|].
      eapply (cycle_exported _ _ booted booted booted (batch_of 0) tt true);
        [by apply waits_refl|done|done|by apply waits_refl|]. exists None, None. split; [reflexivity|done].
    + by apply waits_refl.
    + eapply (cycle_exported _ _ _ _ _ (batch_of 0) tt true);
        [by apply waits_refl|done|done|by apply waits_refl|]. exists None, None. split; [reflexivity|done].
  - split; reflexivity.
Qed.

(** A signal arrives during a third collection: its batch is discarded, unnumbered. *)
Theorem batches_numbered_witness : exists cs s',
  @Cycles () File.StdoutExporter steady to_stdout sample_agent (fun n => n / Second) booted cs s' /\
  (exists cy, cy ∈ cs /\ cy_collected cy = Some (batch_of 0) /\ cy_handed cy = None) /\ (b_BatchSeq <$> (handed_over cs).*1) = [1; 2] /\ batchSeq s' = 2.
Proof.
  destruct sample_loop as (b1 & b2 & s1 & (cs & Hcs & Htr) & _).
  assert (exists cy s', @Cycles () File.StdoutExporter steady to_stdout sample_agent (fun n => n / Second) booted
    (cs ++ [cy]) s' /\ cy_collected cy = Some (batch_of 0) /\ cy_stopped cy = true) as (cy & s' & Hc & Hb & Hs).
  { eexists _, _. split.
    - eapply cycles_tick; [exact Hcs|by apply waits_refl|].
      apply (cycle_discarded _ _ _ (mkState (batchSeq s1) (coll s1) (expo s1) (clock s1) true) (batch_of 0) tt);
        [by apply waits_for|done|done].
    - by split. }
  assert (cy_handed cy = None) as Hn.
  { destruct (Cycles_ok _ _ _ _ _ Hc) as [Hok _]. rewrite list.Forall_forall in Hok.
    destruct (Hok cy) as [Hiff _]; [rewrite elem_of_app; right; by left|].
    destruct (cy_handed cy); [|done]. destruct (proj1 Hiff ltac:(eauto)) as [_ ?]. congruence. }
  exists (cs ++ [cy]), s'. split; [exact Hc|].
  split; [exists cy; split; [rewrite elem_of_app; right; by left|done]|].
  assert (handed_over (cs ++ [cy]) = [(b1, true); (b2, true)]) as E.
  { unfold handed_over. rewrite omap_app. simpl. by rewrite Hn, app_nil_r. }
  destruct (@batches_numbered () _ steady to_stdout _ _ _ _ _ Hc ltac:(by rewrite E)) as (H1 & H2 & _).
  rewrite E in H1, H2 |- *. split; [exact H1|exact H2].
Defined.

Theorem telemetry_accounts_witness : exists b2, as_BatchesExported (b_Agent b2) = 1 /\ reported b2 <= 1 <= reported b2 + 1.
Proof.
  destruct sample_loop as (b1 & b2 & s' & Hr & _ & Hb). exists b2. split; [exact Hb|].
  exact (@telemetry_accounts () _ steady to_stdout _ _ (@File.stdout_laws plain_codec) _ _ [(b1, true)] [] b2 true Hr ltac:(done)).
Defined.

Lemma sample_shipment : exists b s',
  @Run cstate File.StdoutExporter (@pipeline_collector kafka_codes kadm_sorted kerr_errors no_text kafka_sources
      (answering cycle_env) sample_collector) to_stdout sample_agent (fun n => n / Second)
    (mkState 0 (mkCState 0 ∅) (File.mkStdoutExporter no_counters "") 0 false) [(b, true)] s' /\ b_BatchSeq b = 1.
Proof.
  destruct (@drive_collect kafka_codes kadm_sorted kerr_errors no_text kafka_sources (answering cycle_env)
    cycle_env sample_collector (mkCState 0 ∅) source_order 200 (fun _ => eq_refl) cycle_clock
    ltac:(vm_compute; reflexivity)) as [cs' Hc].
  eexists _, _. split.
  - eapply (run_first _ _ _ (mkCycle _ _ (Some _))); [split; [done|by eexists]|].
    eapply (cycle_exported _ _ _ _ _ _ cs' true);
      [by apply waits_refl|by eexists _, _|done|by apply waits_refl|]. exists None, None. split; [reflexivity|done].
  - reflexivity.
Qed.

Theorem shipped_conforms_witness : exists b, b_BatchSeq b = 1 /\ wire_ok sample_collector b.
Proof.
  destruct sample_shipment as (b & s' & Hr & Hb). exists b. split; [exact Hb|].
  apply (@shipped_conforms kafka_codes kadm_sorted kerr_errors no_text kafka_sources
    (answering cycle_env) File.StdoutExporter to_stdout sample_collector _ _ _ _ _ b true Hr). by left.
Defined.
