(* ===== verification/Checks.v ===== *)
(** * Checks: what the ingest checks of one batch ([internal/mockingest/check.go])

    The conformance server's checks that need no memory of earlier batches.  A
    check reports failures; a failure is its code, severity, path and status, and
    not its message, which is text for the operator.  The batch is the decoded one:
    a status that is none of the five cannot be written here.  The one map the
    checks range over comes in the order of [MapRange]. *)

From Stdlib Require Import ZArith Lia Ascii.
From stdpp Require Import prelude gmap strings numbers pretty sorting.
From S2P Require Import Prelude Wire Errors Filter Strconv.

(** [for name, sec := range byName]. *)
Class MapRange := { ranged : gmap string SectionRow -> list (string * SectionRow) }.
Class MapRangeLaws `{!MapRange} : Prop := { ranged_perm : forall m, ranged m ≡ₚ map_to_list m }.

(** ** Configuration and failures *)

Record Faults := mkFaults {
  FailFirst : Z; FailStatus : Z;
  EveryNth : Z; EveryNthStatus : Z;
  RetryAfterSec : Z;
  DelayMS : Z; DelayFirst : Z;
  DropEvery : Z; DropFirst : Z;
  TerminalOnce : Z;
}.

(** The fields of the server's [Config] but for its writers and clock. *)
Record Config := mkConfig {
  Path : string;
  APIKey : string;
  Strict : bool;
  WarnOnly : bool;
  cfg_Require : Z;
  Keep : Z;
  MaxBodyBytes : Z;
  ClockSkew : Z;
  cfg_MaxErrors : Z;
  Sections : list string;
  OptionalSections : list string;
  cfg_Faults : Faults;
}.

Inductive Severity := SeverityFatal | SeverityWarn.

Record Failure := mkFailure {
  f_Code : string;
  f_Severity : Severity;
  f_Path : string;
  f_Seq : Z;
  f_status : Z;
}.

Definition knownErrorKinds (kind : string) : bool :=
  bool_decide (kind ∈ ["authorization"; "coordinator"; "transport"; "unsupported"; "other"]%string).

Definition validStatuses (st : SectionStatus) : bool :=
  match st with
  | SectionOK | SectionPartial | SectionFailed | SectionUnauthorized | SectionSkipped => true
  end.

(** The zero [time.Time], the first of January of year 1. *)
Definition zeroTime : Z := -62135596800 * Second.
Definition IsZero (t : Z) : bool := t =? zeroTime.

(** What a check writes: the server's [warned] set, and [out]. *)
Record checker := mkChecker { warned : gset string; out : list Failure }.

Definition tpKey (topic : string) (partition : Z) : string := topic +:+ "/" +:+ pretty partition.

Definition contains (ids : list Z) (id : Z) : bool := bool_decide (id ∈ ids).

Definition sectionByName (b : Batch) (name : string) : option SectionRow :=
  find (fun sec => String.eqb (sr_Name sec) name) (b_Sections b).

Definition carriesData (b : Batch) (name : string) : bool :=
  match sectionByName b name with
  | Some sec => bool_decide (sr_Status sec = SectionOK \/ sr_Status sec = SectionPartial)
  | None => false
  end.

Definition usable (b : Batch) (names : list string) : bool :=
  forallb (carriesData b) names && negb (existsb (fun e => String.eqb (ce_Kind e) "transport") (b_Errors b)).

Definition idempotencyKey (b : Batch) : string :=
  (if String.eqb (b_AgentInstanceID b) "" then "unknown" else b_AgentInstanceID b) +:+ "-" +:+ pretty (b_BatchSeq b).

Definition index (prefix : string) (i : nat) : string := prefix +:+ "[" +:+ pretty (Z.of_nat i) +:+ "]".

(** ** The checks *)

Section checks.
Context `{!MapRange} (cfg : Config) (now batchSeq : Z).
Notation check A := (St checker A).

Definition emit (sev : Severity) (status : Z) (code path : string) : check () :=
  let '(sev, status) :=
    match sev with
    | SeverityFatal => if WarnOnly cfg then (SeverityWarn, 0) else (SeverityFatal, status)
    | SeverityWarn => if Strict cfg then (SeverityFatal, status) else (SeverityWarn, status)
    end in
  modify (fun c => mkChecker (warned c) (out c ++ [mkFailure code sev path batchSeq status])).

Definition fail (code path : string) : check () := emit SeverityFatal 0 code path.
Definition failStatus (status : Z) (code path : string) : check () := emit SeverityFatal status code path.
Definition warn (code path : string) : check () := emit SeverityWarn 0 code path.

Definition warnOnce (key code path : string) : check () :=
  seen ← (fun c => (bool_decide (key ∈ warned c), mkChecker ({[key]} ∪ warned c) (out c)));
  whenM (negb seen) (warn code path).

Definition checkEnvelope (key : string) (b : Batch) : check () :=
  whenM (negb (b_SchemaVersion b =? SchemaVersion)) (fail "schema.version" "$.schema_version") ;;
  whenM (String.eqb (b_AgentVersion b) "") (fail "envelope.agent_version" "$.agent_version") ;;
  whenM (String.eqb (b_AgentInstanceID b) "") (fail "envelope.instance_id" "$.agent_instance_id") ;;
  whenM (b_BatchSeq b <? 1) (fail "envelope.batch_seq" "$.batch_seq") ;;
  whenM (negb (String.eqb key "") && negb (String.eqb key (idempotencyKey b)))
    (fail "envelope.idempotency_key_format" "") ;;
  (if IsZero (b_CollectedAt b) then fail "envelope.collected_at_zero" "$.collected_at"
   else
     let skew := Sub (b_CollectedAt b) now in
     whenM ((ClockSkew cfg <? skew) || (ClockSkew cfg <? wrapS 64 (- skew)))
       (fail "envelope.collected_at_skew" "$.collected_at")) ;;
  whenM (b_CollectionMs b <? 0) (fail "envelope.collection_ms" "$.collection_ms").

(** *** Sections *)

(** [canon]: the place of each required name, the last one if it is listed twice. *)
Definition canon : gmap string Z :=
  foldl (fun m p => <[p.2 := Z.of_nat p.1]> m) ∅ (zip (seq 0 (length (Sections cfg))) (Sections cfg)).

(** One turn of the first loop; it carries [byName] and [prev]. *)
Definition checkSection (i : nat) (st : gmap string SectionRow * Z) (sec : SectionRow) :
    check (gmap string SectionRow * Z) :=
  let '(byName, prev) := st in
  let path := index "$.sections" i in
  byName ←
    (if String.eqb (sr_Name sec) "" then fail "sections.empty_name" path ;; mret byName
     else match byName !! sr_Name sec with
          | Some _ => fail "sections.duplicate" path ;; mret byName
          | None => mret (<[sr_Name sec := sec]> byName)
          end);
  prev ←
    match canon !! sr_Name sec with
    | Some pos => whenM (pos <=? prev) (fail "sections.order" path) ;; mret pos
    | None =>
        (if String.eqb (sr_Name sec) "" || bool_decide (sr_Name sec ∈ OptionalSections cfg) then mret tt
         else warnOnce ("sections.unknown_name/" +:+ sr_Name sec) "sections.unknown_name" path) ;; mret prev
    end;
  whenM (negb (validStatuses (sr_Status sec))) (fail "sections.status" path) ;;
  whenM (IsZero (sr_SampledAt sec)) (fail "sections.sampled_at" path) ;;
  whenM (sr_DurationMs sec <? 0) (fail "sections.duration" path) ;;
  mret (byName, prev).

(** [offsets.SampledAt.Add(time.Duration(offsets.DurationMs) * time.Millisecond)]. *)
Definition finishedAt (sec : SectionRow) : Z := sr_SampledAt sec + wrapS 64 (sr_DurationMs sec * Millisecond).

Definition checkPhaseOrder (byName : gmap string SectionRow) (b : Batch) : check () :=
  match byName !! "topics_end"%string, byName !! "offsets"%string with
  | Some topicsEnd, Some offsets =>
      if usable b ["topics_end"; "offsets"]%string then
        let done := finishedAt offsets in
        whenM (sr_SampledAt topicsEnd <? done) (warn "sections.phase_order" "$.sections") ;;
        match byName !! "topics_lso"%string with
        | Some lso =>
            if usable b ["topics_lso"%string] then
              whenM (sr_SampledAt lso <? done) (warn "sections.lso_before_offsets" "$.sections") ;;
              whenM (sr_SampledAt topicsEnd <? sr_SampledAt lso) (warn "sections.lso_after_end" "$.sections")
            else mret tt
        | None => mret tt
        end
      else mret tt
  | _, _ => mret tt
  end.

(** The loop over the errors; it counts them by section. *)
Definition checkError (byName : gmap string SectionRow) (i : nat) (counted : gmap string Z) (e : CollectionError) :
    check (gmap string Z) :=
  let path := index "$.errors" i in
  let counted := <[ce_Section e := default 0 (counted !! ce_Section e) + 1]> counted in
  whenM (bool_decide (byName !! ce_Section e = None)) (fail "errors.unknown_section" path) ;;
  whenM (negb (String.eqb (ce_Kind e) "") && negb (knownErrorKinds (ce_Kind e)))
    (warnOnce ("errors.kind/" +:+ ce_Kind e) "errors.kind" path) ;;
  whenM (String.eqb (ce_Message e) "") (fail "errors.message_empty" path) ;;
  mret counted.

Definition checkCount (counted : gmap string Z) (p : string * SectionRow) : check () :=
  let '(name, sec) := p in
  whenM (negb (sr_ErrorCount sec =? default 0 (counted !! name))) (fail "sections.error_count" "$.sections") ;;
  whenM (bool_decide (sr_Status sec = SectionOK) && (0 <? sr_ErrorCount sec))
    (warn "errors.status_ok_with_errors" "$.sections").

Definition checkSections (b : Batch) : check () :=
  '(byName, _) ← foldM checkSection 0 (∅, -1) (b_Sections b);
  iterM (fun want => whenM (bool_decide (byName !! want = None)) (fail "sections.missing" "$.sections"))
    (Sections cfg) ;;
  match byName !! "topics"%string, byName !! "topics_end"%string with
  | Some topics, Some topicsEnd =>
      whenM (sr_SampledAt topicsEnd <? sr_SampledAt topics) (fail "sections.topics_end_before_topics" "$.sections")
  | _, _ => mret tt
  end ;;
  checkPhaseOrder byName b ;;
  counted ← foldM (checkError byName) 0 ∅ (b_Errors b);
  iterM (checkCount counted) (ranged byName) ;;
  whenM (cfg_MaxErrors cfg <? Z.of_nat (length (b_Errors b))) (warn "errors.unbounded" "$.errors").

(** *** Data *)

Definition countCheck (code path : string) (n : Z) (got : nat) : check () :=
  whenM (negb (n =? Z.of_nat got)) (fail code path).

Definition negative (o : option Z) : bool := match o with Some z => z <? 0 | None => false end.
Definition below (o p : option Z) : bool := match o, p with Some x, Some y => x <? y | _, _ => false end.

(** The variables of the partition loop. *)
Record partState := mkPartState {
  seenPart : gset Z;
  minRF : Z;
  prevID : Z;
  ends : gmap string Z;
}.

Definition checkPartition (topic path : string) (j : nat) (st : partState) (p : Partition) : check partState :=
  let ppath := index (path +:+ ".partitions") j in
  whenM (bool_decide (p_ID p ∈ seenPart st)) (fail "data.duplicate_partition" ppath) ;;
  whenM ((0 <? j)%nat && (p_ID p <? prevID st)) (warnOnce "data.sort_order/partitions" "data.sort_order" ppath) ;;
  whenM (negative (p_StartOffset p)) (fail "data.offset_negative" (ppath +:+ ".start_offset")) ;;
  whenM (negative (p_EndOffset p)) (fail "data.offset_negative" (ppath +:+ ".end_offset")) ;;
  whenM (negative (p_LastStableOffset p)) (fail "data.offset_negative" (ppath +:+ ".last_stable_offset")) ;;
  whenM (below (p_EndOffset p) (p_StartOffset p)) (fail "data.offset_inverted" ppath) ;;
  whenM (below (p_EndOffset p) (p_LastStableOffset p)) (warn "data.lso_above_end_offset" ppath) ;;
  whenM (below (p_LastStableOffset p) (p_StartOffset p)) (warn "data.lso_below_start_offset" ppath) ;;
  let ends := match p_EndOffset p with Some e => <[tpKey topic (p_ID p) := e]> (ends st) | None => ends st end in
  let replicas := Z.of_nat (length (p_Replicas p)) in
  let minRF := if (p_ErrorCode p =? 0) && ((minRF st <? 0) || (replicas <? minRF st)) then replicas else minRF st in
  whenM (p_ErrorCode p =? 0)
    (whenM (negb (contains (p_Replicas p) (p_Leader p)) && (0 <=? p_Leader p)) (warn "data.leader_not_replica" ppath) ;;
     whenM (existsb (fun id => negb (contains (p_Replicas p) id)) (p_ISR p)) (warn "data.isr_not_subset" ppath)) ;;
  mret (mkPartState ({[p_ID p]} ∪ seenPart st) minRF (p_ID p) ends).

(** The variables of the topic loop. *)
Record topicState := mkTopicState { seenTopic : gset string; prevTopic : string; t_ends : gmap string Z }.

Definition checkTopic (i : nat) (st : topicState) (t : TopicMetrics) : check topicState :=
  let path := index "$.topics" i in
  whenM (bool_decide (tm_Name t ∈ seenTopic st)) (fail "data.duplicate_topic" path) ;;
  whenM ((0 <? i)%nat && str_ltb (tm_Name t) (prevTopic st)) (warnOnce "data.sort_order/topics" "data.sort_order" path) ;;
  countCheck "data.partition_count" path (tm_PartitionCount t) (length (tm_Partitions t)) ;;
  ps ← foldM (checkPartition (tm_Name t) path) 0 (mkPartState ∅ (-1) 0 (t_ends st)) (tm_Partitions t);
  whenM ((0 <=? minRF ps) && (tm_PartitionCount t =? Z.of_nat (length (tm_Partitions t))) &&
         negb (tm_ReplicationFactor t =? minRF ps)) (warn "data.replication_factor" path) ;;
  mret (mkTopicState ({[tm_Name t]} ∪ seenTopic st) (tm_Name t) (ends ps)).

(** The variables of the group loop. *)
Record groupState := mkGroupState { seenGroup : gset string; prevGroup : string; allMinusOne : bool }.

Definition checkGroup (i : nat) (st : groupState) (g : GroupMetrics) : check groupState :=
  let path := index "$.groups" i in
  whenM (bool_decide (g_ID g ∈ seenGroup st)) (fail "data.duplicate_group" path) ;;
  whenM ((0 <? i)%nat && str_ltb (g_ID g) (prevGroup st)) (warnOnce "data.sort_order/groups" "data.sort_order" path) ;;
  countCheck "data.member_count" path (g_MemberCount g) (length (g_Members g)) ;;
  mret (mkGroupState ({[g_ID g]} ∪ seenGroup st) (g_ID g) (allMinusOne st && (g_Generation g =? -1))).

Definition nul : string := String "000"%char "".

Definition checkOffset (ts : topicState) (b : Batch) (group path : string) (j : nat) (seenOffset : gset string)
    (po : PartitionOffset) : check (gset string) :=
  let opath := index (path +:+ ".offsets") j in
  let key := group +:+ nul +:+ tpKey (po_Topic po) (po_Partition po) in
  whenM (bool_decide (key ∈ seenOffset)) (fail "data.duplicate_offset" opath) ;;
  match po_Offset po with
  | None => mret tt
  | Some off =>
      if off <? 0 then fail "data.offset_negative" opath
      else match t_ends ts !! tpKey (po_Topic po) (po_Partition po) with
           | None =>
               whenM (negb (bool_decide (po_Topic po ∈ seenTopic ts)))
                 (warnOnce ("data.orphan_offset/" +:+ po_Topic po) "data.orphan_offset" opath)
           | Some end_ =>
               whenM ((end_ <? off) && usable b ["topics_end"; "offsets"]%string) (warn "data.negative_lag" opath)
           end
  end ;;
  mret ({[key]} ∪ seenOffset).

Definition checkConsumer (ts : topicState) (b : Batch) (i : nat) (st : gset string * string) (co : ConsumerOffset) :
    check (gset string * string) :=
  let '(seenOffset, prevGID) := st in
  let path := index "$.offsets" i in
  whenM ((0 <? i)%nat && str_ltb (co_GroupID co) prevGID)
    (warnOnce "data.sort_order/offsets" "data.sort_order" path) ;;
  countCheck "data.offset_count" path (co_OffsetCount co) (length (elems (co_Offsets co))) ;;
  seenOffset ← foldM (checkOffset ts b (co_GroupID co) path) 0 seenOffset (elems (co_Offsets co));
  mret (seenOffset, co_GroupID co).

Definition checkLogDirPartition (path : string) (j : nat) (seenTP : gset string) (p : LogDirPartition) :
    check (gset string) :=
  let ppath := index (path +:+ ".partitions") j in
  let tp := tpKey (lp_Topic p) (lp_Partition p) in
  whenM (bool_decide (tp ∈ seenTP)) (fail "data.duplicate_log_dir_partition" ppath) ;;
  whenM (lp_Size p <? 0) (fail "data.log_dir_negative" (ppath +:+ ".size")) ;;
  whenM (lp_OffsetLag p <? 0) (fail "data.log_dir_negative" (ppath +:+ ".offset_lag")) ;;
  mret ({[tp]} ∪ seenTP).

Definition dirKey (d : LogDir) : string := pretty (ld_Broker d) +:+ nul +:+ ld_Dir d.

Definition checkLogDir (i : nat) (seenDir : gset string) (d : LogDir) : check (gset string) :=
  let path := index "$.log_dirs" i in
  whenM (bool_decide (dirKey d ∈ seenDir)) (fail "data.duplicate_log_dir" path) ;;
  whenM (String.eqb (ld_Dir d) "") (fail "data.log_dir_unnamed" path) ;;
  whenM (negative (ld_TotalBytes d)) (fail "data.log_dir_negative" (path +:+ ".total_bytes")) ;;
  whenM (negative (ld_UsableBytes d)) (fail "data.log_dir_negative" (path +:+ ".usable_bytes")) ;;
  whenM (below (ld_TotalBytes d) (ld_UsableBytes d)) (warn "data.log_dir_usable_above_total" path) ;;
  foldM (checkLogDirPartition path) 0 ∅ (elems (ld_Partitions d)) ;;
  mret ({[dirKey d]} ∪ seenDir).

Definition checkLogDirs (b : Batch) : check () :=
  foldM checkLogDir 0 ∅ (elems (b_LogDirs b)) ;; mret tt.

Definition checkData (b : Batch) : check () :=
  match b_Cluster b with
  | Some cm => whenM (negb (cm_BrokerCount cm =? Z.of_nat (length (cm_Brokers cm)))) (fail "data.broker_count" "$.cluster")
  | None => mret tt
  end ;;
  ts ← foldM checkTopic 0 (mkTopicState ∅ "" ∅) (elems (b_Topics b));
  gs ← foldM checkGroup 0 (mkGroupState ∅ "" (0 <? length (elems (b_Groups b)))%nat) (elems (b_Groups b));
  whenM (allMinusOne gs) (warnOnce "data.generation_absent" "data.generation_absent" "$.groups") ;;
  foldM (checkConsumer ts b) 0 (∅, ""%string) (elems (b_Offsets b)) ;;
  checkLogDirs b.

(** *** Truncation and telemetry *)

Definition selectionEmpty (s : Selection) : bool :=
  bool_decide (sel_TopicInclude s = []) && bool_decide (sel_TopicExclude s = []) &&
  bool_decide (sel_GroupInclude s = []) && bool_decide (sel_GroupExclude s = []) &&
  bool_decide (sel_GroupStates s = []) && negb (sel_IncludeInternalTopics s).

Definition checkEntries (field : string) (entries : list string) : check () :=
  foldM (fun i _ entry =>
    whenM (String.eqb (TrimSpace entry) "") (fail "selection.empty_entry" (index ("$.selection." +:+ field) i)))
    0 tt entries.

Definition checkSelection (s : Selection) : check () :=
  whenM (selectionEmpty s) (fail "selection.empty" "$.selection") ;;
  checkEntries "topic_include" (sel_TopicInclude s) ;;
  checkEntries "topic_exclude" (sel_TopicExclude s) ;;
  checkEntries "group_include" (sel_GroupInclude s) ;;
  checkEntries "group_exclude" (sel_GroupExclude s).

Definition checkTruncation (b : Batch) : check () :=
  foldM (fun i _ e => whenM (ce_Count e <? 0) (fail "errors.negative_count" (index "$.errors" i))) 0 tt (b_Errors b) ;;
  match b_Selection b with Some s => checkSelection s | None => mret tt end ;;
  match b_Truncation b with
  | None => mret tt
  | Some t =>
      whenM (bool_decide (t = Truncation_zero)) (fail "truncation.empty" "$.truncation") ;;
      whenM (negb (tr_ErrorsCollapsed t =? sumZ sr_ErrorsCollapsed (b_Sections b)))
        (fail "truncation.errors_collapsed" "$.truncation") ;;
      whenM (negb (tr_ErrorsDropped t =? sumZ sr_ErrorsDropped (b_Sections b)))
        (fail "truncation.errors_dropped" "$.truncation")
  end.

Definition checkAgent (b : Batch) : check () :=
  let a := b_Agent b in
  whenM (negb (as_BatchesCollected a =? b_BatchSeq b)) (fail "agent.batches_collected" "$.agent") ;;
  whenM (b_BatchSeq b <=? as_BatchesExported a) (fail "agent.batches_exported" "$.agent") ;;
  whenM (as_BatchesCollected a <?
         wrapU 64 (wrapU 64 (as_BatchesExported a + as_BatchesDropped a) + as_BatchesRejected a))
    (fail "agent.counter_sum" "$.agent") ;;
  (if as_QueueDepth a <? 0 then fail "agent.queue_depth" "$.agent"
   else whenM (0 <? as_QueueDepth a) (warn "agent.queue_depth_positive" "$.agent")).

(** The checks of one batch, in [validate]'s order. *)
Definition checkBatch (key : string) (b : Batch) : check () :=
  checkEnvelope key b ;; checkSections b ;; checkData b ;; checkTruncation b ;; checkAgent b.
End checks.
