(* ===== verification/Conform.v ===== *)
(** * Conform: the contract of a batch, and that the checks decide it

    [conforms] states what a batch must satisfy, without a loop or a counter.  The
    theorem says that, with the default severities, the checks of [Checks] report
    no fatal failure exactly on such a batch.

    A check only appends to its output and never reads what was reported, so it has
    a result and a list of fatal codes that do not depend on the state it runs in:
    [codes], which is computed from its parts by rewriting. *)

From Stdlib Require Import ZArith Lia.
From stdpp Require Import prelude gmap strings numbers pretty sorting.
From S2P Require Import Prelude Wire Errors Filter Strconv Checks.

(** ** The fatal codes of a check *)

Definition is_fatal (f : Failure) : bool := match f_Severity f with SeverityFatal => true | SeverityWarn => false end.
Definition fatals (l : list Failure) : list string := f_Code <$> base.filter (fun f => Is_true (is_fatal f)) l.

Definition quietly : checker := mkChecker ∅ [].
Definition result {A} (m : St checker A) : A := (m quietly).1.
Definition codes {A} (m : St checker A) : list string := fatals (out (m quietly).2).

Class Oblivious {A} (m : St checker A) : Prop :=
  oblivious : forall c, (m c).1 = result m /\ fatals (out (m c).2) = fatals (out c) ++ codes m.

Lemma fatals_app l k : fatals (l ++ k) = fatals l ++ fatals k.
Proof. unfold fatals. by rewrite list.filter_app, fmap_app. Qed.

#[export] Instance ret_oblivious {A} (a : A) : Oblivious (mret a).
Proof. intros c. split; [done|]. unfold codes. simpl. by rewrite app_nil_r. Qed.

Lemma codes_ret {A} (a : A) : codes (mret a) = [].
Proof. done. Qed.

Lemma result_ret {A} (a : A) : result (mret a) = a.
Proof. done. Qed.

Lemma result_of_bind {A B} (m : St checker A) (k : A -> St checker B) `{!Oblivious (k (result m))} :
  result (m ≫= k) = result (k (result m)).
Proof. unfold result at 1. rewrite St_bind_eq. apply (oblivious (m := k (result m)) (m quietly).2). Qed.

Lemma codes_bind {A B} (m : St checker A) (k : A -> St checker B) `{!Oblivious (k (result m))} :
  codes (m ≫= k) = codes m ++ codes (k (result m)).
Proof. unfold codes at 1. rewrite St_bind_eq. apply (oblivious (m := k (result m)) (m quietly).2). Qed.

#[export] Instance bind_oblivious {A B} (m : St checker A) (k : A -> St checker B) :
  Oblivious m -> (forall a, Oblivious (k a)) -> Oblivious (m ≫= k).
Proof.
  intros Hm Hk c. rewrite St_bind_eq, result_of_bind, codes_bind by apply _.
  destruct (Hm c) as [-> Hc]. destruct (Hk (result m) (m c).2) as [-> ->]. by rewrite Hc, app_assoc.
Qed.

#[export] Instance whenM_oblivious b (m : St checker ()) : Oblivious m -> Oblivious (whenM b m).
Proof. destruct b; simpl; apply _. Qed.

Lemma codes_whenM b (m : St checker ()) : codes (whenM b m) = [] <-> (b = true -> codes m = []).
Proof. destruct b; simpl; [intuition|]. by rewrite codes_ret. Qed.

#[export] Instance foldM_oblivious {A B} (f : nat -> A -> B -> St checker A) i a l :
  (forall i a x, Oblivious (f i a x)) -> Oblivious (foldM f i a l).
Proof. intros Hf. revert i a. induction l as [|x l IH]; intros i a; simpl; apply _. Qed.

Lemma foldM_cons {S A B} (f : nat -> A -> B -> St S A) i a x l :
  foldM f i a (x :: l) = f i a x ≫= fun a => foldM f (Datatypes.S i) a l.
Proof. done. Qed.

#[export] Instance iterM_oblivious {B} (f : B -> St checker ()) l : (forall x, Oblivious (f x)) -> Oblivious (iterM f l).
Proof. intros Hf. induction l as [|x l IH]; simpl; apply _. Qed.

Lemma codes_iterM {B} (f : B -> St checker ()) l `{!forall x, Oblivious (f x)} :
  codes (iterM f l) = [] <-> forall x, x ∈ l -> codes (f x) = [].
Proof.
  induction l as [|x l IH]; simpl; [by split; [intros _ x ?%not_elem_of_nil|]|].
  rewrite codes_bind by apply _. rewrite app_nil, IH. set_solver.
Qed.

(** A loop that refuses a key it has seen: no key comes twice. *)
Lemma codes_unique {A B K} `{Countable K} (keys : B -> list K) (seen : A -> gset K) (ok : B -> Prop)
    (f : nat -> A -> B -> St checker A) :
  (forall i a x, Oblivious (f i a x)) ->
  (forall i a x, seen (result (f i a x)) = list_to_set (keys x) ∪ seen a) ->
  (forall i a x, codes (f i a x) = [] <-> NoDup (keys x) /\ (forall k, k ∈ keys x -> k ∉ seen a) /\ ok x) ->
  forall l i a, codes (foldM f i a l) = [] <->
    Forall ok l /\ NoDup (l ≫= keys) /\ forall k, k ∈ l ≫= keys -> k ∉ seen a.
Proof.
  intros Hob Hseen Hcodes l. induction l as [|x l IH]; intros i a; simpl.
  { rewrite codes_ret. split; [|done]. intros _. split; [done|]. split; [constructor|]. by intros k ?%not_elem_of_nil. }
  rewrite codes_bind by apply _. rewrite app_nil, Hcodes, IH, Forall_cons, NoDup_app. setoid_rewrite Hseen.
  set_solver.
Qed.
(** The default severities, and what [New] makes of the rest. *)
Class Plain (cfg : Config) : Prop := {
  plain_strict : Strict cfg = false;
  plain_warn : WarnOnly cfg = false;
  plain_skew : 0 < ClockSkew cfg;
  plain_once : NoDup (Sections cfg);
  plain_named : ""%string ∉ Sections cfg;
}.

Section checks.
Context `{!MapRange} (cfg : Config) (now seqno : Z) `{!Plain cfg}.

#[export] Instance fail_oblivious code path : Oblivious (fail cfg seqno code path).
Proof. intros c. unfold fail, emit, codes. rewrite (plain_warn (cfg := cfg)). simpl. by rewrite fatals_app. Qed.

#[export] Instance failStatus_oblivious st code path : Oblivious (failStatus cfg seqno st code path).
Proof. intros c. unfold failStatus, emit, codes. rewrite (plain_warn (cfg := cfg)). simpl. by rewrite fatals_app. Qed.

#[export] Instance warn_oblivious code path : Oblivious (warn cfg seqno code path).
Proof. intros c. unfold warn, emit, codes. rewrite (plain_strict (cfg := cfg)). simpl. by rewrite fatals_app. Qed.

Lemma codes_fail code path : codes (fail cfg seqno code path) = [] <-> False.
Proof. unfold fail, emit, codes. by rewrite (plain_warn (cfg := cfg)). Qed.

Lemma codes_warn code path : codes (warn cfg seqno code path) = [].
Proof. unfold warn, emit, codes. by rewrite (plain_strict (cfg := cfg)). Qed.

#[export] Instance warnOnce_oblivious key code path : Oblivious (warnOnce cfg seqno key code path).
Proof.
  intros c. unfold warnOnce, warn, emit, codes, result. rewrite (plain_strict (cfg := cfg)). rewrite !St_bind_eq. simpl.
  repeat case_bool_decide; simpl; rewrite ?fatals_app; split; try done; by rewrite ?app_nil_r.
Qed.

Lemma codes_warnOnce key code path : codes (warnOnce cfg seqno key code path) = [].
Proof.
  unfold warnOnce, warn, emit, codes. rewrite (plain_strict (cfg := cfg)), St_bind_eq. simpl. by case_bool_decide.
Qed.

Lemma codes_guard b code path : codes (whenM b (fail cfg seqno code path)) = [] <-> b = false.
Proof. rewrite codes_whenM, codes_fail. destruct b; naive_solver. Qed.

Lemma codes_warns b code path : codes (whenM b (warn cfg seqno code path)) = [].
Proof. apply codes_whenM. intros _. apply codes_warn. Qed.

Lemma codes_warnsOnce b key code path : codes (whenM b (warnOnce cfg seqno key code path)) = [].
Proof. apply codes_whenM. intros _. apply codes_warnOnce. Qed.

End checks.

(** ** The contract *)

Definition required (cfg : Config) (name : string) : Prop := name ∈ Sections cfg.

Record envelope_ok (cfg : Config) (now : Z) (key : string) (b : Batch) : Prop := {
  eo_schema : b_SchemaVersion b = SchemaVersion;
  eo_version : b_AgentVersion b <> ""%string;
  eo_instance : b_AgentInstanceID b <> ""%string;
  eo_seq : 1 <= b_BatchSeq b;
  eo_key : key <> ""%string -> key = idempotencyKey b;
  eo_collected : b_CollectedAt b <> zeroTime;
  (* a time 292 years in the past passes: the negation of the least duration is itself *)
  eo_skew : Sub (b_CollectedAt b) now <= ClockSkew cfg /\
    (- ClockSkew cfg <= Sub (b_CollectedAt b) now \/ Sub (b_CollectedAt b) now = - 2 ^ 63);
  eo_ms : 0 <= b_CollectionMs b;
}.

Record sections_ok (cfg : Config) (b : Batch) : Prop := {
  se_named : ""%string ∉ sr_Name <$> b_Sections b;
  se_once : NoDup (sr_Name <$> b_Sections b);
  se_required : base.filter (fun name => name ∈ Sections cfg) (sr_Name <$> b_Sections b) = Sections cfg;
  se_times : forall sec, sec ∈ b_Sections b -> sr_SampledAt sec <> zeroTime /\ 0 <= sr_DurationMs sec;
  se_topics : forall t e, t ∈ b_Sections b -> e ∈ b_Sections b -> sr_Name t = "topics"%string ->
    sr_Name e = "topics_end"%string -> sr_SampledAt t <= sr_SampledAt e;
  se_errors : forall e, e ∈ b_Errors b -> ce_Section e ∈ sr_Name <$> b_Sections b /\ ce_Message e <> ""%string;
  se_counts : forall sec, sec ∈ b_Sections b ->
    sr_ErrorCount sec = Z.of_nat (count (fun e => String.eqb (ce_Section e) (sr_Name sec)) (b_Errors b));
}.

Definition nonneg (o : option Z) : Prop := forall z, o = Some z -> 0 <= z.
Definition ordered (o p : option Z) : Prop := forall x y, o = Some x -> p = Some y -> x <= y.

Record partition_ok (p : Partition) : Prop := {
  pa_start : nonneg (p_StartOffset p);
  pa_end : nonneg (p_EndOffset p);
  pa_lso : nonneg (p_LastStableOffset p);
  pa_order : ordered (p_StartOffset p) (p_EndOffset p);
}.

Record topic_ok (t : TopicMetrics) : Prop := {
  to_count : tm_PartitionCount t = Z.of_nat (length (tm_Partitions t));
  to_once : NoDup (p_ID <$> tm_Partitions t);
  to_parts : Forall partition_ok (tm_Partitions t);
}.

Definition group_ok (g : GroupMetrics) : Prop := g_MemberCount g = Z.of_nat (length (g_Members g)).

Record consumer_ok (co : ConsumerOffset) : Prop := {
  cn_count : co_OffsetCount co = Z.of_nat (length (elems (co_Offsets co)));
  cn_offsets : forall po, po ∈ elems (co_Offsets co) -> nonneg (po_Offset po);
}.

Definition offsetKeys (co : ConsumerOffset) : list string :=
  (fun po => co_GroupID co +:+ nul +:+ tpKey (po_Topic po) (po_Partition po)) <$> elems (co_Offsets co).

Record logDir_ok (d : LogDir) : Prop := {
  lo_named : ld_Dir d <> ""%string;
  lo_total : nonneg (ld_TotalBytes d);
  lo_usable : nonneg (ld_UsableBytes d);
  lo_once : NoDup ((fun p => tpKey (lp_Topic p) (lp_Partition p)) <$> elems (ld_Partitions d));
  lo_sizes : forall p, p ∈ elems (ld_Partitions d) -> 0 <= lp_Size p /\ 0 <= lp_OffsetLag p;
}.

Record data_ok (b : Batch) : Prop := {
  da_brokers : forall cm, b_Cluster b = Some cm -> cm_BrokerCount cm = Z.of_nat (length (cm_Brokers cm));
  da_topics : Forall topic_ok (elems (b_Topics b));
  da_topics_once : NoDup (tm_Name <$> elems (b_Topics b));
  da_groups : Forall group_ok (elems (b_Groups b));
  da_groups_once : NoDup (g_ID <$> elems (b_Groups b));
  da_offsets : Forall consumer_ok (elems (b_Offsets b));
  da_offsets_once : NoDup (elems (b_Offsets b) ≫= offsetKeys);
  da_dirs : Forall logDir_ok (elems (b_LogDirs b));
  da_dirs_once : NoDup (dirKey <$> elems (b_LogDirs b));
}.

Definition entries_ok (l : list string) : Prop := Forall (fun entry => TrimSpace entry <> ""%string) l.

Record truncation_ok (b : Batch) : Prop := {
  tu_counts : forall e, e ∈ b_Errors b -> 0 <= ce_Count e;
  tu_selection : forall s, b_Selection b = Some s ->
    selectionEmpty s = false /\ entries_ok (sel_TopicInclude s) /\ entries_ok (sel_TopicExclude s) /\
    entries_ok (sel_GroupInclude s) /\ entries_ok (sel_GroupExclude s);
  tu_block : forall t, b_Truncation b = Some t ->
    t <> Truncation_zero /\ tr_ErrorsCollapsed t = sumZ sr_ErrorsCollapsed (b_Sections b) /\
    tr_ErrorsDropped t = sumZ sr_ErrorsDropped (b_Sections b);
}.

Record agent_ok (b : Batch) : Prop := {
  ag_collected : as_BatchesCollected (b_Agent b) = b_BatchSeq b;
  ag_exported : as_BatchesExported (b_Agent b) < b_BatchSeq b;
  ag_sum : wrapU 64 (as_BatchesExported (b_Agent b) + as_BatchesDropped (b_Agent b) + as_BatchesRejected (b_Agent b))
    <= as_BatchesCollected (b_Agent b);
  ag_queue : 0 <= as_QueueDepth (b_Agent b);
}.

Record conforms (cfg : Config) (now : Z) (key : string) (b : Batch) : Prop := {
  cf_envelope : envelope_ok cfg now key b;
  cf_sections : sections_ok cfg b;
  cf_data : data_ok b;
  cf_truncation : truncation_ok b;
  cf_agent : agent_ok b;
}.

(** ** The checks decide it *)

#[export] Hint Extern 5 (Oblivious (match ?x with _ => _ end)) => destruct x : typeclass_instances.

Lemma negative_spec o : negative o = false <-> nonneg o.
Proof. unfold negative, nonneg. destruct o as [z|]; [|naive_solver]. rewrite Z.ltb_ge. naive_solver. Qed.

Lemma below_spec o p : below p o = false <-> ordered o p.
Proof. unfold below, ordered. destruct o, p; try naive_solver. rewrite Z.ltb_ge. naive_solver. Qed.

Lemma eqb_false_iff (b : bool) : negb b = false <-> b = true.
Proof. by destruct b. Qed.

Section decide.
Context `{!MapRange, !MapRangeLaws} (cfg : Config) (now seqno : Z) `{!Plain cfg}.

Hint Rewrite @app_nil @codes_ret (codes_guard cfg seqno) (codes_warns cfg seqno) (codes_warnsOnce cfg seqno)
  (codes_fail cfg seqno) (codes_warn cfg seqno) (codes_warnOnce cfg seqno) : codes.

Ltac codes_split := repeat (rewrite codes_bind by apply _); autorewrite with codes.

Hint Rewrite @result_ret @result_of_bind using (apply _) : results.

Lemma opposite_skew skew : - 2 ^ 63 <= skew <= max_int64 ->
  ClockSkew cfg < wrapS 64 (- skew) <-> skew < - ClockSkew cfg /\ skew <> - 2 ^ 63.
Proof.
  intros Hs. pose proof (plain_skew (cfg := cfg)). unfold max_int64 in Hs.
  destruct (decide (skew = - 2 ^ 63)) as [->|Hne].
  - change (wrapS 64 (- - 2 ^ 63)) with (- 2 ^ 63). lia.
  - rewrite wrapS_small by lia. lia.
Qed.

Lemma Sub_range t u : - 2 ^ 63 <= Sub t u <= max_int64.
Proof. unfold Sub, max_int64. lia. Qed.

Lemma checkEnvelope_ok key b : codes (checkEnvelope cfg now seqno key b) = [] <-> envelope_ok cfg now key b.
Proof.
  unfold checkEnvelope. codes_split.
  pose proof (opposite_skew _ (Sub_range (b_CollectedAt b) now)) as Hskew.
  assert (codes (if IsZero (b_CollectedAt b) then fail cfg seqno "envelope.collected_at_zero" "$.collected_at"
    else whenM ((ClockSkew cfg <? Sub (b_CollectedAt b) now) || (ClockSkew cfg <? wrapS 64 (- Sub (b_CollectedAt b) now)))
      (fail cfg seqno "envelope.collected_at_skew" "$.collected_at")) = [] <->
    b_CollectedAt b <> zeroTime /\ Sub (b_CollectedAt b) now <= ClockSkew cfg /\
    (- ClockSkew cfg <= Sub (b_CollectedAt b) now \/ Sub (b_CollectedAt b) now = - 2 ^ 63)) as ->.
  { unfold IsZero. destruct (b_CollectedAt b =? zeroTime) eqn:E; autorewrite with codes.
    - go_bools. intuition congruence.
    - go_bools. rewrite orb_false_iff, !Z.ltb_ge. lia. }
  rewrite eqb_false_iff, Z.eqb_eq, !String.eqb_neq, !Z.ltb_ge, andb_false_iff, !eqb_false_iff, !String.eqb_eq.
  split.
  - intros (H1 & H2 & H3 & H4 & H5 & (H6 & H7) & H8). split; try done. intuition.
  - intros [H1 H2 H3 H4 H5 H6 H7 H8]. split_and!; try done; try apply H7.
    destruct (decide (key = ""%string)); [by left|by right; apply H5].
Qed.

(** *** Sections *)

#[export] Instance checkSection_oblivious i st sec : Oblivious (checkSection cfg seqno i st sec).
Proof. unfold checkSection. apply _. Qed.

Lemma checkSection_codes i byName prev sec :
  codes (checkSection cfg seqno i (byName, prev) sec) = [] <->
  sr_Name sec <> ""%string /\ byName !! sr_Name sec = None /\
  (forall pos, canon cfg !! sr_Name sec = Some pos -> prev < pos) /\
  sr_SampledAt sec <> zeroTime /\ 0 <= sr_DurationMs sec.
Proof.
  unfold checkSection, IsZero. codes_split.
  assert (negb (validStatuses (sr_Status sec)) = false <-> True) as -> by (split; [done|by destruct (sr_Status sec)]).
  rewrite Z.eqb_neq, Z.ltb_ge.
  destruct (String.eqb_spec (sr_Name sec) "") as [En|En]; [codes_split; naive_solver|].
  destruct (byName !! sr_Name sec); [codes_split; naive_solver|].
  destruct (canon cfg !! sr_Name sec) as [pos|]; codes_split.
  - rewrite Z.leb_gt. split; [intros (_ & [? _] & _ & ? & ? & _); split_and!; naive_solver|].
    intros (_ & _ & Hp & ? & ?). split_and!; naive_solver.
  - assert (codes (if false || bool_decide (sr_Name sec ∈ OptionalSections cfg) then mret () else
      warnOnce cfg seqno ("sections.unknown_name/" +:+ sr_Name sec) "sections.unknown_name" (index "$.sections" i)) = [])
      as -> by (case_bool_decide; simpl; autorewrite with codes; done).
    naive_solver.
Qed.

Lemma checkSection_result i byName prev sec :
  sr_Name sec <> ""%string -> byName !! sr_Name sec = None ->
  result (checkSection cfg seqno i (byName, prev) sec) =
    (<[sr_Name sec := sec]> byName, default prev (canon cfg !! sr_Name sec)).
Proof.
  intros Hn Hb. apply String.eqb_neq in Hn. unfold checkSection. rewrite Hn, Hb. autorewrite with results.
  by destruct (canon cfg !! sr_Name sec); autorewrite with results.
Qed.

(** The loop's [byName], when nothing was refused. *)
Definition insertAll (m : gmap string SectionRow) (l : list SectionRow) : gmap string SectionRow :=
  foldl (fun m sec => <[sr_Name sec := sec]> m) m l.

Lemma sectionLoop_ok l i byName prev :
  codes (foldM (checkSection cfg seqno) i (byName, prev) l) = [] <->
  (forall sec, sec ∈ l -> sr_Name sec <> ""%string /\ byName !! sr_Name sec = None /\
     sr_SampledAt sec <> zeroTime /\ 0 <= sr_DurationMs sec) /\
  NoDup (sr_Name <$> l) /\ StronglySorted Z.lt (prev :: omap (fun n => canon cfg !! n) (sr_Name <$> l)).
Proof.
  revert i byName prev. induction l as [|sec l IH]; intros i byName prev.
  { simpl. rewrite codes_ret. split; [|done]. intros _. split; [by intros sec ?%not_elem_of_nil|].
    split; constructor; constructor. }
  rewrite foldM_cons, codes_bind, fmap_cons by apply _. cbn [omap list_omap]. rewrite app_nil, checkSection_codes, NoDup_cons.
  setoid_rewrite elem_of_cons. split.
  - intros ((Hn & Hb & Hp & Ht) & Hrest). rewrite checkSection_result, IH in Hrest by done.
    destruct Hrest as (Hall & Hnd & Hs). split.
    { intros s [->|Hs']; [done|]. destruct (Hall _ Hs') as (? & Hl & ?). split; [done|]. split; [|done].
      by apply lookup_insert_None in Hl as [? _]. }
    split.
    { split; [|done]. intros (s & Hs' & Hin)%list_elem_of_fmap. destruct (Hall _ Hin) as (_ & Hl & _).
      apply lookup_insert_None in Hl as [_ Hne]. by apply Hne. }
    destruct (canon cfg !! sr_Name sec) as [pos|]; simpl in Hs; [|done].
    constructor; [done|]. constructor; [by apply Hp|]. apply StronglySorted_inv in Hs as [_ Hs].
    eapply Forall_impl; [exact Hs|]. intros z. specialize (Hp pos eq_refl). simpl. lia.
  - intros (Hall & [Hnot Hnd] & Hs). destruct (Hall sec ltac:(by left)) as (Hn & Hb & Ht).
    assert (forall pos, canon cfg !! sr_Name sec = Some pos -> prev < pos) as Hp.
    { intros pos E. rewrite E in Hs. simpl in Hs. apply StronglySorted_inv in Hs as [_ Hs]. by inversion Hs. }
    split; [done|]. rewrite checkSection_result, IH by done. split.
    { intros s Hs'. destruct (Hall s ltac:(by right)) as (? & Hl & ?). split; [done|]. split; [|done].
      apply lookup_insert_None. split; [done|]. intros E. apply Hnot. rewrite E. by apply list_elem_of_fmap_2. }
    split; [done|]. destruct (canon cfg !! sr_Name sec) as [pos|]; simpl in Hs |- *; [|done].
    by apply StronglySorted_inv in Hs as [? _].
Qed.

Lemma sectionLoop_result l i byName prev :
  codes (foldM (checkSection cfg seqno) i (byName, prev) l) = [] ->
  (result (foldM (checkSection cfg seqno) i (byName, prev) l)).1 = insertAll byName l.
Proof.
  revert i byName prev. induction l as [|sec l IH]; intros i byName prev; [done|].
  rewrite foldM_cons, codes_bind, result_of_bind by apply _. intros [Hc Hr]%app_nil.
  apply checkSection_codes in Hc as (Hn & Hb & _). rewrite checkSection_result in Hr |- * by done. by apply IH in Hr.
Qed.

Lemma insertAll_lookup l n sec : NoDup (sr_Name <$> l) ->
  insertAll ∅ l !! n = Some sec <-> sec ∈ l /\ sr_Name sec = n.
Proof.
  intros Hnd. unfold insertAll. rewrite (foldl_insert_unique sr_Name (fun s => s)) by done. naive_solver.
Qed.

Lemma insertAll_none l n : NoDup (sr_Name <$> l) -> insertAll ∅ l !! n = None <-> n ∉ sr_Name <$> l.
Proof.
  intros Hnd. rewrite eq_None_not_Some. unfold is_Some. setoid_rewrite (insertAll_lookup _ _ _ Hnd).
  rewrite list_elem_of_fmap. naive_solver.
Qed.

(** The required names in order: their places are increasing. *)
Lemma canon_lookup n pos : canon cfg !! n = Some pos <-> 0 <= pos /\ Sections cfg !! Z.to_nat pos = Some n.
Proof.
  unfold canon.
  rewrite (foldl_insert_unique (fun p : nat * string => p.2) (fun p => Z.of_nat p.1)); [| |done].
  - split.
    + intros ([i n'] & Hin & <- & <-). simpl. rewrite Nat2Z.id. split; [lia|].
      apply list_elem_of_lookup in Hin as [k Hk]. apply lookup_zip_Some in Hk as [Hk1 Hk2]. 
      apply lookup_seq in Hk1 as [-> _]. done.
    + intros [Hpos Hl]. exists (Z.to_nat pos, n). split; [|simpl; split; [done|lia]].
      apply (list_elem_of_lookup_2 _ (Z.to_nat pos)). apply lookup_zip_Some. split; [|done].
      apply lookup_seq. split; [done|]. by apply lookup_lt_Some in Hl.
  - assert ((fun p : nat * string => p.2) <$> zip (seq 0 (length (Sections cfg))) (Sections cfg) = Sections cfg) as ->;
      [|apply plain_once]. apply snd_zip. by rewrite length_seq.
Qed.

Lemma canon_inverse names : Forall (fun n => n ∈ Sections cfg) names ->
  omap (fun pos => Sections cfg !! Z.to_nat pos) (omap (fun n => canon cfg !! n) names) = names.
Proof.
  induction 1 as [|n names Hn _ IH]; [done|]. apply list_elem_of_lookup in Hn as [k Hk]. cbn [omap list_omap].
  assert (canon cfg !! n = Some (Z.of_nat k)) as ->.
  { apply canon_lookup. split; [lia|]. by rewrite Nat2Z.id. }
  cbn [omap list_omap]. rewrite Nat2Z.id, Hk. by f_equal.
Qed.

Lemma canon_places : omap (fun n => canon cfg !! n) (Sections cfg) = Z.of_nat <$> seq 0 (length (Sections cfg)).
Proof.
  assert (forall l k, (forall j n, l !! j = Some n -> Sections cfg !! (k + j)%nat = Some n) ->
    omap (fun n => canon cfg !! n) l = Z.of_nat <$> seq k (length l)) as Hgen; [|by apply (Hgen _ 0%nat)].
  induction l as [|n l IH]; intros k Hl; [done|]. cbn [omap list_omap length seq]. rewrite fmap_cons.
  assert (canon cfg !! n = Some (Z.of_nat k)) as ->.
  { apply canon_lookup. split; [lia|]. rewrite Nat2Z.id. rewrite <- (Nat.add_0_r k). by apply Hl. }
  f_equal. apply IH. intros j n' Hj. replace (S k + j)%nat with (k + S j)%nat by lia. by apply Hl.
Qed.

Lemma seq_sorted k n : StronglySorted Z.lt (Z.of_nat <$> seq k n).
Proof.
  revert k. induction n as [|n IH]; intros k; simpl; [constructor|]. constructor; [apply IH|].
  apply list.Forall_forall. intros z (j & -> & Hj)%list_elem_of_fmap. apply elem_of_seq in Hj. lia.
Qed.

Lemma lt_sorted_le l : StronglySorted Z.lt l -> StronglySorted Z.le l.
Proof.
  induction 1 as [|z l _ IH Hz]; constructor; [done|]. eapply Forall_impl; [exact Hz|]. simpl. lia.
Qed.

Lemma omap_canon_filter (names : list string) :
  omap (fun n => canon cfg !! n) (base.filter (fun n => n ∈ Sections cfg) names) = omap (fun n => canon cfg !! n) names.
Proof.
  induction names as [|n names IH]; [done|]. rewrite list.filter_cons. cbn [omap list_omap].
  destruct (canon cfg !! n) as [pos|] eqn:E.
  - rewrite decide_True; [cbn [omap list_omap]; by rewrite E, IH|].
    apply canon_lookup in E as [_ E]. by eapply list_elem_of_lookup_2.
  - case_decide as Hin; [|done]. exfalso. apply list_elem_of_lookup in Hin as [k Hk].
    assert (canon cfg !! n = Some (Z.of_nat k)); [|congruence].
    apply canon_lookup. split; [lia|]. by rewrite Nat2Z.id.
Qed.

Lemma required_order (names : list string) : NoDup names ->
  StronglySorted Z.lt (-1 :: omap (fun n => canon cfg !! n) names) /\ (forall n, n ∈ Sections cfg -> n ∈ names) <->
  base.filter (fun n => n ∈ Sections cfg) names = Sections cfg.
Proof.
  intros Hnd. rewrite <- (omap_canon_filter names). set (F := base.filter _ names).
  assert (Forall (fun n => n ∈ Sections cfg) F) as HF by (apply list.Forall_forall; intros n [? _]%list_elem_of_filter; done).
  split.
  - intros [Hs Hall]. apply StronglySorted_inv in Hs as [Hs _].
    assert (F ≡ₚ Sections cfg) as Hp.
    { apply NoDup_Permutation; [by apply NoDup_filter|apply plain_once|]. intros n. unfold F. rewrite list_elem_of_filter. naive_solver. }
    assert (omap (fun n => canon cfg !! n) F = omap (fun n => canon cfg !! n) (Sections cfg)) as Heq.
    { apply (StronglySorted_unique Z.le).
      - by apply lt_sorted_le.
      - rewrite canon_places. apply lt_sorted_le, seq_sorted.
      - by rewrite Hp. }
    rewrite <- (canon_inverse F HF), Heq. apply canon_inverse. by apply list.Forall_forall.
  - intros Heq. split; [|intros n Hn; rewrite <- Heq in Hn; by apply list_elem_of_filter in Hn as [_ ?]].
    rewrite Heq, canon_places. constructor; [apply seq_sorted|].
    apply list.Forall_forall. intros z (j & -> & _)%list_elem_of_fmap. lia.
Qed.

#[export] Instance checkError_oblivious byName i counted e : Oblivious (checkError cfg seqno byName i counted e).
Proof. unfold checkError. apply _. Qed.

Lemma checkError_codes byName i counted e :
  codes (checkError cfg seqno byName i counted e) = [] <->
  byName !! ce_Section e <> None /\ ce_Message e <> ""%string.
Proof. unfold checkError. codes_split. rewrite bool_decide_eq_false, String.eqb_neq. naive_solver. Qed.

Lemma checkError_result byName i counted e :
  result (checkError cfg seqno byName i counted e) = <[ce_Section e := default 0 (counted !! ce_Section e) + 1]> counted.
Proof. unfold checkError. by autorewrite with results. Qed.

Lemma errorLoop_ok byName l i counted :
  codes (foldM (checkError cfg seqno byName) i counted l) = [] <->
  forall e, e ∈ l -> byName !! ce_Section e <> None /\ ce_Message e <> ""%string.
Proof.
  revert i counted. induction l as [|e l IH]; intros i counted; [by split; [intros _ e ?%not_elem_of_nil|]|].
  rewrite foldM_cons, codes_bind, app_nil, checkError_codes, IH by apply _. split.
  - intros [He Hl] e' [->|Hin]%elem_of_cons; auto.
  - intros Hall. split; [apply Hall; by left|]. intros e' Hin. apply Hall. by right.
Qed.

Lemma errorLoop_result byName l i counted n :
  default 0 (result (foldM (checkError cfg seqno byName) i counted l) !! n) =
  default 0 (counted !! n) + Z.of_nat (count (fun e => String.eqb (ce_Section e) n) l).
Proof.
  revert i counted. induction l as [|e l IH]; intros i counted; [by rewrite Z.add_0_r|].
  rewrite foldM_cons, result_of_bind, checkError_result, IH, count_cons by apply _.
  destruct (String.eqb_spec (ce_Section e) n) as [->|Hne].
  - rewrite lookup_insert_eq. simpl. lia.
  - rewrite lookup_insert_ne by done. lia.
Qed.

Lemma checkCount_codes counted n sec :
  codes (checkCount cfg seqno counted (n, sec)) = [] <-> sr_ErrorCount sec = default 0 (counted !! n).
Proof. unfold checkCount. codes_split. rewrite eqb_false_iff, Z.eqb_eq. naive_solver. Qed.

#[export] Instance checkCount_oblivious counted p : Oblivious (checkCount cfg seqno counted p).
Proof. unfold checkCount. apply _. Qed.

#[export] Instance checkPhaseOrder_oblivious byName b : Oblivious (checkPhaseOrder cfg seqno byName b).
Proof. unfold checkPhaseOrder. apply _. Qed.

Lemma checkPhaseOrder_codes byName b : codes (checkPhaseOrder cfg seqno byName b) = [].
Proof.
  unfold checkPhaseOrder. repeat case_match; try done; codes_split; try done; split; done.
Qed.

Lemma checkSections_ok b : codes (checkSections cfg seqno b) = [] <-> sections_ok cfg b.
Proof.
  unfold checkSections. rewrite codes_bind by apply _.
  rewrite app_nil. set (loop := foldM _ _ _ (b_Sections b)).
  destruct (decide (codes loop = [])) as [Hl|Hl].
  2: { split; [tauto|]. intros [Hn Ho Hr Ht _ _ _]. exfalso. apply Hl, sectionLoop_ok. split.
       - intros sec Hin. split_and!; [|done|by apply Ht..].
         intros E. apply Hn. rewrite <- E. by apply list_elem_of_fmap_2.
       - split; [done|]. by apply required_order. }
  pose proof (sectionLoop_result _ _ _ _ Hl) as Hres. fold loop in Hres. destruct (result loop) as [byName prev].
  simpl in Hres. subst byName. pose proof Hl as Hclean. apply sectionLoop_ok in Hl as (Hall & Hnd & Hs).
  assert (forall sec, sec ∈ b_Sections b -> insertAll ∅ (b_Sections b) !! sr_Name sec = Some sec) as Hfind
    by (intros sec Hin; by apply insertAll_lookup).
  codes_split. rewrite checkPhaseOrder_codes, codes_iterM, errorLoop_ok, codes_iterM by apply _.
  assert ((forall want, want ∈ Sections cfg -> codes (whenM (bool_decide (insertAll ∅ (b_Sections b) !! want = None))
      (fail cfg seqno "sections.missing" "$.sections")) = []) <->
    (forall want, want ∈ Sections cfg -> want ∈ sr_Name <$> b_Sections b)) as ->.
  { split; intros Hw want Hin; specialize (Hw want Hin); autorewrite with codes in *.
    - apply bool_decide_eq_false in Hw. rewrite insertAll_none in Hw by done.
      by destruct (decide (want ∈ sr_Name <$> b_Sections b)).
    - apply bool_decide_eq_false. rewrite insertAll_none by done. intros Hnot. by apply Hnot. }
  assert (codes match insertAll ∅ (b_Sections b) !! "topics"%string, insertAll ∅ (b_Sections b) !! "topics_end"%string with
    | Some topics, Some topicsEnd => whenM (sr_SampledAt topicsEnd <? sr_SampledAt topics)
        (fail cfg seqno "sections.topics_end_before_topics" "$.sections")
    | _, _ => mret () end = [] <->
    (forall t e, t ∈ b_Sections b -> e ∈ b_Sections b -> sr_Name t = "topics"%string ->
      sr_Name e = "topics_end"%string -> sr_SampledAt t <= sr_SampledAt e)) as ->.
  { split.
    - intros Hc t e Ht He Et Ee. pose proof (Hfind _ Ht) as Ft. pose proof (Hfind _ He) as Fe.
      rewrite Et in Ft. rewrite Ee in Fe. rewrite Ft, Fe in Hc. autorewrite with codes in Hc. lia.
    - intros Hc. destruct (insertAll ∅ (b_Sections b) !! "topics"%string) as [t|] eqn:Et; [|done].
      destruct (insertAll ∅ (b_Sections b) !! "topics_end"%string) as [e|] eqn:Ee; [|done].
      apply (insertAll_lookup _ _ _ Hnd) in Et as [Ht Et]. apply (insertAll_lookup _ _ _ Hnd) in Ee as [He Ee].
      autorewrite with codes. specialize (Hc t e Ht He Et Ee). lia. }
  assert ((forall p, p ∈ ranged (insertAll ∅ (b_Sections b)) -> codes (checkCount cfg seqno
      (result (foldM (checkError cfg seqno (insertAll ∅ (b_Sections b))) 0 ∅ (b_Errors b))) p) = []) <->
    (forall sec, sec ∈ b_Sections b ->
      sr_ErrorCount sec = Z.of_nat (count (fun e => String.eqb (ce_Section e) (sr_Name sec)) (b_Errors b)))) as ->.
  { setoid_rewrite ranged_perm. split.
    - intros Hc sec Hin. specialize (Hc (sr_Name sec, sec)). rewrite elem_of_map_to_list in Hc.
      specialize (Hc (Hfind _ Hin)). rewrite checkCount_codes, errorLoop_result in Hc. by rewrite Hc.
    - intros Hc [n sec] Hin%elem_of_map_to_list. apply (insertAll_lookup _ _ _ Hnd) in Hin as [Hin <-].
      rewrite checkCount_codes, errorLoop_result. by rewrite Hc. }
  assert ((forall e, e ∈ b_Errors b -> insertAll ∅ (b_Sections b) !! ce_Section e <> None /\ ce_Message e <> ""%string) <->
    (forall e, e ∈ b_Errors b -> ce_Section e ∈ sr_Name <$> b_Sections b /\ ce_Message e <> ""%string)) as ->.
  { split; intros He e Hin; destruct (He e Hin) as [Hs' Hm]; (split; [|done]).
    - rewrite insertAll_none in Hs' by done. by destruct (decide (ce_Section e ∈ sr_Name <$> b_Sections b)).
    - rewrite insertAll_none by done. intros Hnot. by apply Hnot. }
  split.
  - intros (_ & Hw & Ht & _ & He & Hc & _). split; try done.
    + intros (sec & E & Hin)%list_elem_of_fmap. by destruct (Hall _ Hin) as [? _].
    + by apply required_order.
    + intros sec Hin. apply (Hall _ Hin).
  - intros [_ _ Hr _ Ht He Hc]. split_and!; try done. intros want Hin. rewrite <- Hr in Hin.
    by apply list_elem_of_filter in Hin as [_ ?].
Qed.

(** *** Data *)

Lemma bind_singleton {A B} (f : A -> B) (l : list A) : (l ≫= fun x => [f x]) = f <$> l.
Proof. induction l as [|x l IH]; [done|]. cbn. by rewrite IH. Qed.

Lemma seen_loop {A B K} `{Countable K} (keys : B -> list K) (seen : A -> gset K) (f : nat -> A -> B -> St checker A) :
  (forall i a x, Oblivious (f i a x)) ->
  (forall i a x, seen (result (f i a x)) = list_to_set (keys x) ∪ seen a) ->
  forall l i a, seen (result (foldM f i a l)) = list_to_set (l ≫= keys) ∪ seen a.
Proof.
  intros Hob Hseen l. induction l as [|x l IH]; intros i a; [simpl; set_solver|].
  rewrite foldM_cons, result_of_bind, IH, Hseen by apply _. rewrite bind_cons, list_to_set_app_L. set_solver.
Qed.

Lemma one_new {K} (k : K) (P : Prop) (Q : K -> Prop) :
  NoDup [k] /\ (forall k', k' ∈ [k] -> Q k') /\ P <-> Q k /\ P.
Proof. split; [intros (_ & Hq & Hp); split; [apply Hq; by left|done]|]. intros [Hq Hp]. split; [apply NoDup_singleton|].
  split; [|done]. by intros k' ->%list_elem_of_singleton. Qed.

#[export] Instance checkPartition_oblivious t path j st p : Oblivious (checkPartition cfg seqno t path j st p).
Proof. unfold checkPartition. apply _. Qed.

Lemma partitionLoop_ok t path l i st :
  codes (foldM (checkPartition cfg seqno t path) i st l) = [] <->
  Forall partition_ok l /\ NoDup (p_ID <$> l) /\ forall n, n ∈ p_ID <$> l -> n ∉ seenPart st.
Proof.
  rewrite <- bind_singleton. apply codes_unique; [apply _| |].
  - intros j a p. unfold checkPartition. autorewrite with results. simpl. set_solver.
  - intros j a p. rewrite one_new. unfold checkPartition. codes_split.
    rewrite codes_whenM. assert ((p_ErrorCode p =? 0) = true -> codes
      (whenM (negb (contains (p_Replicas p) (p_Leader p)) && (0 <=? p_Leader p))
        (warn cfg seqno "data.leader_not_replica" (index (path +:+ ".partitions") j)) ;;
       whenM (existsb (fun id => negb (contains (p_Replicas p) id)) (p_ISR p))
        (warn cfg seqno "data.isr_not_subset" (index (path +:+ ".partitions") j))) = []) as Hw
      by (intros _; codes_split; done).
    rewrite bool_decide_eq_false, !negative_spec, !below_spec.
    split; [intros (? & _ & ? & ? & ? & ? & _); by split|intros [? [? ? ? ?]]; split_and!; done].
Qed.

#[export] Instance checkTopic_oblivious i st t : Oblivious (checkTopic cfg seqno i st t).
Proof. unfold checkTopic, countCheck. apply _. Qed.

Lemma topicLoop_ok l i st :
  codes (foldM (checkTopic cfg seqno) i st l) = [] <->
  Forall topic_ok l /\ NoDup (tm_Name <$> l) /\ forall n, n ∈ tm_Name <$> l -> n ∉ seenTopic st.
Proof.
  rewrite <- bind_singleton. apply codes_unique; [apply _| |].
  - intros j a t. unfold checkTopic, countCheck. autorewrite with results. simpl. set_solver.
  - intros j a t. rewrite one_new. unfold checkTopic, countCheck. codes_split.
    rewrite partitionLoop_ok, bool_decide_eq_false, eqb_false_iff, Z.eqb_eq. split.
    + intros (? & _ & ? & (? & ? & _) & _). by split.
    + intros [? [? ? ?]]. split_and!; done.
Qed.

#[export] Instance checkGroup_oblivious i st g : Oblivious (checkGroup cfg seqno i st g).
Proof. unfold checkGroup, countCheck. apply _. Qed.

Lemma groupLoop_ok l i st :
  codes (foldM (checkGroup cfg seqno) i st l) = [] <->
  Forall group_ok l /\ NoDup (g_ID <$> l) /\ forall n, n ∈ g_ID <$> l -> n ∉ seenGroup st.
Proof.
  rewrite <- bind_singleton. apply codes_unique; [apply _| |].
  - intros j a g. unfold checkGroup, countCheck. autorewrite with results. simpl. set_solver.
  - intros j a g. rewrite one_new. unfold checkGroup, countCheck. codes_split.
    rewrite bool_decide_eq_false, eqb_false_iff, Z.eqb_eq. unfold group_ok. naive_solver.
Qed.

#[export] Instance checkOffset_oblivious ts b group path j seen po : Oblivious (checkOffset cfg seqno ts b group path j seen po).
Proof. unfold checkOffset. apply _. Qed.

Notation offsetKey group po := (group +:+ nul +:+ tpKey (po_Topic po) (po_Partition po)).

Lemma checkOffset_result ts b group path j seen po :
  result (checkOffset cfg seqno ts b group path j seen po) = {[offsetKey group po]} ∪ seen.
Proof. unfold checkOffset. by autorewrite with results. Qed.

Lemma checkOffset_codes ts b group path j seen po :
  codes (checkOffset cfg seqno ts b group path j seen po) = [] <->
  offsetKey group po ∉ seen /\ nonneg (po_Offset po).
Proof.
  unfold checkOffset. codes_split. rewrite bool_decide_eq_false. unfold nonneg.
  destruct (po_Offset po) as [off|]; [|naive_solver].
  destruct (off <? 0) eqn:E; go_bools; codes_split.
  { split; [naive_solver|]. intros [_ Hz]. specialize (Hz off eq_refl). lia. }
  assert (codes match t_ends ts !! tpKey (po_Topic po) (po_Partition po) with
    | Some end_ => whenM ((end_ <? off) && usable b ["topics_end"; "offsets"]%string)
        (warn cfg seqno "data.negative_lag" (index (path +:+ ".offsets") j))
    | None => whenM (negb (bool_decide (po_Topic po ∈ seenTopic ts)))
        (warnOnce cfg seqno ("data.orphan_offset/" +:+ po_Topic po) "data.orphan_offset" (index (path +:+ ".offsets") j))
    end = []) as -> by (case_match; autorewrite with codes; done).
  naive_solver.
Qed.

Lemma offsetLoop_ok ts b group path l i seen :
  codes (foldM (checkOffset cfg seqno ts b group path) i seen l) = [] <->
  Forall (fun po => nonneg (po_Offset po)) l /\ NoDup ((fun po => offsetKey group po) <$> l) /\
  forall k, k ∈ (fun po => offsetKey group po) <$> l -> k ∉ seen.
Proof.
  rewrite <- bind_singleton. apply (codes_unique _ (fun s => s)); [apply _| |].
  - intros j a po. rewrite checkOffset_result. set_solver.
  - intros j a po. by rewrite one_new, checkOffset_codes.
Qed.

#[export] Instance checkConsumer_oblivious ts b i st co : Oblivious (checkConsumer cfg seqno ts b i st co).
Proof. unfold checkConsumer, countCheck. apply _. Qed.

Lemma consumerLoop_ok ts b l i st :
  codes (foldM (checkConsumer cfg seqno ts b) i st l) = [] <->
  Forall consumer_ok l /\ NoDup (l ≫= offsetKeys) /\ forall k, k ∈ l ≫= offsetKeys -> k ∉ st.1.
Proof.
  apply (codes_unique offsetKeys fst); [apply _| |].
  - intros j [seen prev] co. unfold checkConsumer, countCheck. autorewrite with results. simpl.
    rewrite (seen_loop (fun po => [offsetKey (co_GroupID co) po]) (fun s => s)); [by rewrite bind_singleton|apply _|].
    intros k a po. rewrite checkOffset_result. set_solver.
  - intros j [seen prev] co. unfold checkConsumer, countCheck. codes_split.
    rewrite offsetLoop_ok, eqb_false_iff, Z.eqb_eq, list.Forall_forall. fold (offsetKeys co). split.
    + intros (_ & ? & (? & ? & ?) & _). split_and!; try done. 
    + intros (? & ? & [? ?]). split_and!; done.
Qed.

#[export] Instance checkLogDirPartition_oblivious path j seen p : Oblivious (checkLogDirPartition cfg seqno path j seen p).
Proof. unfold checkLogDirPartition. apply _. Qed.

#[export] Instance checkLogDir_oblivious i seen d : Oblivious (checkLogDir cfg seqno i seen d).
Proof. unfold checkLogDir. apply _. Qed.

Lemma logDirPartitionLoop_ok path l i seen :
  codes (foldM (checkLogDirPartition cfg seqno path) i seen l) = [] <->
  Forall (fun p => 0 <= lp_Size p /\ 0 <= lp_OffsetLag p) l /\
  NoDup ((fun p => tpKey (lp_Topic p) (lp_Partition p)) <$> l) /\
  forall k, k ∈ (fun p => tpKey (lp_Topic p) (lp_Partition p)) <$> l -> k ∉ seen.
Proof.
  rewrite <- bind_singleton. apply (codes_unique _ (fun s => s)); [apply _| |].
  - intros j a p. unfold checkLogDirPartition. autorewrite with results. set_solver.
  - intros j a p. rewrite one_new. unfold checkLogDirPartition. codes_split.
    rewrite bool_decide_eq_false, !Z.ltb_ge. naive_solver.
Qed.

Lemma logDirLoop_ok l i seen :
  codes (foldM (checkLogDir cfg seqno) i seen l) = [] <->
  Forall logDir_ok l /\ NoDup (dirKey <$> l) /\ forall k, k ∈ dirKey <$> l -> k ∉ seen.
Proof.
  rewrite <- bind_singleton. apply (codes_unique _ (fun s => s)); [apply _| |].
  - intros j a d. unfold checkLogDir. autorewrite with results. set_solver.
  - intros j a d. rewrite one_new. unfold checkLogDir. codes_split.
    rewrite logDirPartitionLoop_ok, bool_decide_eq_false, String.eqb_neq, !negative_spec, list.Forall_forall. split.
    + intros (? & ? & ? & ? & _ & (? & ? & _) & _). by split.
    + intros [? [? ? ? ? ?]]. split_and!; done.
Qed.

Lemma checkData_ok b : codes (checkData cfg seqno b) = [] <-> data_ok b.
Proof.
  unfold checkData, checkLogDirs. codes_split. rewrite topicLoop_ok, groupLoop_ok, consumerLoop_ok, logDirLoop_ok. simpl.
  assert (codes match b_Cluster b with
    | Some cm => whenM (negb (cm_BrokerCount cm =? Z.of_nat (length (cm_Brokers cm)))) (fail cfg seqno "data.broker_count" "$.cluster")
    | None => mret () end = [] <->
    (forall cm, b_Cluster b = Some cm -> cm_BrokerCount cm = Z.of_nat (length (cm_Brokers cm)))) as ->.
  { destruct (b_Cluster b) as [cm|]; autorewrite with codes; [rewrite eqb_false_iff, Z.eqb_eq|]; naive_solver. }
  split.
  - intros (? & (? & ? & _) & (? & ? & _) & _ & (? & ? & _) & ((? & ? & _) & _)). by split.
  - intros []. split_and!; try done; intros ? _; apply not_elem_of_empty.
Qed.

(** *** Truncation, telemetry, the whole batch *)

#[export] Instance checkEntries_oblivious field l : Oblivious (checkEntries cfg seqno field l).
Proof. unfold checkEntries. apply _. Qed.

Lemma checkEntries_ok field l : codes (checkEntries cfg seqno field l) = [] <-> entries_ok l.
Proof.
  unfold checkEntries, entries_ok. generalize 0%nat as i. induction l as [|x l IH]; intros i; [by split; [constructor|]|].
  rewrite foldM_cons, codes_bind, app_nil, Forall_cons by apply _. autorewrite with codes. rewrite String.eqb_neq.
  destruct (result _). by rewrite IH.
Qed.

#[export] Instance checkSelection_oblivious s : Oblivious (checkSelection cfg seqno s).
Proof. unfold checkSelection. apply _. Qed.

Lemma countLoop_ok (l : list CollectionError) i :
  codes (foldM (fun i (_ : ()) e => whenM (ce_Count e <? 0) (fail cfg seqno "errors.negative_count" (index "$.errors" i))) i tt l) = []
  <-> forall e, e ∈ l -> 0 <= ce_Count e.
Proof.
  revert i. induction l as [|e l IH]; intros i; [by split; [intros _ e ?%not_elem_of_nil|]|].
  rewrite foldM_cons, codes_bind, app_nil by apply _. autorewrite with codes. destruct (result _). rewrite IH, Z.ltb_ge. split.
  - intros [He Hl] e' [->|Hin]%elem_of_cons; auto.
  - intros Hall. split; [apply Hall; by left|]. intros e' Hin. apply Hall. by right.
Qed.

Lemma checkTruncation_ok b : codes (checkTruncation cfg seqno b) = [] <-> truncation_ok b.
Proof.
  unfold checkTruncation. codes_split. rewrite countLoop_ok.
  assert (codes match b_Selection b with Some s => checkSelection cfg seqno s | None => mret () end = [] <->
    (forall s, b_Selection b = Some s ->
      selectionEmpty s = false /\ entries_ok (sel_TopicInclude s) /\ entries_ok (sel_TopicExclude s) /\
      entries_ok (sel_GroupInclude s) /\ entries_ok (sel_GroupExclude s))) as ->.
  { destruct (b_Selection b) as [s|]; [|naive_solver]. unfold checkSelection. codes_split.
    rewrite !checkEntries_ok. naive_solver. }
  assert (codes match b_Truncation b with
    | None => mret ()
    | Some t =>
        whenM (bool_decide (t = Truncation_zero)) (fail cfg seqno "truncation.empty" "$.truncation") ;;
        whenM (negb (tr_ErrorsCollapsed t =? sumZ sr_ErrorsCollapsed (b_Sections b)))
          (fail cfg seqno "truncation.errors_collapsed" "$.truncation") ;;
        whenM (negb (tr_ErrorsDropped t =? sumZ sr_ErrorsDropped (b_Sections b)))
          (fail cfg seqno "truncation.errors_dropped" "$.truncation")
    end = [] <->
    (forall t, b_Truncation b = Some t ->
      t <> Truncation_zero /\ tr_ErrorsCollapsed t = sumZ sr_ErrorsCollapsed (b_Sections b) /\
      tr_ErrorsDropped t = sumZ sr_ErrorsDropped (b_Sections b))) as ->.
  { destruct (b_Truncation b) as [t|]; [|naive_solver]. codes_split.
    rewrite bool_decide_eq_false, !eqb_false_iff, !Z.eqb_eq. naive_solver. }
  split; [intros (? & ? & ?); by split|by intros []].
Qed.

Lemma checkAgent_ok b : codes (checkAgent cfg seqno b) = [] <-> agent_ok b.
Proof.
  unfold checkAgent. codes_split. rewrite wrapU_add.
  assert (codes (if as_QueueDepth (b_Agent b) <? 0 then fail cfg seqno "agent.queue_depth" "$.agent"
    else whenM (0 <? as_QueueDepth (b_Agent b)) (warn cfg seqno "agent.queue_depth_positive" "$.agent")) = [] <->
    0 <= as_QueueDepth (b_Agent b)) as ->.
  { destruct (_ <? 0) eqn:E; autorewrite with codes; go_bools; intuition lia. }
  rewrite eqb_false_iff, Z.eqb_eq, Z.leb_gt, Z.ltb_ge. split; [intros (? & ? & ? & ?); by split|by intros []].
Qed.

#[export] Instance checkEnvelope_oblivious key b : Oblivious (checkEnvelope cfg now seqno key b).
Proof. unfold checkEnvelope. apply _. Qed.
#[export] Instance checkSections_oblivious b : Oblivious (checkSections cfg seqno b).
Proof. unfold checkSections. apply _. Qed.
#[export] Instance checkData_oblivious b : Oblivious (checkData cfg seqno b).
Proof. unfold checkData, checkLogDirs. apply _. Qed.
#[export] Instance checkTruncation_oblivious b : Oblivious (checkTruncation cfg seqno b).
Proof. unfold checkTruncation. apply _. Qed.
#[export] Instance checkAgent_oblivious b : Oblivious (checkAgent cfg seqno b).
Proof. unfold checkAgent. apply _. Qed.
#[export] Instance checkBatch_oblivious key b : Oblivious (checkBatch cfg now seqno key b).
Proof. unfold checkBatch. apply _. Qed.

Lemma checkBatch_ok key b : codes (checkBatch cfg now seqno key b) = [] <-> conforms cfg now key b.
Proof.
  unfold checkBatch. codes_split.
  rewrite checkEnvelope_ok, checkSections_ok, checkData_ok, checkTruncation_ok, checkAgent_ok.
  split; [intros (? & ? & ? & ? & ?); by split|by intros []].
Qed.
End decide.

Lemma fatals_nil l : fatals l = [] <-> forall f, f ∈ l -> f_Severity f = SeverityWarn.
Proof.
  unfold fatals. split.
  - intros Hl%fmap_nil_inv f Hf. destruct (f_Severity f) eqn:E; [|done]. exfalso.
    assert (f ∈ base.filter (fun f => Is_true (is_fatal f)) l) as Hin
      by (apply list_elem_of_filter; split; [unfold is_fatal; by rewrite E|done]).
    rewrite Hl in Hin. by apply not_elem_of_nil in Hin.
  - intros Hl. destruct (base.filter _ l) as [|f k] eqn:E; [done|]. exfalso.
    assert (f ∈ f :: k) as Hf by left. rewrite <- E in Hf. apply list_elem_of_filter in Hf as [Hb Hin].
    unfold is_fatal in Hb. by rewrite (Hl _ Hin) in Hb.
Qed.

(** C24: With the default severities the checks decide the contract: whatever was
    warned about before, the checks of a batch report no fatal failure exactly
    when the batch conforms: every loop and counter of the checker comes down to
    the plain statement of [conforms]. *)
Theorem checks_decide `{!MapRange, !MapRangeLaws} (cfg : Config) (now seqno : Z) (key : string) (b : Batch)
    (seen : gset string) :
  Plain cfg ->
  (forall f, f ∈ out (checkBatch cfg now seqno key b (mkChecker seen [])).2 -> f_Severity f = SeverityWarn) <->
  conforms cfg now key b.
Proof.
  intros Hp. rewrite <- (checkBatch_ok cfg now seqno key b), <- fatals_nil.
  destruct (checkBatch_oblivious cfg now seqno key b (mkChecker seen [])) as [_ ->]. done.
Qed.

(** ** A batch that conforms, and one that does not *)

Definition listed_range : MapRange := {| ranged := map_to_list |}.

Lemma listed_range_laws : @MapRangeLaws listed_range.
Proof. by split. Qed.

Definition demo_config : Config :=
  mkConfig "/v1/batches" "" false false 0 20 33554432 (5 * Minute) 1000 SectionNames []
    (mkFaults 0 500 0 429 1 0 0 0 0 0).

Definition demo_row (name : string) : SectionRow :=
  mkSectionRow name (if String.eqb name "groups" then SectionPartial else SectionOK) 1000 0
    (if String.eqb name "groups" then 1 else 0) 0 0 false.

(** A batch of one topic, one group and one error; [end_] is the partition's high
    watermark. *)
Definition demo_batch (end_ : Z) : Batch :=
  mkBatch 1 "1.0" "a" 1 1000 5 None
    (Some [mkTopicMetrics "t" "" false 1 1
             [mkPartition 0 1 0 [1] [1] [] (Some 3) (Some end_) (Some 7) None None None 0] 0])
    (Some [mkGroupMetrics "g" "Stable" 1 (-1) "" "" "" 0 [] 0 None None ""])
    (Some [mkConsumerOffset "g" 0 (Some [mkPartitionOffset "t" 0 (Some 9) 0 "" 0]) 1])
    None None None None None None None "" (mkAgentStats 0 1 0 0 0 0 0 "" None)
    (demo_row <$> SectionNames)
    [mkCollectionError "groups" "" None "" None "" "g" 15 "coordinator" "coordinator loading" 0] None None.

Lemma demo_plain : Plain demo_config.
Proof. split; [done|done|done|apply (bool_decide_unpack _); by vm_compute|apply (bool_decide_unpack _); by vm_compute]. Qed.

(** The first batch conforms, though its lag is negative: that is a warning.  The
    second is refused, its high watermark being below its start. *)
Theorem checks_decide_witness :
  conforms demo_config 2000 "a-1" (demo_batch 7) /\ ~ conforms demo_config 2000 "a-1" (demo_batch 2) /\
  (f_Code <$> out (@checkBatch listed_range demo_config 2000 1 "a-1" (demo_batch 7) (mkChecker ∅ [])).2) =
    ["data.generation_absent"; "data.negative_lag"]%string.
Proof.
  split; [|split].
  - apply (@checks_decide listed_range listed_range_laws demo_config 2000 1 "a-1" (demo_batch 7) ∅ demo_plain).
    vm_compute out. intros f. rewrite !elem_of_cons. intros [->|[->|Hf]]; [reflexivity|reflexivity|by apply not_elem_of_nil in Hf].
  - intros Hc.
    pose proof (proj2 (@checks_decide listed_range listed_range_laws demo_config 2000 1 "a-1" (demo_batch 2) ∅ demo_plain) Hc) as Hc'.
    assert (existsb is_fatal (out (@checkBatch listed_range demo_config 2000 1 "a-1" (demo_batch 2) (mkChecker ∅ [])).2) = true)
      as Hf by (vm_compute; reflexivity).
    apply existsb_exists in Hf as (f & Hin & Hf). apply list_elem_of_In in Hin. specialize (Hc' f Hin).
    unfold is_fatal in Hf. by rewrite Hc' in Hf.
  - vm_compute. reflexivity.
Defined.
