(* ===== verification/Ingest.v ===== *)
(** * Ingest: the conformance server ([internal/mockingest/server.go],
      [internal/mockingest/faults.go], the request half of
      [internal/mockingest/check.go], [record] and the counters of
      [internal/mockingest/report.go])

    Requests are served concurrently and share the server under one mutex.  A
    handler is a sequence of atomic actions, one per stretch of [handleIngest]
    between two points where others can run: the request is counted, the body is
    checked, the delivery is compared with earlier ones, the outcome is recorded,
    the fault is decided, the delay ends, the answer is committed.  [warnOnce]
    takes the mutex by itself; its uses are part of the check's action, which only
    decides which of two requests prints a warning.

    The standard library's decoders are the class [Decoders]. *)

From Stdlib Require Import ZArith Lia Ascii.
From stdpp Require Import prelude gmap strings numbers pretty sorting.
From S2P Require Import Prelude Wire Errors Filter Strconv Checks Conform.

(** [mime.ParseMediaType], [gzip.Reader], [sha256.Sum256] in hex, the strict JSON
    decoder with its [More], whether [float64(wire)/float64(raw) > 0.6], and the
    marshalled error body, messages included: a [Failure] here has none. *)
Class Decoders := {
  ParseMediaType : string -> option string;
  gzipHeader : string -> option goerr;
  gzipBody : string -> string * option goerr;
  gzipClose : string -> option goerr;
  sha256hex : string -> string;
  DecodeBatch : string -> option (Batch * bool);
  savedNothing : Z -> Z -> bool;
  MarshalFailures : Z -> list Failure -> nat -> option string;
}.

(** ** Requests, results *)

Record HTTPRequest := mkRequest {
  rq_Method : string;
  rq_Path : string;
  rq_APIKey : string;
  rq_ContentType : string;
  rq_Key : string;
  rq_ContentLength : Z;
  rq_Encoding : string;
  rq_Body : string * option goerr;          (* what can be read, and how reading ends *)
}.

Record result := mkResult {
  re_n : Z;
  re_failures : list Failure;
  re_raw : string;
  re_batch : option Batch;
  re_key : string;
  re_instance : string;
  re_seq : Z;
  re_hash : string;
  re_gzipped : bool;
  re_wireLen : Z;
  re_rawLen : Z;
  re_newInstance : bool;
  re_retry : bool;
  re_afterFault : bool;
  re_exportErr : string;
}.

Definition newResult (n : Z) : result := mkResult n [] "" None "" "" 0 "" false 0 0 false false false "".

Definition set_key (key : string) (r : result) : result :=
  mkResult (re_n r) (re_failures r) (re_raw r) (re_batch r) key (re_instance r) (re_seq r) (re_hash r) (re_gzipped r)
    (re_wireLen r) (re_rawLen r) (re_newInstance r) (re_retry r) (re_afterFault r) (re_exportErr r).
Definition set_wire (gzipped : bool) (n : Z) (r : result) : result :=
  mkResult (re_n r) (re_failures r) (re_raw r) (re_batch r) (re_key r) (re_instance r) (re_seq r) (re_hash r) gzipped
    n (re_rawLen r) (re_newInstance r) (re_retry r) (re_afterFault r) (re_exportErr r).
Definition set_raw (raw hash : string) (n : Z) (r : result) : result :=
  mkResult (re_n r) (re_failures r) raw (re_batch r) (re_key r) (re_instance r) (re_seq r) hash (re_gzipped r)
    (re_wireLen r) n (re_newInstance r) (re_retry r) (re_afterFault r) (re_exportErr r).
Definition set_batch (b : Batch) (r : result) : result :=
  mkResult (re_n r) (re_failures r) (re_raw r) (Some b) (re_key r) (b_AgentInstanceID b) (b_BatchSeq b) (re_hash r)
    (re_gzipped r) (re_wireLen r) (re_rawLen r) (re_newInstance r) (re_retry r) (re_afterFault r) (re_exportErr r).
Definition set_failures (fs : list Failure) (r : result) : result :=
  mkResult (re_n r) fs (re_raw r) (re_batch r) (re_key r) (re_instance r) (re_seq r) (re_hash r) (re_gzipped r)
    (re_wireLen r) (re_rawLen r) (re_newInstance r) (re_retry r) (re_afterFault r) (re_exportErr r).
Definition set_state (newInstance retry afterFault : bool) (exportErr : string) (r : result) : result :=
  mkResult (re_n r) (re_failures r) (re_raw r) (re_batch r) (re_key r) (re_instance r) (re_seq r) (re_hash r)
    (re_gzipped r) (re_wireLen r) (re_rawLen r) newInstance retry afterFault exportErr.

(** ** Transport and decoding *)

Definition StatusBadRequest : Z := 400.
Definition StatusUnauthorized : Z := 401.
Definition StatusNotFound : Z := 404.
Definition StatusMethodNotAllowed : Z := 405.
Definition StatusRequestEntityTooLarge : Z := 413.
Definition StatusUnsupportedMediaType : Z := 415.
Definition StatusTooManyRequests : Z := 429.
Definition StatusInternalServerError : Z := 500.
Definition StatusServiceUnavailable : Z := 503.

Definition len_ (s : string) : Z := Z.of_nat (String.length s).

(** [io.ReadAll(io.LimitReader(body, limit+1))]. *)
Definition readAll (limit : Z) (body : string * option goerr) : string * option goerr :=
  if limit <? len_ body.1 then (String.substring 0 (Z.to_nat (limit + 1)) body.1, None) else body.

Definition gzipMagic (s : string) : bool :=
  match s with String a (String b _) => (byte_of a =? 0x1f) && (byte_of b =? 0x8b) | _ => false end.

Section transport.
Context `{!Decoders} (cfg : Config).
Notation check A := (St checker A).
Notation fail := (fail cfg 0).
Notation failStatus := (failStatus cfg 0).
Notation warn := (warn cfg 0).

(** The batch's sequence number is not known yet: these failures carry none. *)
Definition checkTransport (r : HTTPRequest) (res : result) : check (bool * result) :=
  if negb (String.eqb (rq_Method r) "POST") then
    failStatus StatusMethodNotAllowed "transport.method" "" ;; mret (false, res)
  else if negb (String.eqb (rq_Path r) (Path cfg)) then
    failStatus StatusNotFound "transport.path" "" ;; mret (false, res)
  else if negb (String.eqb (APIKey cfg) "") && negb (String.eqb (rq_APIKey r) (APIKey cfg)) then
    failStatus StatusUnauthorized "transport.api_key" "" ;; mret (false, res)
  else
    whenM (negb (bool_decide (ParseMediaType (rq_ContentType r) = Some "application/json"%string)))
      (failStatus StatusUnsupportedMediaType "transport.content_type" "") ;;
    let res := set_key (rq_Key r) res in
    whenM (String.eqb (rq_Key r) "") (fail "transport.idempotency_key" "") ;;
    whenM (rq_ContentLength r <? 0) (warn "transport.content_length" "") ;;
    mret (true, res).

(** The decompressed body, or the failure that was reported. *)
Definition decompress (enc wire : string) : check (option string * bool) :=
  let limit := MaxBodyBytes cfg in
  if String.eqb enc "" then
    if gzipMagic wire then fail "transport.gzip_undeclared" "" ;; mret (None, false) else mret (Some wire, false)
  else if String.eqb enc "gzip" then
    match gzipHeader wire with
    | Some _ => fail "transport.gzip_decode" "" ;; mret (None, true)
    | None =>
        let '(raw, err) := readAll limit (gzipBody wire) in
        match err, gzipClose wire with
        | Some _, _ => fail "transport.gzip_decode" "" ;; mret (None, true)
        | None, Some _ => fail "transport.gzip_decode" "" ;; mret (None, true)
        | None, None =>
            if limit <? len_ raw then
              failStatus StatusRequestEntityTooLarge "transport.body_too_large" "" ;; mret (None, true)
            else
              whenM ((0 <? len_ raw) && savedNothing (len_ wire) (len_ raw)) (warn "transport.compression_ratio" "") ;;
              mret (Some raw, true)
        end
    end
  else fail "transport.content_encoding" "" ;; mret (None, false).

Definition decodeBody (r : HTTPRequest) (res : result) : check (bool * result) :=
  let limit := MaxBodyBytes cfg in
  let '(wire, err) := readAll limit (rq_Body r) in
  match err with
  | Some _ => fail "transport.body_read" "" ;; mret (false, res)
  | None =>
      let res := set_wire false (len_ wire) res in
      if limit <? len_ wire then
        failStatus StatusRequestEntityTooLarge "transport.body_too_large" "" ;; mret (false, res)
      else
        '(oraw, gzipped) ← decompress (rq_Encoding r) wire;
        let res := set_wire gzipped (len_ wire) res in
        match oraw with
        | None => mret (false, res)
        | Some raw =>
            let res := set_raw raw (sha256hex raw) (len_ raw) res in
            if String.eqb (TrimSpace raw) "" then fail "body.empty" "" ;; mret (false, res)
            else if negb (String.prefix "{" (TrimSpace raw)) then fail "body.not_object" "" ;; mret (false, res)
            else
              match DecodeBatch raw with
              | None => fail "schema.decode" "" ;; mret (false, res)
              | Some (b, more) =>
                  whenM more (fail "body.trailing_data" "") ;;
                  mret (true, set_batch b res)
              end
        end
  end.

(** The part of [validate] before [checkState]; whether there is a batch. *)
Definition checkRequest `{!MapRange} (now : Z) (r : HTTPRequest) (n : Z) : check (bool * result) :=
  '(ok, res) ← checkTransport r (newResult n);
  if negb ok then mret (false, res)
  else
    '(ok, res) ← decodeBody r res;
    match re_batch res with
    | Some b =>
        if negb ok then mret (false, res)
        else checkBatch cfg now (re_seq res) (re_key res) b ;; mret (true, res)
    | None => mret (false, res)
    end.
End transport.

(** ** The server's state *)

Record Stats := mkStats {
  st_Requests : Z;
  st_OK : Z;
  st_Accepted : Z;
  st_Fatal : Z;
  st_Warn : Z;
  st_Duplicates : Z;
  st_SeqGaps : Z;
  st_FaultsInjected : Z;
  st_BytesWire : Z;
  st_BytesDecoded : Z;
}.

Record delivery := mkDelivery {
  d_hash : string;
  d_seq : Z;
  d_acked : bool;
  d_truncated : bool;
  d_count : Z;
}.

Record instState := mkInstState {
  in_lastAckedSeq : Z;
  in_lastSeenSeq : Z;
  in_seen : gmap string delivery;
  in_lastAgent : option AgentStats;      (* lastAgent, once haveLastAgent *)
  in_sent4xxAtLast : Z;
}.

Definition newInst : instState := mkInstState 0 0 ∅ None 0.

(** The fields the mutex guards; [done] is whether the channel is closed. *)
Record Server := mkServer {
  sv_faults : Faults;
  sv_terminalArmed : bool;
  sv_stats : Stats;
  sv_failures : list Failure;
  sv_bodies : list string;
  sv_instances : gmap string instState;
  sv_warned : gset string;
  sv_faultHits : gmap string Z;
  sv_sizes : list Z;
  sv_sent4xx : Z;
  sv_done : bool;
}.

Definition set_stats (f : Stats -> Stats) (s : Server) : Server :=
  mkServer (sv_faults s) (sv_terminalArmed s) (f (sv_stats s)) (sv_failures s) (sv_bodies s) (sv_instances s)
    (sv_warned s) (sv_faultHits s) (sv_sizes s) (sv_sent4xx s) (sv_done s).
Definition set_instances (m : gmap string instState) (s : Server) : Server :=
  mkServer (sv_faults s) (sv_terminalArmed s) (sv_stats s) (sv_failures s) (sv_bodies s) m
    (sv_warned s) (sv_faultHits s) (sv_sizes s) (sv_sent4xx s) (sv_done s).
Definition set_warned (w : gset string) (s : Server) : Server :=
  mkServer (sv_faults s) (sv_terminalArmed s) (sv_stats s) (sv_failures s) (sv_bodies s) (sv_instances s)
    w (sv_faultHits s) (sv_sizes s) (sv_sent4xx s) (sv_done s).
Definition set_done (s : Server) : Server :=
  mkServer (sv_faults s) (sv_terminalArmed s) (sv_stats s) (sv_failures s) (sv_bodies s) (sv_instances s)
    (sv_warned s) (sv_faultHits s) (sv_sizes s) (sv_sent4xx s) true.
Definition set_sent4xx (n : Z) (s : Server) : Server :=
  mkServer (sv_faults s) (sv_terminalArmed s) (sv_stats s) (sv_failures s) (sv_bodies s) (sv_instances s)
    (sv_warned s) (sv_faultHits s) (sv_sizes s) n (sv_done s).

Definition countRequest (t : Stats) : Stats :=
  mkStats (st_Requests t + 1) (st_OK t) (st_Accepted t) (st_Fatal t) (st_Warn t) (st_Duplicates t) (st_SeqGaps t)
    (st_FaultsInjected t) (st_BytesWire t) (st_BytesDecoded t).
Definition countAccepted (t : Stats) : Stats :=
  mkStats (st_Requests t) (st_OK t) (st_Accepted t + 1) (st_Fatal t) (st_Warn t) (st_Duplicates t) (st_SeqGaps t)
    (st_FaultsInjected t) (st_BytesWire t) (st_BytesDecoded t).
Definition countDuplicate (t : Stats) : Stats :=
  mkStats (st_Requests t) (st_OK t) (st_Accepted t) (st_Fatal t) (st_Warn t) (st_Duplicates t + 1) (st_SeqGaps t)
    (st_FaultsInjected t) (st_BytesWire t) (st_BytesDecoded t).
Definition countGap (gap : Z) (t : Stats) : Stats :=
  mkStats (st_Requests t) (st_OK t) (st_Accepted t) (st_Fatal t) (st_Warn t) (st_Duplicates t)
    (wrapS 64 (st_SeqGaps t + gap)) (st_FaultsInjected t) (st_BytesWire t) (st_BytesDecoded t).
Definition countFault (t : Stats) : Stats :=
  mkStats (st_Requests t) (st_OK t) (st_Accepted t) (st_Fatal t) (st_Warn t) (st_Duplicates t) (st_SeqGaps t)
    (st_FaultsInjected t + 1) (st_BytesWire t) (st_BytesDecoded t).
Definition countRecord (fatal : bool) (warns wire raw : Z) (t : Stats) : Stats :=
  mkStats (st_Requests t) (st_OK t + if fatal then 0 else 1) (st_Accepted t) (st_Fatal t + if fatal then 1 else 0)
    (st_Warn t + warns) (st_Duplicates t) (st_SeqGaps t) (st_FaultsInjected t) (st_BytesWire t + wire)
    (st_BytesDecoded t + raw).

(** ** Construction *)

Definition DefaultPath : string := "/v1/batches".
Definition defaultKeep : Z := 20.
Definition defaultMaxBodyBytes : Z := 32 * 2 ^ 20.
Definition defaultClockSkew : Z := 5 * Minute.
Definition defaultMaxErrors : Z := 1000.
Definition sizeWindow : nat := 512.

Definition DefaultSections : list string :=
  ["cluster";
   "topics"; "topics_window"; "topics_lso"; "topics_end";
   "topics_max_timestamp"; "topics_local_start"; "topics_remote_end";
   "groups"; "offsets";
   "epoch_probes";
   "log_dirs"; "reassignments"; "topic_configs"; "broker_configs";
   "share_groups"; "broker_rpc"]%string.

Definition withDefaults (f : Faults) : Faults :=
  mkFaults (FailFirst f) (if FailStatus f =? 0 then StatusInternalServerError else FailStatus f)
    (EveryNth f) (if EveryNthStatus f =? 0 then StatusTooManyRequests else EveryNthStatus f)
    (if RetryAfterSec f =? 0 then 1 else RetryAfterSec f)
    (DelayMS f) (DelayFirst f) (DropEvery f) (DropFirst f) (TerminalOnce f).

Definition no_faults : Faults := mkFaults 0 0 0 0 0 0 0 0 0 0.
Definition no_stats : Stats := mkStats 0 0 0 0 0 0 0 0 0 0.

Definition reservedPaths : list string := ["/healthz"; "/stats"; "/batches"; "/control"; "/control/reset"]%string.

Inductive newErr := ErrUnrooted | ErrReserved | ErrExclusive.

Definition positive_or (z d : Z) : Z := if z <=? 0 then d else z.

Definition New (cfg : Config) : newErr + Config * Server :=
  let path := if String.eqb (Path cfg) "" then DefaultPath else Path cfg in
  if negb (String.prefix "/" path) then inl ErrUnrooted
  else if bool_decide (path ∈ reservedPaths) then inl ErrReserved
  else if Strict cfg && WarnOnly cfg then inl ErrExclusive
  else
    inr (mkConfig path (APIKey cfg) (Strict cfg) (WarnOnly cfg) (cfg_Require cfg) (positive_or (Keep cfg) defaultKeep)
           (positive_or (MaxBodyBytes cfg) defaultMaxBodyBytes) (positive_or (ClockSkew cfg) defaultClockSkew)
           (positive_or (cfg_MaxErrors cfg) defaultMaxErrors)
           (if bool_decide (Sections cfg = []) then DefaultSections else Sections cfg)
           (OptionalSections cfg) (cfg_Faults cfg),
         mkServer (withDefaults (cfg_Faults cfg)) (0 <? TerminalOnce (cfg_Faults cfg)) no_stats [] [] ∅ ∅ ∅ [] 0 false).

(** ** Memory of earlier batches *)

Definition clampToInt (v : Z) : Z := if max_int64 <? v then max_int64 else v.

Section state.
Context (cfg : Config).
Notation act A := (St (Server * list Failure) A).

(** What [checkState] reports goes behind what the other checks reported. *)
Definition report (seq : Z) (m : Config -> Z -> string -> string -> St checker ()) (code path : string) : act () :=
  modify (fun s => (s.1, out (m cfg seq code path (mkChecker ∅ s.2)).2)).

Definition onServer (f : Server -> Server) : act () := modify (fun s => (f s.1, s.2)).

(** The first half: the delivery against earlier ones of its key. *)
Definition checkDelivery (res : result) (inst : instState) : act (instState * bool * bool) :=
  match in_seen inst !! re_key res with
  | Some d =>
      onServer (set_stats countDuplicate) ;;
      (if negb (String.eqb (d_hash d) (re_hash res)) then report (re_seq res) fail "idempotency.body_mismatch" ""
       else if d_acked d then report (re_seq res) fail "idempotency.replay" ""
       else mret tt) ;;
      let d' := mkDelivery (d_hash d) (d_seq d) (d_acked d) (d_truncated d) (d_count d + 1) in
      mret (mkInstState (in_lastAckedSeq inst) (in_lastSeenSeq inst) (<[re_key res := d']> (in_seen inst))
              (in_lastAgent inst) (in_sent4xxAtLast inst), true, d_truncated d)
  | None =>
      let d := mkDelivery (re_hash res) (re_seq res) false false 1 in
      mret (mkInstState (in_lastAckedSeq inst) (in_lastSeenSeq inst) (<[re_key res := d]> (in_seen inst))
              (in_lastAgent inst) (in_sent4xxAtLast inst), false, false)
  end.

(** The second: the sequence number; [false] when [checkState] returns there. *)
Definition checkSequence (res : result) (a : AgentStats) (inst : instState) (retry : bool) : act bool :=
  let seq := re_seq res in
  if retry then mret true
  else if seq <=? in_lastAckedSeq inst then report seq fail "idempotency.seq_regression" "$.batch_seq" ;; mret true
  else if (0 <? in_lastSeenSeq inst) && (wrapU 64 (in_lastSeenSeq inst + 1) <? seq) then
    let gap := clampToInt (wrapU 64 (wrapU 64 (seq - in_lastSeenSeq inst) - 1)) in
    onServer (set_stats (countGap gap)) ;;
    report seq warn "idempotency.seq_gap" "$.batch_seq" ;;
    match in_lastAgent inst with
    | None => mret true
    | Some last =>
        if as_BatchesDropped a <? as_BatchesDropped last then
          report seq warn "agent.counter_regression" "$.agent" ;; mret false
        else
          let dropped := clampToInt (wrapU 64 (as_BatchesDropped a - as_BatchesDropped last)) in
          whenM (negb (dropped =? gap)) (report seq warn "idempotency.drop_accounting" "$.agent") ;;
          mret true
    end
  else mret true.

(** The third: the agent's own telemetry since its previous batch. *)
Definition checkTelemetry (res : result) (a : AgentStats) (inst : instState) (sent4xx : Z) : act string :=
  match in_lastAgent inst with
  | Some last =>
      let rejected := wrapU 64 (as_BatchesRejected a - as_BatchesRejected last) in
      whenM ((0 <? rejected) && (sent4xx =? in_sent4xxAtLast inst))
        (report (re_seq res) warn "agent.rejected_unexplained" "$.agent") ;;
      mret (if negb (String.eqb (as_LastExportError a) (as_LastExportError last)) then as_LastExportError a else "")%string
  | None => mret (as_LastExportError a)
  end.

Definition checkState (res : result) (b : Batch) : act result :=
  if String.eqb (re_instance res) "" || String.eqb (re_key res) "" then mret res
  else
    s ← (fun s => (s.1, s));
    let found := sv_instances s !! re_instance res in
    let fresh := bool_decide (found = None) in
    let a := b_Agent b in
    '(inst, retry, afterFault) ← checkDelivery res (default newInst found);
    go_on ← checkSequence res a inst retry;
    if negb go_on then
      onServer (fun s => set_instances (<[re_instance res := inst]> (sv_instances s)) s) ;;
      mret (set_state fresh retry afterFault "" res)
    else
      exportErr ← checkTelemetry res a inst (sv_sent4xx s);
      let inst := mkInstState (in_lastAckedSeq inst) (Z.max (re_seq res) (in_lastSeenSeq inst)) (in_seen inst) (Some a)
                    (sv_sent4xx s) in
      onServer (fun s => set_instances (<[re_instance res := inst]> (sv_instances s)) s) ;;
      mret (set_state fresh retry afterFault exportErr res).
End state.

(** ** Recording, faults, answers *)

(** Appends, and drops the oldest past [n]. *)
Definition ring {A} (n : nat) (l : list A) (x : A) : list A :=
  let l := l ++ [x] in if (n <? length l)%nat then drop 1 l else l.

Definition record (cfg : Config) (res : result) (s : Server) : bool * Server :=
  let fatal := existsb is_fatal (re_failures res) in
  let warns := Z.of_nat (count (fun f => negb (is_fatal f)) (re_failures res)) in
  (fatal,
   mkServer (sv_faults s) (sv_terminalArmed s)
     (countRecord fatal warns (re_wireLen res) (re_rawLen res) (sv_stats s))
     (sv_failures s ++ re_failures res)
     (if (0 <? len_ (re_raw res)) && (0 <? Keep cfg) then ring (Z.to_nat (Keep cfg)) (sv_bodies s) (re_raw res)
      else sv_bodies s)
     (sv_instances s) (sv_warned s) (sv_faultHits s)
     (if 0 <? re_rawLen res then ring sizeWindow (sv_sizes s) (re_rawLen res) else sv_sizes s)
     (if fatal then sv_sent4xx s + 1 else sv_sent4xx s) (sv_done s)).

Inductive faultKind := faultNone | faultStatus | faultDrop.

Record fault := mkFault {
  ft_kind : faultKind;
  ft_status : Z;
  ft_retryAfter : Z;
  ft_delay : Z;
  ft_reason : string;
}.

Definition active (f : fault) : bool :=
  match ft_kind f with faultNone => 0 <? ft_delay f | _ => true end.

(** Go's [%] on [int]. *)
Definition every (n d : Z) : bool := (0 <? d) && (Z.rem n d =? 0).
Definition among_first (n k : Z) : bool := (0 <? k) && (n <=? k).

(** The kind, status and reason that fire, and whether the terminal fault is spent. *)
Definition decideKind (f : Faults) (armed : bool) (n : Z) (reason : string) : faultKind * Z * string * bool :=
  if (0 <? TerminalOnce f) && armed then
    (faultStatus, TerminalOnce f, "terminal_once=" +:+ pretty (TerminalOnce f), false)
  else if among_first n (DropFirst f) then (faultDrop, 0, "drop_first=" +:+ pretty (DropFirst f), armed)
  else if every n (DropEvery f) then (faultDrop, 0, "drop_every=" +:+ pretty (DropEvery f), armed)
  else if among_first n (FailFirst f) then (faultStatus, FailStatus f, "fail_first=" +:+ pretty (FailFirst f), armed)
  else if every n (EveryNth f) then (faultStatus, EveryNthStatus f, "every_nth=" +:+ pretty (EveryNth f), armed)
  else (faultNone, 0, reason, armed).

Definition decide (n : Z) (s : Server) : fault * Server :=
  let f := sv_faults s in
  let delays := (0 <? DelayMS f) && ((DelayFirst f =? 0) || (n <=? DelayFirst f)) in
  let delay := if delays then wrapS 64 (DelayMS f * Millisecond) else 0 in
  let '(kind, status, reason, armed) :=
    decideKind f (sv_terminalArmed s) n (if delays then "delay_ms=" +:+ pretty (DelayMS f) else "")%string in
  let retryAfter :=
    match kind with
    | faultStatus =>
        if (status =? StatusTooManyRequests) || (status =? StatusServiceUnavailable) then RetryAfterSec f else 0
    | _ => 0
    end in
  let out := mkFault kind status retryAfter delay reason in
  (out,
   mkServer f armed (if active out then countFault (sv_stats s) else sv_stats s) (sv_failures s) (sv_bodies s)
     (sv_instances s) (sv_warned s)
     (if active out then <[reason := default 0 (sv_faultHits s !! reason) + 1]> (sv_faultHits s) else sv_faultHits s)
     (sv_sizes s) (sv_sent4xx s) (sv_done s)).

(** [markAcked] and [markTruncated] look the delivery up again. *)
Definition on_delivery (res : result) (f : delivery -> delivery) (g : instState -> instState) (s : Server) : Server :=
  if String.eqb (re_instance res) "" || String.eqb (re_key res) "" then s
  else match sv_instances s !! re_instance res with
       | None => s
       | Some inst =>
           let seen := match in_seen inst !! re_key res with
                       | Some d => <[re_key res := f d]> (in_seen inst)
                       | None => in_seen inst
                       end in
           let inst := g (mkInstState (in_lastAckedSeq inst) (in_lastSeenSeq inst) seen (in_lastAgent inst)
                            (in_sent4xxAtLast inst)) in
           set_instances (<[re_instance res := inst]> (sv_instances s)) s
       end.

Definition markAcked (res : result) (s : Server) : Server :=
  on_delivery res (fun d => mkDelivery (d_hash d) (d_seq d) true (d_truncated d) (d_count d))
    (fun i => mkInstState (Z.max (re_seq res) (in_lastAckedSeq i)) (in_lastSeenSeq i) (in_seen i) (in_lastAgent i)
                (in_sent4xxAtLast i)) s.

Definition markTruncated (res : result) (s : Server) : Server :=
  on_delivery res (fun d => mkDelivery (d_hash d) (d_seq d) (d_acked d) true (d_count d)) (fun i => i) s.

Definition noteTerminal (status : Z) (s : Server) : Server :=
  if (status <? 400) || (500 <=? status) then s else set_sent4xx (sv_sent4xx s + 1) s.

(** The status a conformance failure answers with. *)
Fixpoint failureStatus (fs : list Failure) : Z :=
  match fs with
  | [] => StatusBadRequest
  | f :: fs => if is_fatal f && negb (f_status f =? 0) then f_status f else failureStatus fs
  end.

Definition errBodyLimit : Z := 4 * 2 ^ 10.

Definition dq : string := String "034"%char "".

(** [conformanceBody]: the loop drops failures from the tail until the body fits. *)
Fixpoint shrink `{!Decoders} (seq : Z) (fatal : list Failure) (n : nat) : string :=
  match MarshalFailures seq (take n fatal) (length fatal - n) with
  | None => "{" +:+ dq +:+ "error" +:+ dq +:+ ":" +:+ dq +:+ "conformance" +:+ dq +:+ "}"
  | Some b =>
      if len_ b <=? errBodyLimit - 64 then b
      else match n with O => b | S n => shrink seq fatal n end
  end.

Definition conformanceBody `{!Decoders} (seq : Z) (failures : list Failure) : string :=
  let fatal := base.filter (fun f => Is_true (is_fatal f)) failures in
  shrink seq fatal (length fatal).

(** ** Control *)

Definition SetFaults (f : Faults) (s : Server) : Server :=
  mkServer (withDefaults f) (0 <? TerminalOnce f) (sv_stats s) (sv_failures s) (sv_bodies s) (sv_instances s)
    (sv_warned s) (sv_faultHits s) (sv_sizes s) (sv_sent4xx s) (sv_done s).

Definition Reset (s : Server) : Server :=
  mkServer (withDefaults no_faults) false no_stats [] [] ∅ ∅ ∅ [] 0 (sv_done s).

(** ** A request's life *)

Inductive handler :=
| Arrived (r : HTTPRequest)
| Checking (n : Z) (r : HTTPRequest)
| Comparing (res : result) (b : Batch)
| Recording (res : result)
| Deciding (res : result)
| Delaying (res : result) (f : fault)
| Answering (res : result) (f : fault)
| Counting (res : result)
| Answered.

Inductive answer :=
| Rejected (status : Z) (body : string)
| Accepted (seq : Z)
| Injected (status retryAfter : Z)
| Dropped
| BadGateway          (* the connection could not be hijacked *)
| Unread.             (* the client left during the delay *)

Inductive action :=
| AArrive (r : HTTPRequest)
| ACount
| ACheck
| ACompare (res res' : result)      (* before and after [checkState] *)
| ARecord (res : result) (fatal : bool)
| ADecide (f : fault)
| AWait
| AAnswer (res : result) (a : answer)
| AAccepted (res : result)
| ASetFaults (f : Faults)
| AReset.

Record system := mkSystem { sy_server : Server; sy_handlers : list handler }.

Section server.
Context `{!Decoders, !MapRange} (cfg : Config).

(** One action of a handler, up to its next release of the mutex. *)
Inductive hstep (s : Server) : handler -> action -> Server -> handler -> Prop :=
| h_count r :
    let s' := set_stats countRequest s in
    hstep s (Arrived r) ACount s' (Checking (st_Requests (sv_stats s')) r)
| h_check n r now ok res c :
    checkRequest cfg now r n (mkChecker (sv_warned s) []) = ((ok, res), c) ->
    let res' := set_failures (out c) res in
    hstep s (Checking n r) ACheck (set_warned (warned c) s)
      (match re_batch res' with
       | Some b => if ok then Comparing res' b else Recording res'
       | None => Recording res'
       end)
| h_compare res b res' s' fs :
    checkState cfg res b (s, re_failures res) = (res', (s', fs)) ->
    hstep s (Comparing res b) (ACompare res (set_failures fs res')) s' (Recording (set_failures fs res'))
| h_record res fatal s' :
    record cfg res s = (fatal, s') ->
    hstep s (Recording res) (ARecord res fatal) s' (if fatal then Answering res (mkFault faultNone 0 0 0 "") else Deciding res)
| h_reject res f :
    existsb is_fatal (re_failures res) = true ->
    hstep s (Answering res f)
      (AAnswer res (Rejected (failureStatus (re_failures res)) (conformanceBody (re_seq res) (re_failures res))))
      (if 0 <? cfg_Require cfg then set_done s else s) Answered
| h_decide res f s' :
    decide (re_n res) s = (f, s') ->
    hstep s (Deciding res) (ADecide f) s' (if 0 <? ft_delay f then Delaying res f else Answering res f)
| h_wait res f : hstep s (Delaying res f) AWait s (Answering res f)
| h_unread res f : hstep s (Delaying res f) (AAnswer res Unread) (markTruncated res s) Answered
| h_drop res f a :
    existsb is_fatal (re_failures res) = false -> ft_kind f = faultDrop -> a = Dropped \/ a = BadGateway ->
    hstep s (Answering res f) (AAnswer res a) (markTruncated res s) Answered
| h_inject res f :
    existsb is_fatal (re_failures res) = false -> ft_kind f = faultStatus ->
    hstep s (Answering res f) (AAnswer res (Injected (ft_status f) (ft_retryAfter f))) (noteTerminal (ft_status f) s) Answered
| h_accept res f :
    existsb is_fatal (re_failures res) = false -> ft_kind f = faultNone ->
    hstep s (Answering res f) (AAnswer res (Accepted (re_seq res))) (markAcked res s) (Counting res)
| h_accepted res :
    let s' := set_stats countAccepted s in
    hstep s (Counting res) (AAccepted res)
      (if (0 <? cfg_Require cfg) && (cfg_Require cfg <=? st_Accepted (sv_stats s')) then set_done s' else s') Answered.

Inductive step (y : system) : action -> system -> Prop :=
| step_arrive r : step y (AArrive r) (mkSystem (sy_server y) (sy_handlers y ++ [Arrived r]))
| step_handler i h a s' h' :
    sy_handlers y !! i = Some h -> hstep (sy_server y) h a s' h' ->
    step y a (mkSystem s' (<[i := h']> (sy_handlers y)))
| step_faults f : step y (ASetFaults f) (mkSystem (SetFaults f (sy_server y)) (sy_handlers y))
| step_reset : step y AReset (mkSystem (Reset (sy_server y)) (sy_handlers y)).

Inductive run (s0 : Server) : list action -> system -> Prop :=
| run_nil : run s0 [] (mkSystem s0 [])
| run_snoc tr y a y' : run s0 tr y -> step y a y' -> run s0 (tr ++ [a]) y'.
End server.

(** ** One request by itself *)

Section handleIngest.
Context `{!Decoders, !MapRange} (cfg : Config) (now : Z).

(** The next action when the client waits and the connection can be hijacked. *)
Definition hnext (s : Server) (h : handler) : option (action * Server * handler) :=
  match h with
  | Arrived r => let s' := set_stats countRequest s in Some (ACount, s', Checking (st_Requests (sv_stats s')) r)
  | Checking n r =>
      let '((ok, res), c) := checkRequest cfg now r n (mkChecker (sv_warned s) []) in
      let res' := set_failures (out c) res in
      Some (ACheck, set_warned (warned c) s,
            match re_batch res' with Some b => if ok then Comparing res' b else Recording res' | None => Recording res' end)
  | Comparing res b =>
      let '(res', (s', fs)) := checkState cfg res b (s, re_failures res) in
      Some (ACompare res (set_failures fs res'), s', Recording (set_failures fs res'))
  | Recording res =>
      let '(fatal, s') := record cfg res s in
      Some (ARecord res fatal, s', if fatal then Answering res (mkFault faultNone 0 0 0 "") else Deciding res)
  | Deciding res =>
      let '(f, s') := decide (re_n res) s in
      Some (ADecide f, s', if 0 <? ft_delay f then Delaying res f else Answering res f)
  | Delaying res f => Some (AWait, s, Answering res f)
  | Answering res f =>
      if existsb is_fatal (re_failures res) then
        Some (AAnswer res (Rejected (failureStatus (re_failures res)) (conformanceBody (re_seq res) (re_failures res))),
              if 0 <? cfg_Require cfg then set_done s else s, Answered)
      else
        match ft_kind f with
        | faultDrop => Some (AAnswer res Dropped, markTruncated res s, Answered)
        | faultStatus =>
            Some (AAnswer res (Injected (ft_status f) (ft_retryAfter f)), noteTerminal (ft_status f) s, Answered)
        | faultNone => Some (AAnswer res (Accepted (re_seq res)), markAcked res s, Counting res)
        end
  | Counting res =>
      let s' := set_stats countAccepted s in
      Some (AAccepted res, if (0 <? cfg_Require cfg) && (cfg_Require cfg <=? st_Accepted (sv_stats s')) then set_done s' else s',
            Answered)
  | Answered => None
  end.

Fixpoint serve (fuel : nat) (s : Server) (h : handler) : list action * Server * handler :=
  match fuel with
  | O => ([], s, h)
  | S fuel =>
      match hnext s h with
      | None => ([], s, h)
      | Some (a, s', h') => let '(tr, s2, h2) := serve fuel s' h' in (a :: tr, s2, h2)
      end
  end.

(** A request from its arrival to its answer: at most eight actions. *)
Definition handleIngest (s : Server) (r : HTTPRequest) : list action * Server * handler := serve 8 s (Arrived r).
End handleIngest.

(** ** What a run did *)

(** A delivery's identity. *)
Definition is_of (inst key : string) (res : result) : bool := String.eqb (re_instance res) inst && String.eqb (re_key res) key.

(** The bodies that came under a key, and the sequence numbers acknowledged. *)
Definition body_of (inst key : string) (a : action) : option string :=
  match a with ACompare res _ => if is_of inst key res then Some (re_hash res) else None | _ => None end.
Definition ack_of (inst key : string) (a : action) : option Z :=
  match a with AAnswer res (Accepted _) => if is_of inst key res then Some (re_seq res) else None | _ => None end.
Definition inst_ack (inst : string) (a : action) : option Z :=
  match a with
  | AAnswer res (Accepted _) =>
      if String.eqb (re_instance res) inst && negb (String.eqb (re_key res) "") then Some (re_seq res) else None
  | _ => None
  end.
Definition inst_seen (inst : string) (a : action) : bool :=
  match a with ACompare res _ => String.eqb (re_instance res) inst && negb (String.eqb (re_key res) "") | _ => false end.

Definition first_body (inst key : string) (tr : list action) : option string := head (omap (body_of inst key) tr).
Definition acknowledged (inst key : string) (tr : list action) : Prop := omap (ack_of inst key) tr <> [].

(** ** Lemmas on [checkState] *)

(** What the counters and the memory outside the instances keep. *)
Definition same_but (s s' : Server) : Prop :=
  st_Requests (sv_stats s') = st_Requests (sv_stats s) /\ st_OK (sv_stats s') = st_OK (sv_stats s) /\
  st_Accepted (sv_stats s') = st_Accepted (sv_stats s) /\ st_Fatal (sv_stats s') = st_Fatal (sv_stats s) /\
  st_FaultsInjected (sv_stats s') = st_FaultsInjected (sv_stats s) /\
  sv_sent4xx s' = sv_sent4xx s /\ sv_done s' = sv_done s.

Lemma same_but_refl s : same_but s s.
Proof. done. Qed.

Lemma same_but_trans s1 s2 s3 : same_but s1 s2 -> same_but s2 s3 -> same_but s1 s3.
Proof. unfold same_but. naive_solver congruence. Qed.

Section checkState.
Context (cfg : Config).

Lemma report_eq seq sev0 code path s fs : exists sev,
  report cfg seq (fun cfg seq => emit cfg seq sev0 0) code path (s, fs) = (tt, (s, fs ++ [mkFailure code sev path seq 0])).
Proof.
  unfold report, emit. destruct sev0; [destruct (WarnOnly cfg)|destruct (Strict cfg)]; eexists; reflexivity.
Qed.

Lemma report_fail seq code path s fs : exists sev,
  report cfg seq fail code path (s, fs) = (tt, (s, fs ++ [mkFailure code sev path seq 0])).
Proof. apply (report_eq seq SeverityFatal). Qed.

Lemma report_warn seq code path s fs : exists sev,
  report cfg seq warn code path (s, fs) = (tt, (s, fs ++ [mkFailure code sev path seq 0])).
Proof. apply (report_eq seq SeverityWarn). Qed.

Definition known (res : result) (inst : instState) : option delivery := in_seen inst !! re_key res.

Definition remembered (res : result) (inst : instState) : delivery :=
  match known res inst with
  | Some d => mkDelivery (d_hash d) (d_seq d) (d_acked d) (d_truncated d) (d_count d + 1)
  | None => mkDelivery (re_hash res) (re_seq res) false false 1
  end.

(** The codes of the delivery comparison. *)
Definition delivery_codes (res : result) (inst : instState) : list string :=
  match known res inst with
  | Some d =>
      if negb (String.eqb (d_hash d) (re_hash res)) then ["idempotency.body_mismatch"]
      else if d_acked d then ["idempotency.replay"] else []
  | None => []
  end%string.

Lemma checkDelivery_spec res inst s fs :
  exists s' new i' after, checkDelivery cfg res inst (s, fs) =
    ((i', bool_decide (known res inst <> None), after), (s', fs ++ new)) /\
  sv_instances s' = sv_instances s /\ same_but s s' /\ f_Code <$> new = delivery_codes res inst /\
  in_lastAckedSeq i' = in_lastAckedSeq inst /\ in_lastSeenSeq i' = in_lastSeenSeq inst /\
  in_seen i' = <[re_key res := remembered res inst]> (in_seen inst) /\ in_lastAgent i' = in_lastAgent inst.
Proof.
  unfold checkDelivery, delivery_codes, remembered. fold (known res inst). destruct (known res inst) as [d|].
  - rewrite St_bind_eq. cbn [onServer modify fst snd]. rewrite St_bind_eq.
    destruct (negb (String.eqb (d_hash d) (re_hash res))).
    { destruct (report_fail (re_seq res) "idempotency.body_mismatch" "" (set_stats countDuplicate s) fs) as [sev ->].
      by do 4 eexists. }
    destruct (d_acked d).
    { destruct (report_fail (re_seq res) "idempotency.replay" "" (set_stats countDuplicate s) fs) as [sev ->].
      by do 4 eexists. }
    exists (set_stats countDuplicate s), []. do 2 eexists. rewrite app_nil_r. by split.
  - exists s, []. do 2 eexists. rewrite app_nil_r. by split.
Qed.

Definition sequence_codes : list string :=
  ["idempotency.seq_gap"; "agent.counter_regression"; "idempotency.drop_accounting"]%string.

Lemma checkSequence_spec res a inst retry s fs :
  exists go_on s' new, checkSequence cfg res a inst retry (s, fs) = (go_on, (s', fs ++ new)) /\
  sv_instances s' = sv_instances s /\ same_but s s' /\
  (if negb retry && (re_seq res <=? in_lastAckedSeq inst) then f_Code <$> new = ["idempotency.seq_regression"]%string
   else Forall (fun c => c ∈ sequence_codes) (f_Code <$> new)).
Proof.
  unfold checkSequence. destruct retry; cbn [negb andb].
  { exists true, s, []. rewrite app_nil_r. by split_and!. }
  destruct (re_seq res <=? in_lastAckedSeq inst).
  { rewrite St_bind_eq. destruct (report_fail (re_seq res) "idempotency.seq_regression" "$.batch_seq" s fs) as [sev ->].
    by do 3 eexists. }
  destruct (_ && _); [|exists true, s, []; rewrite app_nil_r; by split_and!].
  cbn zeta. rewrite St_bind_eq. cbn [onServer modify fst snd]. rewrite St_bind_eq.
  set (s1 := set_stats _ s). assert (sv_instances s1 = sv_instances s /\ same_but s s1) as [Hi Hs] by done.
  destruct (report_warn (re_seq res) "idempotency.seq_gap" "$.batch_seq" s1 fs) as [sev ->]. cbn [fst snd].
  assert (forall c, c ∈ ["idempotency.seq_gap"]%string -> c ∈ sequence_codes) as Hin by set_solver.
  destruct (in_lastAgent inst) as [last|]; [|do 3 eexists; split; [reflexivity|]; split_and!; try done; by apply list.Forall_forall].
  destruct (_ <? _).
  - rewrite St_bind_eq.
    destruct (report_warn (re_seq res) "agent.counter_regression" "$.agent" s1
      (fs ++ [mkFailure "idempotency.seq_gap" sev "$.batch_seq" (re_seq res) 0])) as [sev' ->].
    do 3 eexists. rewrite <- app_assoc. split; [reflexivity|]. split_and!; try done. apply list.Forall_forall. set_solver.
  - rewrite St_bind_eq. destruct (negb _); cbn [whenM].
    + destruct (report_warn (re_seq res) "idempotency.drop_accounting" "$.agent" s1
        (fs ++ [mkFailure "idempotency.seq_gap" sev "$.batch_seq" (re_seq res) 0])) as [sev' ->].
      do 3 eexists. rewrite <- app_assoc. split; [reflexivity|]. split_and!; try done. apply list.Forall_forall. set_solver.
    + do 3 eexists. split; [reflexivity|]. split_and!; try done. by apply list.Forall_forall.
Qed.

Lemma checkTelemetry_spec res a inst sent s fs :
  exists err new, checkTelemetry cfg res a inst sent (s, fs) = (err, (s, fs ++ new)) /\
  Forall (fun c => c = "agent.rejected_unexplained"%string) (f_Code <$> new).
Proof.
  unfold checkTelemetry. destruct (in_lastAgent inst) as [last|].
  - rewrite St_bind_eq. destruct (_ && _); cbn [whenM].
    + destruct (report_warn (re_seq res) "agent.rejected_unexplained" "$.agent" s fs) as [sev ->].
      do 2 eexists. split; [reflexivity|]. by constructor.
    + do 2 eexists. split; [by rewrite <- (app_nil_r fs) at 1|]. constructor.
  - do 2 eexists. split; [by rewrite <- (app_nil_r fs) at 1|]. constructor.
Qed.

Definition other_codes : list string := "agent.rejected_unexplained"%string :: sequence_codes.

(** What [checkState] does to a delivery that has an identity. *)
Lemma checkState_spec res b s fs :
  re_instance res <> ""%string -> re_key res <> ""%string ->
  let inst := default newInst (sv_instances s !! re_instance res) in
  exists res' s' new i', checkState cfg res b (s, fs) = (res', (s', fs ++ new)) /\
  same_but s s' /\ sv_instances s' = <[re_instance res := i']> (sv_instances s) /\
  in_lastAckedSeq i' = in_lastAckedSeq inst /\ in_seen i' = <[re_key res := remembered res inst]> (in_seen inst) /\
  (re_instance res', re_key res', re_seq res', re_hash res') = (re_instance res, re_key res, re_seq res, re_hash res) /\
  re_retry res' = bool_decide (known res inst <> None) /\
  re_newInstance res' = bool_decide (sv_instances s !! re_instance res = None) /\
  exists rest, f_Code <$> new = delivery_codes res inst ++
    (if bool_decide (known res inst = None) && (re_seq res <=? in_lastAckedSeq inst)
     then ["idempotency.seq_regression"%string] else []) ++ rest /\
    Forall (fun c => c ∈ other_codes) rest.
Proof.
  intros Hi Hk inst. unfold checkState. apply String.eqb_neq in Hi, Hk. rewrite Hi, Hk. cbn [orb].
  rewrite St_bind_eq. cbn [fst snd]. rewrite St_bind_eq. fold inst.
  destruct (checkDelivery_spec res inst s fs) as (s1 & n1 & i1 & after & -> & Hs1 & Hsame1 & Hc1 & Ha1 & _ & Hseen1 & _).
  cbn [fst snd]. rewrite St_bind_eq.
  destruct (checkSequence_spec res (b_Agent b) i1 (bool_decide (known res inst <> None)) s1 (fs ++ n1))
    as (go_on & s2 & n2 & -> & Hs2 & Hsame2 & Hc2).
  cbn [fst snd].
  assert (negb (bool_decide (known res inst <> None)) = bool_decide (known res inst = None)) as Hneg
    by (by destruct (known res inst)).
  rewrite Hneg, Ha1 in Hc2.
  assert (exists rest, f_Code <$> n2 = (if bool_decide (known res inst = None) && (re_seq res <=? in_lastAckedSeq inst)
     then ["idempotency.seq_regression"%string] else []) ++ rest /\ Forall (fun c => c ∈ other_codes) rest) as (rest & Hr & Ho).
  { destruct (_ && _); [exists []; rewrite Hc2; by split|]. exists (f_Code <$> n2). split; [done|].
    eapply Forall_impl; [exact Hc2|]. intros c Hc. by right. }
  destruct go_on; cbn [negb].
  - rewrite St_bind_eq.
    destruct (checkTelemetry_spec res (b_Agent b) i1 (sv_sent4xx s) s2 ((fs ++ n1) ++ n2)) as (err & n3 & -> & Hc3).
    do 4 eexists. split; [rewrite <- !app_assoc; reflexivity|]. cbn [onServer set_instances sv_instances sv_stats sv_sent4xx sv_done fst snd].
    split; [eapply same_but_trans; [exact Hsame1|exact Hsame2]|]. rewrite Hs2, Hs1. split; [reflexivity|].
    cbn [in_lastAckedSeq in_seen]. split_and!; try done. exists (rest ++ (f_Code <$> n3)).
    rewrite !fmap_app, Hc1, Hr, <- !app_assoc. split; [done|]. apply Forall_app. split; [done|].
    eapply Forall_impl; [exact Hc3|]. intros c ->. by left.
  - do 4 eexists. split; [rewrite <- !app_assoc; reflexivity|]. cbn [onServer set_instances sv_instances sv_stats sv_sent4xx sv_done fst snd].
    split; [eapply same_but_trans; [exact Hsame1|exact Hsame2]|]. rewrite Hs2, Hs1. split; [reflexivity|].
    split_and!; try done. exists rest. by rewrite !fmap_app, Hc1, Hr.
Qed.

Lemma checkState_skips res b s fs :
  re_instance res = ""%string \/ re_key res = ""%string -> checkState cfg res b (s, fs) = (res, (s, fs)).
Proof.
  intros Hd. unfold checkState. destruct Hd as [-> | ->]; [done|]. by rewrite orb_true_r.
Qed.
End checkState.

(** ** Lemmas on a request *)

(** Every value a check can return satisfies [Q]. *)
Definition yields {S A} (Q : A -> Prop) (m : St S A) : Prop := forall c, Q (m c).1.

Lemma yields_ret {S A} (Q : A -> Prop) (a : A) : Q a -> yields (S := S) Q (mret a).
Proof. by intros Ha c. Qed.

Lemma yields_bind {S A B} (Q : B -> Prop) (m : St S A) (k : A -> St S B) :
  (forall a, yields Q (k a)) -> yields Q (m ≫= k).
Proof. intros Hk c. rewrite St_bind_eq. apply Hk. Qed.

Lemma yields_bind' {S A B} (P : A -> Prop) (Q : B -> Prop) (m : St S A) (k : A -> St S B) :
  yields P m -> (forall a, P a -> yields Q (k a)) -> yields Q (m ≫= k).
Proof. intros Hm Hk c. rewrite St_bind_eq. apply Hk, Hm. Qed.

(** Until a batch is decoded the result has no identity. *)
Definition unidentified (res : result) : Prop := re_batch res = None /\ re_instance res = ""%string.
Definition decided (p : bool * result) : Prop :=
  p.1 = true /\ (exists b, re_batch p.2 = Some b /\ re_instance p.2 = b_AgentInstanceID b /\ re_seq p.2 = b_BatchSeq b) \/
  p.1 = false /\ unidentified p.2.

Section request.
Context `{!Decoders, !MapRange} (cfg : Config).

Lemma checkTransport_yields r res : unidentified res ->
  yields (fun p => unidentified p.2) (checkTransport cfg r res).
Proof.
  intros Hu. unfold checkTransport. repeat case_match; cbn zeta; repeat (apply yields_bind; intros []); by apply yields_ret.
Qed.

Lemma decodeBody_yields r res : unidentified res -> yields decided (decodeBody cfg r res).
Proof.
  intros Hu. unfold decodeBody. destruct (readAll _ _) as [wire [err|]].
  { apply yields_bind. intros []. apply yields_ret. by right. }
  cbn zeta. case_match; [apply yields_bind; intros []; apply yields_ret; by right|].
  apply yields_bind. intros [[raw|] gz]; [|apply yields_ret; by right].
  repeat case_match; try (apply yields_bind; intros []; apply yields_ret; by right).
  apply yields_bind. intros []. apply yields_ret. left. split; [done|]. by eexists.
Qed.

Lemma checkRequest_yields now r n : yields decided (checkRequest cfg now r n).
Proof.
  unfold checkRequest. apply (yields_bind' (fun p => unidentified p.2)); [by apply checkTransport_yields|].
  intros [[] res] Hu; cbn [negb]; [|apply yields_ret; by right].
  apply (yields_bind' decided); [by apply decodeBody_yields|].
  intros [[] res'] [[Ho (b & Hb & Hi & Hs)]|[Ho [Hb Hi]]]; try done; simpl in *; rewrite Hb; cbn [negb].
  - apply yields_bind. intros []. apply yields_ret. left. split; [done|]. by exists b.
  - apply yields_ret. by right.
Qed.

Lemma checkRequest_decided now r n c ok res c' :
  checkRequest cfg now r n c = ((ok, res), c') -> decided (ok, res).
Proof. intros E. pose proof (checkRequest_yields now r n c) as H'. by rewrite E in H'. Qed.
End request.

(** What a comparison leaves alone. *)
Lemma checkState_keeps cfg res b s fs res' s' fs' : checkState cfg res b (s, fs) = (res', (s', fs')) ->
  (re_raw res', re_batch res', re_key res', re_instance res', re_seq res', re_hash res') =
    (re_raw res, re_batch res, re_key res, re_instance res, re_seq res, re_hash res) /\
  exists new, fs' = fs ++ new.
Proof.
  intros E. split.
  - assert (yields (fun r => r = res \/ exists n r0 a e, r = set_state n r0 a e res) (checkState cfg res b)) as Hy.
    { unfold checkState. case_match; [apply yields_ret; by left|].
      repeat (apply yields_bind; intros; repeat case_match); apply yields_ret; right; by do 4 eexists. }
    specialize (Hy (s, fs)). rewrite E in Hy. cbn [fst] in Hy. destruct Hy as [->|(n & r & a & e & ->)]; done.
  - destruct (base.decide (re_instance res = "" \/ re_key res = "")%string) as [Hd|Hd].
    { rewrite checkState_skips in E by done. injection E as _ _ <-. exists []. by rewrite app_nil_r. }
    destruct (checkState_spec cfg res b s fs) as (r1 & s1 & new & i' & E' & _); [naive_solver|naive_solver|].
    rewrite E in E'. injection E' as _ _ ->. by exists new.
Qed.

(** ** Lemmas on the memory *)

Section memory.
Context `{!Decoders, !MapRange} (cfg : Config).

(** The result a handler carries once its delivery was compared. *)
Definition compared (h : handler) : option result :=
  match h with
  | Recording res | Deciding res | Delaying res _ | Answering res _ | Counting res => Some res
  | _ => None
  end.

Definition identified (res : result) : Prop := re_instance res <> ""%string /\ re_key res <> ""%string.

(** The memory of one delivery. *)
Record delivery_ok (tr : list action) (inst key : string) (i : instState) : Prop := {
  do_body : d_hash <$> in_seen i !! key = first_body inst key tr;
  do_acked : forall d, in_seen i !! key = Some d -> d_acked d = true <-> acknowledged inst key tr;
  do_none : in_seen i !! key = None -> omap (ack_of inst key) tr = [];
}.

Definition inst_ok (tr : list action) (inst : string) (o : option instState) : Prop :=
  let i := default newInst o in
  (o = None <-> count (inst_seen inst) tr = 0%nat) /\
  in_lastAckedSeq i = foldr Z.max 0 (omap (inst_ack inst) tr) /\
  forall key, key <> ""%string -> delivery_ok tr inst key i.

Lemma foldr_max_snoc l z : foldr Z.max 0 (l ++ [z]) = Z.max z (foldr Z.max 0 l).
Proof. induction l as [|x l IH]; simpl; lia. Qed.

Lemma first_body_snoc inst key tr a :
  first_body inst key (tr ++ [a]) =
    match first_body inst key tr with Some b => Some b | None => body_of inst key a end.
Proof.
  unfold first_body. rewrite omap_snoc. destruct (omap (body_of inst key) tr); [|done]. by destruct (body_of inst key a).
Qed.

(** Actions that neither compare nor acknowledge leave what was said of them. *)
Definition silent (a : action) : bool :=
  match a with ACompare _ _ | AAnswer _ (Accepted _) | AReset => false | _ => true end.

Lemma inst_ok_silent tr a inst o : silent a = true -> inst_ok tr inst o -> inst_ok (tr ++ [a]) inst o.
Proof.
  intros Ha (Hn & Hl & Hd).
  assert (inst_seen inst a = false /\ inst_ack inst a = None /\ forall key, body_of inst key a = None /\ ack_of inst key a = None)
    as (E1 & E2 & E3) by (destruct a as [| | | | | | |res []| | |]; done).
  split; [by rewrite count_snoc, E1, Nat.add_0_r|]. split; [by rewrite omap_snoc, E2, app_nil_r|].
  intros key Hk. destruct (Hd key Hk) as [Hb Hac Hno]. destruct (E3 key) as [E4 E5].
  split; unfold acknowledged in *; rewrite ?first_body_snoc, ?omap_snoc, ?E4, ?E5, ?app_nil_r; try done.
  by destruct (first_body inst key tr).
Qed.

(** So do those of another instance. *)
Lemma inst_ok_other tr a inst o :
  inst_seen inst a = false -> inst_ack inst a = None ->
  (forall key, key <> ""%string -> body_of inst key a = None /\ ack_of inst key a = None) ->
  inst_ok tr inst o -> inst_ok (tr ++ [a]) inst o.
Proof.
  intros E1 E2 E3 (Hn & Hl & Hd).
  split; [by rewrite count_snoc, E1, Nat.add_0_r|]. split; [by rewrite omap_snoc, E2, app_nil_r|].
  intros key Hk. destruct (Hd key Hk) as [Hb Hac Hno]. destruct (E3 key Hk) as [E4 E5].
  split; unfold acknowledged in *; rewrite ?first_body_snoc, ?omap_snoc, ?E4, ?E5, ?app_nil_r; try done.
  by destruct (first_body inst key tr).
Qed.

(** An instance that remembers the same of every delivery. *)
Definition gist (d : delivery) : string * bool := (d_hash d, d_acked d).

Lemma inst_ok_same tr inst o o' :
  (o = None <-> o' = None) ->
  in_lastAckedSeq (default newInst o') = in_lastAckedSeq (default newInst o) ->
  (forall key, gist <$> in_seen (default newInst o') !! key = gist <$> in_seen (default newInst o) !! key) ->
  inst_ok tr inst o -> inst_ok tr inst o'.
Proof.
  intros Ho Ha Hg (Hn & Hl & Hd). split; [by rewrite <- Ho|]. split; [by rewrite Ha|].
  intros key Hk. destruct (Hd key Hk) as [Hb Hac Hno]. specialize (Hg key).
  split.
  - rewrite <- Hb. change d_hash with (fst ∘ gist). by rewrite !option_fmap_compose, Hg.
  - intros d E. rewrite E in Hg. destruct (in_seen (default newInst o) !! key) as [d0|] eqn:E0; [|done].
    injection Hg as Hh Hx. rewrite Hx. by apply Hac.
  - intros E. rewrite E in Hg. apply Hno. by destruct (in_seen (default newInst o) !! key).
Qed.

Lemma markTruncated_same tr inst res s :
  inst_ok tr inst (sv_instances s !! inst) -> inst_ok tr inst (sv_instances (markTruncated res s) !! inst).
Proof.
  intros Hok. unfold markTruncated, on_delivery. destruct (_ || _); [done|].
  destruct (sv_instances s !! re_instance res) as [i|] eqn:Ei; [|done]. cbn [set_instances sv_instances].
  destruct (base.decide (re_instance res = inst)) as [<-|Hne]; [|by rewrite lookup_insert_ne].
  rewrite lookup_insert, decide_True by done. rewrite Ei in Hok.
  apply (inst_ok_same tr _ (Some i)); [done|done| |done]. intros key. simpl.
  destruct (in_seen i !! re_key res) as [d|] eqn:Ed; [|done].
  destruct (base.decide (re_key res = key)) as [<-|Hk]; [|by rewrite lookup_insert_ne].
  by rewrite lookup_insert, decide_True, Ed.
Qed.

(** The acknowledgement of a delivery that was compared. *)
Lemma markAcked_ok tr inst res s seq body : identified res ->
  first_body (re_instance res) (re_key res) tr = Some body ->
  inst <> ""%string -> inst_ok tr inst (sv_instances s !! inst) ->
  inst_ok (tr ++ [AAnswer res (Accepted seq)]) inst (sv_instances (markAcked res s) !! inst).
Proof.
  intros [Hi Hk] Hbody Hne Hok. unfold markAcked, on_delivery.
  pose proof Hi as Ei. pose proof Hk as Ek. apply String.eqb_neq in Ei, Ek. rewrite Ei, Ek. cbn [orb].
  destruct (base.decide (re_instance res = inst)) as [<-|Hother].
  - destruct Hok as (Hn & Hl & Hd). destruct (Hd _ Hk) as [Hb _ _].
    destruct (sv_instances s !! re_instance res) as [i|] eqn:Es; [|by rewrite Hbody in Hb].
    cbn [from_option id] in *. destruct (in_seen i !! re_key res) as [d|] eqn:Ed; [|by rewrite Hbody in Hb].
    cbn [set_instances sv_instances]. rewrite lookup_insert, decide_True by done.
    split; [rewrite count_snoc; simpl; rewrite Nat.add_0_r; split; [done|]; intros E; by apply Hn in E|].
    cbn [from_option id in_lastAckedSeq in_seen]. split.
    { rewrite omap_snoc. cbn [inst_ack]. rewrite String.eqb_refl, Ek. cbn [negb andb]. change (option_list (Some (re_seq res))) with [re_seq res].
      by rewrite foldr_max_snoc, Hl. }
    intros key Hkey. destruct (Hd key Hkey) as [Hb' Hac Hno].
    assert (body_of (re_instance res) key (AAnswer res (Accepted seq)) = None) as E0 by done.
    split; unfold acknowledged; rewrite ?first_body_snoc, ?omap_snoc, ?E0; cbn [in_seen ack_of is_of];
      unfold is_of; rewrite ?String.eqb_refl; cbn [andb];
      (destruct (base.decide (re_key res = key)) as [<-|Hkne];
        [rewrite lookup_insert, decide_True by done; rewrite ?String.eqb_refl
        |rewrite lookup_insert_ne by done;
         assert (String.eqb (re_key res) key = false) as E1 by (by apply String.eqb_neq); rewrite ?E1, ?app_nil_r]).
    + by rewrite <- Hb.
    + rewrite Hb'. by destruct (first_body (re_instance res) key tr).
    + intros d' [= <-]. split; [|done]. intros _. by destruct (omap (ack_of (re_instance res) (re_key res)) tr).
    + exact Hac.
    + done.
    + exact Hno.
  - assert (String.eqb (re_instance res) inst = false) as Ee by (by apply String.eqb_neq).
    apply inst_ok_other; [done|cbn [inst_ack]; by rewrite Ee| |].
    { intros key _. split; [done|]. cbn [ack_of]. unfold is_of. by rewrite Ee. }
    destruct (sv_instances s !! re_instance res); [|done]. cbn [set_instances sv_instances]. by rewrite lookup_insert_ne.
Qed.

(** The comparison of a delivery. *)
Lemma compare_ok tr inst res b s fs res' s' fs' res'' : inst <> ""%string ->
  checkState cfg res b (s, fs) = (res', (s', fs')) ->
  inst_ok tr inst (sv_instances s !! inst) ->
  inst_ok (tr ++ [ACompare res res'']) inst (sv_instances s' !! inst).
Proof.
  intros Hne E Hok.
  assert (forall o, (re_instance res = inst -> re_key res = ""%string) -> inst_ok tr inst o -> inst_ok (tr ++ [ACompare res res'']) inst o)
    as Hskip.
  { intros o Himp. apply inst_ok_other; [|done|].
    - cbn [inst_seen]. destruct (String.eqb_spec (re_instance res) inst) as [Hx|Hx]; [|done].
      by rewrite (Himp Hx).
    - intros key Hkey. split; [|done]. cbn [body_of]. unfold is_of.
      destruct (String.eqb_spec (re_instance res) inst) as [Hx|Hx]; [|done]. rewrite (Himp Hx).
      apply not_eq_sym, String.eqb_neq in Hkey. by rewrite Hkey. }
  destruct (base.decide (re_instance res = ""%string)) as [Hi|Hi].
  { rewrite checkState_skips in E by auto. injection E as <- <- <-. apply Hskip; [congruence|done]. }
  destruct (base.decide (re_key res = ""%string)) as [Hk|Hk].
  { rewrite checkState_skips in E by auto. injection E as <- <- <-. apply Hskip; [congruence|done]. }
  destruct (checkState_spec cfg res b s fs Hi Hk)
    as (r1 & s1 & new & i' & E' & _ & Hs & Hl' & Hseen & _ & _ & _ & _).
  rewrite E in E'. injection E' as <- <- ->. rewrite Hs.
  destruct (base.decide (re_instance res = inst)) as [<-|Hother]; [|rewrite lookup_insert_ne by done; by apply Hskip].
  rewrite lookup_insert, decide_True by done. destruct Hok as (Hn & Hl & Hd).
  pose proof Hk as Ek. apply String.eqb_neq in Ek.
  split; [rewrite count_snoc; cbn [inst_seen]; rewrite String.eqb_refl, Ek; simpl; split; [done|lia]|].
  cbn [from_option id]. split; [rewrite Hl', Hl, omap_snoc; cbn [inst_ack]; by rewrite app_nil_r|].
  intros key Hkey. destruct (Hd key Hkey) as [Hb Hac Hno].
  assert (ack_of (re_instance res) key (ACompare res res'') = None) as E0 by done.
  split; unfold acknowledged; rewrite ?first_body_snoc, ?omap_snoc, ?E0, ?app_nil_r, Hseen; cbn [body_of];
    unfold is_of; rewrite ?String.eqb_refl; cbn [andb];
    (destruct (base.decide (re_key res = key)) as [<-|Hkne];
      [rewrite lookup_insert, decide_True by done; rewrite ?String.eqb_refl
      |rewrite lookup_insert_ne by done;
       assert (String.eqb (re_key res) key = false) as E1 by (by apply String.eqb_neq); rewrite ?E1]).
  - unfold remembered, known. rewrite <- Hb.
    destruct (in_seen (default newInst (sv_instances s !! re_instance res)) !! re_key res) as [d|]; done.
  - rewrite Hb. by destruct (first_body (re_instance res) key tr).
  - intros d' [= <-]. unfold remembered, known.
    destruct (in_seen (default newInst (sv_instances s !! re_instance res)) !! re_key res) as [d|] eqn:Ed.
    + exact (Hac d eq_refl).
    + rewrite (Hno eq_refl). by split.
  - exact Hac.
  - done.
  - exact Hno.
Qed.

Lemma first_body_keeps inst key tr a body :
  first_body inst key tr = Some body -> first_body inst key (tr ++ [a]) = Some body.
Proof. intros E. by rewrite first_body_snoc, E. Qed.

(** A compared handler's body is on record. *)
Definition on_record (tr : list action) (h : handler) : Prop :=
  forall res, compared h = Some res -> identified res -> exists body, first_body (re_instance res) (re_key res) tr = Some body.

Lemma on_record_keeps tr a h : on_record tr h -> on_record (tr ++ [a]) h.
Proof. intros Hr res Hc Hi. destruct (Hr res Hc Hi) as [body E]. exists body. by apply first_body_keeps. Qed.

Lemma on_record_same tr a h h' : on_record tr h -> compared h' = compared h -> on_record (tr ++ [a]) h'.
Proof. intros Hr E res. rewrite E. by apply on_record_keeps. Qed.

Lemma compare_on_record tr res b s fs res' s' fs' :
  checkState cfg res b (s, fs) = (res', (s', fs')) ->
  on_record (tr ++ [ACompare res (set_failures fs' res')]) (Recording (set_failures fs' res')).
Proof.
  intros E r [= <-] [Hi Hk]. simpl in Hi, Hk. cbn [re_instance re_key set_failures].
  destruct (base.decide (re_instance res = ""%string)) as [Hi0|Hi0].
  { rewrite checkState_skips in E by auto. injection E as <- _ _. done. }
  destruct (base.decide (re_key res = ""%string)) as [Hk0|Hk0].
  { rewrite checkState_skips in E by auto. injection E as <- _ _. done. }
  destruct (checkState_spec cfg res b s fs Hi0 Hk0) as (r1 & s1 & new & i' & E' & _ & _ & _ & _ & Hid & _).
  rewrite E in E'. injection E' as <- <- _. injection Hid as -> -> _ _.
  rewrite first_body_snoc. cbn [body_of]. unfold is_of. rewrite !String.eqb_refl. cbn [andb].
  destruct (first_body (re_instance res) (re_key res) tr) as [body|]; by eexists.
Qed.

Lemma check_on_record tr now r n c0 ok res c :
  checkRequest cfg now r n c0 = ((ok, res), c) ->
  on_record tr
    (match re_batch (set_failures (out c) res) with
     | Some b => if ok then Comparing (set_failures (out c) res) b else Recording (set_failures (out c) res)
     | None => Recording (set_failures (out c) res)
     end).
Proof.
  intros E. apply checkRequest_decided in E as [[Ho (b & Hb & _)]|[Ho [Hb Hi]]]; simpl in *; rewrite Hb.
  - rewrite Ho. by intros r0.
  - intros r0 [= <-] [Hne _]. destruct (Hne Hi).
Qed.

Definition insts_ok (tr : list action) (s : Server) : Prop :=
  forall inst, inst <> ""%string -> inst_ok tr inst (sv_instances s !! inst).

Lemma insts_ok_silent tr a s s' :
  silent a = true -> sv_instances s' = sv_instances s -> insts_ok tr s -> insts_ok (tr ++ [a]) s'.
Proof. intros Ha E Hok inst Hne. rewrite E. apply inst_ok_silent; auto. Qed.

Lemma insts_ok_truncated tr a res s : silent a = true -> insts_ok tr s -> insts_ok (tr ++ [a]) (markTruncated res s).
Proof. intros Ha Hok inst Hne. apply inst_ok_silent, markTruncated_same; auto. Qed.

Lemma accepted_ok tr res s seq : on_record tr (Counting res) -> insts_ok tr s ->
  insts_ok (tr ++ [AAnswer res (Accepted seq)]) (markAcked res s).
Proof.
  intros Hr Hok inst Hne.
  destruct (base.decide (re_instance res = ""%string)) as [Hi|Hi]; [|destruct (base.decide (re_key res = ""%string)) as [Hk|Hk]].
  3: { destruct (Hr res eq_refl (conj Hi Hk)) as [body E]. by apply (markAcked_ok _ _ _ _ _ body); auto; split. }
  - unfold markAcked, on_delivery. rewrite Hi. cbn [String.eqb orb].
    assert (String.eqb (re_instance res) inst = false) as E by (rewrite Hi; by apply String.eqb_neq, not_eq_sym).
    apply inst_ok_other; auto; cbn [inst_ack ack_of]; unfold is_of; by rewrite ?E.
  - unfold markAcked, on_delivery. rewrite Hk, orb_true_r.
    apply inst_ok_other; auto; cbn [inst_ack ack_of]; unfold is_of.
    + by rewrite Hk, andb_false_r.
    + intros key Hkey. split; [done|]. rewrite Hk.
      assert (String.eqb "" key = false) as -> by (by apply String.eqb_neq, not_eq_sym). by rewrite andb_false_r.
Qed.

Lemma hstep_memory tr s h a s' h' :
  insts_ok tr s -> on_record tr h -> hstep cfg s h a s' h' -> insts_ok (tr ++ [a]) s' /\ on_record (tr ++ [a]) h'.
Proof.
  intros Hok Hr Hstep.
  destruct Hstep as [r s1|n r now ok res c E res'|res b res' s' fs E|res fatal s' E|res f _|res f s' E|res f|res f
    |res f a _ _ Ha|res f _ _|res f _ _|res s1].
  - split; [by apply (insts_ok_silent _ _ s)|done].
  - split; [by apply (insts_ok_silent _ _ s)|]. by eapply on_record_keeps, check_on_record.
  - split; [|by eapply compare_on_record]. intros inst Hne. eapply compare_ok; eauto.
  - split; [|apply (on_record_same _ _ (Recording res)); [done|by destruct fatal]].
    apply (insts_ok_silent _ _ s); [done|by injection E as _ <-|done].
  - split; [|done]. apply (insts_ok_silent _ _ s); [done|by destruct (0 <? cfg_Require cfg)|done].
  - split; [|apply (on_record_same _ _ (Deciding res)); [done|by destruct (0 <? ft_delay f)]].
    apply (insts_ok_silent _ _ s); [done| |done]. unfold decide in E. destruct (decideKind _ _ _ _) as [[[? ?] ?] ?].
    by injection E as _ <-.
  - split; [by apply (insts_ok_silent _ _ s)|by apply (on_record_same _ _ (Delaying res f))].
  - split; [by apply insts_ok_truncated|done].
  - split; [|done]. apply insts_ok_truncated; [by destruct Ha as [-> | ->]|done].
  - split; [|done]. apply (insts_ok_silent _ _ s); [done| |done]. unfold noteTerminal. by destruct (_ || _).
  - split; [by apply accepted_ok|by apply (on_record_same _ _ (Answering res f))].
  - split; [|done]. apply (insts_ok_silent _ _ s); [done|by destruct (_ && _)|done].
Qed.

Lemma run_memory s0 tr y : sv_instances s0 = ∅ -> AReset ∉ tr -> run cfg s0 tr y ->
  insts_ok tr (sy_server y) /\ forall h, h ∈ sy_handlers y -> on_record tr h.
Proof.
  intros Hempty Hreset Hrun. induction Hrun as [|tr y a y' Hrun IH Hstep].
  { split; [|by intros h Hh%not_elem_of_nil]. intros inst Hne. cbn [sy_server]. rewrite Hempty.
    split; [done|]. split; [done|]. intros key _. split; done. }
  destruct IH as [Hok Hr]; [set_solver|].
  destruct Hstep as [r|i h a s' h' Hi Hh|f|].
  - split; [by apply (insts_ok_silent _ _ (sy_server y))|]. cbn [sy_handlers]. intros h [Hh|Hh]%elem_of_app.
    + by apply on_record_keeps, Hr.
    + apply list_elem_of_singleton in Hh as ->. done.
  - destruct (hstep_memory tr _ h a s' h' Hok (Hr h (list_elem_of_lookup_2 _ _ _ Hi)) Hh) as [Hok' Hr'].
    split; [done|]. cbn [sy_handlers]. intros h1 (j & Hj)%list_elem_of_lookup.
    apply list_lookup_insert_Some in Hj as [(_ & <- & _)|[_ Hj]]; [done|].
    apply on_record_keeps, Hr. by apply list_elem_of_lookup_2 in Hj.
  - split; [by apply (insts_ok_silent _ _ (sy_server y))|]. intros h Hh. by apply on_record_keeps, Hr.
  - set_solver.
Qed.
End memory.

(** ** Lemmas on the counters *)

Definition is_count (a : action) : bool := match a with ACount => true | _ => false end.
Definition is_record (fatal : bool) (a : action) : bool := match a with ARecord _ f => Bool.eqb f fatal | _ => false end.
Definition is_accepted (a : action) : bool := match a with AAccepted _ => true | _ => false end.
Definition is_fault (a : action) : bool := match a with ADecide f => active f | _ => false end.
Definition is_rejected (a : action) : bool := match a with AAnswer _ (Rejected _ _) => true | _ => false end.
Definition is_terminal (a : action) : bool :=
  match a with AAnswer _ (Injected st _) => (400 <=? st) && (st <? 500) | _ => false end.

(** A good batch that was not answered 200: a fault was injected, or the client left. *)
Definition is_spoiled (a : action) : bool :=
  match a with AAnswer _ (Injected _ _ | Dropped | BadGateway | Unread) => true | _ => false end.

Definition is_bad (res : result) : bool := existsb is_fatal (re_failures res).

(** Handlers of requests that were counted and not recorded, and of good batches
    whose answer is not counted yet. *)
Definition unrecorded (h : handler) : bool := match h with Checking _ _ | Comparing _ _ | Recording _ => true | _ => false end.
Definition in_flight (h : handler) : bool :=
  match h with Deciding _ | Delaying _ _ | Counting _ => true | Answering res _ => negb (is_bad res) | _ => false end.
Definition good (h : handler) : bool := match h with Deciding res | Delaying res _ => negb (is_bad res) | _ => true end.

Definition number (p : action -> bool) (tr : list action) : Z := Z.of_nat (count p tr).
Definition handlers (p : handler -> bool) (y : system) : Z := Z.of_nat (count p (sy_handlers y)).

(** What the counters are, and where the requests they stand for went. *)
Record ledger (cfg : Config) (tr : list action) (y : system) : Prop := {
  le_requests : st_Requests (sv_stats (sy_server y)) = number is_count tr;
  le_ok : st_OK (sv_stats (sy_server y)) = number (is_record false) tr;
  le_fatal : st_Fatal (sv_stats (sy_server y)) = number (is_record true) tr;
  le_accepted : st_Accepted (sv_stats (sy_server y)) = number is_accepted tr;
  le_faults : st_FaultsInjected (sv_stats (sy_server y)) = number is_fault tr;
  le_sent4xx : sv_sent4xx (sy_server y) = number (is_record true) tr + number is_terminal tr;
  le_recorded : st_Requests (sv_stats (sy_server y)) =
    st_OK (sv_stats (sy_server y)) + st_Fatal (sv_stats (sy_server y)) + handlers unrecorded y;
  le_answered : st_OK (sv_stats (sy_server y)) =
    st_Accepted (sv_stats (sy_server y)) + number is_spoiled tr + handlers in_flight y;
  le_done : sv_done (sy_server y) = true <->
    0 < cfg_Require cfg /\ (0 < number is_rejected tr \/ cfg_Require cfg <= st_Accepted (sv_stats (sy_server y)));
  le_good : Forall (fun h => good h = true) (sy_handlers y);
}.

(** What one action of a handler does to them. *)
Record entry (cfg : Config) (s : Server) (h : handler) (a : action) (s' : Server) (h' : handler) : Prop := {
  en_requests : st_Requests (sv_stats s') = st_Requests (sv_stats s) + Z.b2z (is_count a);
  en_ok : st_OK (sv_stats s') = st_OK (sv_stats s) + Z.b2z (is_record false a);
  en_fatal : st_Fatal (sv_stats s') = st_Fatal (sv_stats s) + Z.b2z (is_record true a);
  en_accepted : st_Accepted (sv_stats s') = st_Accepted (sv_stats s) + Z.b2z (is_accepted a);
  en_faults : st_FaultsInjected (sv_stats s') = st_FaultsInjected (sv_stats s) + Z.b2z (is_fault a);
  en_sent4xx : sv_sent4xx s' = sv_sent4xx s + Z.b2z (is_record true a) + Z.b2z (is_terminal a);
  en_recorded : Z.b2z (is_count a) + Z.b2z (unrecorded h) =
    Z.b2z (is_record false a) + Z.b2z (is_record true a) + Z.b2z (unrecorded h');
  en_answered : Z.b2z (is_record false a) + Z.b2z (in_flight h) =
    Z.b2z (is_accepted a) + Z.b2z (is_spoiled a) + Z.b2z (in_flight h');
  en_done : sv_done s' = sv_done s ||
    (0 <? cfg_Require cfg) && (is_rejected a || is_accepted a && (cfg_Require cfg <=? st_Accepted (sv_stats s')));
  en_good : good h' = true;
}.

(** An entry that keeps every counter. *)
Definition quiet (a : action) : bool :=
  match a with
  | AArrive _ | ACheck | ACompare _ _ | AWait | AAnswer _ (Accepted _ | Dropped | BadGateway | Unread) | ASetFaults _ => true
  | _ => false
  end.

Lemma quiet_entry cfg s h a s' h' : quiet a = true -> same_but s s' -> good h' = true ->
  unrecorded h = unrecorded h' -> Z.b2z (in_flight h) = Z.b2z (is_spoiled a) + Z.b2z (in_flight h') -> entry cfg s h a s' h'.
Proof.
  intros Hq (E1 & E2 & E3 & E4 & E5 & E6 & E7) Hg Hu Hf.
  assert (is_count a = false /\ is_record false a = false /\ is_record true a = false /\ is_accepted a = false /\
    is_fault a = false /\ is_terminal a = false /\ is_rejected a = false) as (X1 & X2 & X3 & X4 & X5 & X6 & X7)
    by (by destruct a as [| | | | | | |? []| | |]).
  split; rewrite ?X1, ?X2, ?X3, ?X4, ?X5, ?X6, ?X7, ?E1, ?E2, ?E3, ?E4, ?E5, ?E6, ?E7, ?Hu, ?andb_false_r, ?orb_false_r;
    simpl Z.b2z; try done; lia.
Qed.

Lemma on_delivery_same res f g s : same_but s (on_delivery res f g s).
Proof. unfold on_delivery. destruct (_ || _); [done|]. by destruct (sv_instances s !! re_instance res). Qed.

Lemma checkState_same cfg res b s fs res' s' fs' :
  checkState cfg res b (s, fs) = (res', (s', fs')) -> same_but s s'.
Proof.
  intros E. destruct (base.decide (re_instance res = "" \/ re_key res = "")%string) as [Hd|Hd].
  { rewrite checkState_skips in E by done. by injection E as _ <- _. }
  destruct (checkState_spec cfg res b s fs) as (r1 & s1 & new & i' & E' & Hsame & _); [naive_solver|naive_solver|].
  rewrite E in E'. by injection E' as _ <- _.
Qed.

Section ledger.
Context `{!Decoders, !MapRange} (cfg : Config).

Lemma record_entry s res fatal s' : record cfg res s = (fatal, s') ->
  entry cfg s (Recording res) (ARecord res fatal) s'
    (if fatal then Answering res (mkFault faultNone 0 0 0 "") else Deciding res).
Proof.
  unfold record. fold (is_bad res). intros E. injection E as E <-.
  split; cbn [sv_stats st_Requests st_OK st_Fatal st_Accepted st_FaultsInjected sv_sent4xx sv_done countRecord
    is_count is_record is_accepted is_fault is_terminal is_rejected is_spoiled unrecorded in_flight good];
    rewrite ?E; destruct fatal; cbn [Bool.eqb Z.b2z in_flight good is_bad]; rewrite ?E, ?andb_false_r, ?orb_false_r; cbn [negb Z.b2z]; lia || done.
Qed.

Lemma decide_entry s res f s' : is_bad res = false -> decide (re_n res) s = (f, s') ->
  entry cfg s (Deciding res) (ADecide f) s' (if 0 <? ft_delay f then Delaying res f else Answering res f).
Proof.
  intros Hb E. unfold decide in E. destruct (decideKind _ _ _ _) as [[[? ?] ?] ?]. injection E as Ef <-. rewrite Ef.
  assert (forall h, h = (if 0 <? ft_delay f then Delaying res f else Answering res f) ->
    unrecorded h = false /\ in_flight h = true /\ good h = true) as Hh.
  { intros h ->. destruct (0 <? ft_delay f); simpl; rewrite ?Hb; done. }
  destruct (Hh _ eq_refl) as (H1 & H2 & H3).
  split; cbn [sv_stats sv_sent4xx sv_done is_count is_record is_accepted is_fault is_terminal is_rejected is_spoiled];
    rewrite ?H1, ?H2, ?H3, ?andb_false_r, ?orb_false_r; try (destruct (active f); simpl; lia || done); done.
Qed.

Lemma hstep_entry s h a s' h' : good h = true -> hstep cfg s h a s' h' -> entry cfg s h a s' h'.
Proof.
  intros Hg Hstep.
  destruct Hstep as [r s1|n r now ok res c E res'|res b res' s' fs E|res fatal s' E|res f Hb|res f s' E|res f|res f
    |res f a Hb _ Ha|res f Hb _|res f Hb _|res s1].
  - split; cbn; rewrite ?andb_false_r, ?orb_false_r; lia || done.
  - apply quiet_entry; try done; destruct (re_batch res') as [b|], ok; done.
  - apply quiet_entry; try done. by eapply checkState_same.
  - by apply record_entry.
  - change (is_bad res = true) in Hb. split; cbn; rewrite ?Hb; destruct (0 <? cfg_Require cfg); cbn; rewrite ?orb_true_r, ?orb_false_r; lia || done.
  - apply decide_entry; [by apply negb_true_iff|done].
  - apply quiet_entry; try done. simpl. simpl in Hg. by rewrite Hg.
  - apply quiet_entry; try done. apply on_delivery_same.
  - assert (quiet (AAnswer res a) = true /\ is_spoiled (AAnswer res a) = true) as [Hq Hs] by (by destruct Ha as [-> | ->]).
    change (is_bad res = false) in Hb. apply quiet_entry; try done; [apply on_delivery_same|]. rewrite Hs. simpl. by rewrite Hb.
  - change (is_bad res = false) in Hb. unfold noteTerminal.
    assert ((ft_status f <? 400) || (500 <=? ft_status f) = negb (is_terminal (AAnswer res (Injected (ft_status f) (ft_retryAfter f)))))
      as -> by (cbn; by rewrite negb_andb, <- Z.ltb_antisym, <- Z.leb_antisym).
    destruct (is_terminal _) eqn:Et; split; rewrite ?Et; cbn; rewrite ?Hb, ?andb_false_r, ?orb_false_r; cbn; lia || done.
  - change (is_bad res = false) in Hb. apply quiet_entry; try done; [apply on_delivery_same|]. simpl. by rewrite Hb.
  - split; cbn; destruct (0 <? cfg_Require cfg), (cfg_Require cfg <=? st_Accepted (sv_stats s) + 1) eqn:E; cbn;
      rewrite ?E, ?orb_true_r, ?orb_false_r; lia || done.
Qed.

Lemma number_snoc p tr a : number p (tr ++ [a]) = number p tr + Z.b2z (p a).
Proof. apply count_snoc_Z. Qed.

Lemma number_nonneg p tr : 0 <= number p tr.
Proof. unfold number. lia. Qed.

Lemma handlers_nonneg p y : 0 <= handlers p y.
Proof. unfold handlers. lia. Qed.

(** An action that touches no counter and leaves the handlers' phases. *)
Lemma ledger_idle tr y a y' : quiet a = true -> is_spoiled a = false -> same_but (sy_server y) (sy_server y') ->
  (forall p : handler -> bool, (forall r, p (Arrived r) = false) -> handlers p y' = handlers p y) ->
  Forall (fun h => good h = true) (sy_handlers y') -> ledger cfg tr y -> ledger cfg (tr ++ [a]) y'.
Proof.
  intros Hq Hs (E1 & E2 & E3 & E4 & E5 & E6 & E7) Hh Hg [L1 L2 L3 L4 L5 L6 L7 L8 L9 _].
  assert (is_count a = false /\ is_record false a = false /\ is_record true a = false /\ is_accepted a = false /\
    is_fault a = false /\ is_terminal a = false /\ is_rejected a = false) as (X1 & X2 & X3 & X4 & X5 & X6 & X7)
    by (by destruct a as [| | | | | | |? []| | |]).
  split; rewrite ?number_snoc, ?Hh, ?X1, ?X2, ?X3, ?X4, ?X5, ?X6, ?X7, ?Hs, ?E1, ?E2, ?E3, ?E4, ?E5, ?E6, ?E7 by done;
    rewrite ?Z.add_0_r; done.
Qed.

Lemma ledger_step tr y a y' : a <> AReset -> step cfg y a y' -> ledger cfg tr y -> ledger cfg (tr ++ [a]) y'.
Proof.
  intros Hreset Hstep Hled. destruct Hstep as [r|i h a s' h' Hi Hh|f|]; [| | |done].
  - apply (ledger_idle tr y); [done|done|done| | |done].
    + intros p Hp. unfold handlers. cbn [sy_handlers]. by rewrite count_snoc_Z, Hp, Z.add_0_r.
    + apply Forall_app. split; [apply le_good with cfg tr; done|by constructor].
  - destruct Hled as [L1 L2 L3 L4 L5 L6 L7 L8 L9 L10].
    pose proof (proj1 (Forall_lookup _ _) L10 i h Hi) as Hg. destruct (hstep_entry _ _ _ _ _ Hg Hh).
    assert (forall p, handlers p (mkSystem s' (<[i:=h']> (sy_handlers y))) + Z.b2z (p h) = handlers p y + Z.b2z (p h'))
      as Hc by (intros p; by apply count_insert).
    pose proof (Hc unrecorded) as Hcu. pose proof (Hc in_flight) as Hcf.
    split; cbn [sy_server]; rewrite ?number_snoc; try lia.
    + rewrite en_done0, orb_true_iff, andb_true_iff, orb_true_iff, andb_true_iff, Z.ltb_lt, Z.leb_le, L9.
      pose proof (number_nonneg is_rejected tr). rewrite en_accepted0. destruct (is_rejected a), (is_accepted a); simpl Z.b2z; intuition lia.
    + cbn [sy_handlers]. by apply Forall_insert.
  - apply (ledger_idle tr y); [done|done|done|done| |done]. by destruct Hled.
Qed.

Lemma ledger_run s0 tr y :
  sv_stats s0 = no_stats -> sv_sent4xx s0 = 0 -> sv_done s0 = false ->
  AReset ∉ tr -> run cfg s0 tr y -> ledger cfg tr y.
Proof.
  intros Hst Hs4 Hd Hreset Hrun. induction Hrun as [|tr y a y' Hrun IH Hstep].
  - split; cbn [sy_server]; rewrite ?Hst, ?Hs4, ?Hd; try done. cbn. split; [done|]. unfold number. cbn. lia.
  - apply (ledger_step tr y); [set_solver|done|]. apply IH. set_solver.
Qed.
End ledger.

(** ** Lemmas on a request by itself *)

Section serving.
Context `{!Decoders, !MapRange} (cfg : Config) (now : Z).

Lemma hnext_hstep s h a s' h' : hnext cfg now s h = Some (a, s', h') -> hstep cfg s h a s' h'.
Proof.
  destruct h as [r|n r|res b|res|res|res f|res f|res|]; cbn [hnext].
  - intros [= <- <- <-]. constructor.
  - destruct (checkRequest cfg now r n _) as [[ok res] c] eqn:E. intros [= <- <- <-]. by econstructor.
  - destruct (checkState cfg res b _) as [res' [s1 fs]] eqn:E. intros [= <- <- <-]. by econstructor.
  - destruct (record cfg res s) as [fatal s1] eqn:E. intros [= <- <- <-]. by constructor.
  - destruct (decide (re_n res) s) as [f s1] eqn:E. intros [= <- <- <-]. by constructor.
  - intros [= <- <- <-]. constructor.
  - destruct (existsb is_fatal (re_failures res)) eqn:Eb; [intros [= <- <- <-]; by constructor|].
    destruct (ft_kind f) eqn:Ef; intros [= <- <- <-].
    + by constructor.
    + by constructor.
    + apply h_drop; auto.
  - intros [= <- <- <-]. constructor.
  - done.
Qed.

Lemma serve_run s0 i fuel : forall s h tr s' h' tr0 hs,
  serve cfg now fuel s h = (tr, s', h') -> hs !! i = Some h -> run cfg s0 tr0 (mkSystem s hs) ->
  run cfg s0 (tr0 ++ tr) (mkSystem s' (<[i := h']> hs)).
Proof.
  induction fuel as [|fuel IH]; intros s h tr s' h' tr0 hs; cbn [serve].
  { intros [= <- <- <-] Hi Hr. by rewrite app_nil_r, list_insert_id. }
  destruct (hnext cfg now s h) as [[[a s1] h1]|] eqn:Ea.
  2: { intros [= <- <- <-] Hi Hr. by rewrite app_nil_r, list_insert_id. }
  destruct (serve cfg now fuel s1 h1) as [[tr1 s2] h2] eqn:Es. intros [= <- <- <-] Hi Hr.
  change (a :: tr1) with ([a] ++ tr1). rewrite (assoc_L (++) tr0 [a] tr1).
  rewrite <- (list_insert_insert_eq hs i h2 h1).
  apply (IH s1 h1); [done|by rewrite list_lookup_insert_eq by (by eapply lookup_lt_Some)|].
  eapply run_snoc; [exact Hr|]. eapply (step_handler cfg (mkSystem s hs)); [exact Hi|by apply hnext_hstep].
Qed.

(** The phases a handler has left. *)
Definition remaining (h : handler) : nat :=
  match h with
  | Arrived _ => 8 | Checking _ _ => 7 | Comparing _ _ => 6 | Recording _ => 5 | Deciding _ => 4
  | Delaying _ _ => 3 | Answering _ _ => 2 | Counting _ => 1 | Answered => 0
  end%nat.

Lemma hstep_remaining s h a s' h' : hstep cfg s h a s' h' -> (remaining h' < remaining h)%nat.
Proof.
  intros Hstep. destruct Hstep as [| n r now' ok res c E res'|?????|res fatal s' E| |res f s' E| | | | | |]; simpl; try lia.
  - destruct (re_batch _) as [b|], ok; simpl; lia.
  - destruct fatal; simpl; lia.
  - destruct (0 <? ft_delay f); simpl; lia.
Qed.

Lemma hnext_some s h : h <> Answered -> exists a s' h', hnext cfg now s h = Some (a, s', h').
Proof.
  destruct h as [r|n r|res b|res|res|res f|res f|res|]; intros Hne; [..|done]; cbn [hnext]; try (by do 3 eexists).
  - destruct (checkRequest cfg now r n _) as [[ok res] c]. by do 3 eexists.
  - destruct (checkState cfg res b _) as [res' [s1 fs]]. by do 3 eexists.
  - destruct (decide (re_n res) s) as [f s1]. by do 3 eexists.
  - destruct (existsb is_fatal (re_failures res)); [by do 3 eexists|]. destruct (ft_kind f); by do 3 eexists.
Qed.

Lemma serve_answered fuel : forall s h, (remaining h <= fuel)%nat ->
  exists tr s', serve cfg now fuel s h = (tr, s', Answered).
Proof.
  induction fuel as [|fuel IH]; intros s h Hf; cbn [serve].
  { destruct h; simpl in Hf; try lia. by do 2 eexists. }
  assert (h = Answered \/ h <> Answered) as [->|Hne] by (destruct h; auto); [by do 2 eexists|].
  destruct (hnext_some s h Hne) as (a & s1 & h1 & Ea). rewrite Ea.
  pose proof (hstep_remaining _ _ _ _ _ (hnext_hstep _ _ _ _ _ Ea)) as Hlt.
  destruct (IH s1 h1) as (tr & s2 & ->); [lia|]. by do 2 eexists.
Qed.
End serving.

(** ** What the server promises *)

Definition is_answer (a : action) : bool := match a with AAnswer _ _ => true | _ => false end.

(** An answer is still to come. *)
Definition pending (h : handler) : bool := match h with Counting _ | Answered => false | _ => true end.

Lemma hstep_pending `{!Decoders, !MapRange} cfg s h a s' h' : hstep cfg s h a s' h' ->
  Z.b2z (is_answer a) + Z.b2z (pending h') = Z.b2z (pending h).
Proof.
  intros Hstep. destruct Hstep as [| n r now' ok res c E res'|?????|res fatal s' E| |res f s' E| | | | | |]; try done.
  - by destruct (re_batch _) as [b|], ok.
  - by destruct fatal.
  - by destruct (0 <? ft_delay f).
Qed.

Lemma serve_pending `{!Decoders, !MapRange} cfg now fuel : forall s h tr s' h',
  serve cfg now fuel s h = (tr, s', h') -> number is_answer tr + Z.b2z (pending h') = Z.b2z (pending h).
Proof.
  induction fuel as [|fuel IH]; intros s h tr s' h'; cbn [serve]; [by intros [= <- <- <-]|].
  destruct (hnext cfg now s h) as [[[a s1] h1]|] eqn:Ea; [|by intros [= <- <- <-]].
  destruct (serve cfg now fuel s1 h1) as [[tr1 s2] h2] eqn:Es. intros [= <- <- <-].
  apply hnext_hstep, hstep_pending in Ea. apply IH in Es. unfold number in *. rewrite count_cons.
  destruct (is_answer a); simpl Z.b2z in *; lia.
Qed.

Section promises.
Context `{!Decoders, !MapRange} (cfg : Config).

Definition reported (code : string) (before after : result) : Prop :=
  exists new, re_failures after = re_failures before ++ new /\ code ∈ f_Code <$> new.

(** The comparison a handler makes. *)
Lemma verdict_of y res res' y' : step cfg y (ACompare res res') y' ->
  exists b s' fs r, checkState cfg res b (sy_server y, re_failures res) = (r, (s', fs)) /\ res' = set_failures fs r.
Proof.
  intros Hstep. inversion Hstep as [|i h a s' h' Hi Hh| |]; subst.
  inversion Hh; subst. by do 4 eexists.
Qed.

Lemma other_codes_not code rest : Forall (fun c => c ∈ other_codes) rest -> code ∉ other_codes -> code ∉ rest.
Proof. intros Hf Hn Hin. by apply Hn, (proj1 (list.Forall_forall _ _) Hf). Qed.

(** Reading the codes of [checkState_spec] one at a time. *)
Lemma verdict_codes tr res inst rest first :
  Forall (fun c => c ∈ other_codes) rest ->
  d_hash <$> in_seen inst !! re_key res = first ->
  (forall d, in_seen inst !! re_key res = Some d -> d_acked d = true <-> acknowledged (re_instance res) (re_key res) tr) ->
  let l := delivery_codes res inst ++
    (if bool_decide (known res inst = None) && (re_seq res <=? in_lastAckedSeq inst)
     then ["idempotency.seq_regression"%string] else []) ++ rest in
  ("idempotency.body_mismatch"%string ∈ l <-> exists body, first = Some body /\ body <> re_hash res) /\
  ("idempotency.replay"%string ∈ l <-> first = Some (re_hash res) /\ acknowledged (re_instance res) (re_key res) tr) /\
  ("idempotency.seq_regression"%string ∈ l <-> first = None /\ re_seq res <= in_lastAckedSeq inst) /\
  (known res inst <> None <-> first <> None).
Proof.
  intros Hrest Hfirst Hac l.
  assert (forall code, code ∉ other_codes -> code ∈ l <-> code ∈ delivery_codes res inst \/
    code = "idempotency.seq_regression"%string /\ known res inst = None /\ re_seq res <= in_lastAckedSeq inst) as Hl.
  { intros code Hc. unfold l. rewrite !elem_of_app. pose proof (other_codes_not code rest Hrest Hc).
    destruct (bool_decide (known res inst = None) && _) eqn:E.
    { apply andb_true_iff in E as [?%bool_decide_eq_true ?%Z.leb_le]. rewrite list_elem_of_singleton. tauto. }
    apply andb_false_iff in E. rewrite bool_decide_eq_false, Z.leb_gt in E.
    split; [|intros [Hin|(_ & Hk & Hle)]; [by left|exfalso; destruct E; [done|lia]]].
    intros [Hin|[Hin|Hin]]; [by left|by apply not_elem_of_nil in Hin|done]. }
  assert (forall code, code ∈ ["idempotency.body_mismatch"; "idempotency.replay"; "idempotency.seq_regression"]%string ->
    code ∉ other_codes) as Hc.
  { intros code Hin. rewrite !elem_of_cons in Hin. apply (bool_decide_unpack _).
    destruct Hin as [-> | [-> | [-> | Hin]]]; [done|done|done|by apply not_elem_of_nil in Hin]. }
  rewrite !Hl by (apply Hc; set_solver). clear l Hl Hc. unfold delivery_codes, known in *. subst first.
  destruct (in_seen inst !! re_key res) as [d|]; cbn [fmap option_fmap option_map].
  - specialize (Hac d eq_refl). destruct (String.eqb_spec (d_hash d) (re_hash res)) as [Hh|Hh]; cbn [negb].
    + destruct (d_acked d); rewrite ?elem_of_nil, ?list_elem_of_singleton; split_and!; naive_solver congruence.
    + rewrite !list_elem_of_singleton. split_and!; naive_solver congruence.
  - rewrite !elem_of_nil. split_and!; naive_solver congruence.
Qed.

(** The verdicts on a delivery, when the server remembers the run before it. *)
Lemma compare_verdicts tr y res res' y' :
  insts_ok tr (sy_server y) -> step cfg y (ACompare res res') y' ->
  re_instance res <> ""%string -> re_key res <> ""%string ->
  let first := first_body (re_instance res) (re_key res) tr in
  (reported "idempotency.body_mismatch" res res' <-> exists body, first = Some body /\ body <> re_hash res) /\
  (reported "idempotency.replay" res res' <->
    first = Some (re_hash res) /\ acknowledged (re_instance res) (re_key res) tr) /\
  (reported "idempotency.seq_regression" res res' <->
    first = None /\ re_seq res <= foldr Z.max 0 (omap (inst_ack (re_instance res)) tr)) /\
  (re_retry res' = true <-> first <> None) /\
  (re_newInstance res' = true <-> number (inst_seen (re_instance res)) tr = 0).
Proof.
  intros Hok Hstep Hi Hk first.
  apply verdict_of in Hstep as (b & s' & fs & r & E & ->).
  destruct (Hok _ Hi) as (Hn & Hl & Hd). destruct (Hd _ Hk) as [Hb Hac Hno]. fold first in Hb.
  destruct (checkState_spec cfg res b (sy_server y) (re_failures res) Hi Hk)
    as (r1 & s1 & new & i' & E' & _ & _ & _ & _ & _ & Hretry & Hnew & rest & Hcodes & Hrest).
  rewrite E in E'. injection E' as <- <- ->.
  assert (forall code, reported code res (set_failures (re_failures res ++ new) r) <-> code ∈ f_Code <$> new) as Hrep.
  { intros code. split; [|by exists new]. intros (new' & Heq & Hc). cbn [re_failures set_failures] in Heq.
    by apply app_inv_head in Heq as ->. }
  rewrite !Hrep, Hcodes. cbn [re_retry re_newInstance set_failures]. rewrite Hretry, Hnew, !bool_decide_eq_true, Hn, <- Hl.
  destruct (verdict_codes tr res _ rest first Hrest Hb Hac) as (V1 & V2 & V3 & V4).
  split_and!; [done..|]. unfold number. lia.
Qed.

(** C25: However the handlers interleave, the verdict on a delivery is about what was
    compared and answered before it, and about all of it: a body mismatch is
    reported exactly when the first delivery under its key had another body, a
    replay exactly when it had this body and one delivery of the key was answered
    200, a sequence regression exactly when the key is new and the sequence number
    is not above every one acknowledged to this instance; a delivery is a retry
    when its key was seen, and starts an instance when none of its deliveries was. *)
Theorem verdict_exact s0 tr y res res' y' :
  sv_instances s0 = ∅ -> AReset ∉ tr -> run cfg s0 tr y -> step cfg y (ACompare res res') y' ->
  re_instance res <> ""%string -> re_key res <> ""%string ->
  let first := first_body (re_instance res) (re_key res) tr in
  (reported "idempotency.body_mismatch" res res' <-> exists body, first = Some body /\ body <> re_hash res) /\
  (reported "idempotency.replay" res res' <->
    first = Some (re_hash res) /\ acknowledged (re_instance res) (re_key res) tr) /\
  (reported "idempotency.seq_regression" res res' <->
    first = None /\ re_seq res <= foldr Z.max 0 (omap (inst_ack (re_instance res)) tr)) /\
  (re_retry res' = true <-> first <> None) /\
  (re_newInstance res' = true <-> number (inst_seen (re_instance res)) tr = 0).
Proof.
  intros Hempty Hreset Hrun Hstep Hi Hk. destruct (run_memory cfg s0 tr y Hempty Hreset Hrun) as [Hok _].
  by apply (compare_verdicts tr y res res' y').
Qed.

(** C26: However the handlers interleave, the counters say where the requests went:
    every one counted is a good batch, a refused one or still being checked; every
    good batch was accepted, was spoiled by a fault or a client that left, or is on
    its way to its answer; the 4xx counter that explains an agent's rejected batches
    is the refusals and the injected 4xx; and [Done] is closed exactly when a
    required run was refused a batch or reached its number of accepted ones. *)
Theorem server_counts cfg0 s0 tr y :
  New cfg0 = inr (cfg, s0) -> AReset ∉ tr -> run cfg s0 tr y ->
  let t := sv_stats (sy_server y) in
  (st_Requests t = number is_count tr /\ st_Fatal t = number (is_record true) tr /\
   st_Accepted t = number is_accepted tr /\ st_FaultsInjected t = number is_fault tr) /\
  st_Requests t = st_OK t + st_Fatal t + handlers unrecorded y /\
  st_OK t = st_Accepted t + number is_spoiled tr + handlers in_flight y /\
  sv_sent4xx (sy_server y) = st_Fatal t + number is_terminal tr /\
  (sv_done (sy_server y) = true <->
    0 < cfg_Require cfg /\ (0 < number is_rejected tr \/ cfg_Require cfg <= st_Accepted t)).
Proof.
  intros Hnew Hreset Hrun t.
  assert (sv_stats s0 = no_stats /\ sv_sent4xx s0 = 0 /\ sv_done s0 = false) as (E1 & E2 & E3).
  { unfold New in Hnew. repeat (case_match; [done|]). by injection Hnew as _ <-. }
  destruct (ledger_run cfg s0 tr y E1 E2 E3 Hreset Hrun) as [L1 L2 L3 L4 L5 L6 L7 L8 L9 _].
  split_and!; [done..|by unfold t; rewrite L3, L6|done].
Qed.

(** Every request is answered, once: from any state of the server, [handleIngest]
    runs to its end within eight actions, and exactly one of them is an answer. *)
Theorem request_answered now s r :
  exists tr s', handleIngest cfg now s r = (tr, s', Answered) /\ number is_answer tr = 1.
Proof.
  destruct (serve_answered cfg now 8 s (Arrived r)) as (tr & s' & E); [simpl; lia|]. exists tr, s'. split; [exact E|].
  apply serve_pending in E. simpl in E. lia.
Qed.
End promises.

(** ** One agent, a dropped answer and a redelivery *)

Definition demo_decoders : Decoders := {|
  ParseMediaType := Some;
  gzipHeader := fun _ => None;
  gzipBody := fun wire => (wire, None);
  gzipClose := fun _ => None;
  sha256hex := fun raw => raw;
  DecodeBatch := fun _ => Some (demo_batch 7, false);
  savedNothing := fun _ _ => false;
  MarshalFailures := fun _ _ _ => Some "{}"%string;
|}.

Definition demo_request (body : string) : HTTPRequest :=
  mkRequest "POST" "/v1/batches" "" "application/json" "a-1" 2 "" (body, None).

(** The first request is dropped after it was checked. *)
Definition demo_faulty : Config :=
  mkConfig "" "" false false 2 0 0 0 0 [] [] (mkFaults 0 0 0 0 0 0 0 0 1 0).

Definition demo_new : Config * Server :=
  match New demo_faulty with inr x => x | inl _ => (demo_faulty, mkServer no_faults false no_stats [] [] ∅ ∅ ∅ [] 0 false) end.

(** One more request, served for [fuel] actions. *)
Section next.
Context `{!Decoders, !MapRange} (cfg : Config) (now : Z).

Definition next (fuel : nat) (r : HTTPRequest) (st : list action * system) : list action * system :=
  let '(tr, s', h) := serve cfg now fuel (sy_server st.2) (Arrived r) in
  ((st.1 ++ [AArrive r]) ++ tr, mkSystem s' (sy_handlers st.2 ++ [h])).

Lemma next_run s0 fuel r st : run cfg s0 st.1 st.2 -> run cfg s0 (next fuel r st).1 (next fuel r st).2.
Proof.
  intros Hr. unfold next. destruct (serve _ _ _ _ _) as [[tr s'] h] eqn:E. cbn [fst snd]. set (hs := sy_handlers st.2).
  pose proof (serve_run cfg now s0 (length hs) fuel _ _ tr s' h (st.1 ++ [AArrive r]) (hs ++ [Arrived r]) E) as Hs.
  rewrite insert_app_r_alt, Nat.sub_diag in Hs by done. apply Hs.
  - by rewrite lookup_app_r, Nat.sub_diag.
  - eapply run_snoc; [exact Hr|]. constructor.
Qed.
End next.

Definition demo_next (fuel : nat) : list action * system -> list action * system :=
  @next demo_decoders listed_range demo_new.1 2000 fuel (demo_request "{}").

Definition demo_run (st : list action * system) : Prop := @run demo_decoders listed_range demo_new.1 demo_new.2 st.1 st.2.

Lemma demo_next_run fuel st : demo_run st -> demo_run (demo_next fuel st).
Proof. apply next_run. Qed.

Lemma no_reset tr : forallb (fun a => match a with AReset => false | _ => true end) tr = true -> AReset ∉ tr.
Proof. intros Hf Hin. rewrite forallb_forall in Hf. by apply list_elem_of_In, Hf in Hin. Qed.

(** The first delivery is dropped; the second, the retry, is answered 200. *)
Definition demo_acked : list action * system := demo_next 8 (demo_next 8 ([], mkSystem demo_new.2 [])).

Lemma demo_acked_run : demo_run demo_acked.
Proof. apply demo_next_run, demo_next_run. constructor. Qed.

(** A third delivery of the same body is a replay. *)
Theorem verdict_exact_witness : exists res res' y',
  @step demo_decoders listed_range demo_new.1 (demo_next 2 demo_acked).2 (ACompare res res') y' /\
  reported "idempotency.replay" res res' /\ ~ reported "idempotency.body_mismatch" res res'.
Proof.
  destruct (sy_handlers (demo_next 2 demo_acked).2 !! 2%nat) as [h|] eqn:Eh; [|by vm_compute in Eh].
  destruct (@hnext demo_decoders listed_range demo_new.1 2000 (sy_server (demo_next 2 demo_acked).2) h) as [[[a s'] h']|] eqn:Ea.
  2: { exfalso. vm_compute in Eh. injection Eh as <-. vm_compute in Ea. done. }
  assert (@step demo_decoders listed_range demo_new.1 (demo_next 2 demo_acked).2 a
    (mkSystem s' (<[2%nat := h']> (sy_handlers (demo_next 2 demo_acked).2)))) as Hstep
    by (eapply step_handler; [exact Eh|by eapply hnext_hstep]).
  assert (exists res res', a = ACompare res res' /\ re_instance res = "a"%string /\ re_key res = "a-1"%string /\
    re_hash res = "{}"%string) as (res & res' & -> & Hi & Hk & Hh).
  { vm_compute in Eh. injection Eh as <-. vm_compute in Ea. injection Ea as <- _ _. by do 2 eexists. }
  destruct (@verdict_exact demo_decoders listed_range demo_new.1 demo_new.2 (demo_next 2 demo_acked).1
    (demo_next 2 demo_acked).2 res res'
    (mkSystem s' (<[2%nat := h']> (sy_handlers (demo_next 2 demo_acked).2)))) as (Hm & Hr & _);
    [reflexivity|apply no_reset; by vm_compute|apply demo_next_run, demo_acked_run|exact Hstep|by rewrite Hi|by rewrite Hk|].
  do 3 eexists. split; [exact Hstep|]. rewrite Hm, Hr, Hi, Hk, Hh.
  assert (first_body "a" "a-1" (demo_next 2 demo_acked).1 = Some "{}"%string) as -> by (vm_compute; reflexivity).
  split; [split; [done|]|intros (body & [= <-] & Hne); by destruct Hne]. unfold acknowledged.
  assert (omap (ack_of "a" "a-1") (demo_next 2 demo_acked).1 = [1]) as -> by (vm_compute; reflexivity). done.
Defined.

(** Three requests: a good batch spoiled, one accepted, and a refused one, which
    ends the run though one batch more was required. *)
Theorem server_counts_witness :
  let y := (demo_next 8 demo_acked).2 in
  (st_Requests (sv_stats (sy_server y)), st_OK (sv_stats (sy_server y)), st_Fatal (sv_stats (sy_server y)),
   st_Accepted (sv_stats (sy_server y))) = (3, 2, 1, 1) /\ sv_done (sy_server y) = true.
Proof.
  intros y. split; [by vm_compute|].
  destruct (@server_counts demo_decoders listed_range demo_new.1 demo_faulty demo_new.2 (demo_next 8 demo_acked).1 y)
    as (_ & _ & _ & _ & Hdone);
    [by vm_compute|apply no_reset; by vm_compute|apply demo_next_run, demo_acked_run|].
  apply Hdone. split; [by vm_compute|]. left. by vm_compute.
Defined.
