(* ===== verification/Statuses.v ===== *)
(** * Statuses: with what status the ingest server refuses
    ([internal/mockingest/check.go], [faults.go], [server.go])

    The exporter decides on the status alone what becomes of a batch, so a delivery
    the server did not accept must not be answered with one below 400: no check
    reports such a status, and no fault injects one unless it was configured to. *)

From Stdlib Require Import ZArith Lia.
From stdpp Require Import prelude gmap strings numbers.
From S2P Require Import Export Prelude Wire Errors Filter Strconv Checks Conform Ingest.

Class refusing (status : Z) : Prop := refusing_le : 400 <= status.

(** ** The checks *)

(** A failure names no status, which stands for 400, or one that refuses. *)
Definition refuses_with (f : Failure) : Prop := f_status f = 0 \/ refusing (f_status f).

Class Refusing {A} (m : St checker A) : Prop :=
  refusing_out : preserves (fun c => Forall refuses_with (out c)) m.

#[export] Instance ret_refusing {A} (a : A) : Refusing (mret a).
Proof. apply preserves_ret. Qed.

#[export] Instance bind_refusing {A B} (m : St checker A) (k : A -> St checker B) :
  Refusing m -> (forall a, Refusing (k a)) -> Refusing (m ≫= k).
Proof. apply preserves_bind. Qed.

#[export] Instance whenM_refusing b (m : St checker ()) : Refusing m -> Refusing (whenM b m).
Proof. destruct b; simpl; apply _. Qed.

#[export] Instance foldM_refusing {A B} (f : nat -> A -> B -> St checker A) i a l :
  (forall i a x, Refusing (f i a x)) -> Refusing (foldM f i a l).
Proof. intros Hf. revert i a. induction l as [|x l IH]; intros i a; simpl; apply _. Qed.

#[export] Instance iterM_refusing {B} (f : B -> St checker ()) l : (forall x, Refusing (f x)) -> Refusing (iterM f l).
Proof. intros Hf. induction l as [|x l IH]; simpl; apply _. Qed.

#[export] Hint Extern 5 (Refusing (match ?x with _ => _ end)) => destruct x : typeclass_instances.

Section checks.
Context `{!MapRange} (cfg : Config) (now seqno : Z).

Lemma emit_refusing sev st code path : st = 0 \/ refusing st -> Refusing (emit cfg seqno sev st code path).
Proof.
  intros Hst c Hc. unfold emit. destruct sev, (WarnOnly cfg), (Strict cfg); simpl; apply Forall_app;
    (split; [done|]); apply list.Forall_singleton; unfold refuses_with; simpl; auto.
Qed.

#[export] Instance fail_refusing code path : Refusing (fail cfg seqno code path).
Proof. apply emit_refusing. by left. Qed.

#[export] Instance warn_refusing code path : Refusing (warn cfg seqno code path).
Proof. apply emit_refusing. by left. Qed.

#[export] Instance warnOnce_refusing key code path : Refusing (warnOnce cfg seqno key code path).
Proof. unfold warnOnce. apply bind_refusing; [by intros c Hc|apply _]. Qed.

#[export] Instance checkSection_refusing i st sec : Refusing (checkSection cfg seqno i st sec).
Proof. unfold checkSection. apply _. Qed.
#[export] Instance checkError_refusing byName i counted e : Refusing (checkError cfg seqno byName i counted e).
Proof. unfold checkError. apply _. Qed.
#[export] Instance checkCount_refusing counted p : Refusing (checkCount cfg seqno counted p).
Proof. unfold checkCount. apply _. Qed.
#[export] Instance checkPhaseOrder_refusing byName b : Refusing (checkPhaseOrder cfg seqno byName b).
Proof. unfold checkPhaseOrder. apply _. Qed.
#[export] Instance checkPartition_refusing t path j st p : Refusing (checkPartition cfg seqno t path j st p).
Proof. unfold checkPartition. apply _. Qed.
#[export] Instance checkTopic_refusing i st t : Refusing (checkTopic cfg seqno i st t).
Proof. unfold checkTopic. apply _. Qed.
#[export] Instance checkGroup_refusing i st g : Refusing (checkGroup cfg seqno i st g).
Proof. unfold checkGroup. apply _. Qed.
#[export] Instance checkOffset_refusing ts b group path j seen po : Refusing (checkOffset cfg seqno ts b group path j seen po).
Proof. unfold checkOffset. apply _. Qed.
#[export] Instance checkConsumer_refusing ts b i st co : Refusing (checkConsumer cfg seqno ts b i st co).
Proof. unfold checkConsumer. apply _. Qed.
#[export] Instance checkLogDirPartition_refusing path j seen p : Refusing (checkLogDirPartition cfg seqno path j seen p).
Proof. unfold checkLogDirPartition. apply _. Qed.
#[export] Instance checkLogDir_refusing i seen d : Refusing (checkLogDir cfg seqno i seen d).
Proof. unfold checkLogDir. apply _. Qed.
#[export] Instance checkLogDirs_refusing b : Refusing (checkLogDirs cfg seqno b).
Proof. unfold checkLogDirs. apply _. Qed.
#[export] Instance checkEntries_refusing field l : Refusing (checkEntries cfg seqno field l).
Proof. unfold checkEntries. apply _. Qed.
#[export] Instance checkSelection_refusing s : Refusing (checkSelection cfg seqno s).
Proof. unfold checkSelection. apply _. Qed.
#[export] Instance countCheck_refusing code path n got : Refusing (countCheck cfg seqno code path n got).
Proof. unfold countCheck. apply _. Qed.
#[export] Instance checkEnvelope_refusing key b : Refusing (checkEnvelope cfg now seqno key b).
Proof. unfold checkEnvelope. apply _. Qed.
#[export] Instance checkSections_refusing b : Refusing (checkSections cfg seqno b).
Proof. unfold checkSections. apply _. Qed.
#[export] Instance checkData_refusing b : Refusing (checkData cfg seqno b).
Proof. unfold checkData. apply _. Qed.
#[export] Instance checkTruncation_refusing b : Refusing (checkTruncation cfg seqno b).
Proof. unfold checkTruncation. apply _. Qed.
#[export] Instance checkAgent_refusing b : Refusing (checkAgent cfg seqno b).
Proof. unfold checkAgent. apply _. Qed.
#[export] Instance checkBatch_refusing key b : Refusing (checkBatch cfg now seqno key b).
Proof. unfold checkBatch. apply _. Qed.
End checks.

(** ** A request *)

Section request.
Context `{!Decoders, !MapRange} (cfg : Config).

#[local] Instance failStatus_refusing st code path : refusing st -> Refusing (failStatus cfg 0 st code path).
Proof. intros Hst. apply emit_refusing. by right. Qed.

Local Hint Extern 0 (refusing _) => (by vm_compute) : typeclass_instances.

#[export] Instance checkTransport_refusing r res : Refusing (checkTransport cfg r res).
Proof. unfold checkTransport. apply _. Qed.

#[export] Instance decompress_refusing enc wire : Refusing (decompress cfg enc wire).
Proof. unfold decompress. apply _. Qed.

#[export] Instance decodeBody_refusing r res : Refusing (decodeBody cfg r res).
Proof. unfold decodeBody. apply _. Qed.

#[export] Instance checkRequest_refusing now r n : Refusing (checkRequest cfg now r n).
Proof. unfold checkRequest. apply _. Qed.
End request.

(** ** The server *)

Section state.
Context (cfg : Config).

(** The faults stay, and no failure names a status that does not refuse. *)
Definition kept (f : Faults) (s : Server * list Failure) : Prop := sv_faults s.1 = f /\ Forall refuses_with s.2.

Lemma report_kept f seq m code path :
  (forall seq code path, Refusing (m cfg seq code path)) -> preserves (kept f) (report cfg seq m code path).
Proof. intros Hm [s fs] [Hf Hs]. split; [done|]. by apply (Hm seq code path (mkChecker ∅ fs)). Qed.

Lemma onServer_kept f g : (forall s, sv_faults (g s) = sv_faults s) -> preserves (kept f) (onServer g).
Proof. intros Hg [s fs] [Hf Hs]. split; [|done]. simpl. by rewrite Hg. Qed.

Local Ltac kept :=
  repeat first
    [apply preserves_ret
    |apply preserves_bind; [|intros]
    |apply report_kept; apply _
    |apply onServer_kept; intros; reflexivity
    |case_match
    |by intros ? ?].

Lemma checkState_kept f res b : preserves (kept f) (checkState cfg res b).
Proof. unfold checkState, checkDelivery, checkSequence, checkTelemetry, whenM. cbv zeta. kept. Qed.
End state.

(** No fault is configured to answer below 400; a zero stands for the default. *)
Record honest (f : Faults) : Prop := {
  ho_fail : FailStatus f = 0 \/ 400 <= FailStatus f;
  ho_every : EveryNthStatus f = 0 \/ 400 <= EveryNthStatus f;
  ho_terminal : 0 < TerminalOnce f -> 400 <= TerminalOnce f;
}.

#[export] Instance honest_dec f : Decision (honest f).
Proof.
  refine (cast_if_and3 (base.decide (FailStatus f = 0 \/ 400 <= FailStatus f)) (base.decide (EveryNthStatus f = 0 \/ 400 <= EveryNthStatus f))
    (base.decide (0 < TerminalOnce f -> 400 <= TerminalOnce f))); [by constructor|by intros []..].
Defined.

(** Faults once their defaults are filled in. *)
Definition armed_ok (f : Faults) : Prop :=
  400 <= FailStatus f /\ 400 <= EveryNthStatus f /\ (0 < TerminalOnce f -> 400 <= TerminalOnce f).

#[export] Instance armed_ok_dec f : Decision (armed_ok f).
Proof. unfold armed_ok. apply _. Defined.

Lemma withDefaults_ok f : honest f -> armed_ok (withDefaults f).
Proof.
  intros [Hf He Ht]. unfold withDefaults, armed_ok, StatusInternalServerError, StatusTooManyRequests. cbn.
  destruct (Z.eqb_spec (FailStatus f) 0), (Z.eqb_spec (EveryNthStatus f) 0); split_and!; try done; lia.
Qed.

Lemma decide_status n s : armed_ok (sv_faults s) -> ft_kind (decide n s).1 = faultStatus -> refusing (ft_status (decide n s).1).
Proof.
  intros (Hf & He & Ht). unfold decide, decideKind, refusing. cbv zeta.
  destruct (Z.ltb_spec 0 (TerminalOnce (sv_faults s))), (sv_terminalArmed s); cbn [andb];
    repeat (case_match; simplify_eq/=); try done; lia.
Qed.

Lemma failureStatus_refuses fs : Forall refuses_with fs -> refusing (failureStatus fs).
Proof.
  induction 1 as [|f fs Hf _ IH]; [by vm_compute|]. simpl. destruct (is_fatal f), (Z.eqb_spec (f_status f) 0) as [|Hz]; simpl; try done.
  by destruct Hf.
Qed.

Lemma on_delivery_faults res f g s : sv_faults (on_delivery res f g s) = sv_faults s.
Proof. unfold on_delivery. by repeat case_match. Qed.

Section server.
Context `{!Decoders, !MapRange} (cfg : Config).

Definition handler_ok (h : handler) : Prop :=
  match h with
  | Comparing res _ | Recording res | Deciding res => Forall refuses_with (re_failures res)
  | Delaying res f | Answering res f =>
      Forall refuses_with (re_failures res) /\ (ft_kind f = faultStatus -> refusing (ft_status f))
  | Arrived _ | Checking _ _ | Counting _ | Answered => True
  end.

(** The status an answer carries, when there is one. *)
Definition status_of (an : answer) : option Z :=
  match an with
  | Accepted _ => Some 200
  | Rejected status _ | Injected status _ => Some status
  | BadGateway => Some 502
  | Dropped | Unread => None
  end.

Definition accepts (an : answer) : bool := match an with Accepted _ => true | _ => false end.

(** An answer that does not accept refuses. *)
Definition answer_ok (a : action) : Prop :=
  match a with
  | AAnswer _ an => accepts an = false -> forall status, status_of an = Some status -> refusing status
  | _ => True
  end.

Lemma hstep_refuses s h a s' h' : armed_ok (sv_faults s) -> handler_ok h -> hstep cfg s h a s' h' ->
  sv_faults s' = sv_faults s /\ handler_ok h' /\ answer_ok a.
Proof.
  intros Hs Hh Hst. destruct Hst as [r s1|n r now ok res c E res'|res b res' s' fs E|res fatal s' E|res f Hb|res f s' E|res f|res f
    |res f a Hb _ Ha|res f Hb Hk|res f Hb _|res s1]; simpl in Hh.
  - by split_and!.
  - assert (Forall refuses_with (out c)) as Hc.
    { pose proof (checkRequest_refusing cfg now r n (mkChecker (sv_warned s) [])) as H'. rewrite E in H'. apply H'. constructor. }
    split_and!; [done| |done]. by destruct (re_batch res'), ok.
  - pose proof (checkState_kept cfg (sv_faults s) res b (s, re_failures res)) as H'. rewrite E in H'.
    destruct H' as [Hf Hc]; [done|]. by split_and!.
  - unfold record in E. injection E as <- <-. split; [done|]. split; [|done]. by destruct (existsb _ _).
  - split; [by destruct (0 <? cfg_Require cfg)|]. split; [done|]. intros _ status [= <-]. apply failureStatus_refuses, Hh.
  - pose proof (decide_status (re_n res) s Hs) as Hd. rewrite E in Hd.
    assert (sv_faults s' = sv_faults s) as Hf.
    { change s' with (f, s').2. rewrite <- E. unfold decide. by destruct (decideKind _ _ _ _) as [[[? ?] ?] ?]. }
    split; [done|]. split; [|done]. by destruct (0 <? ft_delay f).
  - by split_and!.
  - split; [apply on_delivery_faults|]. by split.
  - split; [apply on_delivery_faults|]. split; [done|]. intros _ status. by destruct Ha as [-> | ->]; [|intros [= <-]].
  - split; [unfold noteTerminal; by case_match|]. split; [done|]. intros _ status [= <-]. by apply Hh.
  - split; [apply on_delivery_faults|]. by split.
  - split; [by case_match|]. by split.
Qed.
Definition honest_action (a : action) : Prop := match a with ASetFaults f => honest f | _ => True end.

#[export] Instance honest_action_dec a : Decision (honest_action a).
Proof. destruct a; simpl; apply _. Defined.

(** Whatever interleaves, every answer that does not accept carries a status that
    refuses, or none at all. *)
Lemma answers_refuse s0 tr y : armed_ok (sv_faults s0) -> Forall honest_action tr -> run cfg s0 tr y -> Forall answer_ok tr.
Proof.
  intros Harmed Hh Hr.
  enough (armed_ok (sv_faults (sy_server y)) /\ Forall handler_ok (sy_handlers y) /\ Forall answer_ok tr) by tauto.
  induction Hr as [|tr y a y' Hr IH Hst]; [by split; [|split; constructor]|].
  apply Forall_app in Hh as [Hh Ha]. rewrite list.Forall_singleton in Ha. destruct (IH Hh) as (Hf & Hs & Ho). clear IH.
  destruct Hst as [r|i h a s' h' Hi Hst|f|]; cbn [sy_server sy_handlers].
  - split; [done|]. split; apply Forall_app; split; (done || by apply list.Forall_singleton).
  - destruct (hstep_refuses _ _ _ _ _ Hf (proj1 (Forall_lookup _ _) Hs _ _ Hi) Hst) as (-> & Hh' & Hao).
    split; [done|]. split; [by apply Forall_insert|]. apply Forall_app. split; [done|by apply list.Forall_singleton].
  - split; [exact (withDefaults_ok _ Ha)|]. split; [done|]. apply Forall_app. split; [done|by apply list.Forall_singleton].
  - split; [apply (withDefaults_ok no_faults); constructor; simpl; lia|]. split; [done|]. apply Forall_app. split; [done|by apply list.Forall_singleton].
Qed.
End server.
