(* ===== verification/Contract.v ===== *)
(** * Contract: what leaves the agent meets what the ingest server checks

    The two sides are modelled apart: [Pipeline] and [Agent] make the batches,
    [Conform] states what a batch must satisfy for the server's checks to accept it.
    Here the first is shown to give the second, but for what only the brokers'
    answers decide. *)

From Stdlib Require Import ZArith Lia.
From stdpp Require Import prelude gmap strings numbers pretty sorting.
From S2P Require Import Prelude Wire Errors Sections Merge Filter Cadence Kadm Collector Topics Truncation Offsets Reassign Groups Configs ShareGroups LogDirs Sched Pipeline Capabilities Strconv Environment Gates.
From S2P Require Import Export Agent.
From S2P Require File Checks Conform Ingest.

Notation nonneg := Conform.nonneg.

(** ** What the data keeps to, whatever the brokers answer *)

Definition partition_built (p : Partition) : Prop :=
  nonneg (p_StartOffset p) /\ nonneg (p_EndOffset p) /\ nonneg (p_LastStableOffset p).

Record topic_built (tm : TopicMetrics) : Prop := {
  tb_count : tm_PartitionCount tm = Z.of_nat (length (tm_Partitions tm));
  tb_parts : Forall partition_built (tm_Partitions tm);
}.

Definition dir_built (d : LogDir) : Prop := nonneg (ld_TotalBytes d) /\ nonneg (ld_UsableBytes d).

Record built (b : Batch) : Prop := {
  bu_brokers : forall cm, b_Cluster b = Some cm -> cm_BrokerCount cm = Z.of_nat (length (cm_Brokers cm));
  bu_topics : Forall topic_built (elems (b_Topics b));
  bu_groups : Forall Conform.group_ok (elems (b_Groups b));
  bu_offsets : Forall Conform.consumer_ok (elems (b_Offsets b));
  bu_dirs : Forall dir_built (elems (b_LogDirs b));
}.

Lemma nullable_nonneg v err : nonneg (nullableOffset v err).
Proof.
  intros z. unfold nullableOffset. destruct err; [done|]. destruct (v <? 0) eqn:E; [done|]. go_bools. by intros [= <-].
Qed.

Lemma sample_nonneg s topic p : nonneg (sample_offset s topic p).
Proof.
  unfold sample_offset. destruct (covers s topic); [|done]. intros z. simpl.
  destruct (Lookup (os_listed s) topic p); [|done]. simpl. apply nullable_nonneg.
Qed.

Lemma traverseM_Forall {S A B} (Q : B -> Prop) (f : A -> St S B) (l : list A) (s : S) :
  (forall x s, Q (f x s).1) -> Forall Q (traverseM f l s).1.
Proof.
  intros Hf. assert (Forall2 (fun _ => Q) l (traverseM f l s).1) as HF by (apply traverseM_Forall2; auto).
  by induction HF; constructor.
Qed.

Section collectors.
Context `{!KerrCodes} `{!Kadm} `{!KerrErrors} `{!ShardErrorText} {V : Type}.

Lemma collectCluster_built c : returns (V := V)
  (fun r => forall cm, r.1.1 = Some cm -> cm_BrokerCount cm = Z.of_nat (length (cm_Brokers cm))) (collectCluster c).
Proof. unfold collectCluster. phase; simpl; [done|]. by intros cm [= <-]. Qed.

Lemma buildTopic_built ss td ts : topic_built (buildTopic ss td ts).1.
Proof.
  destruct (buildTopic_fst ss td ts) as (_ & _ & _ & _ & Hc & _ & HF). split.
  - by rewrite Hc, (Forall2_length _ _ _ HF).
  - clear Hc. induction HF as [|p q ps qs Hq _ IH]; constructor; [|done].
    destruct Hq as [_ _ _ Hs He Hl _ _ _ _]. unfold partition_built. rewrite Hs, He, Hl. by split_and!; apply sample_nonneg.
Qed.

Lemma skipped_returns c sec : returns (V := V) (fun _ => True) (skipped c sec).
Proof. unfold skipped, skippedSection. phase. done. Qed.

Lemma listing_returns c n api b (ask : prog V (withErr ListedOffsets)) :
  returns (fun _ => True) ask -> returns (fun _ => True) (listing c n api b ask).
Proof.
  intros Ha. unfold listing. phase; try done. eapply returns_impl; [|exact Ha]. intros [l e] _. phase. done.
Qed.

Lemma waitAll_returns before : returns (V := V) (fun _ => True) (waitAll before).
Proof. induction before as [|ch before IH]; [done|exact IH]. Qed.

Lemma collectTopics_built c tds run_ before : returns (V := V)
  (fun r => Forall topic_built (elems r.1)) (collectTopics c tds run_ before).
Proof.
  unfold collectTopics. apply returns_bind, returns_now. intros t. cbv zeta.
  destruct tds as [tds|]; [case_bool_decide|].
  - apply returns_bind. eapply returns_impl; [|apply skipped_returns]. intros ts _. phase. constructor.
  - apply returns_bind. intros [startsL err]. apply returns_Ret. cbv beta iota. destruct (requestPartial _ _ _ _) as [startsOK sec] eqn:Es.
    apply returns_bind. eapply returns_impl; [|apply waitAll_returns]. intros [] _.
    do 5 (apply returns_bind; eapply returns_impl; [|by eapply listing_returns]; intros [[? ?] ?] _; cbv beta iota).
    destruct (traverseM _ _ _) as [topics ts] eqn:E. phase. simpl.
    change topics with (topics, ts).1. rewrite <- E. eapply traverseM_Forall. intros td ts'. apply buildTopic_built.
  - apply returns_bind. eapply returns_impl; [|apply skipped_returns]. intros ts _. phase. constructor.
Qed.

Lemma collectGroups_built c ids types err at_ : returns (V := V)
  (fun r => Forall Conform.group_ok (elems r.1)) (collectGroups c ids types err at_).
Proof.
  unfold collectGroups. phase; try constructor.
  match goal with E : traverseM _ _ _ = (?gs, _) |- _ => assert (Forall Conform.group_ok gs) as Hgs end.
  { match goal with E : traverseM ?f ?l ?s = (?gs, ?s') |- _ => change gs with (gs, s').1; rewrite <- E end.
    apply traverseM_Forall. intros dg sx. destruct (buildGroup_fst types dg sx) as (_ & _ & _ & _ & _ & Hc & Hm & _).
    unfold Conform.group_ok. by rewrite Hc, Hm, length_fmap. }
  eapply returns_impl; [|apply enrich_returns_same]. intros [gs sec] HF. cbv beta iota. phase. simpl.
  simpl in HF. clear -Hgs HF. induction HF as [|g g' gs gs' Hg _ IH]; [done|].
  apply Forall_cons in Hgs as [Hok Hgs]. constructor; [|by apply IH].
  destruct Hg as (_ & _ & _ & _ & _ & _ & _ & Hc & _ & HM). unfold Conform.group_ok.
  by rewrite Hc, Hok, (Forall2_length _ _ _ HM).
Qed.

Lemma group_offsets_built c internal id resp co : group_offsets_spec c internal id resp co -> Conform.consumer_ok co.
Proof.
  intros (_ & _ & Hr). destruct (fr_Err resp).
  - destruct Hr as [Ho Hc]. split; rewrite ?Ho; [done|]. by intros po ?%not_elem_of_nil.
  - destruct Hr as (os & Ho & Hc & HF). split; rewrite ?Ho; [done|]. intros po [i Hi]%list_elem_of_lookup.
    destruct (Forall2_lookup_r _ _ _ _ _ HF Hi) as (x & _ & _ & _ & _ & _ & -> & _). apply nullable_nonneg.
Qed.

Lemma collectOffsets_built c ids err internal : returns (V := V)
  (fun r => Forall Conform.consumer_ok (elems r.1)) (collectOffsets c ids err internal).
Proof.
  unfold collectOffsets. phase; try constructor. simpl.
  match goal with E : traverseM ?f ?l ?s = (?gs, ?s') |- _ => change gs with (gs, s').1; rewrite <- E end.
  match goal with |- context [traverseM (groupOffsets c internal ?fetched) ids ?s] =>
    pose proof (groupOffsets_rows c internal fetched ids s) as HF end.
  induction HF as [|gid co xs cos (resp & _ & Hs) _ IH]; constructor; [by eapply group_offsets_built|done].
Qed.

Lemma report_built sizes r s : report_ok sizes r -> Forall dir_built (traverseM buildLogDir (report_sorted r) s).1.
Proof.
  intros Hr. assert (Forall2 dir_spec (report_sorted r) (traverseM buildLogDir (report_sorted r) s).1) as HF
    by (apply traverseM_Forall2; intros; apply buildLogDir_fst).
  assert (Forall (fun d => exists b, dir_ok sizes b d) (report_sorted r)) as Hok.
  { apply list.Forall_forall. intros d Hd. unfold report_sorted in Hd. rewrite (sort_slice_perm _ _) in Hd.
    apply list_elem_of_In, in_concat in Hd as (ds & Hds & Hd). apply list_elem_of_In, list_elem_of_fmap in Hds as ([b ds'] & -> & Hb%elem_of_map_to_list).
    apply list_elem_of_In in Hd. exists b. by eapply Hr. }
  induction HF as [|d row ds rows Hd _ IH]; [done|]. apply Forall_cons in Hok as [(b & _ & Ht & Hu & _) Hok].
  constructor; [|by apply IH]. destruct Hd as (_ & _ & Et & Eu & _).
  split; rewrite ?Et, ?Eu; intros v Hv; [by apply Ht|by apply Hu].
Qed.

Lemma describe_returns set : returns (V := V) (fun r => exists sizes, report_ok sizes r.1) (describeLogDirs set).
Proof.
  unfold describeLogDirs, supportsLogDirVolumeBytes. phase; eexists; [apply logDirShards_ok|apply kadmLogDirs_ok].
Qed.

Lemma collectLogDirs_built c cluster tds run_ : returns (V := V)
  (fun r => Forall dir_built (elems r.1)) (collectLogDirs c cluster tds run_).
Proof.
  unfold collectLogDirs. apply returns_bind, returns_now. intros t. cbv zeta.
  destruct run_, tds as [tds|], cluster as [cl|]; try (phase; constructor).
  destruct (_ =? 0); [phase; constructor|]. apply returns_bind. eapply returns_impl; [|apply describe_returns].
  intros [r err] [sizes Hr]. cbv beta iota. phase; try constructor. simpl.
  match goal with E : buildLogDirs _ _ _ = _ |- _ => rewrite (buildLogDirs_rows _ _ _ _ _ E) end. by eapply report_built.
Qed.

End collectors.

(** A cycle's batch. *)
Section cycle.
Context `{!KerrCodes, !Kadm, !KerrErrors, !ShardErrorText, !ConfigSources, !Cluster}.

Lemma attach_built w tms s : Forall topic_built (elems tms) -> Forall topic_built (elems (attach w tms s).1).
Proof.
  intros Ht. destruct w as [listed|], tms as [tms|]; try exact Ht. unfold attach. rewrite St_bind_eq. simpl in *.
  assert (Forall2 (fun tm tm' => topic_built tm -> topic_built tm') tms (traverseM (attachTopic listed) tms s).1) as HF.
  { apply traverseM_Forall2. intros tm s' _ [Hc Hp]. unfold attachTopic.
    destruct (listed !! tm_Name tm) as [parts|]; [|by rewrite St_bind_eq].
    destruct (topicError parts); rewrite St_bind_eq; [by split|]. simpl.
    assert (Forall2 (window_spec parts) (tm_Partitions tm) (traverseM (attachPartition (tm_Name tm) parts) (tm_Partitions tm) s').1)
      as HW by (apply traverseM_Forall2; intros; apply attachPartition_fst).
    split; simpl; [by rewrite <- (Forall2_length _ _ _ HW)|]. clear Hc.
    induction HW as [|p q ps qs [-> _] _ IH]; [done|]. apply Forall_cons in Hp as [Hp Hps]. constructor; auto. }
  induction HF as [|tm tm' l l' Htm _ IH]; [done|]. apply Forall_cons in Ht as [Ht Hl]. constructor; auto.
Qed.

Lemma collect_built (c : Collector) (cs cs' : cstate) (tr : list event) (b : Batch) :
  Collect c cs tr b cs' -> built b.
Proof.
  intros [t0 tr' s b' Hs Hf Hb]. simpl in Hs. pose proof (cycle_ok _ _ _ _ _ _ Hs) as Hok.
  assert (forall i g, goroutines c (cs_cycle cs) (cs_probed cs) !! i = Some g ->
    exists r, g_load g (vars s) = Some r /\ can_return (g_phase g (vars s)) r) as Hres.
  { intros i g Hi. eapply final_results; [done|done|by eapply list_elem_of_lookup_2]. }
  destruct (Hres 0%nat _ eq_refl) as ([[cl ?] ?] & E0 & R0). destruct (Hres 2%nat _ eq_refl) as ([grp ?] & E2 & R2).
  destruct (Hres 3%nat _ eq_refl) as ([off ?] & E3 & R3). destruct (Hres 5%nat _ eq_refl) as ([tms ?] & E5 & R5).
  destruct (Hres 6%nat _ eq_refl) as ([dirs ?] & E6 & R6). simpl in *. clear Hres.
  pose proof (returns_can_return _ _ _ (collectCluster_built _) R0) as B0.
  pose proof (returns_can_return _ _ _ (collectGroups_built _ _ _ _ _) R2) as B2.
  pose proof (returns_can_return _ _ _ (collectOffsets_built _ _ _ _) R3) as B3.
  pose proof (returns_can_return _ _ _ (collectTopics_built _ _ _ _) R5) as B5.
  pose proof (returns_can_return _ _ _ (collectLogDirs_built _ _ _ _) R6) as B6.
  revert Hb. apply returns_ends. unfold collectEnd. destruct (attachWindow (vars s)) as [tms' wsec] eqn:Ea.
  assert (Forall topic_built (elems tms')) as Ht.
  { unfold attachWindow in Ea. destruct (windowSec (vars s)) as [sec|]; [|by injection Ea as <- <-; unfold topics; rewrite E5].
    destruct (attach (windowOffsets (vars s)) (topics (vars s)) sec) as [x y] eqn:Ex. injection Ea as <- <-.
    change x with (x, y).1. rewrite <- Ex. apply attach_built. unfold topics. by rewrite E5. }
  unfold collectRPC. phase; (split; unfold finalize; destruct (mergeErrors _ _) as [[??]?]; simpl;
    unfold cluster, offsets, result_of; rewrite ?E0, ?E2, ?E3, ?E6; done).
Qed.

Lemma stamp_built a seconds seq stats t b : built b -> built (stamp a seconds seq stats t b).
Proof.
  intros [Hc Ht Hg Ho Hd]. split; simpl; try done. intros cm' Hx. destruct (b_Cluster b) as [cm|]; [|done].
  injection Hx as <-. exact (Hc cm eq_refl).
Qed.

End cycle.

(** ** What is left to the brokers' answers *)

Record answered (b : Batch) : Prop := {
  an_topics : NoDup (tm_Name <$> elems (b_Topics b));
  an_partitions : forall tm, tm ∈ elems (b_Topics b) -> NoDup (p_ID <$> tm_Partitions tm);
  an_log : forall tm p, tm ∈ elems (b_Topics b) -> p ∈ tm_Partitions tm ->
    Conform.ordered (p_StartOffset p) (p_EndOffset p);
  an_groups : NoDup (g_ID <$> elems (b_Groups b));
  an_offsets : NoDup (elems (b_Offsets b) ≫= Conform.offsetKeys);
  an_dirs : NoDup (Checks.dirKey <$> elems (b_LogDirs b));
  an_dir : forall d, d ∈ elems (b_LogDirs b) -> ld_Dir d <> ""%string /\
    NoDup ((fun p => Checks.tpKey (lp_Topic p) (lp_Partition p)) <$> elems (ld_Partitions d)) /\
    forall p, p ∈ elems (ld_Partitions d) -> 0 <= lp_Size p /\ 0 <= lp_OffsetLag p;
}.

Lemma built_data_ok b : built b -> Conform.data_ok b <-> answered b.
Proof.
  intros [Hc Ht Hg Ho Hd]. split.
  - intros [_ Dt D1 _ D2 _ D3 Dd D4]. rewrite list.Forall_forall in Dt. rewrite list.Forall_forall in Dd. split; try done.
    + intros tm Htm. apply (Dt tm Htm).
    + intros tm p Htm Hp. destruct (Dt tm Htm) as [_ _ Hps]. rewrite list.Forall_forall in Hps. apply (Hps p Hp).
    + intros d Hin. destruct (Dd d Hin) as [H1' _ _ H2' H3']. by split_and!.
  - intros [A1 A2 A3 A4 A5 A6 A7]. rewrite list.Forall_forall in Ht. rewrite list.Forall_forall in Hd. split; try done; apply list.Forall_forall.
    + intros tm Htm. destruct (Ht tm Htm) as [Hn Hps]. rewrite list.Forall_forall in Hps. split; [done|by apply A2|].
      apply list.Forall_forall. intros p Hp. destruct (Hps p Hp) as (? & ? & ?). split; [done|done|done|by eapply A3].
    + intros d Hin. destruct (A7 d Hin) as (? & ? & ?), (Hd d Hin) as [? ?]. by split.
Qed.

(** ** The sections, the truncation and the telemetry *)

(** [DefaultSections] is spelled out on the server's side. *)
Lemma DefaultSections_canonical : Ingest.DefaultSections = SectionNames.
Proof. reflexivity. Qed.

Lemma filter_all {A} (P : A -> Prop) `{forall x, Decision (P x)} (l : list A) : Forall P l -> base.filter P l = l.
Proof. induction 1 as [|x l Hx _ IH]; [done|]. by rewrite filter_cons_True, IH. Qed.

Lemma wire_sections_ok c b (scfg : Checks.Config) : wire_ok c b ->
  Checks.Sections scfg = Ingest.DefaultSections -> Checks.zeroTime < b_CollectedAt b ->
  (forall e, e ∈ b_Errors b -> ce_Message e <> ""%string) -> Conform.sections_ok scfg b.
Proof.
  intros [_ Hn Hc _ _ _ He Ht Ho _ _] Hs Hz Hm. rewrite DefaultSections_canonical in Hs.
  split; rewrite ?Hn, ?Hs.
  - by apply (bool_decide_unpack _); vm_compute.
  - by apply (bool_decide_unpack _); vm_compute.
  - apply filter_all, list.Forall_forall. by intros.
  - intros sec Hin. destruct (Ht sec Hin). split; [lia|done].
  - exact Ho.
  - intros e Hin. split; [apply (He e Hin)|by apply Hm].
  - exact Hc.
Qed.

Lemma bool_decide_nil (l : list string) : bool_decide (l = []) = (Z.of_nat (length l) =? 0).
Proof. by destruct l. Qed.

Lemma selection_ok o s : Options_selection o = Some s ->
  Forall (fun e => TrimSpace e <> ""%string) (o_TopicInclude o ++ o_TopicExclude o ++ o_GroupInclude o ++ o_GroupExclude o) ->
  Checks.selectionEmpty s = false /\ Conform.entries_ok (sel_TopicInclude s) /\ Conform.entries_ok (sel_TopicExclude s) /\
  Conform.entries_ok (sel_GroupInclude s) /\ Conform.entries_ok (sel_GroupExclude s).
Proof.
  unfold Options_selection, selection. intros Hs. rewrite !Forall_app. intros (? & ? & ? & ?).
  match type of Hs with (if ?b then _ else _) = _ => destruct b eqn:E; [done|] end. injection Hs as <-.
  split; [|done]. unfold Checks.selectionEmpty. simpl in *. rewrite <- E.
  by rewrite !bool_decide_nil.
Qed.

Lemma wire_truncation_ok c b : wire_ok c b ->
  Forall (fun e => TrimSpace e <> ""%string)
    (o_TopicInclude (c_opts c) ++ o_TopicExclude (c_opts c) ++ o_GroupInclude (c_opts c) ++ o_GroupExclude (c_opts c)) ->
  Conform.truncation_ok b.
Proof.
  intros [_ _ _ Ht _ _ He _ _ _ Hs] Hf. split.
  - intros e Hin. apply (He e Hin).
  - intros s Hsel. rewrite Hs in Hsel. by eapply selection_ok.
  - intros t Et. unfold truncationOK in Ht. by rewrite Et in Ht.
Qed.

Section agent.
Context `{!KerrCodes, !Kadm, !KerrErrors, !ShardErrorText, !ConfigSources, !Cluster}.
Context {X : Type} `{!Exporter X, !ExporterLaws X} (c : Collector) (a : Agent) (seconds : Z -> Z).

Lemma run_agent_ok (s s' : @state cstate X) pre b taken post :
  @Run cstate X (pipeline_collector c) _ a seconds s (pre ++ (b, taken) :: post) s' ->
  Z.of_nat (length (pre ++ (b, taken) :: post)) < 2 ^ 64 ->
  b_BatchSeq b = Z.of_nat (length pre) + 1 /\ Conform.agent_ok b.
Proof.
  intros Hr Hl. assert (b_BatchSeq b = Z.of_nat (length pre) + 1) as Hseq.
  { destruct (@numbered_run cstate X (pipeline_collector c) _ a seconds _ _ _ Hr Hl) as [Hn _].
    apply (f_equal (.!! length pre)) in Hn. rewrite list_lookup_fmap, list_lookup_fmap in Hn.
    rewrite lookup_app_r, Nat.sub_diag in Hn by lia. simpl in Hn.
    rewrite lookup_seqZ_lt in Hn by (rewrite length_app; simpl; lia). injection Hn as ->. lia. }
  split; [done|].
  assert (as_BatchesCollected (b_Agent b) = b_BatchSeq b) as Hcol.
  { destruct (@Run_stamped cstate X (pipeline_collector c) _ a seconds _ _ _ b taken Hr) as (? & ? & ? & ? & ? & ? & _ & ->);
      [|done]. apply elem_of_app. right. by left. }
  rewrite length_app in Hl. simpl in Hl.
  destruct (@Run_accounts cstate X (pipeline_collector c) _ a seconds _ _ _ _ _ _ _ Hr ltac:(lia))
    as ((Hsum & _) & He & Hd & Hj & Hq).
  pose proof (count_le snd pre) as Hc. unfold reported in Hsum.
  split; [done|lia| |done]. rewrite wrapU_small by lia. lia.
Qed.
End agent.

(** The key the exporter sends is the key the server expects. *)
Lemma keys_agree b : Export.idempotencyKey b = Checks.idempotencyKey b.
Proof. reflexivity. Qed.

(** ** The contract is met *)

(** C5: what leaves the agent meets the contract the ingest server checks.  For
    an agent started from a configuration that loads, with the collector and any
    exporter that keeps its promise, every batch handed to the exporter (its errors
    having texts and the host's clock having passed year 1) conforms under its
    idempotency key exactly when the brokers' answers repeat no name and invert no
    offsets and the two clocks agree: whatever the interleaving, the envelope, the
    seventeen sections, the truncation and the telemetry are always accepted. *)
Theorem agent_meets_contract
    `{!KerrCodes, !Kadm, !KerrErrors, !ShardErrorText, !ConfigSources, !Cluster, !GoLibrary, !Regexp, !NetURL}
    `{!Exporter X, !ExporterLaws X} (c : Collector) (a : Agent) (seconds : Z -> Z) (caps : option Capabilities)
    (env : string -> option string) (host : option string) (random : option (list Z)) (nano : Z)
    (s s' : @state cstate X) (pre post : list (Batch * bool)) (b : Batch) (taken : bool)
    (scfg : Checks.Config) (received : Z) :
  Load env (defaultInstanceID host random nano) = inr (a_cfg a) -> a_version a <> ""%string ->
  c_opts c = applyCapabilityGates caps (collectorOptions (a_cfg a)) ->
  @Run cstate X (pipeline_collector c) _ a seconds s (pre ++ (b, taken) :: post) s' ->
  Z.of_nat (length (pre ++ (b, taken) :: post)) < 2 ^ 64 ->
  Checks.Sections scfg = Ingest.DefaultSections ->
  Checks.zeroTime < b_CollectedAt b -> (forall e, e ∈ b_Errors b -> ce_Message e <> ""%string) ->
  let skew := Sub (b_CollectedAt b) received in
  Conform.conforms scfg received (Export.idempotencyKey b) b <->
  answered b /\ skew <= Checks.ClockSkew scfg /\ (- Checks.ClockSkew scfg <= skew \/ skew = - 2 ^ 63).
Proof.
  intros Hload Hv Hopts Hr Hl Hs Hz Hm skew.
  destruct (Load_named _ _ _ Hload (defaultInstanceID_named _ _ _)) as [Hid Hent].
  destruct (run_agent_ok c a seconds _ _ _ _ _ _ Hr Hl) as [Hseq Hagent].
  assert ((b, taken) ∈ pre ++ (b, taken) :: post) as Hin by (apply elem_of_app; right; by left).
  destruct (Run_stamped a seconds _ _ _ _ _ Hr Hin) as (cs & cs' & b0 & seq & stats & t & (evs & b1 & [= <-] & Hc) & Hb).
  assert (wire_ok c b) as Hw by (rewrite Hb; by eapply stamp_wire_ok, collect_wire_ok).
  assert (built b) as Hbu by (rewrite Hb; by eapply stamp_built, collect_built).
  assert (b_AgentInstanceID b = AgentInstanceID (a_cfg a) /\ b_AgentVersion b = a_version a) as [Ei Ev] by (by rewrite Hb).
  rewrite <- (built_data_ok b Hbu). split.
  - intros [[_ _ _ _ _ _ Hsk _] _ Hd _ _]. by split.
  - intros (Hd & Hsk). split; [|by eapply wire_sections_ok|done| |done].
    + split; rewrite ?Ei, ?Ev; try done; [apply Hw|lia|lia|apply Hw].
    + eapply wire_truncation_ok; [exact Hw|]. rewrite Hopts.
      destruct (gates_filters caps (collectorOptions (a_cfg a))) as (-> & -> & -> & ->). exact Hent.
Qed.

(** ** A shipment of a configured agent *)

(** The collector of the sample configuration, the filters being empty. *)
Definition configured : Collector :=
  let o := collectorOptions sample_config in mkCollector o (Some (mkFilter [] [])) (Some (mkFilter [] [])) (o_Limits o).

Definition configured_start : Sched.state cvars :=
  start (@goroutines kafka_codes kadm_sorted kerr_errors no_text kafka_sources configured 0 ∅) no_vars 0.
Definition configured_batch : Batch :=
  result cycle_env (@collectEnd kafka_codes configured 0 (vars (drive cycle_env source_order 200 configured_start).2)).

Definition configured_state : @state cstate File.StdoutExporter :=
  mkState 0 (mkCState 0 ∅) (File.mkStdoutExporter no_counters "") 0 false.
Definition shipped_batch : Batch :=
  stamp sample_agent (fun n => n / Second) (wrapU 64 (batchSeq configured_state + 1))
    (@Stats_ _ to_stdout (expo configured_state)) (clock configured_state) configured_batch.

Lemma shipment : exists s',
  @Run cstate File.StdoutExporter (@pipeline_collector kafka_codes kadm_sorted kerr_errors no_text kafka_sources
      (answering cycle_env) configured) to_stdout sample_agent (fun n => n / Second)
    configured_state ([] ++ (shipped_batch, true) :: []) s'.
Proof.
  destruct (@drive_collect kafka_codes kadm_sorted kerr_errors no_text kafka_sources (answering cycle_env)
    cycle_env configured (mkCState 0 ∅) source_order 200 (fun _ => eq_refl) cycle_clock
    ltac:(vm_compute; reflexivity)) as [cs' Hc].
  eexists. eapply (run_first _ _ _ (mkCycle _ _ (Some (shipped_batch, true)))); [split; [done|by eexists]|].
  eapply (cycle_exported _ _ configured_state configured_state configured_state configured_batch cs' true);
    [by apply waits_refl|by eexists _, _|done|by apply waits_refl|]. exists None, None. split; [reflexivity|done].
Qed.

Lemma answered_one b :
  b_Topics b = Some [mkTopicMetrics "t" "" false 1 2
    [mkPartition 0 1 4 [1; 2] [1] [] (Some 5) None (Some 9) None None None 6] 0] ->
  b_Groups b = Some [] -> b_Offsets b = Some [] -> b_LogDirs b = Some [] -> answered b.
Proof.
  intros Et Eg Eo Ed. split; rewrite ?Et, ?Eg, ?Eo, ?Ed; try apply NoDup_nil_2.
  - apply NoDup_singleton.
  - intros tm ->%list_elem_of_singleton. apply NoDup_singleton.
  - by intros tm p ->%list_elem_of_singleton ->%list_elem_of_singleton.
  - by intros d ?%not_elem_of_nil.
Qed.

Lemma shipped_answered : answered shipped_batch.
Proof. apply answered_one; vm_compute; reflexivity. Qed.

Theorem agent_meets_contract_witness :
  Conform.conforms Conform.demo_config 1000 (Export.idempotencyKey shipped_batch) shipped_batch /\
  length (b_Errors shipped_batch) = 2%nat /\ is_Some (b_Selection shipped_batch).
Proof.
  destruct shipment as [s' Hr]. split; [|split; [vm_compute; reflexivity|vm_compute; by eexists]].
  apply (@agent_meets_contract kafka_codes kadm_sorted kerr_errors no_text kafka_sources (answering cycle_env)
    no_library no_regexp no_urls File.StdoutExporter to_stdout (@File.stdout_laws plain_codec)
    configured sample_agent (fun n => n / Second) None sample_environment (Some "host") None 1 configured_state s' [] [] shipped_batch true
    Conform.demo_config 1000).
  - vm_compute. reflexivity.
  - done.
  - reflexivity.
  - exact Hr.
  - vm_compute. reflexivity.
  - reflexivity.
  - vm_compute. reflexivity.
  - apply list.Forall_forall. apply (bool_decide_unpack _). vm_compute. exact I.
  - split; [apply shipped_answered|]. vm_compute. split; [discriminate|left; discriminate].
Defined.
