(* ===== verification/Schema.v ===== *)
(** * Schema: the shape of the wire and its frozen list of paths
      ([internal/mockingest/schema.go], the struct tags of [internal/metrics/types.go])

    [FieldPaths] walks a type by reflection and lists every JSON path it can
    produce.  A type is a value of [rtype]; a struct type is known by its name, and
    the fields of the structs of a program are the class [Structs].  Every struct of
    the wire is written out with its tags, and the walk from the batch gives the
    contract that is kept in [testdata/schema_v1.txt]. *)

From Stdlib Require Import ZArith Lia.
From stdpp Require Import prelude gmap strings numbers pretty sorting.
From S2P Require Import Prelude Wire Strconv.

(** ** Types *)

(** [reflect.Type]: a basic type by its name, which may be a defined one, the
    composites without a name of their own, and the structs by name. *)
Inductive rtype :=
| TBasic (name : string)
| TPtr (t : rtype)
| TSlice (t : rtype)
| TArray (len : Z) (t : rtype)
| TMap (k v : rtype)
| TStruct (name : string).

#[export] Instance rtype_eq_dec : EqDecision rtype.
Proof. solve_decision. Defined.

(** [reflect.StructField], with what [Tag.Lookup("json")] gives. *)
Record structField := mkField {
  f_Name : string;
  f_PkgPath : string;
  f_Anonymous : bool;
  f_Tag : option string;
  f_Type : rtype;
}.

(** The structs of a program, and the types that marshal themselves, or whose
    pointers do. *)
Class Structs := {
  structs : gmap string (list structField);
  marshals : rtype -> bool;
}.

(** [t.String()]. *)
Fixpoint String_ (t : rtype) : string :=
  match t with
  | TBasic name | TStruct name => name
  | TPtr t => "*" +:+ String_ t
  | TSlice t => "[]" +:+ String_ t
  | TArray len t => "[" +:+ pretty len +:+ "]" +:+ String_ t
  | TMap k v => "map[" +:+ String_ k +:+ "]" +:+ String_ v
  end.

(** ** The walk *)

Definition jsonName (f : structField) : string * bool * bool :=
  match f_Tag f with
  | None => (if f_Anonymous f then "" else f_Name f, false, false)%string
  | Some tag =>
      let parts := SplitComma tag in
      let first := default "" (head parts) in
      if String.eqb first "-" && (length parts =? 1)%nat then ("", false, true)%string
      else
        let omitempty := bool_decide ("omitempty" ∈ tail parts)%string in
        (if String.eqb first "" && negb (f_Anonymous f) then f_Name f else first, omitempty, false)
  end.

Definition line (path : string) (t : rtype) (omitempty : bool) : string :=
  path +:+ " " +:+ String_ t +:+
  (if t is TPtr _ then " nullable" else "") +:+ (if omitempty then " omitempty" else "").

Section walk.
Context `{!Structs}.

Definition isLeaf (t : rtype) : bool :=
  if bool_decide (t = TStruct "time.Time") then true
  else if marshals t then true
  else match t with TBasic _ => true | _ => false end.

Fixpoint unwrap (t : rtype) : rtype * string :=
  if isLeaf t then (t, "")
  else match t with
       | TPtr t => unwrap t
       | TSlice t | TArray _ t => let '(inner, suffix) := unwrap t in (inner, "[]" +:+ suffix)
       | TMap _ t => let '(inner, suffix) := unwrap t in (inner, "{}" +:+ suffix)
       | _ => (t, "")
       end%string.

Definition join (prefix name : string) : string :=
  if String.eqb prefix "" then name else prefix +:+ "." +:+ name.

Definition fieldsOf (name : string) : list structField := default [] (structs !! name).

(** The loop's body; [walk] is the recursive call. *)
Definition walkField (walk : string -> rtype -> list string -> list string) (prefix : string)
    (out : list string) (f : structField) : list string :=
  if negb (String.eqb (f_PkgPath f) "") && negb (f_Anonymous f) then out
  else
    let '(name, omitempty, skip) := jsonName f in
    if skip then out
    else
      let '(inner, suffix) := unwrap (f_Type f) in
      if String.eqb name "" && f_Anonymous f then walk prefix inner out
      else
        let path := join prefix name in
        let out := out ++ [line path (f_Type f) omitempty] in
        if isLeaf inner then out else walk (path +:+ suffix) inner out.

Fixpoint walkStruct (fuel : nat) (stack : gset string) (prefix : string) (t : rtype) (out : list string) :
    list string :=
  match fuel, t with
  | S fuel, TStruct name =>
      if bool_decide (name ∈ stack) then out
      else foldl (walkField (walkStruct fuel ({[name]} ∪ stack)) prefix) out (fieldsOf name)
  | _, _ => out
  end.

(** The stack keeps the walk from a type it is already in, so it goes no deeper
    than there are structs. *)
Definition FieldPaths (t : rtype) : list string :=
  sort_slice str_ltb (walkStruct (S (size structs)) ∅ "" t []).

(** ** What the list is

    Stated on its own, from what [encoding/json] makes of a tag and a type. *)

(** A value of the type is written as one scalar. *)
Definition scalar (t : rtype) : Prop :=
  t = TStruct "time.Time" \/ marshals t = true \/ exists name, t = TBasic name.

(** [value_of t u brackets]: the values inside a [t] are of the type [u]; an element of
    a slice or an array is reached by [[]], a value of a map by [{}]. *)
Inductive value_of : rtype -> rtype -> string -> Prop :=
| value_scalar t : scalar t -> value_of t t ""
| value_struct n : value_of (TStruct n) (TStruct n) ""
| value_pointer t u b : ~ scalar (TPtr t) -> value_of t u b -> value_of (TPtr t) u b
| value_slice t u b : ~ scalar (TSlice t) -> value_of t u b -> value_of (TSlice t) u ("[]" +:+ b)
| value_array n t u b : ~ scalar (TArray n t) -> value_of t u b -> value_of (TArray n t) u ("[]" +:+ b)
| value_map k t u b : ~ scalar (TMap k t) -> value_of t u b -> value_of (TMap k t) u ("{}" +:+ b).

(** [tagged f key om]: the field is written under [key], or inlined when that is
    [None]; a tag is a name and options between commas, an embedded field without a
    name is inlined, and the tag [-] alone keeps the field out. *)
Inductive tagged (f : structField) : option string -> bool -> Prop :=
| untagged : f_Tag f = None -> f_Anonymous f = false -> tagged f (Some (f_Name f)) false
| untagged_embedded : f_Tag f = None -> f_Anonymous f = true -> tagged f None false
| tag_names key opts : f_Tag f = Some (JoinComma (key :: opts)) -> Forall commaless (key :: opts) ->
    key <> ""%string -> (key = "-"%string -> opts <> []) ->
    tagged f (Some key) (bool_decide ("omitempty"%string ∈ opts))
| tag_options opts : f_Tag f = Some (JoinComma (""%string :: opts)) -> Forall commaless opts ->
    f_Anonymous f = false -> tagged f (Some (f_Name f)) (bool_decide ("omitempty"%string ∈ opts))
| tag_embedded opts : f_Tag f = Some (JoinComma (""%string :: opts)) -> Forall commaless opts ->
    f_Anonymous f = true -> tagged f None (bool_decide ("omitempty"%string ∈ opts)).

(** A field of a struct that the encoder writes: exported, or embedded. *)
Record writes (n : string) (f : structField) (key : option string) (om : bool) : Prop := {
  w_field : f ∈ fieldsOf n;
  w_exported : f_PkgPath f = ""%string \/ f_Anonymous f = true;
  w_tagged : tagged f key om;
}.

(** [leads n ns keys m]: from a value of the struct [n] the keys lead to one of the
    struct [m], through the structs [ns]. *)
Inductive leads : string -> list string -> list string -> string -> Prop :=
| leads_here n : leads n [n] [] n
| leads_key n f key om m b ns keys k :
    writes n f (Some key) om -> value_of (f_Type f) (TStruct m) b -> ~ scalar (TStruct m) ->
    leads m ns keys k -> leads n (n :: ns) ((key +:+ b) :: keys) k
| leads_inlined n f om m b ns keys k :
    writes n f None om -> value_of (f_Type f) (TStruct m) b -> leads m ns keys k -> leads n (n :: ns) keys k.

(** The line of a field, under the keys that lead to its struct, and the lines of a
    type: those of the fields reached through no struct twice. *)
Definition entry (keys : list string) (key : string) (t : rtype) (om : bool) : string :=
  String.concat " " ([String.concat "." (keys ++ [key]); String_ t] ++
    (if t is TPtr _ then ["nullable"%string] else []) ++ (if om then ["omitempty"%string] else [])).

Definition lists (n l : string) : Prop :=
  exists ns keys m f key om, leads n ns keys m /\ NoDup ns /\ writes m f (Some key) om /\
    l = entry keys key (f_Type f) om.

(** A field of a Go struct has a name. *)
Definition named_fields : Prop := forall n f, f ∈ fieldsOf n -> f_Name f <> ""%string.

(** *** The walk, step by step *)

(** A field the encoder sees, with its name and its [omitempty]. *)
Definition visible (f : structField) (name : string) (omitempty : bool) : Prop :=
  (f_PkgPath f = ""%string \/ f_Anonymous f = true) /\ jsonName f = (name, omitempty, false).

(** [emits stack prefix t l]: [l] is a line of [t]'s encoding below [prefix], inside
    the structs of [stack]. *)
Inductive emits : gset string -> string -> rtype -> string -> Prop :=
| emits_line stack prefix n f name om :
    n ∉ stack -> f ∈ fieldsOf n -> visible f name om -> (name <> "" \/ f_Anonymous f = false)%string ->
    emits stack prefix (TStruct n) (line (join prefix name) (f_Type f) om)
| emits_below stack prefix n f name om l :
    n ∉ stack -> f ∈ fieldsOf n -> visible f name om -> (name <> "" \/ f_Anonymous f = false)%string ->
    isLeaf (unwrap (f_Type f)).1 = false ->
    emits ({[n]} ∪ stack) (join prefix name +:+ (unwrap (f_Type f)).2) (unwrap (f_Type f)).1 l ->
    emits stack prefix (TStruct n) l
| emits_inlined stack prefix n f om l :
    n ∉ stack -> f ∈ fieldsOf n -> visible f "" om -> f_Anonymous f = true ->
    emits ({[n]} ∪ stack) prefix (unwrap (f_Type f)).1 l ->
    emits stack prefix (TStruct n) l.

(** *** Lemmas *)

Lemma foldl_same {A B} (f g : A -> B -> A) l a : (forall a b, b ∈ l -> f a b = g a b) -> foldl f a l = foldl g a l.
Proof.
  revert a. induction l as [|b l IH]; intros a Hfg; [done|]. simpl. rewrite Hfg by left.
  apply IH. intros a' b' Hb. apply Hfg. by right.
Qed.

Lemma walkField_same w w' prefix out f :
  (forall p t o, w p t o = w' p t o) -> walkField w prefix out f = walkField w' prefix out f.
Proof.
  intros Hw. unfold walkField. destruct (_ && _); [done|]. destruct (jsonName f) as [[name om] []]; [done|].
  destruct (unwrap _) as [inner suffix]. destruct (_ && _); [apply Hw|]. destruct (isLeaf inner); [done|apply Hw].
Qed.

(** The structs not on the stack. *)
Definition room (stack : gset string) : nat := size (dom structs ∖ stack).

Lemma room_push name stack : name ∉ stack -> name ∈ dom structs -> (S (room ({[name]} ∪ stack)) = room stack)%nat.
Proof.
  intros Hs Hd. unfold room.
  replace (dom structs ∖ stack) with ({[name]} ∪ dom structs ∖ ({[name]} ∪ stack)).
  - rewrite (size_union {[name]} (dom structs ∖ _)) by set_solver. by rewrite size_singleton.
  - apply leibniz_equiv. intros x. destruct (decide (x = name)); set_solver.
Qed.

Lemma fieldsOf_dom name f : f ∈ fieldsOf name -> name ∈ dom structs.
Proof.
  unfold fieldsOf. destruct (structs !! name) eqn:E; [intros _; by apply elem_of_dom_2 in E|].
  by intros ?%not_elem_of_nil.
Qed.

(** More fuel than there is room changes nothing: the walk ends by itself. *)
Lemma walkStruct_fuel fuel fuel' stack prefix t out :
  (room stack < fuel)%nat -> (room stack < fuel')%nat ->
  walkStruct fuel stack prefix t out = walkStruct fuel' stack prefix t out.
Proof.
  revert fuel' stack prefix t out. induction fuel as [|fuel IH]; intros [|fuel'] stack prefix t out H1 H2; try lia.
  simpl. destruct t as [|?|?|? ?|? ?|name]; try done. case_bool_decide as Hn; [done|].
  apply foldl_same. intros a f Hf. apply walkField_same. intros p t o.
  pose proof (room_push name stack Hn (fieldsOf_dom _ _ Hf)). apply IH; lia.
Qed.

(** A step of the walk only appends. *)
Lemma walkStruct_app fuel stack prefix t out :
  walkStruct fuel stack prefix t out = out ++ walkStruct fuel stack prefix t [].
Proof.
  revert stack prefix t out. induction fuel as [|fuel IH]; intros stack prefix t out; simpl; [by rewrite app_nil_r|].
  destruct t as [|?|?|? ?|? ?|name]; try by rewrite app_nil_r. case_bool_decide; [by rewrite app_nil_r|].
  assert (forall o f, walkField (walkStruct fuel ({[name]} ∪ stack)) prefix o f =
    o ++ walkField (walkStruct fuel ({[name]} ∪ stack)) prefix [] f) as Happ.
  { intros o f. unfold walkField. destruct (_ && _); [by rewrite app_nil_r|].
    destruct (jsonName f) as [[nm om] []]; [by rewrite app_nil_r|]. destruct (unwrap _) as [inner suffix].
    destruct (_ && _); [apply IH|]. destruct (isLeaf inner); [done|].
    rewrite IH, (IH _ _ _ ([] ++ _)). simpl. by rewrite <- app_assoc. }
  revert out. induction (fieldsOf name) as [|f fs IHf]; intros out; simpl; [by rewrite app_nil_r|].
  rewrite IHf, (IHf (walkField _ _ [] f)), app_assoc. by rewrite <- Happ.
Qed.

Lemma walkField_app fuel stack prefix out f :
  walkField (walkStruct fuel stack) prefix out f = out ++ walkField (walkStruct fuel stack) prefix [] f.
Proof.
  unfold walkField. destruct (_ && _); [by rewrite app_nil_r|].
  destruct (jsonName f) as [[nm om] []]; [by rewrite app_nil_r|]. destruct (unwrap _) as [inner suffix].
  destruct (_ && _); [apply walkStruct_app|]. destruct (isLeaf inner); [done|].
  rewrite walkStruct_app, (walkStruct_app _ _ _ _ ([] ++ _)). simpl. by rewrite <- app_assoc.
Qed.

Lemma elem_walk fuel stack prefix name l : name ∉ stack ->
  l ∈ walkStruct (S fuel) stack prefix (TStruct name) [] <->
  exists f, f ∈ fieldsOf name /\ l ∈ walkField (walkStruct fuel ({[name]} ∪ stack)) prefix [] f.
Proof.
  intros Hn. simpl. rewrite bool_decide_eq_false_2 by done.
  induction (fieldsOf name) as [|f fs IH]; simpl; [set_solver|].
  assert (forall l0, foldl (walkField (walkStruct fuel ({[name]} ∪ stack)) prefix) l0 fs =
    l0 ++ foldl (walkField (walkStruct fuel ({[name]} ∪ stack)) prefix) [] fs) as ->.
  { clear IH. induction fs as [|g fs IH]; intros l0; simpl; [by rewrite app_nil_r|].
    rewrite IH, (IH (walkField _ _ [] g)), app_assoc. by rewrite <- walkField_app. }
  rewrite elem_of_app, IH. setoid_rewrite elem_of_cons. naive_solver.
Qed.

Lemma walkField_line walk prefix f l : (forall p t o, walk p t o = o ++ walk p t []) ->
  l ∈ walkField walk prefix [] f <->
  exists name om, visible f name om /\
    let inner := (unwrap (f_Type f)).1 in
    ((name = "" /\ f_Anonymous f = true)%string /\ l ∈ walk prefix inner [] \/
     (name <> "" \/ f_Anonymous f = false)%string /\
       (l = line (join prefix name) (f_Type f) om \/
        isLeaf inner = false /\ l ∈ walk (join prefix name +:+ (unwrap (f_Type f)).2) inner [])).
Proof.
  intros Happ. unfold walkField, visible.
  destruct (negb (String.eqb (f_PkgPath f) "") && negb (f_Anonymous f)) eqn:Ep.
  { apply andb_true_iff in Ep as [Ep%negb_true_iff Ea%negb_true_iff]. apply String.eqb_neq in Ep.
    split; [by intros ?%not_elem_of_nil|]. intros (? & ? & ([? | ?] & _) & _); congruence. }
  assert (f_PkgPath f = ""%string \/ f_Anonymous f = true) as Hv.
  { apply andb_false_iff in Ep as [Ep%negb_false_iff|Ep%negb_false_iff]; [left; by apply String.eqb_eq|by right]. }
  destruct (jsonName f) as [[name om] skip]. destruct skip.
  { split; [by intros ?%not_elem_of_nil|]. by intros (? & ? & (_ & ?) & _). }
  destruct (unwrap (f_Type f)) as [inner suffix]. simpl.
  destruct (String.eqb name "" && f_Anonymous f) eqn:Ea.
  - apply andb_true_iff in Ea as [->%String.eqb_eq Ha]. rewrite Ha. split.
    + intros Hl. exists ""%string, om. split; [by split; [right|]|]. by left.
    + intros (? & ? & (_ & [= <- <-]) & [[_ Hl]|[[?|?] _]]); done.
  - assert (name <> "" \/ f_Anonymous f = false)%string as Hname.
    { apply andb_false_iff in Ea as [Ea|Ea]; [left; by apply String.eqb_neq|by right]. }
    assert (l ∈ (if isLeaf inner then [line (join prefix name) (f_Type f) om]
                 else walk (join prefix name +:+ suffix) inner [line (join prefix name) (f_Type f) om]) <->
      l = line (join prefix name) (f_Type f) om \/ isLeaf inner = false /\ l ∈ walk (join prefix name +:+ suffix) inner []) as ->.
    { destruct (isLeaf inner); [set_solver|]. rewrite Happ, elem_of_app, list_elem_of_singleton. naive_solver. }
    split; [intros Hl; exists name, om; split; [done|by right]|].
    intros (? & ? & (_ & [= <- <-]) & [[[-> Hx] _]|[_ Hl]]); [by destruct Hname; congruence|done].
Qed.

Lemma walk_emits fuel stack prefix t l : (room stack < fuel)%nat ->
  l ∈ walkStruct fuel stack prefix t [] <-> emits stack prefix t l.
Proof.
  revert stack prefix t. induction fuel as [|fuel IH]; intros stack prefix t Hr; [lia|].
  destruct t as [|?|?|? ?|? ?|name]; try by (split; [intros ?%not_elem_of_nil|inversion 1]).
  destruct (decide (name ∈ stack)) as [Hn|Hn].
  { simpl. rewrite bool_decide_eq_true_2 by done. split; [by intros ?%not_elem_of_nil|]. by inversion 1. }
  rewrite elem_walk by done. split.
  - intros (f & Hf & (nm & om & Hv & Hl)%walkField_line); [|intros; apply walkStruct_app].
    pose proof (room_push name stack Hn (fieldsOf_dom _ _ Hf)).
    destruct Hl as [[[-> Ha] Hl]|[Hname [->|[Hleaf Hl]]]].
    + apply IH in Hl; [|lia]. by eapply emits_inlined.
    + by eapply emits_line.
    + apply IH in Hl; [|lia]. by eapply emits_below.
  - intros He.
    assert (exists f nm om, f ∈ fieldsOf name /\ visible f nm om /\
      ((nm = "" /\ f_Anonymous f = true)%string /\ emits ({[name]} ∪ stack) prefix (unwrap (f_Type f)).1 l \/
       (nm <> "" \/ f_Anonymous f = false)%string /\
         (l = line (join prefix nm) (f_Type f) om \/ isLeaf (unwrap (f_Type f)).1 = false /\
          emits ({[name]} ∪ stack) (join prefix nm +:+ (unwrap (f_Type f)).2) (unwrap (f_Type f)).1 l)))
      as (f & nm & om & Hf & Hv & Hl).
    { inversion He; subst; eexists f, _, _; (split; [done|]); (split; [done|]); naive_solver. }
    exists f. split; [done|]. apply walkField_line; [intros; apply walkStruct_app|].
    pose proof (room_push name stack Hn (fieldsOf_dom _ _ Hf)). exists nm, om. split; [done|].
    destruct Hl as [[? Hl]|[? [->|[? Hl]]]]; [left|right|right]; (split; [done|]); [apply IH; [lia|done]|by left|].
    right. split; [done|]. apply IH; [lia|done].
Qed.

(** *** The steps against the specification *)

Lemma isLeaf_scalar t : isLeaf t = true <-> scalar t.
Proof.
  unfold isLeaf, scalar. case_bool_decide as Ht; [naive_solver|].
  destruct (marshals t); [naive_solver|]. destruct t; naive_solver.
Qed.

Lemma unwrap_value t : value_of t (unwrap t).1 (unwrap t).2.
Proof.
  induction t as [name|t IH|t IH|n t IH|k _ t IH|name]; simpl;
    (match goal with |- context [isLeaf ?t] =>
       destruct (isLeaf t) eqn:E; [apply isLeaf_scalar in E; by constructor|] end);
    assert (~ scalar _) as Hs by (intros Hs%isLeaf_scalar; rewrite E in Hs; discriminate Hs);
    try (destruct (unwrap t) as [inner suffix]); try (by constructor).
  destruct Hs. unfold scalar. eauto.
Qed.

Lemma value_unwrap t u b : value_of t u b -> unwrap t = (u, b).
Proof.
  assert (forall t, ~ scalar t -> isLeaf t = false) as Hl.
  { intros t' Hs. apply not_true_iff_false. by rewrite isLeaf_scalar. }
  induction 1 as [t Hs%isLeaf_scalar|n|t u b Hs%Hl _ IH|t u b Hs%Hl _ IH|n t u b Hs%Hl _ IH|k t u b Hs%Hl _ IH];
    [destruct t; simpl in *; by rewrite Hs| |cbn [unwrap]; by rewrite Hs, IH..].
  cbn [unwrap]. by destruct (isLeaf _).
Qed.

Lemma jsonName_tagged f key om : f_Name f <> ""%string ->
  tagged f key om <->
  jsonName f = (default "" key, om, false)%string /\ (key = None <-> default "" key = ""%string /\ f_Anonymous f = true).
Proof.
  intros Hn. unfold jsonName. split.
  - assert (forall p opts, Forall commaless opts -> commaless p -> SplitComma (JoinComma (p :: opts)) = p :: opts) as Hsp.
    { intros. apply SplitComma_Join; [done|by constructor]. }
    assert (commaless "") as Hnil by apply not_elem_of_nil.
    intros [Ht Ha|Ht Ha|p opts Ht [Hp Ho]%Forall_cons Hne Hd|opts Ht Ho Ha|opts Ht Ho Ha]; rewrite Ht; cbn -[JoinComma].
    + rewrite Ha. naive_solver.
    + rewrite Ha. naive_solver.
    + rewrite Hsp by done. simpl. apply String.eqb_neq in Hne as Hne'. rewrite Hne'. simpl.
      destruct (String.eqb_spec p "-") as [->|]; simpl; [destruct opts; [by destruct Hd|]|]; naive_solver.
    + rewrite Hsp by done. simpl. rewrite Ha. simpl. naive_solver.
    + rewrite Hsp by done. simpl. rewrite Ha. simpl. naive_solver.
  - destruct (f_Tag f) as [tag|] eqn:Et; simpl.
    + destruct (SplitComma_spec tag) as (Hne & Hj & Hc). destruct (SplitComma tag) as [|p opts]; [done|]. simpl.
      pose proof (List.Forall_inv_tail Hc) as Ho.
      destruct (String.eqb p "-" && _) eqn:Ed; [by intros [[=] _]|].
      intros [[= Hk <-] Hnone]. destruct (String.eqb_spec p "") as [->|Hp].
      * destruct (f_Anonymous f) eqn:Ha; simpl in Hk.
        -- destruct key as [k|]; [|by apply (tag_embedded f opts); [rewrite Et, Hj|..]]. simpl in Hk, Hnone. subst k. naive_solver.
        -- destruct key as [k|]; [|naive_solver]. simpl in Hk. subst k. by apply (tag_options f opts); [rewrite Et, Hj|..].
      * simpl in Hk. destruct key as [k|]; [|naive_solver]. simpl in Hk. subst k.
        apply (tag_names f p opts); [by rewrite Et, Hj|done|done|]. intros -> ->. done.
    + intros [[= Hk <-] Hnone]. destruct (f_Anonymous f) eqn:Ha.
      * destruct key as [k|]; [|by apply untagged_embedded]. simpl in Hk, Hnone. subst k. naive_solver.
      * destruct key as [k|]; [|naive_solver]. simpl in Hk. subst k. by apply untagged.
Qed.

Section named.
Context (Hnamed : named_fields).

Lemma writes_key n f key om : writes n f (Some key) om ->
  f ∈ fieldsOf n /\ visible f key om /\ (key <> "" \/ f_Anonymous f = false)%string /\ key <> ""%string.
Proof.
  intros [Hf He Ht]. pose proof Ht as Hj. apply (jsonName_tagged f (Some key) om (Hnamed n f Hf)) in Hj as [Hj Hk].
  assert (key <> "")%string as Hne by (inversion Ht; subst; [by eapply Hnamed|done|by eapply Hnamed]).
  split_and!; [done|by split|by left|done].
Qed.

Lemma key_writes n f key om : f ∈ fieldsOf n -> visible f key om ->
  (key <> "" \/ f_Anonymous f = false)%string -> writes n f (Some key) om.
Proof.
  intros Hf [He Hj] Hk. split; [done|done|]. apply jsonName_tagged; [by eapply Hnamed|]. split; [done|].
  split; [done|]. simpl. intros [-> Ha]. destruct Hk; congruence.
Qed.

Lemma writes_inlined n f om : writes n f None om <-> f ∈ fieldsOf n /\ visible f "" om /\ f_Anonymous f = true.
Proof.
  split.
  - intros [Hf He Ht]. apply (jsonName_tagged f None om (Hnamed n f Hf)) in Ht as [Hj Hk].
    split; [done|]. split; [by split|]. by apply Hk.
  - intros (Hf & [He Hj] & Ha). split; [done|done|]. apply jsonName_tagged; [by eapply Hnamed|]. by split.
Qed.

Lemma join_suffix prefix key b : join prefix key +:+ b = join prefix (key +:+ b).
Proof. unfold join. destruct (String.eqb prefix ""); [done|]. by rewrite <- !string_append_assoc. Qed.

(** What the walk reaches, as a chain of structs not on its stack. *)
Definition reached (stack : gset string) (prefix n l : string) : Prop :=
  exists ns keys m f key om, leads n ns keys m /\ NoDup ns /\ (forall x, x ∈ ns -> x ∉ stack) /\
    writes m f (Some key) om /\ l = line (foldl join prefix (keys ++ [key])) (f_Type f) om.

Lemma emits_reached stack prefix t l : emits stack prefix t l -> exists n, t = TStruct n /\ reached stack prefix n l.
Proof.
  assert (forall (n : string) (stack : gset string) (ns : list string), n ∉ stack ->
    (forall x, x ∈ ns -> x ∉ {[n]} ∪ stack) ->
    n ∉ ns /\ forall x, x ∈ n :: ns -> x ∉ stack) as Hns by set_solver.
  induction 1 as [stack prefix n f key om Hn Hf Hv Hk|stack prefix n f key om l Hn Hf Hv Hk Hl _ (m & Hm & IH)|
    stack prefix n f om l Hn Hf Hv Ha _ (m & Hm & IH)]; exists n; (split; [done|]).
  - exists [n], [], n, f, key, om. split; [constructor|]. split; [apply NoDup_singleton|].
    split; [by intros x ->%list_elem_of_singleton|]. split; [by apply key_writes|done].
  - destruct IH as (ns & keys & k & f' & key' & om' & Hld & Hnd & Hst & Hw & ->).
    destruct (Hns n stack ns Hn Hst) as [Hnot Hst'].
    exists (n :: ns), ((key +:+ (unwrap (f_Type f)).2) :: keys), k, f', key', om'. split_and!; [|by constructor|done|done|].
    + pose proof (unwrap_value (f_Type f)) as Hu. rewrite Hm in Hu, Hl.
      eapply leads_key; [by apply key_writes|exact Hu| |done]. rewrite <- isLeaf_scalar. by rewrite Hl.
    + simpl. by rewrite join_suffix.
  - destruct IH as (ns & keys & k & f' & key' & om' & Hld & Hnd & Hst & Hw & ->).
    destruct (Hns n stack ns Hn Hst) as [Hnot Hst'].
    exists (n :: ns), keys, k, f', key', om'. split_and!; [|by constructor|done|done|done].
    pose proof (unwrap_value (f_Type f)) as Hu. rewrite Hm in Hu.
    eapply leads_inlined; [by apply writes_inlined|exact Hu|done].
Qed.

Lemma reached_emits stack prefix n l : reached stack prefix n l -> emits stack prefix (TStruct n) l.
Proof.
  intros (ns & keys & m & f & key & om & Hld & Hnd & Hst & Hw & ->). revert stack prefix Hnd Hst.
  induction Hld as [n|n g k o m b ns keys k' Hg Hv Hsc Hld IH|n g o m b ns keys k' Hg Hv Hld IH]; intros stack prefix Hnd Hst.
  - apply writes_key in Hw as (Hf & Hvis & Hk & _). apply emits_line; [|done..]. apply Hst. by left.
  - apply NoDup_cons in Hnd as [Hn Hnd]. apply writes_key in Hg as (Hf & Hvis & Hk & _).
    apply value_unwrap in Hv. apply (emits_below stack prefix n g k o); try done; [apply Hst; by left| |].
    + rewrite Hv. apply not_true_iff_false. by rewrite isLeaf_scalar.
    + rewrite Hv. simpl. rewrite join_suffix. apply (IH Hw); [done|set_solver].
  - apply NoDup_cons in Hnd as [Hn Hnd]. apply writes_inlined in Hg as (Hf & Hvis & Ha).
    apply value_unwrap in Hv. apply (emits_inlined stack prefix n g o); try done; [apply Hst; by left|].
    rewrite Hv. apply (IH Hw); [done|set_solver].
Qed.

Lemma join_concat cs prefix : Forall (fun c => c <> ""%string) cs -> prefix <> ""%string ->
  foldl join prefix cs = String.concat "." (prefix :: cs).
Proof.
  intros Hcs. revert prefix. induction Hcs as [|c cs Hc Hcs IH]; intros prefix Hp; [done|]. simpl foldl.
  assert (join prefix c = prefix +:+ "." +:+ c) as -> by (unfold join; by apply String.eqb_neq in Hp as ->).
  rewrite IH by (by destruct prefix). destruct cs; simpl; by rewrite <- ?string_append_assoc.
Qed.

Lemma leads_keys n ns keys m : leads n ns keys m -> Forall (fun c => c <> ""%string) keys.
Proof.
  induction 1 as [n|n f key om m b ns keys k Hw Hv Hs Hl IH|]; [constructor| |done]. constructor; [|done].
  apply writes_key in Hw as (_ & _ & _ & Hk). by destruct key.
Qed.

Lemma line_entry keys key t om : Forall (fun c => c <> ""%string) (keys ++ [key]) ->
  line (foldl join "" (keys ++ [key])) t om = entry keys key t om.
Proof.
  intros Hk. assert (foldl join "" (keys ++ [key]) = String.concat "." (keys ++ [key])) as ->.
  { destruct (keys ++ [key]) as [|c cs] eqn:E; [by destruct keys|]. apply Forall_cons in Hk as [Hc Hk].
    simpl foldl. change (join "" c) with c. by apply join_concat. }
  unfold line, entry. generalize (String_ t). intros s.
  destruct t, om; simpl; rewrite ?string_append_nil, <- ?string_append_assoc; reflexivity.
Qed.

Lemma emits_lists n l : emits ∅ "" (TStruct n) l <-> lists n l.
Proof.
  assert (forall ns keys m f key om, leads n ns keys m -> writes m f (Some key) om ->
    line (foldl join "" (keys ++ [key])) (f_Type f) om = entry keys key (f_Type f) om) as Hl.
  { intros ns keys m f key om Hld Hw. apply line_entry. apply Forall_app. split; [by eapply leads_keys|].
    apply writes_key in Hw as (_ & _ & _ & Hk). by constructor. }
  split.
  - intros (n' & [= <-] & ns & keys & m & f & key & om & Hld & Hnd & _ & Hw & ->)%emits_reached.
    exists ns, keys, m, f, key, om. split_and!; try done. by eapply Hl.
  - intros (ns & keys & m & f & key & om & Hld & Hnd & Hw & ->). apply reached_emits.
    exists ns, keys, m, f, key, om. split_and!; try done. symmetry. by eapply Hl.
Qed.

End named.
End walk.

(** ** The structs of the wire *)

Definition Tint : rtype := TBasic "int".
Definition Tint16 : rtype := TBasic "int16".
Definition Tint32 : rtype := TBasic "int32".
Definition Tint64 : rtype := TBasic "int64".
Definition Tuint64 : rtype := TBasic "uint64".
Definition Tbool : rtype := TBasic "bool".
Definition Tstring : rtype := TBasic "string".
Definition Ttime : rtype := TStruct "time.Time".

(** An exported field with a tag. *)
Definition F (name : string) (t : rtype) (tag : string) : structField := mkField name "" false (Some tag) t.

Definition fields_Batch : list structField :=
  [F "SchemaVersion" Tint "schema_version"; F "AgentVersion" Tstring "agent_version";
   F "AgentInstanceID" Tstring "agent_instance_id"; F "BatchSeq" Tuint64 "batch_seq";
   F "CollectedAt" Ttime "collected_at"; F "CollectionMs" Tint64 "collection_ms";
   F "Cluster" (TPtr (TStruct "metrics.ClusterMetrics")) "cluster,omitempty";
   F "Topics" (TSlice (TStruct "metrics.TopicMetrics")) "topics";
   F "Groups" (TSlice (TStruct "metrics.GroupMetrics")) "groups";
   F "Offsets" (TSlice (TStruct "metrics.ConsumerOffset")) "offsets";
   F "LogDirs" (TSlice (TStruct "metrics.LogDir")) "log_dirs,omitempty";
   F "ThroughputWindow" (TPtr (TStruct "metrics.ThroughputWindow")) "throughput_window,omitempty";
   F "Reassignments" (TSlice (TStruct "metrics.Reassignment")) "reassignments,omitempty";
   F "EpochProbes" (TSlice (TStruct "metrics.EpochProbe")) "epoch_probes,omitempty";
   F "TopicConfigs" (TSlice (TStruct "metrics.TopicConfig")) "topic_configs,omitempty";
   F "BrokerConfigs" (TSlice (TStruct "metrics.BrokerConfig")) "broker_configs,omitempty";
   F "ShareGroups" (TSlice (TStruct "metrics.ShareGroup")) "share_groups,omitempty";
   F "Principal" Tstring "principal,omitempty"; F "Agent" (TStruct "metrics.AgentStats") "agent";
   F "Sections" (TSlice (TStruct "metrics.Section")) "sections";
   F "Errors" (TSlice (TStruct "metrics.CollectionError")) "errors,omitempty";
   F "Truncation" (TPtr (TStruct "metrics.Truncation")) "truncation,omitempty";
   F "Selection" (TPtr (TStruct "metrics.Selection")) "selection,omitempty"].

Definition fields_Selection : list structField :=
  [F "TopicInclude" (TSlice Tstring) "topic_include,omitempty";
   F "TopicExclude" (TSlice Tstring) "topic_exclude,omitempty";
   F "GroupInclude" (TSlice Tstring) "group_include,omitempty";
   F "GroupExclude" (TSlice Tstring) "group_exclude,omitempty";
   F "GroupStates" (TSlice Tstring) "group_states,omitempty";
   F "IncludeInternalTopics" Tbool "include_internal_topics,omitempty"].

Definition fields_Truncation : list structField :=
  [F "ErrorsCollapsed" Tint "errors_collapsed,omitempty"; F "ErrorsDropped" Tint "errors_dropped,omitempty"].

Definition fields_Section : list structField :=
  [F "Name" Tstring "name"; F "Status" (TBasic "metrics.SectionStatus") "status";
   F "SampledAt" Ttime "sampled_at"; F "DurationMs" Tint64 "duration_ms";
   F "ErrorCount" Tint "error_count,omitempty"; F "ErrorsCollapsed" Tint "errors_collapsed,omitempty";
   F "ErrorsDropped" Tint "errors_dropped,omitempty"; F "Truncated" Tbool "truncated,omitempty"].

Definition fields_CollectionError : list structField :=
  [F "Section" Tstring "section"; F "API" Tstring "api,omitempty";
   F "BrokerID" (TPtr Tint32) "broker_id,omitempty"; F "Topic" Tstring "topic,omitempty";
   F "Partition" (TPtr Tint32) "partition,omitempty"; F "Dir" Tstring "dir,omitempty";
   F "Group" Tstring "group,omitempty"; F "Code" Tint16 "kafka_error_code,omitempty";
   F "Kind" Tstring "kind,omitempty"; F "Message" Tstring "message"; F "Count" Tint "count,omitempty"].

Definition fields_AgentStats : list structField :=
  [F "UptimeSec" Tint64 "uptime_sec"; F "BatchesCollected" Tuint64 "batches_collected";
   F "BatchesExported" Tuint64 "batches_exported"; F "BatchesDropped" Tuint64 "batches_dropped";
   F "BatchesRejected" Tuint64 "batches_rejected"; F "ExportRetries" Tuint64 "export_retries";
   F "QueueDepth" Tint "queue_depth"; F "LastExportError" Tstring "last_export_error,omitempty";
   F "RPC" (TPtr (TStruct "metrics.RPCStats")) "rpc,omitempty"].

Definition fields_RPCStats : list structField :=
  [F "WindowMs" Tint64 "window_ms"; F "Brokers" (TSlice (TStruct "metrics.BrokerRPC")) "brokers"].

Definition fields_BrokerRPC : list structField :=
  [F "BrokerID" Tint32 "broker_id"; F "Requests" (TSlice (TStruct "metrics.BrokerAPIRPC")) "requests";
   F "ConnectAttempts" Tuint64 "connect_attempts"; F "ConnectFailures" Tuint64 "connect_failures";
   F "ConnectLatency" (TStruct "metrics.LatencyHistogram") "connect_latency";
   F "Disconnects" Tuint64 "disconnects"; F "LastConnectError" Tstring "last_connect_error,omitempty";
   F "ThrottleEvents" Tuint64 "throttle_events"; F "ThrottledMs" Tint64 "throttled_ms"].

Definition fields_BrokerAPIRPC : list structField :=
  [F "API" Tstring "api"; F "E2E" (TStruct "metrics.LatencyHistogram") "e2e";
   F "WriteWait" (TStruct "metrics.LatencyHistogram") "write_wait"; F "Errors" Tuint64 "errors";
   F "BytesWritten" Tint64 "bytes_written"; F "BytesRead" Tint64 "bytes_read"].

Definition fields_LatencyHistogram : list structField :=
  [F "Count" Tint64 "count"; F "SumUs" Tint64 "sum_us"; F "MaxUs" (TPtr Tint64) "max_us";
   F "BoundsUs" (TSlice Tint64) "bounds_us"; F "Counts" (TSlice Tint64) "counts"].

Definition fields_ClusterMetrics : list structField :=
  [F "ID" Tstring "id"; F "BrokerCount" Tint "broker_count";
   F "Brokers" (TSlice (TStruct "metrics.Broker")) "brokers";
   F "Capabilities" (TPtr (TStruct "metrics.ClusterCapabilities")) "capabilities,omitempty"].

Definition fields_ClusterCapabilities : list structField :=
  [F "Features" (TMap Tstring Tbool) "features"; F "SoftwareVersions" (TSlice Tstring) "software_versions";
   F "MixedVersions" Tbool "mixed_versions";
   F "Brokers" (TSlice (TStruct "metrics.BrokerCapability")) "brokers"].

Definition fields_BrokerCapability : list structField :=
  [F "BrokerID" Tint32 "broker_id"; F "SoftwareVersion" Tstring "software_version,omitempty";
   F "APIMaxVersions" (TMap Tstring Tint16) "api_max_versions"].

Definition fields_Broker : list structField :=
  [F "ID" Tint32 "id"; F "Host" Tstring "host"; F "Port" Tint32 "port";
   F "Rack" (TPtr Tstring) "rack,omitempty"].

Definition fields_TopicMetrics : list structField :=
  [F "Name" Tstring "name"; F "ID" Tstring "id,omitempty"; F "Internal" Tbool "internal";
   F "PartitionCount" Tint "partition_count"; F "ReplicationFactor" Tint "replication_factor";
   F "Partitions" (TSlice (TStruct "metrics.Partition")) "partitions";
   F "ErrorCode" Tint16 "error_code,omitempty"].

Definition fields_Partition : list structField :=
  [F "ID" Tint32 "id"; F "Leader" Tint32 "leader"; F "LeaderEpoch" Tint32 "leader_epoch";
   F "Replicas" (TSlice Tint32) "replicas"; F "ISR" (TSlice Tint32) "isr";
   F "OfflineReplicas" (TSlice Tint32) "offline_replicas,omitempty";
   F "StartOffset" (TPtr Tint64) "start_offset"; F "EndOffset" (TPtr Tint64) "end_offset";
   F "LastStableOffset" (TPtr Tint64) "last_stable_offset";
   F "MaxTimestamp" (TPtr (TStruct "metrics.MaxTimestampOffset")) "max_timestamp,omitempty";
   F "Tiered" (TPtr (TStruct "metrics.TieredOffsets")) "tiered,omitempty";
   F "Window" (TPtr (TStruct "metrics.WindowOffset")) "window,omitempty";
   F "ErrorCode" Tint16 "error_code,omitempty"].

Definition fields_ThroughputWindow : list structField :=
  [F "RequestedMs" Tint64 "requested_ms"; F "WidthMs" Tint64 "width_ms"].

Definition fields_WindowOffset : list structField :=
  [F "Offset" (TPtr Tint64) "offset"; F "TimestampMs" (TPtr Tint64) "timestamp_ms";
   F "LeaderEpoch" Tint32 "leader_epoch"; F "ErrorCode" Tint16 "error_code,omitempty"].

Definition fields_Reassignment : list structField :=
  [F "Topic" Tstring "topic"; F "Partition" Tint32 "partition"; F "Replicas" (TSlice Tint32) "replicas";
   F "AddingReplicas" (TSlice Tint32) "adding_replicas";
   F "RemovingReplicas" (TSlice Tint32) "removing_replicas"].

Definition fields_EpochProbe : list structField :=
  [F "Topic" Tstring "topic"; F "TopicID" Tstring "topic_id,omitempty"; F "Partition" Tint32 "partition";
   F "GroupID" Tstring "group_id"; F "CommittedOffset" (TPtr Tint64) "committed_offset";
   F "CommittedEpoch" Tint32 "committed_epoch"; F "CurrentLeaderEpoch" Tint32 "current_leader_epoch";
   F "ReturnedEpoch" (TPtr Tint32) "returned_epoch"; F "EndOffset" (TPtr Tint64) "end_offset";
   F "NodeID" (TPtr Tint32) "node_id"; F "ErrorCode" Tint16 "error_code,omitempty"].

Definition fields_LogDir : list structField :=
  [F "Broker" Tint32 "broker"; F "Dir" Tstring "dir"; F "TotalBytes" (TPtr Tint64) "total_bytes";
   F "UsableBytes" (TPtr Tint64) "usable_bytes"; F "ErrorCode" Tint16 "error_code,omitempty";
   F "Partitions" (TSlice (TStruct "metrics.LogDirPartition")) "partitions"].

Definition fields_LogDirPartition : list structField :=
  [F "Topic" Tstring "topic"; F "Partition" Tint32 "partition"; F "Size" Tint64 "size";
   F "OffsetLag" Tint64 "offset_lag"; F "IsFuture" Tbool "is_future,omitempty"].

Definition fields_GroupMetrics : list structField :=
  [F "ID" Tstring "id"; F "State" Tstring "state"; F "Coordinator" Tint32 "coordinator";
   F "Generation" Tint32 "generation"; F "Protocol" Tstring "protocol,omitempty";
   F "ProtocolType" Tstring "protocol_type,omitempty"; F "GroupType" Tstring "group_type,omitempty";
   F "MemberCount" Tint "member_count"; F "Members" (TSlice (TStruct "metrics.GroupMember")) "members";
   F "ErrorCode" Tint16 "error_code,omitempty"; F "GroupEpoch" (TPtr Tint32) "group_epoch,omitempty";
   F "AssignmentEpoch" (TPtr Tint32) "assignment_epoch,omitempty"; F "Assignor" Tstring "assignor,omitempty"].

Definition fields_GroupMember : list structField :=
  [F "MemberID" Tstring "member_id"; F "InstanceID" (TPtr Tstring) "instance_id,omitempty";
   F "ClientID" Tstring "client_id"; F "Host" Tstring "host"; F "Rack" (TPtr Tstring) "rack,omitempty";
   F "SubscribedTopics" (TSlice Tstring) "subscribed_topics,omitempty";
   F "Assignment" (TSlice (TStruct "metrics.TopicPartition")) "assignment";
   F "Owned" (TSlice (TStruct "metrics.TopicPartition")) "owned,omitempty";
   F "MemberEpoch" (TPtr Tint32) "member_epoch,omitempty";
   F "TargetAssignment" (TSlice (TStruct "metrics.TopicPartition")) "target_assignment,omitempty";
   F "SubscribedTopicRegex" (TPtr Tstring) "subscribed_topic_regex,omitempty"].

Definition fields_TopicPartition : list structField :=
  [F "Topic" Tstring "topic"; F "Partition" Tint32 "partition"].

Definition fields_ConsumerOffset : list structField :=
  [F "GroupID" Tstring "group_id"; F "ErrorCode" Tint16 "error_code,omitempty";
   F "Offsets" (TSlice (TStruct "metrics.PartitionOffset")) "offsets"; F "OffsetCount" Tint "offset_count"].

Definition fields_PartitionOffset : list structField :=
  [F "Topic" Tstring "topic"; F "Partition" Tint32 "partition"; F "Offset" (TPtr Tint64) "offset";
   F "LeaderEpoch" Tint32 "leader_epoch"; F "Metadata" Tstring "metadata,omitempty";
   F "ErrorCode" Tint16 "error_code,omitempty"].

Definition fields_ConfigEntry : list structField :=
  [F "Key" Tstring "key"; F "Value" (TPtr Tstring) "value"; F "Sensitive" Tbool "sensitive,omitempty";
   F "Source" Tstring "source,omitempty"].

Definition fields_TopicConfig : list structField :=
  [F "Topic" Tstring "topic"; F "ErrorCode" Tint16 "error_code,omitempty";
   F "Configs" (TSlice (TStruct "metrics.ConfigEntry")) "configs"].

Definition fields_BrokerConfig : list structField :=
  [F "Broker" Tint32 "broker"; F "ErrorCode" Tint16 "error_code,omitempty";
   F "Configs" (TSlice (TStruct "metrics.ConfigEntry")) "configs"].

Definition fields_MaxTimestampOffset : list structField :=
  [F "Offset" (TPtr Tint64) "offset"; F "TimestampMs" (TPtr Tint64) "timestamp_ms";
   F "LeaderEpoch" Tint32 "leader_epoch"; F "ErrorCode" Tint16 "error_code,omitempty"].

Definition fields_TieredOffsets : list structField :=
  [F "LocalStartOffset" (TPtr Tint64) "local_start_offset";
   F "RemoteEndOffset" (TPtr Tint64) "remote_end_offset"].

Definition fields_ShareGroup : list structField :=
  [F "ID" Tstring "id"; F "State" Tstring "state"; F "Coordinator" Tint32 "coordinator";
   F "GroupEpoch" Tint32 "group_epoch"; F "AssignmentEpoch" Tint32 "assignment_epoch";
   F "Assignor" Tstring "assignor,omitempty"; F "ErrorCode" Tint16 "error_code,omitempty";
   F "MemberCount" Tint "member_count"; F "Members" (TSlice (TStruct "metrics.ShareGroupMember")) "members";
   F "StartOffsets" (TSlice (TStruct "metrics.ShareGroupOffset")) "start_offsets,omitempty"].

Definition fields_ShareGroupMember : list structField :=
  [F "MemberID" Tstring "member_id"; F "ClientID" Tstring "client_id"; F "Host" Tstring "host";
   F "Rack" (TPtr Tstring) "rack,omitempty"; F "MemberEpoch" Tint32 "member_epoch";
   F "SubscribedTopics" (TSlice Tstring) "subscribed_topics,omitempty";
   F "Assignment" (TSlice (TStruct "metrics.TopicPartition")) "assignment,omitempty"].

Definition fields_ShareGroupOffset : list structField :=
  [F "Topic" Tstring "topic"; F "Partition" Tint32 "partition"; F "StartOffset" (TPtr Tint64) "start_offset";
   F "LeaderEpoch" Tint32 "leader_epoch"; F "ErrorCode" Tint16 "error_code,omitempty"].

Definition wire_structs : Structs := {|
  structs := list_to_map
    [("metrics.Batch", fields_Batch); ("metrics.Selection", fields_Selection);
     ("metrics.Truncation", fields_Truncation); ("metrics.Section", fields_Section);
     ("metrics.CollectionError", fields_CollectionError); ("metrics.AgentStats", fields_AgentStats);
     ("metrics.RPCStats", fields_RPCStats); ("metrics.BrokerRPC", fields_BrokerRPC);
     ("metrics.BrokerAPIRPC", fields_BrokerAPIRPC); ("metrics.LatencyHistogram", fields_LatencyHistogram);
     ("metrics.ClusterMetrics", fields_ClusterMetrics);
     ("metrics.ClusterCapabilities", fields_ClusterCapabilities);
     ("metrics.BrokerCapability", fields_BrokerCapability); ("metrics.Broker", fields_Broker);
     ("metrics.TopicMetrics", fields_TopicMetrics); ("metrics.Partition", fields_Partition);
     ("metrics.ThroughputWindow", fields_ThroughputWindow); ("metrics.WindowOffset", fields_WindowOffset);
     ("metrics.Reassignment", fields_Reassignment); ("metrics.EpochProbe", fields_EpochProbe);
     ("metrics.LogDir", fields_LogDir); ("metrics.LogDirPartition", fields_LogDirPartition);
     ("metrics.GroupMetrics", fields_GroupMetrics); ("metrics.GroupMember", fields_GroupMember);
     ("metrics.TopicPartition", fields_TopicPartition); ("metrics.ConsumerOffset", fields_ConsumerOffset);
     ("metrics.PartitionOffset", fields_PartitionOffset); ("metrics.ConfigEntry", fields_ConfigEntry);
     ("metrics.TopicConfig", fields_TopicConfig); ("metrics.BrokerConfig", fields_BrokerConfig);
     ("metrics.MaxTimestampOffset", fields_MaxTimestampOffset);
     ("metrics.TieredOffsets", fields_TieredOffsets); ("metrics.ShareGroup", fields_ShareGroup);
     ("metrics.ShareGroupMember", fields_ShareGroupMember);
     ("metrics.ShareGroupOffset", fields_ShareGroupOffset)]%string;
  marshals _ := false
|}.

(** The frozen contract, line by line. *)
Definition schema_v1 : list string :=
  ["agent metrics.AgentStats"; "agent.batches_collected uint64"; "agent.batches_dropped uint64";
   "agent.batches_exported uint64"; "agent.batches_rejected uint64"; "agent.export_retries uint64";
   "agent.last_export_error string omitempty"; "agent.queue_depth int";
   "agent.rpc *metrics.RPCStats nullable omitempty"; "agent.rpc.brokers []metrics.BrokerRPC";
   "agent.rpc.brokers[].broker_id int32"; "agent.rpc.brokers[].connect_attempts uint64";
   "agent.rpc.brokers[].connect_failures uint64";
   "agent.rpc.brokers[].connect_latency metrics.LatencyHistogram";
   "agent.rpc.brokers[].connect_latency.bounds_us []int64"; "agent.rpc.brokers[].connect_latency.count int64";
   "agent.rpc.brokers[].connect_latency.counts []int64";
   "agent.rpc.brokers[].connect_latency.max_us *int64 nullable";
   "agent.rpc.brokers[].connect_latency.sum_us int64"; "agent.rpc.brokers[].disconnects uint64";
   "agent.rpc.brokers[].last_connect_error string omitempty";
   "agent.rpc.brokers[].requests []metrics.BrokerAPIRPC"; "agent.rpc.brokers[].requests[].api string";
   "agent.rpc.brokers[].requests[].bytes_read int64"; "agent.rpc.brokers[].requests[].bytes_written int64";
   "agent.rpc.brokers[].requests[].e2e metrics.LatencyHistogram";
   "agent.rpc.brokers[].requests[].e2e.bounds_us []int64"; "agent.rpc.brokers[].requests[].e2e.count int64";
   "agent.rpc.brokers[].requests[].e2e.counts []int64";
   "agent.rpc.brokers[].requests[].e2e.max_us *int64 nullable";
   "agent.rpc.brokers[].requests[].e2e.sum_us int64"; "agent.rpc.brokers[].requests[].errors uint64";
   "agent.rpc.brokers[].requests[].write_wait metrics.LatencyHistogram";
   "agent.rpc.brokers[].requests[].write_wait.bounds_us []int64";
   "agent.rpc.brokers[].requests[].write_wait.count int64";
   "agent.rpc.brokers[].requests[].write_wait.counts []int64";
   "agent.rpc.brokers[].requests[].write_wait.max_us *int64 nullable";
   "agent.rpc.brokers[].requests[].write_wait.sum_us int64"; "agent.rpc.brokers[].throttle_events uint64";
   "agent.rpc.brokers[].throttled_ms int64"; "agent.rpc.window_ms int64"; "agent.uptime_sec int64";
   "agent_instance_id string"; "agent_version string"; "batch_seq uint64";
   "broker_configs []metrics.BrokerConfig omitempty"; "broker_configs[].broker int32";
   "broker_configs[].configs []metrics.ConfigEntry"; "broker_configs[].configs[].key string";
   "broker_configs[].configs[].sensitive bool omitempty"; "broker_configs[].configs[].source string omitempty";
   "broker_configs[].configs[].value *string nullable"; "broker_configs[].error_code int16 omitempty";
   "cluster *metrics.ClusterMetrics nullable omitempty"; "cluster.broker_count int";
   "cluster.brokers []metrics.Broker"; "cluster.brokers[].host string"; "cluster.brokers[].id int32";
   "cluster.brokers[].port int32"; "cluster.brokers[].rack *string nullable omitempty";
   "cluster.capabilities *metrics.ClusterCapabilities nullable omitempty";
   "cluster.capabilities.brokers []metrics.BrokerCapability";
   "cluster.capabilities.brokers[].api_max_versions map[string]int16";
   "cluster.capabilities.brokers[].broker_id int32";
   "cluster.capabilities.brokers[].software_version string omitempty";
   "cluster.capabilities.features map[string]bool"; "cluster.capabilities.mixed_versions bool";
   "cluster.capabilities.software_versions []string"; "cluster.id string"; "collected_at time.Time";
   "collection_ms int64"; "epoch_probes []metrics.EpochProbe omitempty";
   "epoch_probes[].committed_epoch int32"; "epoch_probes[].committed_offset *int64 nullable";
   "epoch_probes[].current_leader_epoch int32"; "epoch_probes[].end_offset *int64 nullable";
   "epoch_probes[].error_code int16 omitempty"; "epoch_probes[].group_id string";
   "epoch_probes[].node_id *int32 nullable"; "epoch_probes[].partition int32";
   "epoch_probes[].returned_epoch *int32 nullable"; "epoch_probes[].topic string";
   "epoch_probes[].topic_id string omitempty"; "errors []metrics.CollectionError omitempty";
   "errors[].api string omitempty"; "errors[].broker_id *int32 nullable omitempty";
   "errors[].count int omitempty"; "errors[].dir string omitempty"; "errors[].group string omitempty";
   "errors[].kafka_error_code int16 omitempty"; "errors[].kind string omitempty"; "errors[].message string";
   "errors[].partition *int32 nullable omitempty"; "errors[].section string";
   "errors[].topic string omitempty"; "groups []metrics.GroupMetrics";
   "groups[].assignment_epoch *int32 nullable omitempty"; "groups[].assignor string omitempty";
   "groups[].coordinator int32"; "groups[].error_code int16 omitempty"; "groups[].generation int32";
   "groups[].group_epoch *int32 nullable omitempty"; "groups[].group_type string omitempty";
   "groups[].id string"; "groups[].member_count int"; "groups[].members []metrics.GroupMember";
   "groups[].members[].assignment []metrics.TopicPartition"; "groups[].members[].assignment[].partition int32";
   "groups[].members[].assignment[].topic string"; "groups[].members[].client_id string";
   "groups[].members[].host string"; "groups[].members[].instance_id *string nullable omitempty";
   "groups[].members[].member_epoch *int32 nullable omitempty"; "groups[].members[].member_id string";
   "groups[].members[].owned []metrics.TopicPartition omitempty"; "groups[].members[].owned[].partition int32";
   "groups[].members[].owned[].topic string"; "groups[].members[].rack *string nullable omitempty";
   "groups[].members[].subscribed_topic_regex *string nullable omitempty";
   "groups[].members[].subscribed_topics []string omitempty";
   "groups[].members[].target_assignment []metrics.TopicPartition omitempty";
   "groups[].members[].target_assignment[].partition int32";
   "groups[].members[].target_assignment[].topic string"; "groups[].protocol string omitempty";
   "groups[].protocol_type string omitempty"; "groups[].state string"; "log_dirs []metrics.LogDir omitempty";
   "log_dirs[].broker int32"; "log_dirs[].dir string"; "log_dirs[].error_code int16 omitempty";
   "log_dirs[].partitions []metrics.LogDirPartition"; "log_dirs[].partitions[].is_future bool omitempty";
   "log_dirs[].partitions[].offset_lag int64"; "log_dirs[].partitions[].partition int32";
   "log_dirs[].partitions[].size int64"; "log_dirs[].partitions[].topic string";
   "log_dirs[].total_bytes *int64 nullable"; "log_dirs[].usable_bytes *int64 nullable";
   "offsets []metrics.ConsumerOffset"; "offsets[].error_code int16 omitempty"; "offsets[].group_id string";
   "offsets[].offset_count int"; "offsets[].offsets []metrics.PartitionOffset";
   "offsets[].offsets[].error_code int16 omitempty"; "offsets[].offsets[].leader_epoch int32";
   "offsets[].offsets[].metadata string omitempty"; "offsets[].offsets[].offset *int64 nullable";
   "offsets[].offsets[].partition int32"; "offsets[].offsets[].topic string"; "principal string omitempty";
   "reassignments []metrics.Reassignment omitempty"; "reassignments[].adding_replicas []int32";
   "reassignments[].partition int32"; "reassignments[].removing_replicas []int32";
   "reassignments[].replicas []int32"; "reassignments[].topic string"; "schema_version int";
   "sections []metrics.Section"; "sections[].duration_ms int64"; "sections[].error_count int omitempty";
   "sections[].errors_collapsed int omitempty"; "sections[].errors_dropped int omitempty";
   "sections[].name string"; "sections[].sampled_at time.Time"; "sections[].status metrics.SectionStatus";
   "sections[].truncated bool omitempty"; "selection *metrics.Selection nullable omitempty";
   "selection.group_exclude []string omitempty"; "selection.group_include []string omitempty";
   "selection.group_states []string omitempty"; "selection.include_internal_topics bool omitempty";
   "selection.topic_exclude []string omitempty"; "selection.topic_include []string omitempty";
   "share_groups []metrics.ShareGroup omitempty"; "share_groups[].assignment_epoch int32";
   "share_groups[].assignor string omitempty"; "share_groups[].coordinator int32";
   "share_groups[].error_code int16 omitempty"; "share_groups[].group_epoch int32"; "share_groups[].id string";
   "share_groups[].member_count int"; "share_groups[].members []metrics.ShareGroupMember";
   "share_groups[].members[].assignment []metrics.TopicPartition omitempty";
   "share_groups[].members[].assignment[].partition int32";
   "share_groups[].members[].assignment[].topic string"; "share_groups[].members[].client_id string";
   "share_groups[].members[].host string"; "share_groups[].members[].member_epoch int32";
   "share_groups[].members[].member_id string"; "share_groups[].members[].rack *string nullable omitempty";
   "share_groups[].members[].subscribed_topics []string omitempty";
   "share_groups[].start_offsets []metrics.ShareGroupOffset omitempty";
   "share_groups[].start_offsets[].error_code int16 omitempty";
   "share_groups[].start_offsets[].leader_epoch int32"; "share_groups[].start_offsets[].partition int32";
   "share_groups[].start_offsets[].start_offset *int64 nullable";
   "share_groups[].start_offsets[].topic string"; "share_groups[].state string";
   "throughput_window *metrics.ThroughputWindow nullable omitempty"; "throughput_window.requested_ms int64";
   "throughput_window.width_ms int64"; "topic_configs []metrics.TopicConfig omitempty";
   "topic_configs[].configs []metrics.ConfigEntry"; "topic_configs[].configs[].key string";
   "topic_configs[].configs[].sensitive bool omitempty"; "topic_configs[].configs[].source string omitempty";
   "topic_configs[].configs[].value *string nullable"; "topic_configs[].error_code int16 omitempty";
   "topic_configs[].topic string"; "topics []metrics.TopicMetrics"; "topics[].error_code int16 omitempty";
   "topics[].id string omitempty"; "topics[].internal bool"; "topics[].name string";
   "topics[].partition_count int"; "topics[].partitions []metrics.Partition";
   "topics[].partitions[].end_offset *int64 nullable"; "topics[].partitions[].error_code int16 omitempty";
   "topics[].partitions[].id int32"; "topics[].partitions[].isr []int32";
   "topics[].partitions[].last_stable_offset *int64 nullable"; "topics[].partitions[].leader int32";
   "topics[].partitions[].leader_epoch int32";
   "topics[].partitions[].max_timestamp *metrics.MaxTimestampOffset nullable omitempty";
   "topics[].partitions[].max_timestamp.error_code int16 omitempty";
   "topics[].partitions[].max_timestamp.leader_epoch int32";
   "topics[].partitions[].max_timestamp.offset *int64 nullable";
   "topics[].partitions[].max_timestamp.timestamp_ms *int64 nullable";
   "topics[].partitions[].offline_replicas []int32 omitempty"; "topics[].partitions[].replicas []int32";
   "topics[].partitions[].start_offset *int64 nullable";
   "topics[].partitions[].tiered *metrics.TieredOffsets nullable omitempty";
   "topics[].partitions[].tiered.local_start_offset *int64 nullable";
   "topics[].partitions[].tiered.remote_end_offset *int64 nullable";
   "topics[].partitions[].window *metrics.WindowOffset nullable omitempty";
   "topics[].partitions[].window.error_code int16 omitempty";
   "topics[].partitions[].window.leader_epoch int32"; "topics[].partitions[].window.offset *int64 nullable";
   "topics[].partitions[].window.timestamp_ms *int64 nullable"; "topics[].replication_factor int";
   "truncation *metrics.Truncation nullable omitempty"; "truncation.errors_collapsed int omitempty";
   "truncation.errors_dropped int omitempty"]%string.

(** The batch's paths are the frozen ones: what the program's own test compares. *)
Example schema_v1_frozen : @FieldPaths wire_structs (TStruct "metrics.Batch") = schema_v1.
Proof. vm_compute. reflexivity. Qed.

(** A type inside itself is listed once, an embedded struct is inlined, and a field
    that is not exported, or is tagged [-], is not listed. *)
Definition odd_structs : Structs := {|
  structs := list_to_map
    [("Node", [F "Next" (TPtr (TStruct "Node")) "next,omitempty"; mkField "Base" "" true None (TStruct "Base");
               mkField "hidden" "p" false None Tint; F "Skip" Tint "-"; F "Odd" Tint "-,"; mkField "Plain" "" false None Tint]);
     ("Base", [F "Kids" (TMap Tstring (TSlice (TStruct "Node"))) ""; F "At" Ttime "at"])]%string;
  marshals _ := false
|}.

Example odd_paths : @FieldPaths odd_structs (TStruct "Node") =
  ["- int"; "Kids map[string][]Node"; "Plain int"; "at time.Time"; "next *Node nullable omitempty"]%string.
Proof. vm_compute. reflexivity. Qed.

