(* ===== verification/Json.v ===== *)
(** * Json: the encoder and the strict decoder of the standard library, on values

    A [codec] is what [encoding/json] does with a type: the value it writes, what its
    strict decoder reads back, the zero value, what [omitempty] calls empty.  The
    codec of a struct is built from its tags, the table of [Schema], and the codecs
    of its fields.  Reading back what was written gives the value again, but that an
    omitted slice which was empty comes back nil: [norm].

    The decoder is that of objects whose keys are written exactly as the tags say;
    it accepts no other key. *)

From Stdlib Require Import ZArith Lia.
From stdpp Require Import prelude gmap strings numbers pretty sorting.
From S2P Require Import Prelude Wire Filter Strconv Schema.

Inductive json :=
| JNull
| JBool (b : bool)
| JNum (z : Z)
| JStr (s : string)
| JArr (l : list json)
| JObj (l : list (string * json)).

Record codec (A : Type) := mkCodec {
  c_type : rtype;
  enc : A -> json;
  dec : json -> option A;
  zero : A;
  isEmpty : A -> bool;
  norm : A -> A;
  wf : A -> Prop;
}.
Arguments mkCodec {_} _ _ _ _ _ _ _.
Arguments c_type {_} _.
Arguments enc {_} _ _.
Arguments dec {_} _ _.
Arguments zero {_} _.
Arguments isEmpty {_} _ _.
Arguments norm {_} _ _.
Arguments wf {_} _ _.

(** Reading back; what is read is written the same. *)
Class CodecLaws {A} (c : codec A) : Prop := {
  dec_enc x : wf c x -> dec c (enc c x) = Some (norm c x);
  enc_norm x : enc c (norm c x) = enc c x;
  empty_norm x : isEmpty c (norm c x) = isEmpty c x;
  empty_zero x : isEmpty c x = true -> isEmpty c (zero c) = true;
}.

(** Never written as [null]. *)
Class NotNull {A} (c : codec A) : Prop := enc_not_null x : enc c x <> JNull.

(** ** Basic types *)

Definition int_codec (name : string) (lo hi : Z) : codec Z := {|
  c_type := TBasic name;
  enc := JNum;
  dec j := match j with
           | JNull => Some 0
           | JNum z => if (lo <=? z) && (z <=? hi) then Some z else None
           | _ => None
           end;
  zero := 0;
  isEmpty z := z =? 0;
  norm z := z;
  wf z := lo <= z <= hi;
|}.

Definition int16_codec : codec Z := int_codec "int16" (- 2 ^ 15) (2 ^ 15 - 1).
Definition int32_codec : codec Z := int_codec "int32" (- 2 ^ 31) (2 ^ 31 - 1).
Definition int64_codec : codec Z := int_codec "int64" (- 2 ^ 63) (2 ^ 63 - 1).
Definition int_codec_ : codec Z := int_codec "int" (- 2 ^ 63) (2 ^ 63 - 1).
Definition uint64_codec : codec Z := int_codec "uint64" 0 (2 ^ 64 - 1).

Definition bool_codec : codec bool := {|
  c_type := Tbool;
  enc := JBool;
  dec j := match j with JNull => Some false | JBool b => Some b | _ => None end;
  zero := false;
  isEmpty b := negb b;
  norm b := b;
  wf _ := True;
|}.

(** A text that is not UTF-8 is not written as it is. *)
Definition string_codec : codec string := {|
  c_type := Tstring;
  enc := JStr;
  dec j := match j with JNull => Some ""%string | JStr s => Some s | _ => None end;
  zero := "";
  isEmpty s := String.eqb s "";
  norm s := s;
  wf s := utf8_valid s = true;
|}.

Definition status_text (s : SectionStatus) : string :=
  match s with
  | SectionOK => "ok" | SectionPartial => "partial" | SectionFailed => "failed"
  | SectionUnauthorized => "unauthorized" | SectionSkipped => "skipped"
  end.

Definition read_status (s : string) : option SectionStatus :=
  find (fun st => String.eqb (status_text st) s)
    [SectionOK; SectionPartial; SectionFailed; SectionUnauthorized; SectionSkipped].

Definition status_codec : codec SectionStatus := {|
  c_type := TBasic "metrics.SectionStatus";
  enc s := JStr (status_text s);
  dec j := match j with JStr s => read_status s | _ => None end;
  zero := SectionOK;
  isEmpty _ := false;
  norm s := s;
  wf _ := True;
|}.

(** [time.Time] writes its RFC 3339 text, with the nanoseconds, if its year has
    four digits. *)
Class TimeText := {
  MarshalTime : Z -> string;
  UnmarshalTime : string -> option Z;
  year_ok : Z -> Prop;
}.
Class TimeTextLaws `{!TimeText} : Prop := {
  time_back t : year_ok t -> UnmarshalTime (MarshalTime t) = Some t;
}.

Definition time_codec `{!TimeText} (zero_ : Z) : codec Z := {|
  c_type := Ttime;
  enc t := JStr (MarshalTime t);
  dec j := match j with JNull => Some zero_ | JStr s => UnmarshalTime s | _ => None end;
  zero := zero_;
  isEmpty _ := false;
  norm t := t;
  wf t := year_ok t;
|}.

(** ** Pointers, slices, maps *)

Definition ptr_codec {A} (c : codec A) : codec (option A) := {|
  c_type := TPtr (c_type c);
  enc o := match o with None => JNull | Some x => enc c x end;
  dec j := match j with JNull => Some None | _ => Some <$> dec c j end;
  zero := None;
  isEmpty o := match o with None => true | Some _ => false end;
  norm o := norm c <$> o;
  wf o := forall x, o = Some x -> wf c x;
|}.

Definition dec_elements {A} (c : codec A) (l : list json) : option (list A) := mapM (dec c) l.

Definition slice_codec {A} (c : codec A) : codec (slice A) := {|
  c_type := TSlice (c_type c);
  enc o := match o with None => JNull | Some l => JArr (enc c <$> l) end;
  dec j := match j with JNull => Some None | JArr l => Some <$> dec_elements c l | _ => None end;
  zero := None;
  isEmpty o := match elems o with [] => true | _ :: _ => false end;
  norm o := match o with None => None | Some l => Some (norm c <$> l) end;
  wf o := Forall (wf c) (elems o);
|}.

(** A slice the model keeps as a list: [nil] is not told from the empty one. *)
Definition list_codec {A} (c : codec A) : codec (list A) := {|
  c_type := TSlice (c_type c);
  enc l := JArr (enc c <$> l);
  dec j := match j with JNull => Some [] | JArr l => dec_elements c l | _ => None end;
  zero := [];
  isEmpty l := match l with [] => true | _ :: _ => false end;
  norm l := norm c <$> l;
  wf l := Forall (wf c) l;
|}.

(** A map is written in the order of its keys. *)
Definition sortedPairs {A} (m : gmap string A) : list (string * A) :=
  omap (fun k => pair k <$> m !! k) (sort_slice str_ltb (elements (dom m))).

Definition map_codec {A} (c : codec A) : codec (gmap string A) := {|
  c_type := TMap Tstring (c_type c);
  enc m := JObj (prod_map id (enc c) <$> sortedPairs m);
  dec j := match j with
           | JNull => Some ∅
           | JObj l => foldl (fun m kv => <[kv.1 := kv.2]> m) ∅ <$> mapM (fun kv => x ← dec c kv.2; Some (kv.1, x)) l
           | _ => None
           end;
  zero := ∅;
  isEmpty m := bool_decide (m = ∅);
  norm m := norm c <$> m;
  wf m := forall k x, m !! k = Some x -> utf8_valid k = true /\ wf c x;
|}.

(** ** Structs *)

(** The fields of a struct, as a product. *)
Record fields (P : Type) := mkFields {
  fs_types : list rtype;
  fs_enc : P -> list (json * bool);
  fs_dec : list (option json) -> option P;
  fs_zero : P;
  fs_norm : list bool -> P -> P;
  fs_wf : P -> Prop;
}.
Arguments mkFields {_} _ _ _ _ _ _.
Arguments fs_types {_} _.
Arguments fs_enc {_} _ _.
Arguments fs_dec {_} _ _.
Arguments fs_zero {_} _.
Arguments fs_norm {_} _ _ _.
Arguments fs_wf {_} _ _.

Definition no_fields : fields () := {|
  fs_types := [];
  fs_enc _ := [];
  fs_dec _ := Some tt;
  fs_zero := tt;
  fs_norm _ _ := tt;
  fs_wf _ := True;
|}.

Definition and_field {A P} (c : codec A) (p : fields P) : fields (A * P) := {|
  fs_types := c_type c :: fs_types p;
  fs_enc x := (enc c x.1, isEmpty c x.1) :: fs_enc p x.2;
  fs_dec os := match os with
               | o :: os =>
                   x ← match o with None => Some (zero c) | Some j => dec c j end;
                   r ← fs_dec p os;
                   Some (x, r)
               | [] => None
               end;
  fs_zero := (zero c, fs_zero p);
  fs_norm omits x := (if head omits is Some true then if isEmpty c x.1 then zero c else norm c x.1 else norm c x.1,
                      fs_norm p (tail omits) x.2);
  fs_wf x := wf c x.1 /\ fs_wf p x.2;
|}.

(** The key and the [omitempty] of each field that has one. *)
Definition tagsOf (fs : list structField) : list (string * bool) :=
  omap (fun f => let '(name, omitempty, skip) := jsonName f in if skip then None else Some (name, omitempty)) fs.

Definition member (tag : string * bool) (v : json * bool) : option (string * json) :=
  if tag.2 && v.2 then None else Some (tag.1, v.1).

Definition members (tags : list (string * bool)) (vs : list (json * bool)) : list (string * json) :=
  omap id (zip_with member tags vs).

Class FieldsLaws {P} (p : fields P) : Prop := {
  fs_length x : length (fs_enc p x) = length (fs_types p);
  fs_dec_enc omits x : fs_wf p x -> length omits = length (fs_types p) ->
    fs_dec p (zip_with (fun (omit : bool) '(j, empty) => if omit && empty then None else Some j) omits (fs_enc p x)) =
      Some (fs_norm p omits x);
  fs_enc_norm tags x : members tags (fs_enc p (fs_norm p tags.*2 x)) = members tags (fs_enc p x);
}.

(** A key written twice is read twice. *)
Definition lastOf (key : string) (l : list (string * json)) : option json :=
  foldl (fun o kv => if String.eqb kv.1 key then Some kv.2 else o) None l.

Section struct.
Context {A P : Type} (name : string) (fs : list structField) (p : fields P) (to : A -> P) (from : P -> A).

Definition struct_codec : codec A := {|
  c_type := TStruct name;
  enc x := JObj (members (tagsOf fs) (fs_enc p (to x)));
  dec j := match j with
           | JNull => Some (from (fs_zero p))
           | JObj l =>
               if forallb (fun kv => bool_decide (kv.1 ∈ (tagsOf fs).*1)) l
               then from <$> fs_dec p ((fun tag => lastOf tag.1 l) <$> tagsOf fs)
               else None                          (* DisallowUnknownFields *)
           | _ => None
           end;
  zero := from (fs_zero p);
  isEmpty _ := false;
  norm x := from (fs_norm p (tagsOf fs).*2 (to x));
  wf x := fs_wf p (to x);
|}.

(** The codecs are those of the struct's fields, one by one. *)
Class Fits : Prop := {
  fit_types : fs_types p = f_Type <$> fs;
  fit_keys : NoDup (tagsOf fs).*1;
  fit_all : length (tagsOf fs) = length fs;
  fit_same x : to (from x) = x;
}.
End struct.

(** ** Deciding what can be written *)

Class WfDec {A} (c : codec A) := wf_dec x : Decision (wf c x).
Class FieldsDec {P} (p : fields P) := fs_wf_dec x : Decision (fs_wf p x).
#[export] Existing Instances wf_dec fs_wf_dec.

#[export] Instance int_wf_dec name lo hi : WfDec (int_codec name lo hi).
Proof. intros z. simpl. apply _. Defined.
#[export] Instance bool_wf_dec : WfDec bool_codec.
Proof. intros b. simpl. apply _. Defined.
#[export] Instance string_wf_dec : WfDec string_codec.
Proof. intros s. simpl. apply _. Defined.
#[export] Instance status_wf_dec : WfDec status_codec.
Proof. intros st. simpl. apply _. Defined.
#[export] Instance time_wf_dec `{!TimeText, !forall t, Decision (year_ok t)} z : WfDec (time_codec z).
Proof. intros t. simpl. apply _. Defined.
#[export] Instance ptr_wf_dec {A} (c : codec A) `{!WfDec c} : WfDec (ptr_codec c).
Proof.
  intros [x|]; [|by left]. destruct (decide (wf c x)) as [Hx|Hx]; [left; by intros y [= <-]|right; intros Hw; by apply Hx, Hw].
Defined.
#[export] Instance slice_wf_dec {A} (c : codec A) `{!WfDec c} : WfDec (slice_codec c).
Proof. intros o. simpl. apply _. Defined.
#[export] Instance list_wf_dec {A} (c : codec A) `{!WfDec c} : WfDec (list_codec c).
Proof. intros l. simpl. apply _. Defined.
#[export] Instance map_wf_dec {A} (c : codec A) `{!WfDec c} : WfDec (map_codec c).
Proof. intros m. apply (map_Forall_dec (fun k x => utf8_valid k = true /\ wf c x)). Defined.
#[export] Instance no_fields_dec : FieldsDec no_fields.
Proof. intros []. simpl. apply _. Defined.
#[export] Instance and_field_dec {A P} (c : codec A) (p : fields P) `{!WfDec c, !FieldsDec p} : FieldsDec (and_field c p).
Proof. intros x. simpl. apply _. Defined.
#[export] Instance struct_wf_dec {A P} name fs (p : fields P) (to : A -> P) from `{!FieldsDec p} :
  WfDec (struct_codec name fs p to from).
Proof. intros x. simpl. apply _. Defined.

(** The codec of a struct is unfolded when its name is met. *)
#[export] Hint Extern 5 (WfDec ?c) => match c with ?h _ => unfold h | ?h => unfold h end : typeclass_instances.
#[export] Hint Extern 5 (FieldsDec ?p) => match p with ?h _ => unfold h | ?h => unfold h end : typeclass_instances.

(** ** Reading back what was written *)

#[export] Instance int_laws name lo hi : CodecLaws (int_codec name lo hi).
Proof.
  split; [|done..]. intros z [Hlo Hhi]. simpl. by rewrite (proj2 (Z.leb_le _ _) Hlo), (proj2 (Z.leb_le _ _) Hhi).
Qed.
#[export] Instance int_not_null name lo hi : NotNull (int_codec name lo hi).
Proof. done. Qed.

#[export] Instance bool_laws : CodecLaws bool_codec.
Proof. by split. Qed.
#[export] Instance bool_not_null : NotNull bool_codec.
Proof. done. Qed.

#[export] Instance string_laws : CodecLaws string_codec.
Proof. by split. Qed.
#[export] Instance string_not_null : NotNull string_codec.
Proof. done. Qed.

#[export] Instance status_laws : CodecLaws status_codec.
Proof. split; [by intros []|done..]. Qed.

#[export] Instance time_laws `{!TimeText, !TimeTextLaws} z : CodecLaws (time_codec z).
Proof. split; [|done..]. intros t Ht. apply time_back, Ht. Qed.

#[export] Instance ptr_laws {A} (c : codec A) `{!CodecLaws c, !NotNull c} : CodecLaws (ptr_codec c).
Proof.
  split; [|intros [x|]; [exact (enc_norm (c := c) x)|done]|by intros []|done].
  intros [x|] Hw; [|done]. specialize (Hw x eq_refl). pose proof (dec_enc x Hw) as Hd. pose proof (enc_not_null x) as Hn.
  simpl. destruct (enc c x); try done; by rewrite Hd.
Qed.

Lemma dec_elements_enc {A} (c : codec A) `{!CodecLaws c} l :
  Forall (wf c) l -> dec_elements c (enc c <$> l) = Some (norm c <$> l).
Proof.
  unfold dec_elements. induction 1 as [|x l Hx _ IH]; [done|]. rewrite !fmap_cons. simpl. rewrite dec_enc by done. simpl. by rewrite IH.
Qed.

Lemma enc_elements_norm {A} (c : codec A) `{!CodecLaws c} (l : list A) : enc c <$> (norm c <$> l) = enc c <$> l.
Proof. rewrite <- list_fmap_compose. apply list_fmap_ext. intros i x _. apply enc_norm. Qed.

#[export] Instance slice_laws {A} (c : codec A) `{!CodecLaws c} : CodecLaws (slice_codec c).
Proof.
  split; [|intros [l|]; simpl; [by rewrite enc_elements_norm|done]|by intros [[|]|]|done].
  intros [l|] Hw; [|done]. simpl in *. by rewrite dec_elements_enc.
Qed.

#[export] Instance list_laws {A} (c : codec A) `{!CodecLaws c} : CodecLaws (list_codec c).
Proof. split; [intros l Hw; by apply dec_elements_enc|intros l; simpl; by rewrite enc_elements_norm|by intros []|done]. Qed.

Lemma foldl_insert {A} (l : list (string * A)) (m : gmap string A) :
  NoDup l.*1 -> (forall k, k ∈ l.*1 -> m !! k = None) ->
  foldl (fun (m : gmap string A) kv => <[kv.1 := kv.2]> m) m l = list_to_map l ∪ m.
Proof.
  revert m. induction l as [|[k x] l IH]; intros m Hn Hm; simpl; [by rewrite (left_id_L ∅ (∪))|].
  apply NoDup_cons in Hn as [Hk Hn]. rewrite IH; [|done|].
  - rewrite <- insert_union_r, insert_union_l; [done|]. by apply not_elem_of_list_to_map_1.
  - intros k' Hk'. rewrite lookup_insert_ne by (intros ->; done). apply Hm. by right.
Qed.

Lemma elem_of_sortedPairs {A} (m : gmap string A) k x : (k, x) ∈ sortedPairs m <-> m !! k = Some x.
Proof.
  unfold sortedPairs. rewrite list_elem_of_omap. split.
  - intros (k' & _ & Hx). destruct (m !! k') eqn:E; [|done]. by injection Hx as <- <-.
  - intros Hx. exists k. rewrite Hx. split; [|done]. rewrite elem_of_sort_slice, elem_of_elements. by apply elem_of_dom_2 in Hx.
Qed.

Lemma sortedPairs_keys {A} (m : gmap string A) : (sortedPairs m).*1 = sort_slice str_ltb (elements (dom m)).
Proof.
  unfold sortedPairs. assert (Forall (fun k => is_Some (m !! k)) (sort_slice str_ltb (elements (dom m)))) as HF.
  { apply list.Forall_forall. intros k. rewrite elem_of_sort_slice, elem_of_elements. by apply elem_of_dom. }
  induction HF as [|k l [x Hx] _ IH]; [done|]. simpl. rewrite Hx. simpl. by f_equal.
Qed.

Lemma sortedPairs_fmap {A B} (f : A -> B) (m : gmap string A) : sortedPairs (f <$> m) = prod_map id f <$> sortedPairs m.
Proof.
  unfold sortedPairs. rewrite dom_fmap_L. induction (sort_slice _ _) as [|k l IH]; [done|]. simpl.
  rewrite lookup_fmap. destruct (m !! k); simpl; [by f_equal|exact IH].
Qed.

#[export] Instance map_laws {A} (c : codec A) `{!CodecLaws c} : CodecLaws (map_codec c).
Proof.
  split; [| | |by intros m _; apply bool_decide_eq_true].
  - intros m Hw. cbn [dec enc norm map_codec].
    assert (forall l : list (string * A), (forall k x, (k, x) ∈ l -> wf c x) ->
      mapM (fun kv => x ← dec c kv.2; Some (kv.1, x)) (prod_map id (enc c) <$> l) = Some (prod_map id (norm c) <$> l)) as Hl.
    { induction l as [|[k x] l IH]; intros Hl; [done|]. rewrite !fmap_cons. simpl.
      rewrite dec_enc by (apply (Hl k); left). simpl. rewrite IH; [done|]. intros k' x' Hin. apply (Hl k'). by right. }
    rewrite Hl by (intros k x Hin; apply elem_of_sortedPairs in Hin; by apply (Hw k x)).
    cbn [fmap option_fmap option_map]. f_equal. rewrite <- sortedPairs_fmap.
    assert (NoDup (sortedPairs (norm c <$> m)).*1) as Hn.
    { rewrite sortedPairs_keys, sort_slice_perm. apply NoDup_elements. }
    rewrite foldl_insert; [|done|by intros; apply lookup_empty]. rewrite (right_id_L ∅ (∪)).
    apply map_eq. intros k. apply option_eq. intros x. by rewrite <- elem_of_list_to_map, elem_of_sortedPairs.
  - intros m. cbn [enc norm map_codec]. f_equal. rewrite sortedPairs_fmap, <- list_fmap_compose.
    apply list_fmap_ext. intros i [k x] _. simpl. by rewrite enc_norm.
  - intros m. simpl. apply bool_decide_ext. apply fmap_empty_iff.
Qed.
#[export] Instance map_not_null {A} (c : codec A) : NotNull (map_codec c).
Proof. done. Qed.

Lemma members_cons tag tags v vs : members (tag :: tags) (v :: vs) = option_list (member tag v) ++ members tags vs.
Proof. unfold members. simpl. by destruct (member tag v). Qed.

#[export] Instance no_fields_laws : FieldsLaws no_fields.
Proof. split; [done|done|by intros [|[] ?] ?]. Qed.

#[export] Instance and_field_laws {A P} (c : codec A) (p : fields P) `{!CodecLaws c, !FieldsLaws p} :
  FieldsLaws (and_field c p).
Proof.
  split.
  - intros [x r]. simpl. by rewrite fs_length.
  - intros omits [x r] [Hx Hr] Hl. destruct omits as [|o omits]; [done|]. simpl in *. injection Hl as Hl.
    rewrite (fs_dec_enc omits r Hr Hl). destruct o; [destruct (isEmpty c x)|]; simpl; rewrite ?dec_enc by done; done.
  - intros [|[k o] tags] [x r]; [done|]. cbn [fs_enc fs_norm and_field fmap list_fmap head tail fst snd].
    rewrite !members_cons. f_equal; [f_equal|apply fs_enc_norm].
    unfold member. simpl. destruct o; simpl; [|by rewrite enc_norm]. destruct (isEmpty c x) eqn:E; simpl.
    + by rewrite (empty_zero x E).
    + by rewrite empty_norm, E, enc_norm.
Qed.

Lemma lastOf_none key (l : list (string * json)) : key ∉ l.*1 -> forall o, foldl (fun o kv => if String.eqb kv.1 key then Some kv.2 else o) o l = o.
Proof.
  induction l as [|[k j] l IH]; intros Hk o; [done|]. apply not_elem_of_cons in Hk as [Hne Hk]. simpl.
  rewrite (proj2 (String.eqb_neq k key)) by done. by apply IH.
Qed.

Lemma members_keys tags vs : (members tags vs).*1 ⊆ tags.*1.
Proof.
  unfold members. revert vs. induction tags as [|[k o] tags IH]; intros [|[j e] vs]; try (by intros ? ?%not_elem_of_nil).
  simpl. unfold member at 1. simpl. destruct (o && e); simpl; set_solver.
Qed.

Lemma lastOf_members tags vs : NoDup tags.*1 -> length tags = length vs ->
  (fun tag => lastOf tag.1 (members tags vs)) <$> tags =
    zip_with (fun (omit : bool) '(j, empty) => if omit && empty then None else Some j) tags.*2 vs.
Proof.
  revert vs. induction tags as [|[k o] tags IH]; intros [|[j e] vs] Hn Hl; try done.
  apply NoDup_cons in Hn as [Hk Hn]. injection Hl as Hl. cbn [fmap list_fmap zip_with fst snd].
  assert (k ∉ (members tags vs).*1) as Hk' by (intros Hin; apply Hk; by apply members_keys in Hin).
  f_equal.
  - unfold members, member. simpl. destruct (o && e); simpl; unfold lastOf; simpl; [by apply lastOf_none|].
    rewrite String.eqb_refl. by apply lastOf_none.
  - rewrite <- IH by done. apply list_fmap_ext. intros i [k' o'] Hi. unfold members at 1, member. simpl.
    assert (k <> k') as Hne.
    { intros ->. apply Hk. apply list_elem_of_fmap. exists (k', o'). split; [done|]. by eapply list_elem_of_lookup_2. }
    destruct (o && e); simpl; [done|]. unfold lastOf. simpl. by rewrite (proj2 (String.eqb_neq k k')).
Qed.

#[export] Instance struct_laws {A P} name fs (p : fields P) (to : A -> P) (from : P -> A) `{!FieldsLaws p, !Fits fs p to from} :
  CodecLaws (struct_codec name fs p to from).
Proof.
  destruct (_ : Fits fs p to from) as [Ht Hk Ha Hs]. split; [|intros x; simpl; by rewrite Hs, fs_enc_norm|done|done].
  intros x Hw. simpl.
  assert (length (tagsOf fs) = length (fs_enc p (to x))) as Hl by (by rewrite fs_length, Ht, length_fmap).
  assert (forallb (fun kv => bool_decide (kv.1 ∈ (tagsOf fs).*1)) (members (tagsOf fs) (fs_enc p (to x))) = true) as ->.
  { apply forallb_forall. intros kv Hin. apply bool_decide_eq_true, (members_keys _ (fs_enc p (to x))), list_elem_of_fmap.
    exists kv. split; [done|]. by apply list_elem_of_In. }
  rewrite lastOf_members by done. rewrite fs_dec_enc; [done|done|]. by rewrite length_fmap, Ht, length_fmap.
Qed.
#[export] Instance struct_not_null {A P} name fs (p : fields P) (to : A -> P) (from : P -> A) : NotNull (struct_codec name fs p to from).
Proof. done. Qed.

(** ** Values that come back unchanged *)

Class NormId {A} (c : codec A) : Prop := norm_id x : norm c x = x.
Class EmptyZero {A} (c : codec A) : Prop := empty_is_zero x : isEmpty c x = true -> x = zero c.
Class FieldsExact {P} (omits : list bool) (p : fields P) : Prop := fields_exact x : fs_norm p omits x = x.

#[export] Instance int_norm_id name lo hi : NormId (int_codec name lo hi).
Proof. done. Qed.
#[export] Instance int_empty name lo hi : EmptyZero (int_codec name lo hi).
Proof. intros x. apply Z.eqb_eq. Qed.
#[export] Instance bool_norm_id : NormId bool_codec.
Proof. done. Qed.
#[export] Instance bool_empty : EmptyZero bool_codec.
Proof. by intros []. Qed.
#[export] Instance string_norm_id : NormId string_codec.
Proof. done. Qed.
#[export] Instance string_empty : EmptyZero string_codec.
Proof. intros x. apply String.eqb_eq. Qed.
#[export] Instance status_norm_id : NormId status_codec.
Proof. done. Qed.
#[export] Instance time_norm_id `{!TimeText} z : NormId (time_codec z).
Proof. done. Qed.

Lemma fmap_norm_id {A} (c : codec A) `{!NormId c} (l : list A) : norm c <$> l = l.
Proof. rewrite <- (list_fmap_id l) at 2. apply list_fmap_ext. intros i x _. apply norm_id. Qed.

#[export] Instance ptr_norm_id {A} (c : codec A) `{!NormId c} : NormId (ptr_codec c).
Proof. intros [x|]; simpl; [by rewrite norm_id|done]. Qed.
#[export] Instance ptr_empty {A} (c : codec A) : EmptyZero (ptr_codec c).
Proof. by intros []. Qed.
#[export] Instance slice_norm_id {A} (c : codec A) `{!NormId c} : NormId (slice_codec c).
Proof. intros [x|]; simpl; [by rewrite fmap_norm_id|done]. Qed.
#[export] Instance list_norm_id {A} (c : codec A) `{!NormId c} : NormId (list_codec c).
Proof. intros l. simpl. by apply fmap_norm_id. Qed.
#[export] Instance list_empty {A} (c : codec A) : EmptyZero (list_codec c).
Proof. by intros []. Qed.
#[export] Instance map_norm_id {A} (c : codec A) `{!NormId c} : NormId (map_codec c).
Proof. intros m. simpl. rewrite <- (map_fmap_id m) at 2. apply map_fmap_ext. intros k x _. apply norm_id. Qed.
#[export] Instance map_empty {A} (c : codec A) : EmptyZero (map_codec c).
Proof. intros m. apply bool_decide_eq_true_1. Qed.
#[export] Instance struct_empty {A P} name fs (p : fields P) (to : A -> P) (from : P -> A) : EmptyZero (struct_codec name fs p to from).
Proof. done. Qed.

#[export] Instance no_fields_exact : FieldsExact [] no_fields.
Proof. by intros []. Qed.
#[export] Instance and_field_exact {A P} (c : codec A) (p : fields P) omits `{!NormId c, !FieldsExact omits p} :
  FieldsExact (false :: omits) (and_field c p).
Proof. intros [x r]. simpl. by rewrite norm_id, fields_exact. Qed.
#[export] Instance and_field_omit_exact {A P} (c : codec A) (p : fields P) omits `{!NormId c, !EmptyZero c, !FieldsExact omits p} :
  FieldsExact (true :: omits) (and_field c p).
Proof.
  intros [x r]. simpl. rewrite norm_id, fields_exact. destruct (isEmpty c x) eqn:E; [|done]. by rewrite <- (empty_is_zero x E).
Qed.

Lemma struct_norm_id {A P} name fs (p : fields P) (to : A -> P) (from : P -> A) omits :
  (tagsOf fs).*2 = omits -> FieldsExact omits p -> (forall x, from (to x) = x) -> NormId (struct_codec name fs p to from).
Proof. intros <- Hp Hs x. simpl. by rewrite fields_exact. Qed.
