(* ===== verification/Encoding.v ===== *)
(** * Encoding: the batch as JSON ([internal/metrics/types.go])

    The codec of every struct of the wire, built of its tags and of the codecs of
    its fields; that they are the struct's own, in their order, is [Fits].  The
    records of [Wire] are read as products of their fields. *)

From Stdlib Require Import ZArith Lia.
From stdpp Require Import prelude gmap strings numbers pretty sorting.
From S2P Require Import Prelude Wire Filter Strconv Schema Json Checks.

Declare Scope codec_scope.
Notation "c ::+ p" := (and_field c p) (at level 60, right associativity) : codec_scope.
Local Open Scope codec_scope.

Ltac fits := split; [reflexivity|by apply (bool_decide_unpack _); vm_compute|reflexivity|
  let x := fresh in intros x; repeat match goal with p : (_ * _)%type |- _ => destruct p end;
  repeat match goal with u : () |- _ => destruct u end; reflexivity].

Section codecs.
Context `{!TimeText}.

Definition instant_codec : codec Z := time_codec zeroTime.
#[export] Instance instant_laws `{!TimeTextLaws} : CodecLaws instant_codec.
Proof. apply time_laws. Qed.

Context `{!TimeTextLaws}.

Definition Broker_fields := int32_codec ::+ string_codec ::+ int32_codec ::+ ptr_codec string_codec ::+
    no_fields.
Definition Broker_tuple (x : Broker) := (b_ID x, (b_Host x, (b_Port x, (b_Rack x, tt)))).
Definition Broker_of x : Broker := let '(a1, (a2, (a3, (a4, tt)))) := x in mkBroker a1 a2 a3 a4.
Definition Broker_codec : codec Broker := struct_codec "metrics.Broker" fields_Broker Broker_fields Broker_tuple
    Broker_of.
#[export] Instance Broker_fits : Fits fields_Broker Broker_fields Broker_tuple Broker_of.
Proof. fits. Qed.
#[export] Instance Broker_laws : CodecLaws Broker_codec.
Proof. by apply struct_laws; unfold Broker_fields; apply _. Qed.
#[export] Instance Broker_not_null : NotNull Broker_codec.
Proof. done. Qed.

Definition BrokerCapability_fields := int32_codec ::+ string_codec ::+ map_codec int16_codec ::+ no_fields.
Definition BrokerCapability_tuple (x : BrokerCapability) := (bc_BrokerID x, (bc_SoftwareVersion x,
    (bc_APIMaxVersions x, tt))).
Definition BrokerCapability_of x : BrokerCapability := let '(a1, (a2, (a3, tt))) := x in mkBrokerCapability a1
    a2 a3.
Definition BrokerCapability_codec : codec BrokerCapability := struct_codec "metrics.BrokerCapability"
    fields_BrokerCapability BrokerCapability_fields BrokerCapability_tuple BrokerCapability_of.
#[export] Instance BrokerCapability_fits : Fits fields_BrokerCapability BrokerCapability_fields
    BrokerCapability_tuple BrokerCapability_of.
Proof. fits. Qed.
#[export] Instance BrokerCapability_laws : CodecLaws BrokerCapability_codec.
Proof. by apply struct_laws; unfold BrokerCapability_fields; apply _. Qed.
#[export] Instance BrokerCapability_not_null : NotNull BrokerCapability_codec.
Proof. done. Qed.

Definition ClusterCapabilities_fields := map_codec bool_codec ::+ list_codec string_codec ::+ bool_codec ::+
    list_codec BrokerCapability_codec ::+ no_fields.
Definition ClusterCapabilities_tuple (x : ClusterCapabilities) := (cc_Features x, (cc_SoftwareVersions x,
    (cc_MixedVersions x, (cc_Brokers x, tt)))).
Definition ClusterCapabilities_of x : ClusterCapabilities := let '(a1, (a2, (a3, (a4, tt)))) := x in
    mkClusterCapabilities a1 a2 a3 a4.
Definition ClusterCapabilities_codec : codec ClusterCapabilities := struct_codec "metrics.ClusterCapabilities"
    fields_ClusterCapabilities ClusterCapabilities_fields ClusterCapabilities_tuple ClusterCapabilities_of.
#[export] Instance ClusterCapabilities_fits : Fits fields_ClusterCapabilities ClusterCapabilities_fields
    ClusterCapabilities_tuple ClusterCapabilities_of.
Proof. fits. Qed.
#[export] Instance ClusterCapabilities_laws : CodecLaws ClusterCapabilities_codec.
Proof. by apply struct_laws; unfold ClusterCapabilities_fields; apply _. Qed.
#[export] Instance ClusterCapabilities_not_null : NotNull ClusterCapabilities_codec.
Proof. done. Qed.

Definition ClusterMetrics_fields := string_codec ::+ int_codec_ ::+ list_codec Broker_codec ::+ ptr_codec
    ClusterCapabilities_codec ::+ no_fields.
Definition ClusterMetrics_tuple (x : ClusterMetrics) := (cm_ID x, (cm_BrokerCount x, (cm_Brokers x,
    (cm_Capabilities x, tt)))).
Definition ClusterMetrics_of x : ClusterMetrics := let '(a1, (a2, (a3, (a4, tt)))) := x in mkClusterMetrics a1
    a2 a3 a4.
Definition ClusterMetrics_codec : codec ClusterMetrics := struct_codec "metrics.ClusterMetrics"
    fields_ClusterMetrics ClusterMetrics_fields ClusterMetrics_tuple ClusterMetrics_of.
#[export] Instance ClusterMetrics_fits : Fits fields_ClusterMetrics ClusterMetrics_fields ClusterMetrics_tuple
    ClusterMetrics_of.
Proof. fits. Qed.
#[export] Instance ClusterMetrics_laws : CodecLaws ClusterMetrics_codec.
Proof. by apply struct_laws; unfold ClusterMetrics_fields; apply _. Qed.
#[export] Instance ClusterMetrics_not_null : NotNull ClusterMetrics_codec.
Proof. done. Qed.

Definition MaxTimestampOffset_fields := ptr_codec int64_codec ::+ ptr_codec int64_codec ::+ int32_codec ::+
    int16_codec ::+ no_fields.
Definition MaxTimestampOffset_tuple (x : MaxTimestampOffset) := (mt_Offset x, (mt_TimestampMs x, (mt_LeaderEpoch
    x, (mt_ErrorCode x, tt)))).
Definition MaxTimestampOffset_of x : MaxTimestampOffset := let '(a1, (a2, (a3, (a4, tt)))) := x in
    mkMaxTimestampOffset a1 a2 a3 a4.
Definition MaxTimestampOffset_codec : codec MaxTimestampOffset := struct_codec "metrics.MaxTimestampOffset"
    fields_MaxTimestampOffset MaxTimestampOffset_fields MaxTimestampOffset_tuple MaxTimestampOffset_of.
#[export] Instance MaxTimestampOffset_fits : Fits fields_MaxTimestampOffset MaxTimestampOffset_fields
    MaxTimestampOffset_tuple MaxTimestampOffset_of.
Proof. fits. Qed.
#[export] Instance MaxTimestampOffset_laws : CodecLaws MaxTimestampOffset_codec.
Proof. by apply struct_laws; unfold MaxTimestampOffset_fields; apply _. Qed.
#[export] Instance MaxTimestampOffset_not_null : NotNull MaxTimestampOffset_codec.
Proof. done. Qed.

Definition TieredOffsets_fields := ptr_codec int64_codec ::+ ptr_codec int64_codec ::+ no_fields.
Definition TieredOffsets_tuple (x : TieredOffsets) := (to_LocalStartOffset x, (to_RemoteEndOffset x, tt)).
Definition TieredOffsets_of x : TieredOffsets := let '(a1, (a2, tt)) := x in mkTieredOffsets a1 a2.
Definition TieredOffsets_codec : codec TieredOffsets := struct_codec "metrics.TieredOffsets"
    fields_TieredOffsets TieredOffsets_fields TieredOffsets_tuple TieredOffsets_of.
#[export] Instance TieredOffsets_fits : Fits fields_TieredOffsets TieredOffsets_fields TieredOffsets_tuple
    TieredOffsets_of.
Proof. fits. Qed.
#[export] Instance TieredOffsets_laws : CodecLaws TieredOffsets_codec.
Proof. by apply struct_laws; unfold TieredOffsets_fields; apply _. Qed.
#[export] Instance TieredOffsets_not_null : NotNull TieredOffsets_codec.
Proof. done. Qed.

Definition WindowOffset_fields := ptr_codec int64_codec ::+ ptr_codec int64_codec ::+ int32_codec ::+
    int16_codec ::+ no_fields.
Definition WindowOffset_tuple (x : WindowOffset) := (wo_Offset x, (wo_TimestampMs x, (wo_LeaderEpoch x,
    (wo_ErrorCode x, tt)))).
Definition WindowOffset_of x : WindowOffset := let '(a1, (a2, (a3, (a4, tt)))) := x in mkWindowOffset a1 a2 a3
    a4.
Definition WindowOffset_codec : codec WindowOffset := struct_codec "metrics.WindowOffset" fields_WindowOffset
    WindowOffset_fields WindowOffset_tuple WindowOffset_of.
#[export] Instance WindowOffset_fits : Fits fields_WindowOffset WindowOffset_fields WindowOffset_tuple
    WindowOffset_of.
Proof. fits. Qed.
#[export] Instance WindowOffset_laws : CodecLaws WindowOffset_codec.
Proof. by apply struct_laws; unfold WindowOffset_fields; apply _. Qed.
#[export] Instance WindowOffset_not_null : NotNull WindowOffset_codec.
Proof. done. Qed.

Definition Partition_fields := int32_codec ::+ int32_codec ::+ int32_codec ::+ list_codec int32_codec ::+
    list_codec int32_codec ::+ list_codec int32_codec ::+ ptr_codec int64_codec ::+ ptr_codec int64_codec ::+
    ptr_codec int64_codec ::+ ptr_codec MaxTimestampOffset_codec ::+ ptr_codec TieredOffsets_codec ::+ ptr_codec
    WindowOffset_codec ::+ int16_codec ::+ no_fields.
Definition Partition_tuple (x : Partition) := (p_ID x, (p_Leader x, (p_LeaderEpoch x, (p_Replicas x, (p_ISR x,
    (p_OfflineReplicas x, (p_StartOffset x, (p_EndOffset x, (p_LastStableOffset x, (p_MaxTimestamp x, (p_Tiered
    x, (p_Window x, (p_ErrorCode x, tt))))))))))))).
Definition Partition_of x : Partition := let '(a1, (a2, (a3, (a4, (a5, (a6, (a7, (a8, (a9, (a10, (a11, (a12,
    (a13, tt))))))))))))) := x in mkPartition a1 a2 a3 a4 a5 a6 a7 a8 a9 a10 a11 a12 a13.
Definition Partition_codec : codec Partition := struct_codec "metrics.Partition" fields_Partition
    Partition_fields Partition_tuple Partition_of.
#[export] Instance Partition_fits : Fits fields_Partition Partition_fields Partition_tuple Partition_of.
Proof. fits. Qed.
#[export] Instance Partition_laws : CodecLaws Partition_codec.
Proof. by apply struct_laws; unfold Partition_fields; apply _. Qed.
#[export] Instance Partition_not_null : NotNull Partition_codec.
Proof. done. Qed.

Definition TopicMetrics_fields := string_codec ::+ string_codec ::+ bool_codec ::+ int_codec_ ::+ int_codec_ ::+
    list_codec Partition_codec ::+ int16_codec ::+ no_fields.
Definition TopicMetrics_tuple (x : TopicMetrics) := (tm_Name x, (tm_ID x, (tm_Internal x, (tm_PartitionCount x,
    (tm_ReplicationFactor x, (tm_Partitions x, (tm_ErrorCode x, tt))))))).
Definition TopicMetrics_of x : TopicMetrics := let '(a1, (a2, (a3, (a4, (a5, (a6, (a7, tt))))))) := x in
    mkTopicMetrics a1 a2 a3 a4 a5 a6 a7.
Definition TopicMetrics_codec : codec TopicMetrics := struct_codec "metrics.TopicMetrics" fields_TopicMetrics
    TopicMetrics_fields TopicMetrics_tuple TopicMetrics_of.
#[export] Instance TopicMetrics_fits : Fits fields_TopicMetrics TopicMetrics_fields TopicMetrics_tuple
    TopicMetrics_of.
Proof. fits. Qed.
#[export] Instance TopicMetrics_laws : CodecLaws TopicMetrics_codec.
Proof. by apply struct_laws; unfold TopicMetrics_fields; apply _. Qed.
#[export] Instance TopicMetrics_not_null : NotNull TopicMetrics_codec.
Proof. done. Qed.

Definition TopicPartition_fields := string_codec ::+ int32_codec ::+ no_fields.
Definition TopicPartition_tuple (x : TopicPartition) := (tp_Topic x, (tp_Partition x, tt)).
Definition TopicPartition_of x : TopicPartition := let '(a1, (a2, tt)) := x in mkTopicPartition a1 a2.
Definition TopicPartition_codec : codec TopicPartition := struct_codec "metrics.TopicPartition"
    fields_TopicPartition TopicPartition_fields TopicPartition_tuple TopicPartition_of.
#[export] Instance TopicPartition_fits : Fits fields_TopicPartition TopicPartition_fields TopicPartition_tuple
    TopicPartition_of.
Proof. fits. Qed.
#[export] Instance TopicPartition_laws : CodecLaws TopicPartition_codec.
Proof. by apply struct_laws; unfold TopicPartition_fields; apply _. Qed.
#[export] Instance TopicPartition_not_null : NotNull TopicPartition_codec.
Proof. done. Qed.

Definition GroupMember_fields := string_codec ::+ ptr_codec string_codec ::+ string_codec ::+ string_codec ::+
    ptr_codec string_codec ::+ slice_codec string_codec ::+ slice_codec TopicPartition_codec ::+ slice_codec
    TopicPartition_codec ::+ ptr_codec int32_codec ::+ slice_codec TopicPartition_codec ::+ ptr_codec
    string_codec ::+ no_fields.
Definition GroupMember_tuple (x : GroupMember) := (gm_MemberID x, (gm_InstanceID x, (gm_ClientID x, (gm_Host x,
    (gm_Rack x, (gm_SubscribedTopics x, (gm_Assignment x, (gm_Owned x, (gm_MemberEpoch x, (gm_TargetAssignment
    x, (gm_SubscribedTopicRegex x, tt))))))))))).
Definition GroupMember_of x : GroupMember := let '(a1, (a2, (a3, (a4, (a5, (a6, (a7, (a8, (a9, (a10, (a11,
    tt))))))))))) := x in mkGroupMember a1 a2 a3 a4 a5 a6 a7 a8 a9 a10 a11.
Definition GroupMember_codec : codec GroupMember := struct_codec "metrics.GroupMember" fields_GroupMember
    GroupMember_fields GroupMember_tuple GroupMember_of.
#[export] Instance GroupMember_fits : Fits fields_GroupMember GroupMember_fields GroupMember_tuple
    GroupMember_of.
Proof. fits. Qed.
#[export] Instance GroupMember_laws : CodecLaws GroupMember_codec.
Proof. by apply struct_laws; unfold GroupMember_fields; apply _. Qed.
#[export] Instance GroupMember_not_null : NotNull GroupMember_codec.
Proof. done. Qed.

Definition GroupMetrics_fields := string_codec ::+ string_codec ::+ int32_codec ::+ int32_codec ::+ string_codec
    ::+ string_codec ::+ string_codec ::+ int_codec_ ::+ list_codec GroupMember_codec ::+ int16_codec ::+
    ptr_codec int32_codec ::+ ptr_codec int32_codec ::+ string_codec ::+ no_fields.
Definition GroupMetrics_tuple (x : GroupMetrics) := (g_ID x, (g_State x, (g_Coordinator x, (g_Generation x,
    (g_Protocol x, (g_ProtocolType x, (g_GroupType x, (g_MemberCount x, (g_Members x, (g_ErrorCode x,
    (g_GroupEpoch x, (g_AssignmentEpoch x, (g_Assignor x, tt))))))))))))).
Definition GroupMetrics_of x : GroupMetrics := let '(a1, (a2, (a3, (a4, (a5, (a6, (a7, (a8, (a9, (a10, (a11,
    (a12, (a13, tt))))))))))))) := x in mkGroupMetrics a1 a2 a3 a4 a5 a6 a7 a8 a9 a10 a11 a12 a13.
Definition GroupMetrics_codec : codec GroupMetrics := struct_codec "metrics.GroupMetrics" fields_GroupMetrics
    GroupMetrics_fields GroupMetrics_tuple GroupMetrics_of.
#[export] Instance GroupMetrics_fits : Fits fields_GroupMetrics GroupMetrics_fields GroupMetrics_tuple
    GroupMetrics_of.
Proof. fits. Qed.
#[export] Instance GroupMetrics_laws : CodecLaws GroupMetrics_codec.
Proof. by apply struct_laws; unfold GroupMetrics_fields; apply _. Qed.
#[export] Instance GroupMetrics_not_null : NotNull GroupMetrics_codec.
Proof. done. Qed.

Definition PartitionOffset_fields := string_codec ::+ int32_codec ::+ ptr_codec int64_codec ::+ int32_codec ::+
    string_codec ::+ int16_codec ::+ no_fields.
Definition PartitionOffset_tuple (x : PartitionOffset) := (po_Topic x, (po_Partition x, (po_Offset x,
    (po_LeaderEpoch x, (po_Metadata x, (po_ErrorCode x, tt)))))).
Definition PartitionOffset_of x : PartitionOffset := let '(a1, (a2, (a3, (a4, (a5, (a6, tt)))))) := x in
    mkPartitionOffset a1 a2 a3 a4 a5 a6.
Definition PartitionOffset_codec : codec PartitionOffset := struct_codec "metrics.PartitionOffset"
    fields_PartitionOffset PartitionOffset_fields PartitionOffset_tuple PartitionOffset_of.
#[export] Instance PartitionOffset_fits : Fits fields_PartitionOffset PartitionOffset_fields
    PartitionOffset_tuple PartitionOffset_of.
Proof. fits. Qed.
#[export] Instance PartitionOffset_laws : CodecLaws PartitionOffset_codec.
Proof. by apply struct_laws; unfold PartitionOffset_fields; apply _. Qed.
#[export] Instance PartitionOffset_not_null : NotNull PartitionOffset_codec.
Proof. done. Qed.

Definition ConsumerOffset_fields := string_codec ::+ int16_codec ::+ slice_codec PartitionOffset_codec ::+
    int_codec_ ::+ no_fields.
Definition ConsumerOffset_tuple (x : ConsumerOffset) := (co_GroupID x, (co_ErrorCode x, (co_Offsets x,
    (co_OffsetCount x, tt)))).
Definition ConsumerOffset_of x : ConsumerOffset := let '(a1, (a2, (a3, (a4, tt)))) := x in mkConsumerOffset a1
    a2 a3 a4.
Definition ConsumerOffset_codec : codec ConsumerOffset := struct_codec "metrics.ConsumerOffset"
    fields_ConsumerOffset ConsumerOffset_fields ConsumerOffset_tuple ConsumerOffset_of.
#[export] Instance ConsumerOffset_fits : Fits fields_ConsumerOffset ConsumerOffset_fields ConsumerOffset_tuple
    ConsumerOffset_of.
Proof. fits. Qed.
#[export] Instance ConsumerOffset_laws : CodecLaws ConsumerOffset_codec.
Proof. by apply struct_laws; unfold ConsumerOffset_fields; apply _. Qed.
#[export] Instance ConsumerOffset_not_null : NotNull ConsumerOffset_codec.
Proof. done. Qed.

Definition LogDirPartition_fields := string_codec ::+ int32_codec ::+ int64_codec ::+ int64_codec ::+ bool_codec
    ::+ no_fields.
Definition LogDirPartition_tuple (x : LogDirPartition) := (lp_Topic x, (lp_Partition x, (lp_Size x,
    (lp_OffsetLag x, (lp_IsFuture x, tt))))).
Definition LogDirPartition_of x : LogDirPartition := let '(a1, (a2, (a3, (a4, (a5, tt))))) := x in
    mkLogDirPartition a1 a2 a3 a4 a5.
Definition LogDirPartition_codec : codec LogDirPartition := struct_codec "metrics.LogDirPartition"
    fields_LogDirPartition LogDirPartition_fields LogDirPartition_tuple LogDirPartition_of.
#[export] Instance LogDirPartition_fits : Fits fields_LogDirPartition LogDirPartition_fields
    LogDirPartition_tuple LogDirPartition_of.
Proof. fits. Qed.
#[export] Instance LogDirPartition_laws : CodecLaws LogDirPartition_codec.
Proof. by apply struct_laws; unfold LogDirPartition_fields; apply _. Qed.
#[export] Instance LogDirPartition_not_null : NotNull LogDirPartition_codec.
Proof. done. Qed.

Definition LogDir_fields := int32_codec ::+ string_codec ::+ ptr_codec int64_codec ::+ ptr_codec int64_codec ::+
    int16_codec ::+ slice_codec LogDirPartition_codec ::+ no_fields.
Definition LogDir_tuple (x : LogDir) := (ld_Broker x, (ld_Dir x, (ld_TotalBytes x, (ld_UsableBytes x,
    (ld_ErrorCode x, (ld_Partitions x, tt)))))).
Definition LogDir_of x : LogDir := let '(a1, (a2, (a3, (a4, (a5, (a6, tt)))))) := x in mkLogDir a1 a2 a3 a4 a5
    a6.
Definition LogDir_codec : codec LogDir := struct_codec "metrics.LogDir" fields_LogDir LogDir_fields LogDir_tuple
    LogDir_of.
#[export] Instance LogDir_fits : Fits fields_LogDir LogDir_fields LogDir_tuple LogDir_of.
Proof. fits. Qed.
#[export] Instance LogDir_laws : CodecLaws LogDir_codec.
Proof. by apply struct_laws; unfold LogDir_fields; apply _. Qed.
#[export] Instance LogDir_not_null : NotNull LogDir_codec.
Proof. done. Qed.

Definition ThroughputWindow_fields := int64_codec ::+ int64_codec ::+ no_fields.
Definition ThroughputWindow_tuple (x : ThroughputWindow) := (tw_RequestedMs x, (tw_WidthMs x, tt)).
Definition ThroughputWindow_of x : ThroughputWindow := let '(a1, (a2, tt)) := x in mkThroughputWindow a1 a2.
Definition ThroughputWindow_codec : codec ThroughputWindow := struct_codec "metrics.ThroughputWindow"
    fields_ThroughputWindow ThroughputWindow_fields ThroughputWindow_tuple ThroughputWindow_of.
#[export] Instance ThroughputWindow_fits : Fits fields_ThroughputWindow ThroughputWindow_fields
    ThroughputWindow_tuple ThroughputWindow_of.
Proof. fits. Qed.
#[export] Instance ThroughputWindow_laws : CodecLaws ThroughputWindow_codec.
Proof. by apply struct_laws; unfold ThroughputWindow_fields; apply _. Qed.
#[export] Instance ThroughputWindow_not_null : NotNull ThroughputWindow_codec.
Proof. done. Qed.

Definition Reassignment_fields := string_codec ::+ int32_codec ::+ slice_codec int32_codec ::+ slice_codec
    int32_codec ::+ slice_codec int32_codec ::+ no_fields.
Definition Reassignment_tuple (x : Reassignment) := (re_Topic x, (re_Partition x, (re_Replicas x,
    (re_AddingReplicas x, (re_RemovingReplicas x, tt))))).
Definition Reassignment_of x : Reassignment := let '(a1, (a2, (a3, (a4, (a5, tt))))) := x in mkReassignment a1
    a2 a3 a4 a5.
Definition Reassignment_codec : codec Reassignment := struct_codec "metrics.Reassignment" fields_Reassignment
    Reassignment_fields Reassignment_tuple Reassignment_of.
#[export] Instance Reassignment_fits : Fits fields_Reassignment Reassignment_fields Reassignment_tuple
    Reassignment_of.
Proof. fits. Qed.
#[export] Instance Reassignment_laws : CodecLaws Reassignment_codec.
Proof. by apply struct_laws; unfold Reassignment_fields; apply _. Qed.
#[export] Instance Reassignment_not_null : NotNull Reassignment_codec.
Proof. done. Qed.

Definition EpochProbe_fields := string_codec ::+ string_codec ::+ int32_codec ::+ string_codec ::+ ptr_codec
    int64_codec ::+ int32_codec ::+ int32_codec ::+ ptr_codec int32_codec ::+ ptr_codec int64_codec ::+
    ptr_codec int32_codec ::+ int16_codec ::+ no_fields.
Definition EpochProbe_tuple (x : EpochProbe) := (ep_Topic x, (ep_TopicID x, (ep_Partition x, (ep_GroupID x,
    (ep_CommittedOffset x, (ep_CommittedEpoch x, (ep_CurrentLeaderEpoch x, (ep_ReturnedEpoch x, (ep_EndOffset x,
    (ep_NodeID x, (ep_ErrorCode x, tt))))))))))).
Definition EpochProbe_of x : EpochProbe := let '(a1, (a2, (a3, (a4, (a5, (a6, (a7, (a8, (a9, (a10, (a11,
    tt))))))))))) := x in mkEpochProbe a1 a2 a3 a4 a5 a6 a7 a8 a9 a10 a11.
Definition EpochProbe_codec : codec EpochProbe := struct_codec "metrics.EpochProbe" fields_EpochProbe
    EpochProbe_fields EpochProbe_tuple EpochProbe_of.
#[export] Instance EpochProbe_fits : Fits fields_EpochProbe EpochProbe_fields EpochProbe_tuple EpochProbe_of.
Proof. fits. Qed.
#[export] Instance EpochProbe_laws : CodecLaws EpochProbe_codec.
Proof. by apply struct_laws; unfold EpochProbe_fields; apply _. Qed.
#[export] Instance EpochProbe_not_null : NotNull EpochProbe_codec.
Proof. done. Qed.

Definition ConfigEntry_fields := string_codec ::+ ptr_codec string_codec ::+ bool_codec ::+ string_codec ::+
    no_fields.
Definition ConfigEntry_tuple (x : ConfigEntry) := (cf_Key x, (cf_Value x, (cf_Sensitive x, (cf_Source x, tt)))).
Definition ConfigEntry_of x : ConfigEntry := let '(a1, (a2, (a3, (a4, tt)))) := x in mkConfigEntry a1 a2 a3 a4.
Definition ConfigEntry_codec : codec ConfigEntry := struct_codec "metrics.ConfigEntry" fields_ConfigEntry
    ConfigEntry_fields ConfigEntry_tuple ConfigEntry_of.
#[export] Instance ConfigEntry_fits : Fits fields_ConfigEntry ConfigEntry_fields ConfigEntry_tuple
    ConfigEntry_of.
Proof. fits. Qed.
#[export] Instance ConfigEntry_laws : CodecLaws ConfigEntry_codec.
Proof. by apply struct_laws; unfold ConfigEntry_fields; apply _. Qed.
#[export] Instance ConfigEntry_not_null : NotNull ConfigEntry_codec.
Proof. done. Qed.

Definition TopicConfig_fields := string_codec ::+ int16_codec ::+ slice_codec ConfigEntry_codec ::+ no_fields.
Definition TopicConfig_tuple (x : TopicConfig) := (tc_Topic x, (tc_ErrorCode x, (tc_Configs x, tt))).
Definition TopicConfig_of x : TopicConfig := let '(a1, (a2, (a3, tt))) := x in mkTopicConfig a1 a2 a3.
Definition TopicConfig_codec : codec TopicConfig := struct_codec "metrics.TopicConfig" fields_TopicConfig
    TopicConfig_fields TopicConfig_tuple TopicConfig_of.
#[export] Instance TopicConfig_fits : Fits fields_TopicConfig TopicConfig_fields TopicConfig_tuple
    TopicConfig_of.
Proof. fits. Qed.
#[export] Instance TopicConfig_laws : CodecLaws TopicConfig_codec.
Proof. by apply struct_laws; unfold TopicConfig_fields; apply _. Qed.
#[export] Instance TopicConfig_not_null : NotNull TopicConfig_codec.
Proof. done. Qed.

Definition BrokerConfig_fields := int32_codec ::+ int16_codec ::+ slice_codec ConfigEntry_codec ::+ no_fields.
Definition BrokerConfig_tuple (x : BrokerConfig) := (bcf_Broker x, (bcf_ErrorCode x, (bcf_Configs x, tt))).
Definition BrokerConfig_of x : BrokerConfig := let '(a1, (a2, (a3, tt))) := x in mkBrokerConfig a1 a2 a3.
Definition BrokerConfig_codec : codec BrokerConfig := struct_codec "metrics.BrokerConfig" fields_BrokerConfig
    BrokerConfig_fields BrokerConfig_tuple BrokerConfig_of.
#[export] Instance BrokerConfig_fits : Fits fields_BrokerConfig BrokerConfig_fields BrokerConfig_tuple
    BrokerConfig_of.
Proof. fits. Qed.
#[export] Instance BrokerConfig_laws : CodecLaws BrokerConfig_codec.
Proof. by apply struct_laws; unfold BrokerConfig_fields; apply _. Qed.
#[export] Instance BrokerConfig_not_null : NotNull BrokerConfig_codec.
Proof. done. Qed.

Definition ShareGroupMember_fields := string_codec ::+ string_codec ::+ string_codec ::+ ptr_codec string_codec
    ::+ int32_codec ::+ slice_codec string_codec ::+ slice_codec TopicPartition_codec ::+ no_fields.
Definition ShareGroupMember_tuple (x : ShareGroupMember) := (sm_MemberID x, (sm_ClientID x, (sm_Host x, (sm_Rack
    x, (sm_MemberEpoch x, (sm_SubscribedTopics x, (sm_Assignment x, tt))))))).
Definition ShareGroupMember_of x : ShareGroupMember := let '(a1, (a2, (a3, (a4, (a5, (a6, (a7, tt))))))) := x in
    mkShareGroupMember a1 a2 a3 a4 a5 a6 a7.
Definition ShareGroupMember_codec : codec ShareGroupMember := struct_codec "metrics.ShareGroupMember"
    fields_ShareGroupMember ShareGroupMember_fields ShareGroupMember_tuple ShareGroupMember_of.
#[export] Instance ShareGroupMember_fits : Fits fields_ShareGroupMember ShareGroupMember_fields
    ShareGroupMember_tuple ShareGroupMember_of.
Proof. fits. Qed.
#[export] Instance ShareGroupMember_laws : CodecLaws ShareGroupMember_codec.
Proof. by apply struct_laws; unfold ShareGroupMember_fields; apply _. Qed.
#[export] Instance ShareGroupMember_not_null : NotNull ShareGroupMember_codec.
Proof. done. Qed.

Definition ShareGroupOffset_fields := string_codec ::+ int32_codec ::+ ptr_codec int64_codec ::+ int32_codec ::+
    int16_codec ::+ no_fields.
Definition ShareGroupOffset_tuple (x : ShareGroupOffset) := (so_Topic x, (so_Partition x, (so_StartOffset x,
    (so_LeaderEpoch x, (so_ErrorCode x, tt))))).
Definition ShareGroupOffset_of x : ShareGroupOffset := let '(a1, (a2, (a3, (a4, (a5, tt))))) := x in
    mkShareGroupOffset a1 a2 a3 a4 a5.
Definition ShareGroupOffset_codec : codec ShareGroupOffset := struct_codec "metrics.ShareGroupOffset"
    fields_ShareGroupOffset ShareGroupOffset_fields ShareGroupOffset_tuple ShareGroupOffset_of.
#[export] Instance ShareGroupOffset_fits : Fits fields_ShareGroupOffset ShareGroupOffset_fields
    ShareGroupOffset_tuple ShareGroupOffset_of.
Proof. fits. Qed.
#[export] Instance ShareGroupOffset_laws : CodecLaws ShareGroupOffset_codec.
Proof. by apply struct_laws; unfold ShareGroupOffset_fields; apply _. Qed.
#[export] Instance ShareGroupOffset_not_null : NotNull ShareGroupOffset_codec.
Proof. done. Qed.

Definition ShareGroup_fields := string_codec ::+ string_codec ::+ int32_codec ::+ int32_codec ::+ int32_codec
    ::+ string_codec ::+ int16_codec ::+ int_codec_ ::+ list_codec ShareGroupMember_codec ::+ slice_codec
    ShareGroupOffset_codec ::+ no_fields.
Definition ShareGroup_tuple (x : ShareGroup) := (sg_ID x, (sg_State x, (sg_Coordinator x, (sg_GroupEpoch x,
    (sg_AssignmentEpoch x, (sg_Assignor x, (sg_ErrorCode x, (sg_MemberCount x, (sg_Members x, (sg_StartOffsets
    x, tt)))))))))).
Definition ShareGroup_of x : ShareGroup := let '(a1, (a2, (a3, (a4, (a5, (a6, (a7, (a8, (a9, (a10, tt))))))))))
    := x in mkShareGroup a1 a2 a3 a4 a5 a6 a7 a8 a9 a10.
Definition ShareGroup_codec : codec ShareGroup := struct_codec "metrics.ShareGroup" fields_ShareGroup
    ShareGroup_fields ShareGroup_tuple ShareGroup_of.
#[export] Instance ShareGroup_fits : Fits fields_ShareGroup ShareGroup_fields ShareGroup_tuple ShareGroup_of.
Proof. fits. Qed.
#[export] Instance ShareGroup_laws : CodecLaws ShareGroup_codec.
Proof. by apply struct_laws; unfold ShareGroup_fields; apply _. Qed.
#[export] Instance ShareGroup_not_null : NotNull ShareGroup_codec.
Proof. done. Qed.

Definition LatencyHistogram_fields := int64_codec ::+ int64_codec ::+ ptr_codec int64_codec ::+ slice_codec
    int64_codec ::+ slice_codec int64_codec ::+ no_fields.
Definition LatencyHistogram_tuple (x : LatencyHistogram) := (lh_Count x, (lh_SumUs x, (lh_MaxUs x, (lh_BoundsUs
    x, (lh_Counts x, tt))))).
Definition LatencyHistogram_of x : LatencyHistogram := let '(a1, (a2, (a3, (a4, (a5, tt))))) := x in mkHistogram
    a1 a2 a3 a4 a5.
Definition LatencyHistogram_codec : codec LatencyHistogram := struct_codec "metrics.LatencyHistogram"
    fields_LatencyHistogram LatencyHistogram_fields LatencyHistogram_tuple LatencyHistogram_of.
#[export] Instance LatencyHistogram_fits : Fits fields_LatencyHistogram LatencyHistogram_fields
    LatencyHistogram_tuple LatencyHistogram_of.
Proof. fits. Qed.
#[export] Instance LatencyHistogram_laws : CodecLaws LatencyHistogram_codec.
Proof. by apply struct_laws; unfold LatencyHistogram_fields; apply _. Qed.
#[export] Instance LatencyHistogram_not_null : NotNull LatencyHistogram_codec.
Proof. done. Qed.

Definition BrokerAPIRPC_fields := string_codec ::+ LatencyHistogram_codec ::+ LatencyHistogram_codec ::+
    uint64_codec ::+ int64_codec ::+ int64_codec ::+ no_fields.
Definition BrokerAPIRPC_tuple (x : BrokerAPIRPC) := (ba_API x, (ba_E2E x, (ba_WriteWait x, (ba_Errors x,
    (ba_BytesWritten x, (ba_BytesRead x, tt)))))).
Definition BrokerAPIRPC_of x : BrokerAPIRPC := let '(a1, (a2, (a3, (a4, (a5, (a6, tt)))))) := x in
    mkBrokerAPIRPC a1 a2 a3 a4 a5 a6.
Definition BrokerAPIRPC_codec : codec BrokerAPIRPC := struct_codec "metrics.BrokerAPIRPC" fields_BrokerAPIRPC
    BrokerAPIRPC_fields BrokerAPIRPC_tuple BrokerAPIRPC_of.
#[export] Instance BrokerAPIRPC_fits : Fits fields_BrokerAPIRPC BrokerAPIRPC_fields BrokerAPIRPC_tuple
    BrokerAPIRPC_of.
Proof. fits. Qed.
#[export] Instance BrokerAPIRPC_laws : CodecLaws BrokerAPIRPC_codec.
Proof. by apply struct_laws; unfold BrokerAPIRPC_fields; apply _. Qed.
#[export] Instance BrokerAPIRPC_not_null : NotNull BrokerAPIRPC_codec.
Proof. done. Qed.

Definition BrokerRPC_fields := int32_codec ::+ list_codec BrokerAPIRPC_codec ::+ uint64_codec ::+ uint64_codec
    ::+ LatencyHistogram_codec ::+ uint64_codec ::+ string_codec ::+ uint64_codec ::+ int64_codec ::+ no_fields.
Definition BrokerRPC_tuple (x : BrokerRPC) := (br_BrokerID x, (br_Requests x, (br_ConnectAttempts x,
    (br_ConnectFailures x, (br_ConnectLatency x, (br_Disconnects x, (br_LastConnectError x, (br_ThrottleEvents
    x, (br_ThrottledMs x, tt))))))))).
Definition BrokerRPC_of x : BrokerRPC := let '(a1, (a2, (a3, (a4, (a5, (a6, (a7, (a8, (a9, tt))))))))) := x in
    mkBrokerRPC a1 a2 a3 a4 a5 a6 a7 a8 a9.
Definition BrokerRPC_codec : codec BrokerRPC := struct_codec "metrics.BrokerRPC" fields_BrokerRPC
    BrokerRPC_fields BrokerRPC_tuple BrokerRPC_of.
#[export] Instance BrokerRPC_fits : Fits fields_BrokerRPC BrokerRPC_fields BrokerRPC_tuple BrokerRPC_of.
Proof. fits. Qed.
#[export] Instance BrokerRPC_laws : CodecLaws BrokerRPC_codec.
Proof. by apply struct_laws; unfold BrokerRPC_fields; apply _. Qed.
#[export] Instance BrokerRPC_not_null : NotNull BrokerRPC_codec.
Proof. done. Qed.

Definition RPCStats_fields := int64_codec ::+ list_codec BrokerRPC_codec ::+ no_fields.
Definition RPCStats_tuple (x : RPCStats) := (rs_WindowMs x, (rs_Brokers x, tt)).
Definition RPCStats_of x : RPCStats := let '(a1, (a2, tt)) := x in mkRPCStats a1 a2.
Definition RPCStats_codec : codec RPCStats := struct_codec "metrics.RPCStats" fields_RPCStats RPCStats_fields
    RPCStats_tuple RPCStats_of.
#[export] Instance RPCStats_fits : Fits fields_RPCStats RPCStats_fields RPCStats_tuple RPCStats_of.
Proof. fits. Qed.
#[export] Instance RPCStats_laws : CodecLaws RPCStats_codec.
Proof. by apply struct_laws; unfold RPCStats_fields; apply _. Qed.
#[export] Instance RPCStats_not_null : NotNull RPCStats_codec.
Proof. done. Qed.

Definition AgentStats_fields := int64_codec ::+ uint64_codec ::+ uint64_codec ::+ uint64_codec ::+ uint64_codec
    ::+ uint64_codec ::+ int_codec_ ::+ string_codec ::+ ptr_codec RPCStats_codec ::+ no_fields.
Definition AgentStats_tuple (x : AgentStats) := (as_UptimeSec x, (as_BatchesCollected x, (as_BatchesExported x,
    (as_BatchesDropped x, (as_BatchesRejected x, (as_ExportRetries x, (as_QueueDepth x, (as_LastExportError x,
    (as_RPC x, tt))))))))).
Definition AgentStats_of x : AgentStats := let '(a1, (a2, (a3, (a4, (a5, (a6, (a7, (a8, (a9, tt))))))))) := x in
    mkAgentStats a1 a2 a3 a4 a5 a6 a7 a8 a9.
Definition AgentStats_codec : codec AgentStats := struct_codec "metrics.AgentStats" fields_AgentStats
    AgentStats_fields AgentStats_tuple AgentStats_of.
#[export] Instance AgentStats_fits : Fits fields_AgentStats AgentStats_fields AgentStats_tuple AgentStats_of.
Proof. fits. Qed.
#[export] Instance AgentStats_laws : CodecLaws AgentStats_codec.
Proof. by apply struct_laws; unfold AgentStats_fields; apply _. Qed.
#[export] Instance AgentStats_not_null : NotNull AgentStats_codec.
Proof. done. Qed.

Definition Section_fields := string_codec ::+ status_codec ::+ instant_codec ::+ int64_codec ::+ int_codec_ ::+
    int_codec_ ::+ int_codec_ ::+ bool_codec ::+ no_fields.
Definition Section_tuple (x : SectionRow) := (sr_Name x, (sr_Status x, (sr_SampledAt x, (sr_DurationMs x,
    (sr_ErrorCount x, (sr_ErrorsCollapsed x, (sr_ErrorsDropped x, (sr_Truncated x, tt)))))))).
Definition Section_of x : SectionRow := let '(a1, (a2, (a3, (a4, (a5, (a6, (a7, (a8, tt)))))))) := x in
    mkSectionRow a1 a2 a3 a4 a5 a6 a7 a8.
Definition Section_codec : codec SectionRow := struct_codec "metrics.Section" fields_Section Section_fields
    Section_tuple Section_of.
#[export] Instance Section_fits : Fits fields_Section Section_fields Section_tuple Section_of.
Proof. fits. Qed.
#[export] Instance Section_laws : CodecLaws Section_codec.
Proof. by apply struct_laws; unfold Section_fields; apply _. Qed.
#[export] Instance Section_not_null : NotNull Section_codec.
Proof. done. Qed.

Definition CollectionError_fields := string_codec ::+ string_codec ::+ ptr_codec int32_codec ::+ string_codec
    ::+ ptr_codec int32_codec ::+ string_codec ::+ string_codec ::+ int16_codec ::+ string_codec ::+
    string_codec ::+ int_codec_ ::+ no_fields.
Definition CollectionError_tuple (x : CollectionError) := (ce_Section x, (ce_API x, (ce_BrokerID x, (ce_Topic x,
    (ce_Partition x, (ce_Dir x, (ce_Group x, (ce_Code x, (ce_Kind x, (ce_Message x, (ce_Count x, tt))))))))))).
Definition CollectionError_of x : CollectionError := let '(a1, (a2, (a3, (a4, (a5, (a6, (a7, (a8, (a9, (a10,
    (a11, tt))))))))))) := x in mkCollectionError a1 a2 a3 a4 a5 a6 a7 a8 a9 a10 a11.
Definition CollectionError_codec : codec CollectionError := struct_codec "metrics.CollectionError"
    fields_CollectionError CollectionError_fields CollectionError_tuple CollectionError_of.
#[export] Instance CollectionError_fits : Fits fields_CollectionError CollectionError_fields
    CollectionError_tuple CollectionError_of.
Proof. fits. Qed.
#[export] Instance CollectionError_laws : CodecLaws CollectionError_codec.
Proof. by apply struct_laws; unfold CollectionError_fields; apply _. Qed.
#[export] Instance CollectionError_not_null : NotNull CollectionError_codec.
Proof. done. Qed.

Definition Truncation_fields := int_codec_ ::+ int_codec_ ::+ no_fields.
Definition Truncation_tuple (x : Truncation) := (tr_ErrorsCollapsed x, (tr_ErrorsDropped x, tt)).
Definition Truncation_of x : Truncation := let '(a1, (a2, tt)) := x in mkTruncation a1 a2.
Definition Truncation_codec : codec Truncation := struct_codec "metrics.Truncation" fields_Truncation
    Truncation_fields Truncation_tuple Truncation_of.
#[export] Instance Truncation_fits : Fits fields_Truncation Truncation_fields Truncation_tuple Truncation_of.
Proof. fits. Qed.
#[export] Instance Truncation_laws : CodecLaws Truncation_codec.
Proof. by apply struct_laws; unfold Truncation_fields; apply _. Qed.
#[export] Instance Truncation_not_null : NotNull Truncation_codec.
Proof. done. Qed.

Definition Selection_fields := list_codec string_codec ::+ list_codec string_codec ::+ list_codec string_codec
    ::+ list_codec string_codec ::+ list_codec string_codec ::+ bool_codec ::+ no_fields.
Definition Selection_tuple (x : Selection) := (sel_TopicInclude x, (sel_TopicExclude x, (sel_GroupInclude x,
    (sel_GroupExclude x, (sel_GroupStates x, (sel_IncludeInternalTopics x, tt)))))).
Definition Selection_of x : Selection := let '(a1, (a2, (a3, (a4, (a5, (a6, tt)))))) := x in mkSelection a1 a2
    a3 a4 a5 a6.
Definition Selection_codec : codec Selection := struct_codec "metrics.Selection" fields_Selection
    Selection_fields Selection_tuple Selection_of.
#[export] Instance Selection_fits : Fits fields_Selection Selection_fields Selection_tuple Selection_of.
Proof. fits. Qed.
#[export] Instance Selection_laws : CodecLaws Selection_codec.
Proof. by apply struct_laws; unfold Selection_fields; apply _. Qed.
#[export] Instance Selection_not_null : NotNull Selection_codec.
Proof. done. Qed.

Definition Batch_fields := int_codec_ ::+ string_codec ::+ string_codec ::+ uint64_codec ::+ instant_codec ::+
    int64_codec ::+ ptr_codec ClusterMetrics_codec ::+ slice_codec TopicMetrics_codec ::+ slice_codec
    GroupMetrics_codec ::+ slice_codec ConsumerOffset_codec ::+ slice_codec LogDir_codec ::+ ptr_codec
    ThroughputWindow_codec ::+ slice_codec Reassignment_codec ::+ slice_codec EpochProbe_codec ::+ slice_codec
    TopicConfig_codec ::+ slice_codec BrokerConfig_codec ::+ slice_codec ShareGroup_codec ::+ string_codec ::+
    AgentStats_codec ::+ list_codec Section_codec ::+ list_codec CollectionError_codec ::+ ptr_codec
    Truncation_codec ::+ ptr_codec Selection_codec ::+ no_fields.
Definition Batch_tuple (x : Batch) := (b_SchemaVersion x, (b_AgentVersion x, (b_AgentInstanceID x, (b_BatchSeq
    x, (b_CollectedAt x, (b_CollectionMs x, (b_Cluster x, (b_Topics x, (b_Groups x, (b_Offsets x, (b_LogDirs x,
    (b_ThroughputWindow x, (b_Reassignments x, (b_EpochProbes x, (b_TopicConfigs x, (b_BrokerConfigs x,
    (b_ShareGroups x, (b_Principal x, (b_Agent x, (b_Sections x, (b_Errors x, (b_Truncation x, (b_Selection x,
    tt))))))))))))))))))))))).
Definition Batch_of x : Batch := let '(a1, (a2, (a3, (a4, (a5, (a6, (a7, (a8, (a9, (a10, (a11, (a12, (a13, (a14,
    (a15, (a16, (a17, (a18, (a19, (a20, (a21, (a22, (a23, tt))))))))))))))))))))))) := x in mkBatch a1 a2 a3 a4
    a5 a6 a7 a8 a9 a10 a11 a12 a13 a14 a15 a16 a17 a18 a19 a20 a21 a22 a23.
Definition Batch_codec : codec Batch := struct_codec "metrics.Batch" fields_Batch Batch_fields Batch_tuple
    Batch_of.
#[export] Instance Batch_fits : Fits fields_Batch Batch_fields Batch_tuple Batch_of.
Proof. fits. Qed.
#[export] Instance Batch_laws : CodecLaws Batch_codec.
Proof. by apply struct_laws; unfold Batch_fields; apply _. Qed.
#[export] Instance Batch_not_null : NotNull Batch_codec.
Proof. done. Qed.

End codecs.
