(* ===== verification/JsonText.v ===== *)
(** * JsonText: the text of a JSON value

    What [encoding/json] writes: no space, the keys as they come, and strings with
    the escapes of [json.Marshal], those of HTML included.  A byte that is not ASCII
    is written as it is but for the two line separators, which is what is done to a
    text that is valid UTF-8.  The reader accepts white space between the tokens and
    every escape but a surrogate's; its numbers are whole. *)

From Stdlib Require Import ZArith Lia Ascii.
From stdpp Require Import prelude gmap strings numbers pretty.
From S2P Require Import Prelude Wire Filter Strconv Schema Json.

(** ** Characters *)

Definition chr (n : Z) : ascii := ascii_of_nat (Z.to_nat n).
Definition quote : ascii := chr 34.
Definition backslash : ascii := chr 92.

Definition hexChar (d : Z) : ascii := if d <? 10 then chr (48 + d) else chr (87 + d).

Definition hexValue (c : ascii) : option Z :=
  let n := byte_of c in
  if (48 <=? n) && (n <=? 57) then Some (n - 48)
  else if (97 <=? n) && (n <=? 102) then Some (n - 87)
  else if (65 <=? n) && (n <=? 70) then Some (n - 55)
  else None.

(** [\u] and four digits. *)
Definition unicodeEscape (n : Z) : string :=
  String backslash (String "u" (String (hexChar (Z.land (Z.shiftr n 12) 15)) (String (hexChar (Z.land (Z.shiftr n 8) 15))
    (String (hexChar (Z.land (Z.shiftr n 4) 15)) (String (hexChar (Z.land n 15)) ""))))).

(** The bytes below 128 that are written with an escape. *)
Definition escaped (c : ascii) : option string :=
  let n := byte_of c in
  if (n =? 34) || (n =? 92) then Some (String backslash (String c ""))
  else if n =? 8 then Some (String backslash "b")
  else if n =? 12 then Some (String backslash "f")
  else if n =? 10 then Some (String backslash "n")
  else if n =? 13 then Some (String backslash "r")
  else if n =? 9 then Some (String backslash "t")
  else if (n <? 32) || (n =? 60) || (n =? 62) || (n =? 38) then Some (unicodeEscape n)
  else None.

Definition writeByte (c : ascii) : string := match escaped c with Some e => e | None => String c "" end.

(** The last byte of U+2028 and U+2029, which are [E2 80 A8] and [E2 80 A9]. *)
Definition separator (c1 c2 c3 : ascii) : bool :=
  (byte_of c1 =? 226) && (byte_of c2 =? 128) && ((byte_of c3 =? 168) || (byte_of c3 =? 169)).

Fixpoint writeBytes (s : string) : string :=
  match s with
  | EmptyString => EmptyString
  | String c1 s1 =>
      match s1 with
      | String c2 (String c3 s3) =>
          if separator c1 c2 c3 then unicodeEscape (byte_of c3 - 168 + 8232) +:+ writeBytes s3
          else writeByte c1 +:+ writeBytes s1
      | _ => writeByte c1 +:+ writeBytes s1
      end
  end.

Definition writeString (s : string) : string := String quote (writeBytes s +:+ String quote "").

Fixpoint commas (l : list string) : string :=
  match l with [] => "" | [s] => s | s :: l => s +:+ "," +:+ commas l end.

Fixpoint write (j : json) : string :=
  match j with
  | JNull => "null"
  | JBool b => if b then "true" else "false"
  | JNum z => pretty z
  | JStr s => writeString s
  | JArr l => "[" +:+ commas (map write l) +:+ "]"
  | JObj l => "{" +:+ commas (map (fun '(k, j) => writeString k +:+ ":" +:+ write j) l) +:+ "}"
  end.

(** ** Reading *)

Definition isSpace (c : ascii) : bool := bool_decide (byte_of c ∈ [32; 9; 10; 13]).

Fixpoint skipSpace (s : string) : string :=
  match s with String c s' => if isSpace c then skipSpace s' else s | EmptyString => s end.

Definition eqc (c d : ascii) : bool := Ascii.eqb c d.

(** The UTF-8 text of a character of the basic plane. *)
Definition utf8_text (n : Z) : string :=
  if n <? 128 then String (chr n) ""
  else if n <? 2048 then String (chr (192 + Z.shiftr n 6)) (String (chr (128 + Z.land n 63)) "")
  else String (chr (224 + Z.shiftr n 12)) (String (chr (128 + Z.land (Z.shiftr n 6) 63)) (String (chr (128 + Z.land n 63)) "")).

(** What follows a backslash, other than [u]. *)
Definition unescaped (c : ascii) : option ascii :=
  if eqc c quote || eqc c backslash || eqc c "/" then Some c
  else if eqc c "b" then Some (chr 8)
  else if eqc c "f" then Some (chr 12)
  else if eqc c "n" then Some (chr 10)
  else if eqc c "r" then Some (chr 13)
  else if eqc c "t" then Some (chr 9)
  else None.

(** A string after its opening quote. *)
Fixpoint readBytes (s : string) : option (string * string) :=
  match s with
  | EmptyString => None
  | String c s =>
      if eqc c quote then Some (""%string, s)
      else if eqc c backslash then
        match s with
        | EmptyString => None
        | String e s =>
            if eqc e "u" then
              match s with
              | String h1 (String h2 (String h3 (String h4 s))) =>
                  d1 ← hexValue h1; d2 ← hexValue h2; d3 ← hexValue h3; d4 ← hexValue h4;
                  let n := d1 * 4096 + d2 * 256 + d3 * 16 + d4 in
                  if (55296 <=? n) && (n <=? 57343) then None
                  else '(t, rest) ← readBytes s; Some (utf8_text n +:+ t, rest)
              | _ => None
              end
            else d ← unescaped e; '(t, rest) ← readBytes s; Some (String d t, rest)
        end
      else if byte_of c <? 32 then None
      else '(t, rest) ← readBytes s; Some (String c t, rest)
  end.

Fixpoint spanDigits (s : string) : string * string :=
  match s with
  | String c s' => if digit_of c then let '(ds, rest) := spanDigits s' in (String c ds, rest) else (EmptyString, s)
  | EmptyString => (EmptyString, EmptyString)
  end.

(** No number goes on with one of these. *)
Definition goesOn (s : string) : bool :=
  match s with String c _ => eqc c "." || eqc c "e" || eqc c "E" | EmptyString => false end.

Definition readDigits (s : string) : option (Z * string) :=
  let '(ds, rest) := spanDigits s in
  if goesOn rest then None
  else match ds with
       | String c (String _ _) => if eqc c "0" then None else n ← unsigned ds; Some (n, rest)
       | _ => n ← unsigned ds; Some (n, rest)
       end.

Definition readNumber (s : string) : option (json * string) :=
  match s with
  | String c s' =>
      if eqc c "-" then '(n, rest) ← readDigits s'; Some (JNum (- n), rest)
      else '(n, rest) ← readDigits s; Some (JNum n, rest)
  | EmptyString => None
  end.

(** What follows a word. *)
Fixpoint after (word s : string) : option string :=
  match word, s with
  | EmptyString, _ => Some s
  | String a word, String c s => if eqc a c then after word s else None
  | String _ _, EmptyString => None
  end.

Definition readWord (s : string) : option (json * string) :=
  match after "null" s, after "true" s, after "false" s with
  | Some rest, _, _ => Some (JNull, rest)
  | _, Some rest, _ => Some (JBool true, rest)
  | _, _, Some rest => Some (JBool false, rest)
  | None, None, None => readNumber s
  end.

Fixpoint readValue (fuel : nat) (s : string) : option (json * string) :=
  match fuel with
  | O => None
  | S fuel =>
      match skipSpace s with
      | EmptyString => None
      | String c s' as s =>
          if eqc c quote then '(t, rest) ← readBytes s'; Some (JStr t, rest)
          else if eqc c "[" then
            match skipSpace s' with
            | String d rest as s1 =>
                if eqc d "]" then Some (JArr [], rest) else '(l, rest) ← readElements fuel s1; Some (JArr l, rest)
            | EmptyString => None
            end
          else if eqc c "{" then
            match skipSpace s' with
            | String d rest as s1 =>
                if eqc d "}" then Some (JObj [], rest) else '(l, rest) ← readMembers fuel s1; Some (JObj l, rest)
            | EmptyString => None
            end
          else readWord s
      end
  end
with readElements (fuel : nat) (s : string) : option (list json * string) :=
  match fuel with
  | O => None
  | S fuel =>
      '(j, rest) ← readValue fuel s;
      match skipSpace rest with
      | String c rest =>
          if eqc c "," then '(l, rest) ← readElements fuel rest; Some (j :: l, rest)
          else if eqc c "]" then Some ([j], rest) else None
      | EmptyString => None
      end
  end
with readMembers (fuel : nat) (s : string) : option (list (string * json) * string) :=
  match fuel with
  | O => None
  | S fuel =>
      match skipSpace s with
      | String c s =>
          if eqc c quote then
            '(k, rest) ← readBytes s;
            match skipSpace rest with
            | String c rest =>
                if eqc c ":" then
                  '(j, rest) ← readValue fuel rest;
                  match skipSpace rest with
                  | String c rest =>
                      if eqc c "," then '(l, rest) ← readMembers fuel rest; Some ((k, j) :: l, rest)
                      else if eqc c "}" then Some ([(k, j)], rest) else None
                  | EmptyString => None
                  end
                else None
            | EmptyString => None
            end
          else None
      | EmptyString => None
      end
  end.

(** The first value of a text, and what is left. *)
Definition read (s : string) : option (json * string) := readValue (S (String.length s)) s.

(** [dec.More()] at the top. *)
Definition more (rest : string) : bool :=
  match skipSpace rest with String c _ => negb (eqc c "]" || eqc c "}") | EmptyString => false end.

Example read_write : read (write (JObj [("a<b", JArr [JNum (-10); JNum 0; JNull]); ("c", JObj []); ("d", JStr (String (chr 10) "x"))])) =
  Some (JObj [("a<b", JArr [JNum (-10); JNum 0; JNull]); ("c", JObj []); ("d", JStr (String (chr 10) "x"))], "")%string.
Proof. vm_compute. reflexivity. Qed.

(** ** Reading back what was written *)

(** *** Characters *)

Lemma forall_ascii (P : ascii -> bool) : forallb (fun n => P (ascii_of_nat n)) (seq 0 256) = true -> forall c, P c = true.
Proof.
  intros Hf c. rewrite forallb_forall in Hf. rewrite <- (ascii_nat_embedding c). apply Hf, in_seq.
  pose proof (nat_ascii_bounded c). lia.
Qed.

Lemma chr_byte c : chr (byte_of c) = c.
Proof.
  pose proof (forall_ascii (fun c => Ascii.eqb (chr (byte_of c)) c) ltac:(vm_compute; reflexivity) c) as Hc.
  by apply Ascii.eqb_eq.
Qed.

(** The digits of an escape, read back. *)
Definition digits_back (n : Z) : option Z :=
  d1 ← hexValue (hexChar (Z.land (Z.shiftr n 12) 15)); d2 ← hexValue (hexChar (Z.land (Z.shiftr n 8) 15));
  d3 ← hexValue (hexChar (Z.land (Z.shiftr n 4) 15)); d4 ← hexValue (hexChar (Z.land n 15));
  Some (d1 * 4096 + d2 * 256 + d3 * 16 + d4).

Lemma read_escape n r t rest : digits_back n = Some n -> n < 55296 \/ 57343 < n ->
  readBytes r = Some (t, rest) -> readBytes (unicodeEscape n +:+ r) = Some (utf8_text n +:+ t, rest).
Proof.
  intros Hd Hs Hr. unfold digits_back in Hd.
  change (readBytes (unicodeEscape n +:+ r)) with
    (d1 ← hexValue (hexChar (Z.land (Z.shiftr n 12) 15)); d2 ← hexValue (hexChar (Z.land (Z.shiftr n 8) 15));
     d3 ← hexValue (hexChar (Z.land (Z.shiftr n 4) 15)); d4 ← hexValue (hexChar (Z.land n 15));
     let n := d1 * 4096 + d2 * 256 + d3 * 16 + d4 in
     if (55296 <=? n) && (n <=? 57343) then None
     else '(t, rest) ← readBytes r; Some (utf8_text n +:+ t, rest)).
  destruct (hexValue (hexChar (Z.land (Z.shiftr n 12) 15))) as [d1|]; [|done].
  destruct (hexValue (hexChar (Z.land (Z.shiftr n 8) 15))) as [d2|]; [|done].
  destruct (hexValue (hexChar (Z.land (Z.shiftr n 4) 15))) as [d3|]; [|done].
  destruct (hexValue (hexChar (Z.land n 15))) as [d4|]; [|done]. injection Hd as Hd.
  cbn [mbind option_bind]. cbv zeta. rewrite Hd, Hr.
  replace ((55296 <=? n) && (n <=? 57343)) with false; [done|].
  symmetry. apply andb_false_iff. rewrite !Z.leb_gt. lia.
Qed.

(** What the two tables make of each byte. *)
Definition tables_agree (c : ascii) : bool :=
  match escaped c with
  | None => negb (eqc c quote) && negb (eqc c backslash) && (32 <=? byte_of c)
  | Some (String b (String x EmptyString)) =>
      eqc b backslash && negb (eqc x "u") && bool_decide (unescaped x = Some c)
  | Some e => String.eqb e (unicodeEscape (byte_of c)) && bool_decide (digits_back (byte_of c) = Some (byte_of c)) &&
              (byte_of c <? 128)
  end.

Lemma tables c : tables_agree c = true.
Proof. revert c. apply forall_ascii. vm_compute. reflexivity. Qed.

Lemma read_byte c r t rest : readBytes r = Some (t, rest) ->
  readBytes (writeByte c +:+ r) = Some (String c t, rest).
Proof.
  intros Hr. pose proof (tables c) as Ht. unfold tables_agree in Ht. unfold writeByte.
  destruct (escaped c) as [e|].
  - assert (String.eqb e (unicodeEscape (byte_of c)) && bool_decide (digits_back (byte_of c) = Some (byte_of c)) &&
      (byte_of c <? 128) = true -> readBytes (e +:+ r) = Some (String c t, rest)) as Hu.
    { intros [[->%String.eqb_eq Hd%bool_decide_eq_true]%andb_true_iff Hc]%andb_true_iff.
      rewrite (read_escape _ r t rest Hd) by lia || done. unfold utf8_text. rewrite Hc, chr_byte. done. }
    destruct e as [|b [|x [|]]]; try exact (Hu Ht).
    apply andb_true_iff in Ht as [[Hb Hx]%andb_true_iff Hc%bool_decide_eq_true].
    apply Ascii.eqb_eq in Hb as ->. apply negb_true_iff in Hx.
    change (String backslash (String x "") +:+ r) with (String backslash (String x r)).
    simpl. rewrite Hx, Hc. simpl. by rewrite Hr.
  - apply andb_true_iff in Ht as [[Hq%negb_true_iff Hb%negb_true_iff]%andb_true_iff Hc].
    change (String c "" +:+ r) with (String c r). simpl. rewrite Hq, Hb.
    replace (byte_of c <? 32) with false by lia. by rewrite Hr.
Qed.

Lemma writeBytes_cons c1 s1 : writeBytes (String c1 s1) =
  match s1 with
  | String c2 (String c3 s3) =>
      if separator c1 c2 c3 then unicodeEscape (byte_of c3 - 168 + 8232) +:+ writeBytes s3
      else writeByte c1 +:+ writeBytes s1
  | _ => writeByte c1 +:+ writeBytes s1
  end.
Proof. done. Qed.

Lemma readBytes_write s rest : readBytes (writeBytes s +:+ String quote rest) = Some (s, rest).
Proof.
  induction s as [s IH] using (induction_ltof1 _ String.length). unfold ltof in IH.
  destruct s as [|c1 s1]; [done|].
  assert (readBytes ((writeByte c1 +:+ writeBytes s1) +:+ String quote rest) = Some (String c1 s1, rest)) as Hbyte.
  { rewrite <- string_append_assoc. apply read_byte, IH. simpl. lia. }
  rewrite writeBytes_cons. destruct s1 as [|c2 [|c3 s3]]; try exact Hbyte.
  destruct (separator c1 c2 c3) eqn:E; [|exact Hbyte]. clear Hbyte.
  rewrite <- string_append_assoc. unfold separator in E.
  apply andb_true_iff in E as [[E1%Z.eqb_eq E2%Z.eqb_eq]%andb_true_iff E3].
  rewrite (read_escape _ (writeBytes s3 +:+ String quote rest) s3 rest).
  - rewrite <- (chr_byte c1), <- (chr_byte c2), <- (chr_byte c3), E1, E2.
    apply orb_true_iff in E3 as [E3%Z.eqb_eq|E3%Z.eqb_eq]; rewrite E3; reflexivity.
  - apply orb_true_iff in E3 as [E3%Z.eqb_eq|E3%Z.eqb_eq]; rewrite E3; reflexivity.
  - apply orb_true_iff in E3 as [E3%Z.eqb_eq|E3%Z.eqb_eq]; rewrite E3; lia.
  - apply IH. simpl. lia.
Qed.

(** *** Numbers *)

(** What may follow a value: no digit, and nothing a number goes on with. *)
Definition stops (s : string) : Prop :=
  match s with String c _ => digit_of c = None /\ goesOn s = false | EmptyString => True end.

Lemma spanDigits_app ds acc n rest : digits ds acc = Some n -> stops rest -> spanDigits (ds +:+ rest) = (ds, rest).
Proof.
  revert acc. induction ds as [|c ds IH]; intros acc Hd Hs.
  - change ("" +:+ rest) with rest. destruct rest as [|c rest]; [done|]. destruct Hs as [Hc _]. simpl. by rewrite Hc.
  - change (String c ds +:+ rest) with (String c (ds +:+ rest)). simpl in *.
    destruct (digit_of c) as [d|]; [|done]. by rewrite (IH _ Hd Hs).
Qed.

Lemma stops_on rest : stops rest -> goesOn rest = false.
Proof. destruct rest; [done|]. by intros []. Qed.

Lemma go_head (x : N) s : (0 < x)%N -> exists c t, pretty_N_go x s = String c t /\ eqc c "0" = false.
Proof.
  revert s. induction (N.lt_wf_0 x) as [x _ IH]; intros s Hx. rewrite pretty_N_go_step by lia.
  destruct (decide (x / 10 = 0)%N) as [E|E].
  - rewrite E, pretty_N_go_0. do 2 eexists. split; [done|].
    apply N.div_small_iff in E; [|done]. rewrite N.mod_small by done.
    assert (x = 1 \/ x = 2 \/ x = 3 \/ x = 4 \/ x = 5 \/ x = 6 \/ x = 7 \/ x = 8 \/ x = 9)%N as Hc by lia.
    by repeat destruct Hc as [->|Hc]; [..|subst].
  - apply IH; [apply N.div_lt; lia|by apply N.neq_0_lt_0].
Qed.

Lemma readDigits_pretty n rest : 0 <= n -> stops rest -> readDigits (pretty n +:+ rest) = Some (n, rest).
Proof.
  intros Hn Hs. destruct (decide (n = 0)) as [->|Hne].
  - unfold readDigits. change (pretty 0) with "0"%string. rewrite (spanDigits_app "0" 0 0) by done.
    by rewrite (stops_on _ Hs).
  - pose proof (digits_pretty n ltac:(lia)) as Hd. unfold readDigits. rewrite (spanDigits_app _ 0 n) by done.
    rewrite (stops_on _ Hs).
    assert (exists c t, pretty n = String c t /\ eqc c "0" = false) as (c & t & E & Hc).
    { destruct n as [|p|p]; [lia| |lia]. change (pretty (Z.pos p)) with (pretty (N.pos p)).
      unfold pretty, pretty_N. rewrite decide_False by done. by apply go_head. }
    rewrite E in Hd |- *. change (digits (String c t) 0) with (unsigned (String c t)) in Hd.
    destruct t as [|c' t]; [by rewrite Hd|]. by rewrite Hc, Hd.
Qed.

Lemma readNumber_pretty n rest : stops rest -> readNumber (pretty n +:+ rest) = Some (JNum n, rest).
Proof.
  intros Hs. destruct (Z_lt_le_dec n 0) as [Hn|Hn].
  - destruct n as [|p|p]; [lia|lia|].
    change (pretty (Z.neg p) +:+ rest) with (String "-" (pretty (Z.pos p) +:+ rest)). simpl.
    by rewrite (readDigits_pretty (Z.pos p)).
  - pose proof (readDigits_pretty n rest Hn Hs) as Hr. unfold readNumber.
    destruct (pretty_digit_head n Hn) as (c & s & d & E & Hd). rewrite E in Hr |- *.
    change (String c s +:+ rest) with (String c (s +:+ rest)) in *. cbv beta iota.
    replace (eqc c "-") with false; [by rewrite Hr|]. symmetry. apply Ascii.eqb_neq. intros ->. vm_compute in Hd. discriminate Hd.
Qed.

(** A number's first character is not a word's. *)
Definition numeral (c : ascii) : bool := (if digit_of c then true else false) || eqc c "-".

Lemma numeral_pretty (n : Z) : exists c t, pretty n = String c t /\ numeral c = true.
Proof.
  destruct (Z_lt_le_dec n 0) as [Hn|Hn].
  - destruct n as [|p|p]; [lia|lia|]. by exists "-"%char, (pretty (Z.pos p)).
  - destruct (pretty_digit_head n Hn) as (c & s & d & E & Hd). exists c, s. split; [done|]. unfold numeral. by rewrite Hd.
Qed.

Lemma numeral_only c : numeral c = true -> isSpace c = false /\ eqc c quote = false /\ eqc c "[" = false /\
  eqc c "{" = false /\ eqc c "n" = false /\ eqc c "t" = false /\ eqc c "f" = false /\ eqc c "]" = false /\ eqc c "}" = false.
Proof.
  pose proof (forall_ascii (fun c => negb (numeral c) || negb (isSpace c || eqc c quote || eqc c "[" || eqc c "{" ||
    eqc c "n" || eqc c "t" || eqc c "f" || eqc c "]" || eqc c "}")) ltac:(vm_compute; reflexivity) c) as Hc.
  intros Hn. cbv beta in Hc. rewrite Hn in Hc. cbn [negb orb] in Hc. apply negb_true_iff in Hc. rewrite !orb_false_iff in Hc. tauto.
Qed.

(** *** Values *)

Lemma json_ind' (P : json -> Prop) :
  P JNull -> (forall b, P (JBool b)) -> (forall z, P (JNum z)) -> (forall s, P (JStr s)) ->
  (forall l, Forall P l -> P (JArr l)) -> (forall l, Forall (fun kv => P kv.2) l -> P (JObj l)) -> forall j, P j.
Proof.
  intros H1 H2 H3 H4 H5 H6. fix IH 1. intros [|b|z|s|l|l]; [done|done|done|done| |].
  - apply H5. induction l as [|j l IHl]; constructor; [apply IH|done].
  - apply H6. induction l as [|[k j] l IHl]; constructor; [apply IH|done].
Qed.

(** The fuel a value takes to read. *)
Fixpoint weight (j : json) : nat :=
  match j with
  | JArr l => S (list_sum (map (fun j => S (weight j)) l))
  | JObj l => S (list_sum (map (fun '(_, j) => S (weight j)) l))
  | _ => 1
  end.

Definition pairText (kv : string * json) : string := writeString kv.1 +:+ ":" +:+ write kv.2.

Lemma write_obj l : write (JObj l) = "{" +:+ commas (map pairText l) +:+ "}".
Proof. simpl. do 3 f_equal. apply map_ext. by intros []. Qed.

Lemma weight_obj l : weight (JObj l) = S (list_sum (map (fun kv => S (weight kv.2)) l)).
Proof. simpl. do 2 f_equal. apply map_ext. by intros []. Qed.

Lemma commas_length (l : list string) :
  String.length (commas l) = (list_sum (map String.length l) + Nat.pred (length l))%nat.
Proof.
  induction l as [|s [|s' l] IH]; [done|simpl; lia|].
  change (commas (s :: s' :: l)) with (s +:+ "," +:+ commas (s' :: l)). rewrite !string_append_length, IH. simpl. lia.
Qed.

Lemma list_sum_le {A} (f g : A -> nat) l : Forall (fun x => f x <= g x)%nat l -> (list_sum (map f l) <= list_sum (map g l))%nat.
Proof. induction 1; simpl; lia. Qed.

Lemma list_sum_S {A} (f : A -> nat) l : list_sum (map (fun x => S (f x)) l) = (list_sum (map f l) + length l)%nat.
Proof. induction l; simpl; lia. Qed.

Lemma weight_length j : (weight j <= String.length (write j))%nat.
Proof.
  induction j as [|[]|z|s|l IH|l IH] using json_ind'; try (simpl; lia).
  - destruct (numeral_pretty z) as (c & t & E & _). simpl. rewrite E. simpl. lia.
  - change (write (JArr l)) with ("[" +:+ commas (map write l) +:+ "]"). simpl weight.
    rewrite !string_append_length, commas_length, length_map, map_map, list_sum_S. simpl.
    pose proof (list_sum_le _ _ _ IH). lia.
  - rewrite write_obj, weight_obj, !string_append_length, commas_length, length_map, map_map, list_sum_S.
    cbn [String.length].
    assert (Forall (fun kv => weight kv.2 <= String.length (pairText kv))%nat l) as HF.
    { eapply list.Forall_impl; [exact IH|]. intros kv Hkv. cbv beta in Hkv |- *. unfold pairText. rewrite !string_append_length. lia. }
    pose proof (list_sum_le (fun kv => weight kv.2) (fun kv => String.length (pairText kv)) l HF). lia.
Qed.

Lemma skipSpace_on c t : isSpace c = false -> skipSpace (String c t) = String c t.
Proof. intros Hc. simpl. by rewrite Hc. Qed.

(** A value's text starts with no space, and not as the end of a list does. *)
Lemma write_head j : exists c t, write j = String c t /\ isSpace c = false /\ eqc c "]" = false.
Proof.
  destruct j as [|[]|z|s|l|l]; try (do 2 eexists; split; [reflexivity|by split]).
  destruct (numeral_pretty z) as (c & t & E & Hc). exists c, t. split; [exact E|]. pose proof (numeral_only c Hc). tauto.
Qed.

Lemma elements_one fuel j s rest :
  readValue fuel s = Some (j, String "]" rest) -> readElements (S fuel) s = Some ([j], rest).
Proof. intros E. simpl. by rewrite E. Qed.

Lemma elements_more fuel j s l mid rest :
  readValue fuel s = Some (j, String "," mid) -> readElements fuel mid = Some (l, rest) ->
  readElements (S fuel) s = Some (j :: l, rest).
Proof. intros E El. simpl. rewrite E. simpl. by rewrite El. Qed.

Lemma readMembers_key fuel k s : readMembers (S fuel) (writeString k +:+ ":" +:+ s) =
  '(j, rest) ← readValue fuel s;
  match skipSpace rest with
  | String c rest =>
      if eqc c "," then '(l, rest) ← readMembers fuel rest; Some ((k, j) :: l, rest)
      else if eqc c "}" then Some ([(k, j)], rest) else None
  | EmptyString => None
  end.
Proof.
  unfold writeString. change (String quote (writeBytes k +:+ String quote "") +:+ ":" +:+ s) with
    (String quote ((writeBytes k +:+ String quote "") +:+ ":" +:+ s)).
  rewrite <- string_append_assoc. change (String quote "" +:+ ":" +:+ s) with (String quote (String ":" s)).
  cbn [readMembers]. rewrite skipSpace_on by done. cbn [eqc]. rewrite readBytes_write. done.
Qed.

Lemma members_one fuel k j s rest :
  readValue fuel s = Some (j, String "}" rest) -> readMembers (S fuel) (writeString k +:+ ":" +:+ s) = Some ([(k, j)], rest).
Proof. intros E. rewrite readMembers_key, E. done. Qed.

Lemma members_more fuel k j s l mid rest :
  readValue fuel s = Some (j, String "," mid) -> readMembers fuel mid = Some (l, rest) ->
  readMembers (S fuel) (writeString k +:+ ":" +:+ s) = Some ((k, j) :: l, rest).
Proof. intros E El. rewrite readMembers_key, E. simpl. by rewrite El. Qed.

(** What reading a written value is to give. *)
Definition reads (j : json) : Prop :=
  forall fuel rest, (weight j <= fuel)%nat -> stops rest -> readValue fuel (write j +:+ rest) = Some (j, rest).

Lemma commas_cons s s' l : commas (s :: s' :: l) = s +:+ "," +:+ commas (s' :: l).
Proof. done. Qed.

Lemma reads_elements l : Forall reads l -> l <> [] -> forall fuel rest,
  (list_sum (map (fun j => S (weight j)) l) <= fuel)%nat ->
  readElements fuel (commas (map write l) +:+ String "]" rest) = Some (l, rest).
Proof.
  induction 1 as [|j l Hj Hl IH]; [done|]. intros _ fuel rest Hf. simpl in Hf. destruct fuel as [|fuel]; [lia|].
  destruct l as [|j' l].
  - apply elements_one. apply Hj; [lia|done].
  - cbn [map]. rewrite commas_cons, <- !string_append_assoc. eapply elements_more.
    + apply Hj; [lia|done].
    + apply IH; [done|]. simpl in *. lia.
Qed.

Lemma reads_members l : Forall (fun kv => reads kv.2) l -> l <> [] -> forall fuel rest,
  (list_sum (map (fun kv => S (weight kv.2)) l) <= fuel)%nat ->
  readMembers fuel (commas (map pairText l) +:+ String "}" rest) = Some (l, rest).
Proof.
  induction 1 as [|[k j] l Hj Hl IH]; [done|]. intros _ fuel rest Hf. simpl in Hf. destruct fuel as [|fuel]; [lia|].
  destruct l as [|kv l].
  - cbn [map commas]. unfold pairText. cbn [fst snd]. rewrite <- !string_append_assoc. apply members_one. apply Hj; [simpl; lia|done].
  - cbn [map]. rewrite commas_cons. unfold pairText at 1. cbn [fst snd]. rewrite <- !string_append_assoc. eapply members_more.
    + apply Hj; [simpl; lia|done].
    + apply IH; [done|]. simpl in *. lia.
Qed.

Lemma readValue_word w v rest :
  (forall c t, w = String c t -> isSpace c = false /\ eqc c quote = false /\ eqc c "[" = false /\ eqc c "{" = false) ->
  w <> ""%string -> readWord (w +:+ rest) = Some (v, rest) -> forall fuel, readValue (S fuel) (w +:+ rest) = Some (v, rest).
Proof.
  intros Hc Hw Hr fuel. destruct w as [|c t]; [done|]. destruct (Hc c t eq_refl) as (H1 & H2 & H3 & H4).
  change (String c t +:+ rest) with (String c (t +:+ rest)) in *. cbn [readValue].
  by rewrite skipSpace_on, H2, H3, H4 by done.
Qed.

Lemma readWord_number n rest : stops rest -> readWord (pretty n +:+ rest) = Some (JNum n, rest).
Proof.
  intros Hs. pose proof (readNumber_pretty n rest Hs) as Hr. destruct (numeral_pretty n) as (c & t & E & Hc).
  pose proof (numeral_only c Hc) as Ho. rewrite E in Hr |- *. change (String c t +:+ rest) with (String c (t +:+ rest)) in *.
  unfold readWord, after. unfold eqc in Ho |- *.
  assert (forall d, Ascii.eqb c d = false -> Ascii.eqb d c = false) as Hsym.
  { intros d Hd. apply Ascii.eqb_neq. apply Ascii.eqb_neq in Hd. congruence. }
  rewrite !Hsym by tauto. exact Hr.
Qed.

Lemma readValue_write j : reads j.
Proof.
  induction j as [|b|z|s|l IH|l IH] using json_ind'; intros fuel rest Hf Hs; (destruct fuel as [|fuel]; [simpl in Hf; lia|]).
  - apply (readValue_word "null"); [by intros ? ? [= <- <-]|done|done].
  - destruct b; (apply (readValue_word "true") || apply (readValue_word "false"));
      [by intros ? ? [= <- <-]|done|done|by intros ? ? [= <- <-]|done|done].
  - apply (readValue_word (pretty z)); [| |by apply readWord_number]; destruct (numeral_pretty z) as (c & t & E & Hc); rewrite E.
    + intros ? ? [= <- <-]. pose proof (numeral_only c Hc). tauto.
    + done.
  - change (write (JStr s) +:+ rest) with (String quote ((writeBytes s +:+ String quote "") +:+ rest)).
    rewrite <- string_append_assoc. change (String quote "" +:+ rest) with (String quote rest).
    cbn [readValue]. rewrite skipSpace_on by done. cbn [eqc]. by rewrite readBytes_write.
  - change (write (JArr l) +:+ rest) with (String "[" ((commas (map write l) +:+ "]") +:+ rest)).
    rewrite <- string_append_assoc. change ("]" +:+ rest) with (String "]" rest).
    cbn [readValue]. rewrite skipSpace_on by done. destruct l as [|j l]; [done|].
    assert (exists c t, commas (map write (j :: l)) +:+ String "]" rest = String c t /\ isSpace c = false /\ eqc c "]" = false)
      as (c & t & E & Hsp & Hc).
    { destruct (write_head j) as (c & t & E & Hc). destruct l; cbn [map commas]; rewrite E; do 2 eexists; by split. }
    pose proof (reads_elements (j :: l) IH ltac:(done) fuel rest ltac:(simpl in *; lia)) as Hr. rewrite E in Hr |- *.
    rewrite skipSpace_on by done. rewrite Hc, Hr. done.
  - rewrite write_obj. change (("{" +:+ commas (map pairText l) +:+ "}") +:+ rest) with
      (String "{" ((commas (map pairText l) +:+ "}") +:+ rest)).
    rewrite <- string_append_assoc. change ("}" +:+ rest) with (String "}" rest).
    cbn [readValue]. rewrite skipSpace_on by done. destruct l as [|kv l]; [done|].
    assert (exists t, commas (map pairText (kv :: l)) +:+ String "}" rest = String quote t) as (t & E).
    { destruct l; by eexists. }
    rewrite weight_obj in Hf.
    pose proof (reads_members (kv :: l) IH ltac:(done) fuel rest ltac:(lia)) as Hr. rewrite E in Hr |- *.
    rewrite skipSpace_on by done. cbn [eqc]. rewrite Hr. done.
Qed.

(** The reader returns what was written, and the text that followed it. *)
Lemma read_write_then j rest : stops rest -> read (write j +:+ rest) = Some (j, rest).
Proof.
  intros Hs. apply readValue_write; [|done]. rewrite string_append_length. pose proof (weight_length j). lia.
Qed.
