(* ===== verification/Rfc3339.v ===== *)
(** * Rfc3339: the text of a time

    What [time.Time] marshals to, and what it unmarshals from: the date and the
    clock of a zone, the nanoseconds without their trailing zeros, the offset.  An
    instant is its nanoseconds since 1970; the zone gives the offset in seconds at
    an instant.  The calendar is computed from a count of days, and tied to the
    lengths of the months. *)

From Stdlib Require Import ZArith Lia Ascii.
From stdpp Require Import prelude gmap strings numbers pretty.
From S2P Require Import Prelude Wire Filter Strconv Schema Json JsonText.

(** ** The calendar *)

(** Years from March count in eras of 400: the day of the era gives the year. *)
Definition yearOfEra (doe : Z) : Z := (doe - doe / 1460 + doe / 36524 - doe / 146096) / 365.
Definition yearStart (yoe : Z) : Z := 365 * yoe + yoe / 4 - yoe / 100.

(** Year, month and day of a count of days since 1970. *)
Definition civil (days : Z) : Z * Z * Z :=
  let z := days + 719468 in
  let doe := z mod 146097 in
  let yoe := yearOfEra doe in
  let doy := doe - yearStart yoe in
  let mp := (5 * doy + 2) / 153 in
  let m := if mp <? 10 then mp + 3 else mp - 9 in
  (yoe + z / 146097 * 400 + (if m <=? 2 then 1 else 0), m, doy - (153 * mp + 2) / 5 + 1).

Definition daysOf (y m d : Z) : Z :=
  let y := if m <=? 2 then y - 1 else y in
  let yoe := y mod 400 in
  let mp := if 2 <? m then m - 3 else m + 9 in
  y / 400 * 146097 + (yearStart yoe + ((153 * mp + 2) / 5 + d - 1)) - 719468.

Definition leap (y : Z) : bool := (y mod 4 =? 0) && (negb (y mod 100 =? 0) || (y mod 400 =? 0)).

Definition daysIn (y m : Z) : Z :=
  if m =? 2 then if leap y then 29 else 28
  else if bool_decide (m ∈ [4; 6; 9; 11]) then 30 else 31.

(** ** Writing *)

Definition digitChar (d : Z) : ascii := chr (48 + d).

(** [n] digits. *)
Fixpoint fixed (n : nat) (z : Z) : string :=
  match n with
  | O => EmptyString
  | S n => String (digitChar (z / 10 ^ Z.of_nat n mod 10)) (fixed n z)
  end.

Fixpoint trimZeros (s : string) : string :=
  match s with
  | EmptyString => EmptyString
  | String c s => let t := trimZeros s in if eqc c "0" && String.eqb t "" then EmptyString else String c t
  end.

Definition zoneText (offset : Z) : string :=
  if offset =? 0 then "Z"
  else (if offset <? 0 then "-" else "+") +:+ fixed 2 (Z.abs offset / 3600) +:+ ":" +:+ fixed 2 (Z.abs offset / 60 mod 60).

Definition clockText (sod : Z) : string :=
  fixed 2 (sod / 3600) +:+ ":" +:+ fixed 2 (sod / 60 mod 60) +:+ ":" +:+ fixed 2 (sod mod 60).

Definition dateText (day : Z) : string :=
  let '(y, m, d) := civil day in fixed 4 y +:+ "-" +:+ fixed 2 m +:+ "-" +:+ fixed 2 d.

Definition fractionText (ns : Z) : string := if ns =? 0 then "" else "." +:+ trimZeros (fixed 9 ns).

Definition localText (local ns offset : Z) : string :=
  dateText (local / 86400) +:+ "T" +:+ clockText (local mod 86400) +:+ fractionText ns +:+ zoneText offset.

(** ** Reading *)

Fixpoint readFixed (n : nat) (acc : Z) (s : string) : option (Z * string) :=
  match n, s with
  | O, _ => Some (acc, s)
  | S n, String c s => d ← digit_of c; readFixed n (acc * 10 + d) s
  | S _, EmptyString => None
  end.

(** Digits beyond the ninth do not count. *)
Fixpoint fractionOf (scale : Z) (s : string) : Z :=
  match s with
  | EmptyString => 0
  | String c s => default 0 (digit_of c) * scale + fractionOf (scale / 10) s
  end.

Definition readFraction (s : string) : option (Z * string) :=
  match after "." s with
  | None => Some (0, s)
  | Some s => let '(ds, rest) := spanDigits s in if String.eqb ds "" then None else Some (fractionOf (10 ^ 8) ds, rest)
  end.

Definition readZone (s : string) : option Z :=
  if String.eqb s "Z" then Some 0
  else match s with
       | String c s =>
           sign ← (if eqc c "+" then Some 1 else if eqc c "-" then Some (-1) else None);
           '(h, s) ← readFixed 2 0 s; s ← after ":" s; '(m, s) ← readFixed 2 0 s;
           if String.eqb s "" && (h <? 24) && (m <? 60) then Some (sign * (h * 3600 + m * 60)) else None
       | EmptyString => None
       end.

Definition readDate (s : string) : option (Z * string) :=
  '(y, s) ← readFixed 4 0 s; s ← after "-" s; '(m, s) ← readFixed 2 0 s; s ← after "-" s; '(d, s) ← readFixed 2 0 s;
  if (1 <=? m) && (m <=? 12) && (1 <=? d) && (d <=? daysIn y m) then Some (daysOf y m d, s) else None.

Definition readClock (s : string) : option (Z * string) :=
  '(h, s) ← readFixed 2 0 s; s ← after ":" s; '(m, s) ← readFixed 2 0 s; s ← after ":" s; '(x, s) ← readFixed 2 0 s;
  if (h <? 24) && (m <? 60) && (x <? 60) then Some (h * 3600 + m * 60 + x, s) else None.

Definition parseRfc3339 (s : string) : option Z :=
  '(day, s) ← readDate s; s ← after "T" s; '(sod, s) ← readClock s; '(ns, s) ← readFraction s; offset ← readZone s;
  Some ((day * 86400 + sod - offset) * 10 ^ 9 + ns).

(** ** The instance *)

Section zone.
Context (zone : Z -> Z).

Definition localOf (t : Z) : Z := t / 10 ^ 9 + zone t.

(** A year of four digits, and an offset of whole minutes within a day. *)
Definition rfc3339 : TimeText := {|
  MarshalTime t := localText (localOf t) (t mod 10 ^ 9) (zone t);
  UnmarshalTime := parseRfc3339;
  year_ok t := 0 <= (civil (localOf t / 86400)).1.1 <= 9999 /\ Z.abs (zone t) < 86400 /\ zone t mod 60 = 0;
|}.
End zone.

Example zero_time : MarshalTime (TimeText := rfc3339 (fun _ => 0)) (-62135596800 * 10 ^ 9) = "0001-01-01T00:00:00Z"%string.
Proof. vm_compute. reflexivity. Qed.

Example leap_day : MarshalTime (TimeText := rfc3339 (fun _ => -19800)) (1709181296 * 10 ^ 9 + 7800000) =
  "2024-02-28T23:04:56.0078-05:30"%string.
Proof. vm_compute. reflexivity. Qed.

(** ** The calendar is right *)

Ltac euclid := unfold yearOfEra, yearStart in *; Z.to_euclidean_division_equations; lia.

Lemma yearOfEra_range doe : 0 <= doe < 146097 -> 0 <= yearOfEra doe <= 399.
Proof. intros. euclid. Qed.

Lemma year_from doe : 0 <= doe < 146097 -> yearStart (yearOfEra doe) <= doe.
Proof. intros H. pose proof (yearOfEra_range doe H). euclid. Qed.

(** The last year of an era has its leap day. *)
Lemma year_to doe : 0 <= doe < 146097 ->
  doe < yearStart (yearOfEra doe + 1) \/ yearOfEra doe = 399 /\ doe = yearStart 400.
Proof. intros H. pose proof (yearOfEra_range doe H). euclid. Qed.

Lemma year_length y : yearStart (y + 1) - yearStart y = 365 + Z.b2z ((y + 1) mod 4 =? 0) - Z.b2z ((y + 1) mod 100 =? 0).
Proof. destruct (Z.eqb_spec ((y + 1) mod 4) 0), (Z.eqb_spec ((y + 1) mod 100) 0); simpl Z.b2z; euclid. Qed.

Lemma leap_shift y k : leap (y + k * 400) = leap y.
Proof.
  unfold leap. replace ((y + k * 400) mod 4) with (y mod 4) by (Z.to_euclidean_division_equations; lia).
  replace ((y + k * 400) mod 100) with (y mod 100) by (Z.to_euclidean_division_equations; lia).
  by rewrite Z.mod_add.
Qed.

(** The day of a year that starts in March. *)
Lemma dayOfYear_range doe : 0 <= doe < 146097 -> let yoe := yearOfEra doe in
  0 <= doe - yearStart yoe < 365 + Z.b2z (leap (yoe + 1)).
Proof.
  intros H yoe. pose proof (year_from doe H) as Hf. pose proof (yearOfEra_range doe H). fold yoe in Hf. split; [lia|].
  destruct (year_to doe H) as [Ht|[Hy E]]; [fold yoe in Ht|fold yoe in Hy].
  - pose proof (year_length yoe). unfold leap. destruct (Z.eqb_spec ((yoe + 1) mod 4) 0), (Z.eqb_spec ((yoe + 1) mod 100) 0);
      simpl in *; try lia; destruct (_ =? 0); simpl; lia.
  - rewrite Hy, E. by vm_compute.
Qed.

Lemma month_range doy : 0 <= doy < 366 -> let mp := (5 * doy + 2) / 153 in
  0 <= mp <= 11 /\ 1 <= doy - (153 * mp + 2) / 5 + 1 <= 31 /\
  (mp = 11 -> doy - (153 * mp + 2) / 5 + 1 = doy - 336) /\
  (mp = 1 \/ mp = 3 \/ mp = 6 \/ mp = 8 -> doy - (153 * mp + 2) / 5 + 1 <= 30).
Proof. intros H mp. unfold mp. split_and!; Z.to_euclidean_division_equations; lia. Qed.

Lemma civil_spec day : let '(y, m, d) := civil day in
  daysOf y m d = day /\ 1 <= m <= 12 /\ 1 <= d <= daysIn y m /\ d <= 31.
Proof.
  unfold civil. set (z := day + 719468). set (doe := z mod 146097). set (yoe := yearOfEra doe).
  set (doy := doe - yearStart yoe). set (mp := (5 * doy + 2) / 153).
  assert (0 <= doe < 146097) as Hd by (apply Z.mod_pos_bound; lia).
  pose proof (yearOfEra_range doe Hd) as Hy. pose proof (dayOfYear_range doe Hd) as Hr. cbv zeta in Hr. fold yoe in Hy, Hr. fold doy in Hr.
  assert (doy < 366) as Hr' by (destruct (leap _); simpl in Hr; lia).
  pose proof (month_range doy ltac:(lia)) as (Hm & Hday & Hfeb & Hshort). fold mp in Hm, Hday, Hfeb, Hshort.
  set (m := if mp <? 10 then mp + 3 else mp - 9). cbv zeta.
  assert (m = mp + 3 /\ mp < 10 \/ m = mp - 9 /\ 10 <= mp) as Hmm by (unfold m; destruct (Z.ltb_spec mp 10); lia).
  set (d := doy - (153 * mp + 2) / 5 + 1) in *. set (y := yoe + z / 146097 * 400 + (if m <=? 2 then 1 else 0)).
  split; [|split; [lia|split; [|lia]]].
  - unfold daysOf. assert ((if m <=? 2 then y - 1 else y) = yoe + z / 146097 * 400) as ->.
    { unfold y. destruct (m <=? 2); lia. }
    assert ((if 2 <? m then m - 3 else m + 9) = mp) as -> by (destruct (Z.ltb_spec 2 m); lia).
    rewrite Z.mod_add, Z.mod_small, Z.div_add, Z.div_small by lia. unfold d, doy.
    pose proof (Z.div_mod z 146097 ltac:(lia)) as E. fold doe in E. unfold z in E |- *. fold z in E |- *. lia.
  - split; [lia|]. unfold daysIn. destruct (Z.eqb_spec m 2) as [E|E].
    + assert (mp = 11) as Emp by lia. rewrite (Hfeb Emp). assert (y = yoe + 1 + z / 146097 * 400) as ->.
      { unfold y. destruct (Z.leb_spec m 2); lia. }
      rewrite leap_shift. destruct (leap (yoe + 1)); simpl in Hr; lia.
    + case_bool_decide as Hs; [|lia]. rewrite !elem_of_cons, elem_of_nil in Hs. apply Hshort. lia.
Qed.

(** A year after another, across the eras. *)
Lemma year_next y : (y + 1) / 400 * 146097 + yearStart ((y + 1) mod 400) =
  y / 400 * 146097 + yearStart (y mod 400) + 365 + Z.b2z (leap (y + 1)).
Proof.
  unfold leap. destruct (Z.eqb_spec ((y + 1) mod 4) 0), (Z.eqb_spec ((y + 1) mod 100) 0), (Z.eqb_spec ((y + 1) mod 400) 0);
    simpl; euclid.
Qed.

(** The calendar is the one whose months follow each other and that has the first of
    January 1970 as its day 0. *)
Lemma daysOf_month y m : 1 <= m <= 12 ->
  daysOf y m 1 + daysIn y m = if m =? 12 then daysOf (y + 1) 1 1 else daysOf y (m + 1) 1.
Proof.
  intros Hm. assert (m = 2 \/ m = 1 \/ m = 3 \/ m = 4 \/ m = 5 \/ m = 6 \/ m = 7 \/ m = 8 \/ m = 9 \/ m = 10 \/ m = 11 \/ m = 12)
    as [->|Hc] by lia.
  - pose proof (year_next (y - 1)) as E. replace (y - 1 + 1) with y in E by lia.
    unfold daysOf, daysIn. simpl. change ((153 * (2 + 9) + 2) / 5) with 337.
    change ((153 * (2 + 1 - 3) + 2) / 5) with 0. destruct (leap y); simpl in E; lia.
  - destruct Hc as [->|[->|[->|[->|[->|[->|[->|[->|[->|[->| ->]]]]]]]]]]; unfold daysOf, daysIn; simpl;
      rewrite ?Z.add_simpl_r;
      repeat match goal with |- context [?a / 5] => let v := eval vm_compute in (a / 5) in change (a / 5) with v end; lia.
Qed.

Lemma daysOf_epoch : daysOf 1970 1 1 = 0.
Proof. reflexivity. Qed.

(** ** Reading back *)

Ltac bound := cbn [mbind option_bind].

Lemma digit_of_digitChar d : 0 <= d < 10 -> digit_of (digitChar d) = Some d.
Proof.
  intros H. assert (d = 0 \/ d = 1 \/ d = 2 \/ d = 3 \/ d = 4 \/ d = 5 \/ d = 6 \/ d = 7 \/ d = 8 \/ d = 9) as Hd by lia.
  by repeat (destruct Hd as [->|Hd]; [reflexivity|]); subst.
Qed.

Lemma readFixed_fixed n z acc rest :
  readFixed n acc (fixed n z +:+ rest) = Some (acc * 10 ^ Z.of_nat n + z mod 10 ^ Z.of_nat n, rest).
Proof.
  revert acc. induction n as [|n IH]; intros acc; [rewrite Z.mod_1_r; simpl; do 2 f_equal; lia|].
  change (fixed (S n) z +:+ rest) with (String (digitChar (z / 10 ^ Z.of_nat n mod 10)) (fixed n z +:+ rest)).
  cbn [readFixed]. rewrite digit_of_digitChar by (apply Z.mod_pos_bound; lia). bound. rewrite IH. do 2 f_equal.
  rewrite Nat2Z.inj_succ, Z.pow_succ_r, (Z.mul_comm 10 (10 ^ _)), Z.rem_mul_r by lia. lia.
Qed.

Lemma readFixed_small n z rest : 0 <= z < 10 ^ Z.of_nat n -> readFixed n 0 (fixed n z +:+ rest) = Some (z, rest).
Proof. intros H. rewrite readFixed_fixed, Z.mod_small by done. done. Qed.

Lemma after_cons a s : after (String a "") (String a "" +:+ s) = Some s.
Proof. change (String a "" +:+ s) with (String a s). simpl. unfold eqc. by rewrite Ascii.eqb_refl. Qed.

Lemma readClock_back sod rest : 0 <= sod < 86400 -> readClock (clockText sod +:+ rest) = Some (sod, rest).
Proof.
  intros H. unfold clockText, readClock. rewrite <- !string_append_assoc.
  assert (0 <= sod / 3600 < 24 /\ 0 <= sod / 60 mod 60 < 60 /\ 0 <= sod mod 60 < 60 /\
    sod / 3600 * 3600 + sod / 60 mod 60 * 60 + sod mod 60 = sod) as (Hh & Hm & Hs & E).
  { split_and!; Z.to_euclidean_division_equations; lia. }
  rewrite readFixed_small by lia. bound. rewrite after_cons. bound. rewrite readFixed_small by lia.
  bound. rewrite after_cons. bound. rewrite readFixed_small by lia. bound.
  rewrite !(proj2 (Z.ltb_lt _ _)) by lia. simpl. by rewrite E.
Qed.

Lemma readDate_back day rest : 0 <= (civil day).1.1 <= 9999 -> readDate (dateText day +:+ rest) = Some (day, rest).
Proof.
  intros Hy. unfold dateText, readDate. pose proof (civil_spec day) as Hc. destruct (civil day) as [[y m] d].
  destruct Hc as (E & Hm & Hd & Hd'). simpl in Hy. rewrite <- !string_append_assoc. rewrite readFixed_small by lia. bound.
  rewrite after_cons. bound. rewrite readFixed_small by lia. bound. rewrite after_cons. bound. rewrite readFixed_small by lia.
  bound. rewrite !(proj2 (Z.leb_le _ _)) by lia. simpl. by rewrite E.
Qed.

Lemma fractionOf_trim s scale : fractionOf scale (trimZeros s) = fractionOf scale s.
Proof.
  revert scale. induction s as [|c s IH]; intros scale; [done|]. simpl.
  destruct (eqc c "0" && String.eqb (trimZeros s) "") eqn:E; simpl; rewrite <- IH; [|done].
  apply andb_true_iff in E as [E1%Ascii.eqb_eq E2%String.eqb_eq]. rewrite E1, E2. done.
Qed.

Lemma fractionOf_fixed n z : fractionOf (10 ^ (Z.of_nat n - 1)) (fixed n z) = z mod 10 ^ Z.of_nat n.
Proof.
  induction n as [|n IH]; [by rewrite Z.mod_1_r|]. cbn [fixed fractionOf].
  rewrite digit_of_digitChar by (apply Z.mod_pos_bound; lia). simpl default.
  replace (Z.of_nat (S n) - 1) with (Z.of_nat n) by lia. rewrite Nat2Z.inj_succ, Z.pow_succ_r, (Z.mul_comm 10 (10 ^ _)), Z.rem_mul_r by lia.
  destruct n as [|n]; [simpl; rewrite Z.mod_1_r; lia|].
  replace (10 ^ Z.of_nat (S n) / 10) with (10 ^ (Z.of_nat (S n) - 1)); [rewrite IH; lia|].
  rewrite Nat2Z.inj_succ, Z.pow_succ_r, Z.mul_comm, Z.div_mul by lia. f_equal. lia.
Qed.

Lemma digits_trim s acc : is_Some (digits s acc) -> is_Some (digits (trimZeros s) acc).
Proof.
  revert acc. induction s as [|c s IH]; intros acc; simpl; [done|]. intros [n Hn].
  destruct (_ && _); [by eexists|]. simpl. destruct (digit_of c) as [d|]; [|done]. apply IH. by exists n.
Qed.

Lemma digits_fixed n z acc : is_Some (digits (fixed n z) acc).
Proof.
  revert acc. induction n as [|n IH]; intros acc; [by eexists|]. simpl.
  rewrite digit_of_digitChar by (apply Z.mod_pos_bound; lia). apply IH.
Qed.

Lemma readFraction_back ns rest : 0 <= ns < 10 ^ 9 -> stops rest -> rest <> ""%string ->
  readFraction (fractionText ns +:+ rest) = Some (ns, rest).
Proof.
  intros H Hs Hr. unfold fractionText, readFraction. destruct (Z.eqb_spec ns 0) as [->|Hne].
  - change ("" +:+ rest) with rest. destruct rest as [|c rest]; [done|]. destruct Hs as [_ Hs]. unfold goesOn in Hs.
    rewrite !orb_false_iff in Hs. destruct Hs as [[Hs _] _]. cbn [after]. unfold eqc in *.
    rewrite Ascii.eqb_sym in Hs. by rewrite Hs.
  - rewrite <- string_append_assoc, after_cons. bound. set (ds := trimZeros (fixed 9 ns)).
    destruct (digits_trim _ 0 (digits_fixed 9 ns 0)) as [n Hn]. fold ds in Hn.
    rewrite (spanDigits_app ds 0 n rest Hn Hs).
    assert (fractionOf (10 ^ 8) ds = ns) as E.
    { unfold ds. rewrite fractionOf_trim. change (10 ^ 8) with (10 ^ (Z.of_nat 9 - 1)). rewrite fractionOf_fixed. by apply Z.mod_small. }
    destruct (String.eqb_spec ds "") as [Ed|_]; [by rewrite Ed in E|]. by rewrite E.
Qed.

Lemma readZone_back offset : Z.abs offset < 86400 -> offset mod 60 = 0 -> readZone (zoneText offset) = Some offset.
Proof.
  intros Ha Hm. unfold zoneText. destruct (Z.eqb_spec offset 0) as [->|Hne]; [done|].
  assert (0 <= Z.abs offset / 3600 < 24 /\ 0 <= Z.abs offset / 60 mod 60 < 60 /\
    Z.abs offset / 3600 * 3600 + Z.abs offset / 60 mod 60 * 60 = Z.abs offset) as (Hh & Hmm & E).
  { split_and!; Z.to_euclidean_division_equations; lia. }
  assert (forall rest, readFixed 2 0 (fixed 2 (Z.abs offset / 3600) +:+ rest) = Some (Z.abs offset / 3600, rest)) as R1
    by (intros; apply readFixed_small; lia).
  pose proof (readFixed_small 2 (Z.abs offset / 60 mod 60) "" ltac:(lia)) as R2. rewrite string_append_nil in R2.
  unfold readZone. destruct (Z.ltb_spec offset 0);
    match goal with |- context [String ?c "" +:+ ?x] => change (String c "" +:+ x) with (String c x) end;
    cbn [String.eqb Ascii.eqb Bool.eqb eqc mbind option_bind]; rewrite R1; bound;
    rewrite after_cons; bound; rewrite R2; bound;
    rewrite !(proj2 (Z.ltb_lt _ _)) by lia; cbn [String.eqb andb]; f_equal; lia.
Qed.

(** What is marshalled is unmarshalled to the same instant. *)
#[export] Instance rfc3339_laws zone : @TimeTextLaws (rfc3339 zone).
Proof.
  split. intros t (Hy & Ha & Hm). cbn [UnmarshalTime MarshalTime rfc3339]. unfold parseRfc3339, localText.
  rewrite readDate_back by done. bound. rewrite after_cons. bound.
  rewrite readClock_back by (apply Z.mod_pos_bound; lia). bound.
  assert (exists c s, zoneText (zone t) = String c s /\ digit_of c = None /\ goesOn (String c s) = false) as (c & s & Ez & Hc & Hg).
  { unfold zoneText. destruct (zone t =? 0); [by do 2 eexists|]. destruct (zone t <? 0); by do 2 eexists. }
  rewrite readFraction_back; [|apply Z.mod_pos_bound; lia|by rewrite Ez|by rewrite Ez]. bound.
  rewrite readZone_back by done. bound. f_equal.
  pose proof (Z.div_mod (localOf zone t) 86400 ltac:(lia)). pose proof (Z.div_mod t (10 ^ 9) ltac:(lia)). unfold localOf in *. lia.
Qed.
