(* ===== verification/Delivery.v ===== *)
(** * Delivery: what the agent posts is what the server checks

    The agent's side encodes a batch with [json.Marshal] and compresses it, the
    server's decompresses it and decodes it strictly.  Here both are the encoder and
    the decoder of [JsonText] and [Encoding], compression being the caller's. *)

From Stdlib Require Import ZArith Lia Ascii.
From stdpp Require Import prelude gmap strings numbers pretty sorting.
From S2P Require Import Export Prelude Wire Errors Filter Strconv Checks Conform Ingest Schema Json Encoding JsonText Rfc3339.

(** ** What comes back changed *)

Ltac exact_struct := eapply struct_norm_id; [vm_compute; reflexivity|apply _|by intros []].

Section exact.
Context `{!TimeText}.

#[export] Instance instant_norm_id : NormId instant_codec.
Proof. done. Qed.
#[export] Instance Broker_norm_id : NormId Broker_codec.
Proof. exact_struct. Qed.
#[export] Instance BrokerCapability_norm_id : NormId BrokerCapability_codec.
Proof. exact_struct. Qed.
#[export] Instance ClusterCapabilities_norm_id : NormId ClusterCapabilities_codec.
Proof. exact_struct. Qed.
#[export] Instance ClusterMetrics_norm_id : NormId ClusterMetrics_codec.
Proof. exact_struct. Qed.
#[export] Instance MaxTimestampOffset_norm_id : NormId MaxTimestampOffset_codec.
Proof. exact_struct. Qed.
#[export] Instance TieredOffsets_norm_id : NormId TieredOffsets_codec.
Proof. exact_struct. Qed.
#[export] Instance WindowOffset_norm_id : NormId WindowOffset_codec.
Proof. exact_struct. Qed.
#[export] Instance Partition_norm_id : NormId Partition_codec.
Proof. exact_struct. Qed.
#[export] Instance TopicMetrics_norm_id : NormId TopicMetrics_codec.
Proof. exact_struct. Qed.
#[export] Instance PartitionOffset_norm_id : NormId PartitionOffset_codec.
Proof. exact_struct. Qed.
#[export] Instance ConsumerOffset_norm_id : NormId ConsumerOffset_codec.
Proof. exact_struct. Qed.
#[export] Instance LogDirPartition_norm_id : NormId LogDirPartition_codec.
Proof. exact_struct. Qed.
#[export] Instance LogDir_norm_id : NormId LogDir_codec.
Proof. exact_struct. Qed.
#[export] Instance LatencyHistogram_norm_id : NormId LatencyHistogram_codec.
Proof. exact_struct. Qed.
#[export] Instance BrokerAPIRPC_norm_id : NormId BrokerAPIRPC_codec.
Proof. exact_struct. Qed.
#[export] Instance BrokerRPC_norm_id : NormId BrokerRPC_codec.
Proof. exact_struct. Qed.
#[export] Instance RPCStats_norm_id : NormId RPCStats_codec.
Proof. exact_struct. Qed.
#[export] Instance AgentStats_norm_id : NormId AgentStats_codec.
Proof. exact_struct. Qed.
#[export] Instance Section_norm_id : NormId Section_codec.
Proof. exact_struct. Qed.
#[export] Instance CollectionError_norm_id : NormId CollectionError_codec.
Proof. exact_struct. Qed.
#[export] Instance Truncation_norm_id : NormId Truncation_codec.
Proof. exact_struct. Qed.
#[export] Instance Selection_norm_id : NormId Selection_codec.
Proof. exact_struct. Qed.

Definition summary (g : GroupMetrics) : string * Z * nat := (g_ID g, g_MemberCount g, length (g_Members g)).

(** What the checks read of a batch. *)
Record agree (b b' : Batch) : Prop := {
  ag_envelope : (b_SchemaVersion b', b_AgentVersion b', b_AgentInstanceID b', b_BatchSeq b', b_CollectedAt b', b_CollectionMs b') =
    (b_SchemaVersion b, b_AgentVersion b, b_AgentInstanceID b, b_BatchSeq b, b_CollectedAt b, b_CollectionMs b);
  ag_cluster : b_Cluster b' = b_Cluster b;
  ag_topics : elems (b_Topics b') = elems (b_Topics b);
  ag_groups : summary <$> elems (b_Groups b') = summary <$> elems (b_Groups b);
  ag_offsets : elems (b_Offsets b') = elems (b_Offsets b);
  ag_dirs : elems (b_LogDirs b') = elems (b_LogDirs b);
  ag_rows : (b_Agent b', b_Sections b', b_Errors b', b_Truncation b', b_Selection b') =
    (b_Agent b, b_Sections b, b_Errors b, b_Truncation b, b_Selection b);
}.

Lemma agree_sym b b' : agree b b' -> agree b' b.
Proof. by intros []. Qed.

Lemma omitted_elems {A} (c : codec A) `{!NormId c} (o : slice A) :
  elems (if isEmpty (slice_codec c) o then zero (slice_codec c) else norm (slice_codec c) o) = elems o.
Proof. rewrite norm_id. by destruct o as [[|]|]. Qed.

Lemma summary_norm g : summary (norm GroupMetrics_codec g) = summary g.
Proof. unfold summary. destruct g. simpl. by rewrite length_fmap. Qed.

Lemma omitted_same {A} (c : codec A) `{!NormId c, !EmptyZero c} x : (if isEmpty c x then zero c else norm c x) = x.
Proof. rewrite norm_id. destruct (isEmpty c x) eqn:E; [|done]. by rewrite <- (empty_is_zero x E). Qed.

Lemma agree_norm b : agree b (norm Batch_codec b).
Proof.
  split.
  - reflexivity.
  - apply (omitted_same (ptr_codec ClusterMetrics_codec)).
  - apply (f_equal elems (norm_id (c := slice_codec TopicMetrics_codec) (b_Topics b))).
  - change (b_Groups (norm Batch_codec b)) with (norm (slice_codec GroupMetrics_codec) (b_Groups b)).
    destruct (b_Groups b) as [gs|]; [|done]. simpl. rewrite <- list_fmap_compose. apply list_fmap_ext.
    intros i g _. apply summary_norm.
  - apply (f_equal elems (norm_id (c := slice_codec ConsumerOffset_codec) (b_Offsets b))).
  - apply (omitted_elems LogDir_codec).
  - assert (b_Agent (norm Batch_codec b) = b_Agent b) as -> by apply (norm_id (c := AgentStats_codec)).
    assert (b_Sections (norm Batch_codec b) = b_Sections b) as -> by apply (norm_id (c := list_codec Section_codec)).
    assert (b_Errors (norm Batch_codec b) = b_Errors b) as -> by apply (omitted_same (list_codec CollectionError_codec)).
    assert (b_Truncation (norm Batch_codec b) = b_Truncation b) as -> by apply (omitted_same (ptr_codec Truncation_codec)).
    assert (b_Selection (norm Batch_codec b) = b_Selection b) as -> by apply (omitted_same (ptr_codec Selection_codec)).
    done.
Qed.
End exact.

Lemma Forall_summary l l' : summary <$> l' = summary <$> l -> Forall group_ok l -> Forall group_ok l'.
Proof.
  revert l'. induction l as [|g l IH]; intros [|g' l'] E Hl; try done. rewrite !fmap_cons in E. injection E as _ Ec El E.
  apply Forall_cons in Hl as [Hg Hl]. constructor; [|by apply IH]. unfold group_ok in *. congruence.
Qed.

Lemma conforms_agree cfg now key b b' : agree b b' -> conforms cfg now key b -> conforms cfg now key b'.
Proof.
  intros [Ee Ec Et Eg Eo Ed Er] [[] [] [] [] []].
  injection Ee as E1 E2 E3 E4 E5 E6. injection Er as E7 E8 E9 E10 E11.
  assert (g_ID <$> elems (b_Groups b') = g_ID <$> elems (b_Groups b)) as Ei.
  { apply (f_equal (fmap (fun x : string * Z * nat => x.1.1))) in Eg. by rewrite <- !list_fmap_compose in Eg. }
  split; split; try unfold idempotencyKey;
    rewrite ?E1, ?E2, ?E3, ?E4, ?E5, ?E6, ?E7, ?E8, ?E9, ?E10, ?E11, ?Ec, ?Et, ?Eo, ?Ed, ?Ei; try done.
  by eapply Forall_summary.
Qed.

Lemma conforms_norm `{!TimeText} cfg now key b : conforms cfg now key (norm Batch_codec b) <-> conforms cfg now key b.
Proof. split; apply conforms_agree; [apply agree_sym|]; apply agree_norm. Qed.

(** ** The text of a line *)

Lemma starts_with_head sps c s :
  forallb (fun sp => match sp with String d _ => negb (eqc d c) | EmptyString => false end) sps = true ->
  ~ starts_with sps (String c s).
Proof.
  intros Hf (sp & Hin & Hp). rewrite forallb_forall in Hf. specialize (Hf sp ltac:(by apply list_elem_of_In)).
  destruct sp as [|d sp]; [done|]. simpl in Hp. destruct (ascii_dec d c) as [->|]; [|done].
  unfold eqc in Hf. by rewrite Ascii.eqb_refl in Hf.
Qed.

Lemma strip_one sps i sp s : list_find (fun sp' => String.prefix sp' (sp +:+ s) = true) sps = Some (i, sp) ->
  sp <> ""%string -> ~ starts_with sps s -> strip sps (sp +:+ s) = s.
Proof.
  intros Hf Hn Hs. unfold strip. destruct (String.length (sp +:+ s)) as [|n] eqn:El; [by destruct sp|].
  cbn [stripLoop]. rewrite Hf, substring_append. destruct n as [|n]; [done|]. simpl.
  clear Hf. destruct (list_find _ sps) as [[j sp']|] eqn:E; [|done]. exfalso. apply Hs.
  apply list_find_Some in E as (Hi & Hp & _). exists sp'. split; [by eapply list_elem_of_lookup_2|exact Hp].
Qed.

Lemma TrimSpace_line m : TrimSpace ((String "{" (m +:+ "}")) +:+ newline) = String "{" (m +:+ "}").
Proof.
  unfold TrimSpace. rewrite (strip_fixed spaces).
  - rewrite rev_append. change (String "{" (m +:+ "}")) with ("{" +:+ (m +:+ "}")).
    rewrite string_append_assoc, rev_append.
    rewrite (strip_one _ 1 (String.rev newline)); [|reflexivity|done|by apply starts_with_head].
    by rewrite <- rev_append, rev_rev.
  - change (String "{" (m +:+ "}") +:+ newline) with (String "{" ((m +:+ "}") +:+ newline)). by apply starts_with_head.
Qed.

Lemma write_object l : exists m, write (JObj l) = String "{" (m +:+ "}").
Proof. rewrite write_obj. by eexists. Qed.

Lemma write_struct {A P} name fs (p : fields P) (to : A -> P) (from : P -> A) x :
  exists m, write (enc (struct_codec name fs p to from) x) = String "{" (m +:+ "}").
Proof. apply (write_object (members (tagsOf fs) (fs_enc p (to x)))). Qed.

Lemma write_batch `{!TimeText} b : exists m, write (enc Batch_codec b) = String "{" (m +:+ "}").
Proof. unfold Batch_codec. apply write_struct. Qed.

(** ** The two sides *)

Section sides.
Context `{!TimeText} (gz : string -> goerr + string).

(** The agent's encoder. *)
Definition json_codec : Codec := {| Marshal b := inr (write (enc Batch_codec b)); gzip := gz |}.

(** The server's decoder, the rest of its libraries being given. *)
Definition json_decoders (d : Decoders) : Decoders := {|
  ParseMediaType := @ParseMediaType d;
  gzipHeader := @gzipHeader d;
  gzipBody := @gzipBody d;
  gzipClose := @gzipClose d;
  sha256hex := @sha256hex d;
  DecodeBatch raw := '(j, rest) ← read raw; b ← dec Batch_codec j; Some (b, more rest);
  savedNothing := @savedNothing d;
  MarshalFailures := @MarshalFailures d;
|}.

(** What the libraries promise: a compressed text decompresses, and the media type
    the exporter names is read. *)
Class Unzips (d : Decoders) : Prop := {
  unzips s body : gz s = inr body ->
    @gzipHeader d body = None /\ @gzipBody d body = (s, None) /\ @gzipClose d body = None;
  media_type : @ParseMediaType d "application/json" = Some "application/json"%string;
}.
End sides.

(** The request [send] makes of a queued batch, as the server receives it. *)
Definition posted (path apiKey : string) (q : queued) : HTTPRequest :=
  mkRequest "POST" path apiKey "application/json" (q_key q) (len_ (q_body q)) "gzip" (q_body q, None).

(** ** A posted batch, on the server *)

Section posted.
Context `{!MapRange, !MapRangeLaws, !TimeText, !TimeTextLaws, D : !Decoders}.
Context (gz : string -> goerr + string) `{!Unzips gz D} (cfg : Config) `{!Plain cfg}.
#[local] Existing Instance json_decoders.

Definition batchLine (b : Batch) : string := write (enc Batch_codec b) +:+ newline.

Lemma idempotencyKey_not_empty b : idempotencyKey b <> ""%string.
Proof. unfold idempotencyKey. case_match; [done|]. by destruct (b_AgentInstanceID b). Qed.

Lemma transport_passes apiKey q res c :
  APIKey cfg = ""%string \/ APIKey cfg = apiKey -> q_key q <> ""%string ->
  @checkTransport (json_decoders D) cfg (posted (Path cfg) apiKey q) res c = ((true, set_key (q_key q) res), c).
Proof.
  intros Ha Hk. unfold checkTransport, posted. cbn [rq_Method rq_Path rq_APIKey rq_ContentType rq_Key rq_ContentLength].
  rewrite !String.eqb_refl. cbn [negb].
  assert (negb (String.eqb (APIKey cfg) "") && negb (String.eqb apiKey (APIKey cfg)) = false) as ->.
  { destruct Ha as [->| ->]; [done|]. by rewrite String.eqb_refl, andb_false_r. }
  cbn [ParseMediaType json_decoders]. rewrite (media_type gz), bool_decide_eq_true_2 by done.
  rewrite (proj2 (String.eqb_neq _ _) Hk). replace (len_ (q_body q) <? 0) with false; [reflexivity|]. symmetry. apply Z.ltb_ge. apply Nat2Z.is_nonneg.
Qed.

Lemma readAll_short limit s : len_ s <= limit -> readAll limit (s, None) = (s, None).
Proof. intros Hl. unfold readAll. simpl. by rewrite (proj2 (Z.ltb_ge _ _) Hl). Qed.

Lemma readAll_long limit s : limit < len_ s -> readAll limit (s, None) = (String.substring 0 (Z.to_nat (limit + 1)) s, None).
Proof. intros Hl. unfold readAll. simpl. by rewrite (proj2 (Z.ltb_lt _ _) Hl). Qed.

Lemma length_substring_le n s : (n <= String.length s)%nat -> String.length (String.substring 0 n s) = n.
Proof.
  revert n. induction s as [|a s IH]; intros [|n] Hn; simpl in *; try lia. f_equal. apply IH. lia.
Qed.

(** One byte more than the limit shows that the body is too large. *)
Lemma len_substring limit s : limit < len_ s -> limit < len_ (String.substring 0 (Z.to_nat (limit + 1)) s).
Proof. unfold len_. intros Hl. rewrite length_substring_le; lia. Qed.

(** The line decodes to the batch, an optional empty slice being nil. *)
Lemma decode_line b : wf Batch_codec b -> @DecodeBatch (json_decoders D) (batchLine b) = Some (norm Batch_codec b, false).
Proof.
  intros Hw. unfold batchLine. cbn [DecodeBatch json_decoders]. rewrite read_write_then by done. cbn [mbind option_bind].
  rewrite (dec_enc (c := Batch_codec) b Hw). done.
Qed.

(** What is left of a request whose batch was decoded. *)
Record received (b : Batch) (res : result) : Prop := {
  rc_raw : re_raw res = batchLine b;
  rc_hash : re_hash res = @sha256hex D (batchLine b);
  rc_batch : re_batch res = Some (norm Batch_codec b);
  rc_key : re_key res = idempotencyKey b;
  rc_instance : re_instance res = b_AgentInstanceID b;
  rc_seq : re_seq res = b_BatchSeq b;
}.

Lemma body_decodes b body path apiKey key res c : wf Batch_codec b -> gz (batchLine b) = inr body ->
  len_ body <= MaxBodyBytes cfg -> len_ (batchLine b) <= MaxBodyBytes cfg ->
  exists res' c', @decodeBody (json_decoders D) cfg (posted path apiKey (mkQueued body (b_BatchSeq b) (b_CollectedAt b) key)) res c =
    ((true, set_batch (norm Batch_codec b) res'), c') /\ re_key res' = re_key res /\ re_raw res' = batchLine b /\
    re_hash res' = @sha256hex D (batchLine b) /\ fatals (out c') = fatals (out c).
Proof.
  intros Hw Hz Hb Hl. destruct (unzips gz (batchLine b) body Hz) as (Hh & Hd & Hc).
  set (r := whenM ((0 <? len_ (batchLine b)) && @savedNothing D (len_ body) (len_ (batchLine b))) (warn cfg 0 "transport.compression_ratio" "")).
  unfold decodeBody, posted. cbn [rq_Body q_body rq_Encoding]. rewrite readAll_short by done. cbv beta iota zeta.
  rewrite (proj2 (Z.ltb_ge _ _) Hb). rewrite St_bind_eq.
  assert (@decompress (json_decoders D) cfg "gzip" body c = ((Some (batchLine b), true), (r c).2)) as ->.
  { unfold decompress. cbn [String.eqb Ascii.eqb Bool.eqb gzipHeader gzipBody gzipClose json_decoders]. rewrite Hh, Hd, Hc.
    rewrite readAll_short by done. cbv beta iota. rewrite (proj2 (Z.ltb_ge _ _) Hl). by rewrite St_bind_eq. }
  cbv beta iota zeta. cbn [fst snd].
  destruct (write_batch b) as [m Em].
  assert (TrimSpace (batchLine b) = String "{" (m +:+ "}")) as -> by (unfold batchLine; rewrite Em; apply TrimSpace_line).
  assert (String.prefix "{" (String "{" (m +:+ "}")) = true) as -> by (by destruct m).
  cbn [String.eqb negb]. cbv beta iota. rewrite decode_line by done. cbv beta iota.
  do 2 eexists. split; [reflexivity|]. split; [done|]. split; [done|]. split; [done|].
  subst r. cbn [whenM]. destruct (whenM_oblivious ((0 <? len_ (batchLine b)) && @savedNothing D (len_ body) (len_ (batchLine b)))
    (warn cfg 0 "transport.compression_ratio" "") _ c) as [_ E]. rewrite E, codes_warns, app_nil_r by apply _. done.
Qed.

(** The server takes the request: its key is the server's and its body no larger
    than allowed, compressed or not. *)
Definition admissible (apiKey body : string) (b : Batch) : Prop :=
  len_ body <= MaxBodyBytes cfg /\ len_ (batchLine b) <= MaxBodyBytes cfg /\
  (APIKey cfg = ""%string \/ APIKey cfg = apiKey).

#[export] Instance admissible_dec apiKey body b : Decision (admissible apiKey body b).
Proof. unfold admissible. apply _. Defined.

Lemma posted_passes now n apiKey body b seen : wf Batch_codec b -> gz (batchLine b) = inr body -> admissible apiKey body b ->
  exists res c,
    @checkRequest (json_decoders D) cfg _ now (posted (Path cfg) apiKey (queuedOf body b)) n (mkChecker seen []) = ((true, res), c) /\
    received b res /\ (fatals (out c) = [] <-> conforms cfg now (idempotencyKey b) b).
Proof.
  intros Hw Hz (Hb & Hl & Ha).
  destruct (body_decodes b body (Path cfg) apiKey (idempotencyKey b) (set_key (idempotencyKey b) (newResult n))
    (mkChecker seen []) Hw Hz Hb Hl) as (res & c & E & Hk & Hr & Hh & Hf).
  unfold checkRequest. rewrite St_bind_eq, transport_passes by (done || apply idempotencyKey_not_empty).
  cbn [fst snd negb]. rewrite St_bind_eq. unfold queuedOf in *.
  change (Export.idempotencyKey b) with (idempotencyKey b). cbn [q_key]. rewrite E. cbn [fst snd negb re_batch set_batch].
  rewrite St_bind_eq. do 2 eexists. split; [reflexivity|]. split; [by split|].
  set (seq := re_seq (set_batch (norm Batch_codec b) res)). cbn [re_key set_batch]. rewrite Hk. cbn [re_key set_key].
  rewrite <- (conforms_norm cfg now _ b), <- (checkBatch_ok cfg now seq).
  destruct (checkBatch_oblivious cfg now seq (idempotencyKey b) (norm Batch_codec b) c) as [_ E'].
  cbn [fst snd]. rewrite E', Hf. done.
Qed.

Lemma fatals_failStatus st code path c : fatals (out (failStatus cfg 0 st code path c).2) <> [].
Proof.
  destruct (failStatus_oblivious cfg 0 st code path c) as [_ ->]. unfold codes, failStatus, emit.
  rewrite (plain_warn (cfg := cfg)). by destruct (fatals (out c)).
Qed.

(** A request the server does not take is refused. *)
Lemma posted_refused now n apiKey body b seen : gz (batchLine b) = inr body -> ~ admissible apiKey body b ->
  exists res c,
    @checkRequest (json_decoders D) cfg _ now (posted (Path cfg) apiKey (queuedOf body b)) n (mkChecker seen []) = ((false, res), c) /\
    fatals (out c) <> [].
Proof.
  intros Hz Hn. unfold checkRequest. rewrite St_bind_eq.
  destruct (base.decide (APIKey cfg = ""%string \/ APIKey cfg = apiKey)) as [Ha|Ha].
  2: { unfold checkTransport, posted. cbn [rq_Method rq_Path rq_APIKey]. rewrite !String.eqb_refl. cbn [negb].
       assert (negb (String.eqb (APIKey cfg) "") && negb (String.eqb apiKey (APIKey cfg)) = true) as ->.
       { apply andb_true_iff. rewrite !negb_true_iff, !String.eqb_neq. split; [tauto|]. intros ->. tauto. }
       rewrite St_bind_eq. do 2 eexists. split; [reflexivity|]. apply fatals_failStatus. }
  rewrite transport_passes by (done || apply idempotencyKey_not_empty). cbn [fst snd negb]. rewrite St_bind_eq.
  unfold decodeBody, posted, queuedOf. cbn [rq_Body q_body rq_Encoding].
  destruct (Z.ltb_spec (MaxBodyBytes cfg) (len_ body)) as [Hb|Hb].
  { rewrite readAll_long by done. cbv beta iota zeta. rewrite (proj2 (Z.ltb_lt _ _) (len_substring _ _ Hb)).
    rewrite St_bind_eq. do 2 eexists. split; [reflexivity|]. apply fatals_failStatus. }
  rewrite readAll_short by done. cbv beta iota zeta. rewrite (proj2 (Z.ltb_ge _ _) Hb), St_bind_eq.
  assert (MaxBodyBytes cfg < len_ (batchLine b)) as Hl.
  { apply Z.lt_nge. intros Hl. by apply Hn. }
  destruct (unzips gz (batchLine b) body Hz) as (Hh & Hd & Hc).
  assert (exists c, @decompress (json_decoders D) cfg "gzip" body (mkChecker seen []) = ((None, true), c) /\ fatals (out c) <> [])
    as (c & -> & Hf).
  { unfold decompress. cbn [String.eqb Ascii.eqb Bool.eqb gzipHeader gzipBody gzipClose json_decoders]. rewrite Hh, Hd, Hc.
    rewrite readAll_long by done. cbv beta iota. rewrite (proj2 (Z.ltb_lt _ _) (len_substring _ _ Hl)), St_bind_eq.
    eexists. split; [reflexivity|]. apply fatals_failStatus. }
  do 2 eexists. split; [reflexivity|exact Hf].
Qed.
End posted.

Lemma encodeBody_line `{!TimeText} gz b body : @encodeBody (json_codec gz) (Some b) = inr body <-> gz (batchLine b) = inr body.
Proof.
  unfold encodeBody. cbn [encodeLine Marshal gzip json_codec]. change (write (enc Batch_codec b) ++ newline)%string with (batchLine b).
  destruct (gz (batchLine b)); naive_solver.
Qed.

Lemma batchLine_norm `{!TimeText, !TimeTextLaws} b : batchLine (norm Batch_codec b) = batchLine b.
Proof. unfold batchLine. by rewrite (enc_norm (c := Batch_codec) b). Qed.

(** C6: what the agent posts is what the server checks.  A batch whose numbers are
    of their width and whose texts are UTF-8, encoded and compressed by the exporter
    and posted with its headers, is decompressed to the same line and decoded to the
    same batch, but that an optional empty slice is nil, which encodes to the same
    body; the transport, the strict decoder and the trailing-data check report
    nothing fatal, and the request has no fatal failure exactly when the batch that
    was encoded conforms under its key. *)
Theorem posted_batch_checked
    `{!MapRange, !MapRangeLaws, !TimeText, !TimeTextLaws, D : !Decoders} (gz : string -> goerr + string) `{!Unzips gz D}
    (cfg : Config) `{!Plain cfg} (now n : Z) (apiKey body : string) (b : Batch) (seen : gset string) :
  wf Batch_codec b -> @encodeBody (json_codec gz) (Some b) = inr body ->
  len_ body <= MaxBodyBytes cfg -> len_ (batchLine b) <= MaxBodyBytes cfg ->
  APIKey cfg = ""%string \/ APIKey cfg = apiKey ->
  exists res c,
    @checkRequest (json_decoders D) cfg _ now (posted (Path cfg) apiKey (queuedOf body b)) n (mkChecker seen []) = ((true, res), c) /\
    re_raw res = batchLine b /\ re_batch res = Some (norm Batch_codec b) /\
    @encodeBody (json_codec gz) (Some (norm Batch_codec b)) = inr body /\
    ((forall f, f ∈ out c -> f_Severity f = SeverityWarn) <-> conforms cfg now (idempotencyKey b) b).
Proof.
  intros Hw He Hb Hl Ha. pose proof (proj1 (encodeBody_line gz b body) He) as Hz.
  destruct (posted_passes gz cfg now n apiKey body b seen Hw Hz (conj Hb (conj Hl Ha))) as (res & c & E & [Hr _ Hb' _ _ _] & Hc).
  exists res, c. split; [exact E|]. split; [exact Hr|]. split; [exact Hb'|].
  split; [by rewrite encodeBody_line, batchLine_norm|]. by rewrite <- fatals_nil, Hc.
Qed.

(** ** A batch on its way *)

(** A host in UTC. *)
Definition utc : TimeText := rfc3339 (fun _ => 0).

Lemma plain_unzips : @Unzips inr demo_decoders.
Proof. split; [|done]. by intros s body [= ->]. Qed.

#[export] Instance utc_years t : Decision (@year_ok utc t).
Proof. cbn. apply _. Defined.

#[export] Instance Batch_wf_dec : WfDec (@Batch_codec utc).
Proof. apply _. Defined.

Lemma demo_well_formed : wf (@Batch_codec utc) (demo_batch 7).
Proof. apply (bool_decide_unpack _). vm_compute. exact I. Qed.

Theorem posted_batch_checked_witness : exists res c,
  @checkRequest (@json_decoders utc demo_decoders) demo_config listed_range 2000
    (posted "/v1/batches" "" (queuedOf (@batchLine utc (demo_batch 7)) (demo_batch 7))) 1 (mkChecker ∅ []) = ((true, res), c) /\
  re_batch res = Some (demo_batch 7) /\ forall f, f ∈ out c -> f_Severity f = SeverityWarn.
Proof.
  destruct (@posted_batch_checked listed_range listed_range_laws utc (rfc3339_laws _) demo_decoders inr plain_unzips
    demo_config demo_plain 2000 1 "" (@batchLine utc (demo_batch 7)) (demo_batch 7) ∅) as (res & c & E & _ & Hb & _ & Hc).
  - exact demo_well_formed.
  - reflexivity.
  - vm_compute. discriminate.
  - vm_compute. discriminate.
  - by left.
  - exists res, c. split; [exact E|]. split; [rewrite Hb; vm_compute; reflexivity|]. apply Hc.
    apply (@checkBatch_ok listed_range listed_range_laws demo_config 2000 1 demo_plain "a-1" (demo_batch 7)).
    vm_compute. reflexivity.
Defined.
