(* ===== verification/Console.v ===== *)
(** * Console: the ingest server's other routes and its dumps
    ([internal/mockingest/server.go], [report.go])

    What the server answers outside the ingest path, and the figures and file names
    it prints.  [json.Compact], on which the encoder of a [json.RawMessage] relies,
    and the decoder of a posted [Faults] are the class [ControlJSON].  The lines of
    the console are in [Report]. *)

From Stdlib Require Import ZArith Lia Ascii SpecFloat.
From stdpp Require Import prelude gmap strings numbers pretty sorting.
From S2P Require Import Export Prelude Wire Errors Filter Strconv Checks Conform Ingest Schema Json JsonText.

(** ** Figures *)

(** The index is into a slice: [None] is the panic. *)
Definition percentile (sorted : list Z) (p : Z) : option Z :=
  match sorted with
  | [] => Some 0
  | _ :: _ =>
      let i := Z.quot (p * (Z.of_nat (length sorted) - 1)) 100 in
      if i <? 0 then None else sorted !! Z.to_nat i
  end.

(** [%.1f] of [n / 2^k], a tie going to the even digit; [float64(n)] is [n] below
    2^53. *)
Definition tenths (n k : Z) : Z :=
  let q := n * 10 / 2 ^ k in
  let r := n * 10 - q * 2 ^ k in
  if (2 ^ k <? 2 * r) || ((2 * r =? 2 ^ k) && Z.odd q) then q + 1 else q.

Definition inTenths (t : Z) : string := pretty (t / 10) +:+ "." +:+ pretty (t mod 10).

Definition humanBytes (n : Z) : string :=
  if 2 ^ 20 <=? n then inTenths (tenths n 20) +:+ "MB"
  else if 2 ^ 10 <=? n then inTenths (tenths n 10) +:+ "KB"
  else pretty n +:+ "B".

(** ** File names *)

Definition safeByte (c : ascii) : bool :=
  let n := byte_of c in
  ((97 <=? n) && (n <=? 122)) || ((65 <=? n) && (n <=? 90)) || ((48 <=? n) && (n <=? 57)) || (n =? 45) || (n =? 95).

(** The bytes that follow the first of a character. *)
Fixpoint continues (n : nat) (lo hi : Z) (s : string) : bool :=
  match n, s with
  | O, _ => true
  | S n, String c s => (lo <=? byte_of c) && (byte_of c <=? hi) && continues n 128 191 s
  | S _, EmptyString => false
  end.

(** How many more bytes the character has; a byte that starts none stands by itself. *)
Definition runeTail (c : ascii) (s : string) : nat :=
  match utf8_lead (byte_of c) with Some (n, lo, hi) => if continues n lo hi s then n else 0 | None => 0 end.

(** [strings.Map]: one byte for each character. *)
Fixpoint mapRunes (skip : nat) (s : string) : string :=
  match s with
  | EmptyString => EmptyString
  | String c s =>
      match skip with
      | S skip => mapRunes skip s
      | O => String (if safeByte c then c else "_"%char) (mapRunes (runeTail c s) s)
      end
  end.

Definition sanitize (s : string) : string := if String.eqb s "" then "nokey" else mapRunes 0 s.

(** The name of the file [dumpFailure] writes in [FailDir]; none without a directory
    or a body. *)
Definition dumpName (failDir : string) (res : result) : option string :=
  if String.eqb failDir "" || (len_ (re_raw res) =? 0) then None
  else Some ("fail-" +:+ pretty (re_n res) +:+ "-" +:+ sanitize (re_key res) +:+ ".json").

(** ** Faults, in words *)

Definition armed (f : Faults) : bool :=
  (0 <? FailFirst f) || (0 <? EveryNth f) || (0 <? DelayMS f) || (0 <? DropEvery f) || (0 <? DropFirst f) || (0 <? TerminalOnce f).

Definition fault_String (f : fault) : string :=
  match ft_kind f with
  | faultDrop => "dropping connection (" +:+ ft_reason f +:+ ")"
  | faultStatus =>
      if 0 <? ft_retryAfter f then
        "injecting " +:+ pretty (ft_status f) +:+ " Retry-After: " +:+ pretty (ft_retryAfter f) +:+ " (" +:+ ft_reason f +:+ ")"
      else "injecting " +:+ pretty (ft_status f) +:+ " (" +:+ ft_reason f +:+ ")"
  | faultNone => "delaying " +:+ Duration_String (ft_delay f) +:+ " (" +:+ ft_reason f +:+ ")"
  end.

(** ** Routes

    [ServeMux] as Go 1.22 and later have it.  Its patterns may hold wildcards, escapes
    and a method; [New] gives it [Path] unchecked, so a path that uses one of these is
    outside the model, as is a request's path with an escape; [dispatch] says nothing
    of these. *)

(** [RRedirect]: the multiplexer answers itself, with the path it would have taken. *)
Inductive route := RIngest | RHealthz | RStats | RBatches | RControl | RReset | RUnknown | RRedirect.

(** What [New] registers, in its order: [HandleFunc] panics on a pattern that is
    there already. *)
Definition registered (cfg : Config) : list (string * route) :=
  [(Path cfg, RIngest); ("/healthz", RHealthz); ("/stats", RStats); ("/batches", RBatches); ("/control", RControl);
   ("/control/reset", RReset); ("/", RUnknown)]%string.

Definition endsSlash (s : string) : bool := String.prefix "/" (String.rev s).

(** A pattern that ends in a slash takes what starts with it, any other one path. *)
Definition matches (pattern path : string) : bool :=
  if endsSlash pattern then String.prefix pattern path else String.eqb pattern path.

(** [strings.Split(s, "/")]. *)
Fixpoint segments (s acc : string) : list string :=
  match s with
  | EmptyString => [String.rev acc]
  | String c s => if bool_decide (c = "/"%char) then String.rev acc :: segments s "" else segments s (String c acc)
  end.

(** [path.Clean] leaves the path as it is, up to a slash at its end. *)
Definition clean (s : string) : bool :=
  match segments s "" with
  | first :: rest =>
      String.eqb first "" && bool_decide (rest <> []) &&
      forallb (fun seg => negb (String.eqb seg "")) (removelast rest) &&
      forallb (fun seg => negb (String.eqb seg "." || String.eqb seg "..")) rest
  | [] => false
  end.

(** No wildcard, no escape, and no space, which would end a method. *)
Definition literalByte (c : ascii) : bool :=
  negb (bool_decide (c ∈ ["{"; "}"; "%"; " "; ascii_of_nat 9]%char)).

Fixpoint all_bytes (p : ascii -> bool) (s : string) : bool :=
  match s with EmptyString => true | String c s => p c && all_bytes p s end.

Definition plain (pattern : string) : bool := all_bytes literalByte pattern && clean pattern.

(** A path on a request's line whose segments are what they say: one with an escape
    is matched after it is decoded. *)
Definition unescaped (path : string) : bool :=
  String.prefix "/" path && all_bytes (fun c => negb (bool_decide (c = "%"%char))) path.

(** The longest pattern that takes the path, unless the path is not clean, or only
    lacks the slash at the end of a pattern.  The path is the one of the request's
    line; the method is not CONNECT, for which the multiplexer cleans nothing. *)
Definition dispatch (cfg : Config) (path : string) : option route :=
  let better (best : option (string * route)) (e : string * route) :=
    if matches e.1 path then
      match best with
      | Some b => if (String.length b.1 <? String.length e.1)%nat then Some e else best
      | None => Some e
      end
    else best in
  if negb (plain (Path cfg) && unescaped path) then None
  else if negb (clean path) then Some RRedirect
  else
    let '(exact, r) := match foldl better None (registered cfg) with
                       | Some e => (String.eqb e.1 path, e.2)
                       | None => (false, RUnknown)
                       end in
    if negb exact && existsb (fun e => String.eqb e.1 (path +:+ "/")) (registered cfg) then Some RRedirect else Some r.

(** ** Answers *)

Class ControlJSON := {
  compactJSON : string -> option string;        (* json.Compact, none on a text that is not JSON *)
  DecodeFaults : string -> string + Faults;     (* the error's text, or the faults *)
}.

Record reply := mkReply { rp_Status : Z; rp_Type : string; rp_Body : string }.

Definition StatusOK : Z := 200.

(** An encoder that fails writes nothing, and its error is dropped. *)
Definition writeJSON (status : Z) (body : option string) : reply :=
  mkReply status "application/json" (match body with Some b => b +:+ newline | None => "" end).

Definition message (key text : string) : option string := Some (write (JObj [(key, JStr text)])).

Definition faults_json (f : Faults) : json :=
  JObj [("fail_first", JNum (FailFirst f)); ("fail_status", JNum (FailStatus f)); ("every_nth", JNum (EveryNth f));
        ("every_nth_status", JNum (EveryNthStatus f)); ("retry_after_sec", JNum (RetryAfterSec f));
        ("delay_ms", JNum (DelayMS f)); ("delay_first", JNum (DelayFirst f)); ("drop_every", JNum (DropEvery f));
        ("drop_first", JNum (DropFirst f)); ("terminal_once", JNum (TerminalOnce f))]%string.

(** A conversion to binary64, and one back, which truncates. *)
Definition float64 (n : Z) : spec_float := binary_normalize 53 1024 n 0 false.

Definition int64 (x : spec_float) : Z :=
  match x with
  | S754_finite s m e => (if s then -1 else 1) * (if 0 <=? e then Z.pos m * 2 ^ e else Z.pos m / 2 ^ (- e))
  | _ => 0
  end.

(** [Duration.Seconds]. *)
Definition Seconds (d : Z) : spec_float :=
  SFadd 53 1024 (float64 (Z.quot d Second)) (SFdiv 53 1024 (float64 (Z.rem d Second)) (float64 Second)).

Definition UptimeSec (uptime : Z) : Z := int64 (Seconds uptime).

(** The last nanosecond of a second is rounded up once a server has run long enough. *)
Example uptimes : UptimeSec (65 * Second + 999999999) = 65 /\ UptimeSec 0 = 0 /\ UptimeSec 999999999 = 0 /\
  UptimeSec (2 ^ 24 * Second + 999999999) = 2 ^ 24 + 1 /\ UptimeSec (2 ^ 24 * Second + 999999990) = 2 ^ 24.
Proof. by vm_compute. Qed.

(** [Stats()]; the uptime is what the clock makes it, in nanoseconds. *)
Definition stats_json (uptime : Z) (s : Server) : json :=
  let t := sv_stats s in
  JObj [("uptime_sec", JNum (UptimeSec uptime)); ("requests", JNum (st_Requests t)); ("ok", JNum (st_OK t));
        ("accepted", JNum (st_Accepted t)); ("fatal", JNum (st_Fatal t)); ("warn", JNum (st_Warn t));
        ("duplicates", JNum (st_Duplicates t)); ("seq_gaps", JNum (st_SeqGaps t));
        ("faults_injected", JNum (st_FaultsInjected t)); ("instances", JNum (Z.of_nat (size (sv_instances s))));
        ("bytes_wire", JNum (st_BytesWire t)); ("bytes_decoded", JNum (st_BytesDecoded t))]%string.

Definition handleHealthz : reply := mkReply StatusOK "text/plain" ("ok" +:+ newline).
Definition handleStats (uptime : Z) (s : Server) : reply := writeJSON StatusOK (Some (write (stats_json uptime s))).

(** A copy made by appending to nil: nil when there is none. *)
Definition Batches (s : Server) : slice string := match sv_bodies s with [] => None | l => Some l end.

Section handlers.
Context `{!ControlJSON}.

(** The array of the bodies as they came, but for their white space. *)
Definition bodies_text (bodies : slice string) : option string :=
  match bodies with
  | None => Some "null"%string
  | Some l => (fun l => "[" +:+ commas l +:+ "]") <$> mapM compactJSON l
  end.

Definition handleBatches (query : string) (s : Server) : reply :=
  let bodies := Batches s in
  if String.eqb query "" then writeJSON StatusOK (bodies_text bodies)
  else match Atoi query with
       | None => writeJSON StatusBadRequest (message "error" "n must be a non-negative integer")
       | Some n =>
           if n <? 0 then writeJSON StatusBadRequest (message "error" "n must be a non-negative integer")
           else if n <? len bodies then
             writeJSON StatusOK (bodies_text (drop (Z.to_nat (len bodies - n)) <$> bodies))
           else writeJSON StatusOK (bodies_text bodies)
       end.

Definition control_json (uptime : Z) (s : Server) : json :=
  JObj [("faults", faults_json (sv_faults s)); ("stats", stats_json uptime s)]%string.

(** The body is read up to 64 KiB. *)
Definition handleControl (method body : string) (uptime : Z) (s : Server) : reply * Server :=
  if String.eqb method "POST" then
    match DecodeFaults (String.substring 0 (2 ^ 16) body) with
    | inl err => (writeJSON StatusBadRequest (message "error" err), s)
    | inr f => let s' := SetFaults f s in (writeJSON StatusOK (Some (write (control_json uptime s'))), s')
    end
  else (writeJSON StatusOK (Some (write (control_json uptime s))), s).

Definition handleReset (s : Server) : reply * Server := (writeJSON StatusOK (message "status" "reset"), Reset s).

Definition handleUnknown (cfg : Config) (method path : string) : reply :=
  writeJSON StatusNotFound (message "error" ("no route " +:+ method +:+ " " +:+ path +:+ "; ingest is POST " +:+ Path cfg)).

(** A request to any route but the ingest's; nothing when no handler of the console
    answers it. *)
Record ControlRequest := mkControl { cr_Method : string; cr_Path : string; cr_N : string; cr_Body : string }.

Definition serveControl (cfg : Config) (r : ControlRequest) (uptime : Z) (s : Server) : option (reply * Server) :=
  match dispatch cfg (cr_Path r) with
  | Some RHealthz => Some (handleHealthz, s)
  | Some RStats => Some (handleStats uptime s, s)
  | Some RBatches => Some (handleBatches (cr_N r) s, s)
  | Some RControl => Some (handleControl (cr_Method r) (cr_Body r) uptime s)
  | Some RReset => Some (handleReset s)
  | Some RUnknown => Some (handleUnknown cfg (cr_Method r) (cr_Path r), s)
  | Some RIngest | Some RRedirect | None => None
  end.
End handlers.

(** ** Lemmas on the figures *)

Lemma count_perm {A} (p : A -> bool) l k : l ≡ₚ k -> count p l = count p k.
Proof. intros E. unfold count. by rewrite E. Qed.

(** An element of a sorted list parts it. *)
Lemma sorted_parts (sizes : list Z) i v : sort_slice Z.ltb sizes !! i = Some v -> exists l1 l2,
  sort_slice Z.ltb sizes = l1 ++ v :: l2 /\ length l1 = i /\ (forall x, x ∈ l1 -> x <= v) /\ (forall x, x ∈ l2 -> v <= x).
Proof.
  intros Hi. exists (take i (sort_slice Z.ltb sizes)), (drop (S i) (sort_slice Z.ltb sizes)).
  pose proof (sort_slice_sorted Z.ltb sizes) as Hs. rewrite <- (take_drop_middle _ _ _ Hi) in Hs.
  apply StronglySorted_app in Hs as (H12 & _ & Hs). split; [by rewrite take_drop_middle|].
  split; [apply lookup_lt_Some in Hi; rewrite length_take; lia|].
  assert (forall a b, not_less Z.ltb a b -> a <= b) as Hle by (intros a b ?%not_less_spec; lia).
  split; intros x Hx.
  - apply Hle, H12; [done|by left].
  - apply StronglySorted_inv in Hs as [_ Hf]. rewrite list.Forall_forall in Hf. by apply Hle, Hf.
Qed.

(** ** Lemmas on the names *)

Lemma all_bytes_app p s t : all_bytes p (s +:+ t) = all_bytes p s && all_bytes p t.
Proof. induction s as [|c s IH]; [done|]. change (String c s +:+ t) with (String c (s +:+ t)). simpl. by rewrite IH, andb_assoc. Qed.

Lemma mapRunes_safe s : forall skip, all_bytes safeByte (mapRunes skip s) = true.
Proof. induction s as [|c s IH]; intros [|skip]; simpl; rewrite ?IH; try done. by destruct (safeByte c) eqn:E; rewrite ?E. Qed.

Lemma sanitize_safe s : all_bytes safeByte (sanitize s) = true.
Proof. unfold sanitize. destruct (String.eqb s ""); [done|apply mapRunes_safe]. Qed.

(** A character of the set is one byte. *)
Lemma safe_single c s : safeByte c = true -> runeTail c s = 0%nat.
Proof.
  pose proof (forall_ascii (fun c => negb (safeByte c) || match utf8_lead (byte_of c) with Some (O, _, _) => true | _ => false end)
    ltac:(vm_compute; reflexivity) c) as Hc. intros Hs. cbv beta in Hc. rewrite Hs in Hc. cbn [negb orb] in Hc.
  unfold runeTail. destruct (utf8_lead (byte_of c)) as [[[[|n] lo] hi]|]; done.
Qed.

Lemma mapRunes_fixed s : all_bytes safeByte s = true -> mapRunes 0 s = s.
Proof.
  induction s as [|c s IH]; simpl; [done|]. intros [Hc Hs]%andb_true_iff. by rewrite Hc, (safe_single c s Hc), IH.
Qed.

Lemma digits_safe s acc n : digits s acc = Some n -> all_bytes safeByte s = true.
Proof.
  revert acc. induction s as [|c s IH]; intros acc Hd; [done|]. simpl in *.
  destruct (digit_of c) as [d|] eqn:Ec; [|done]. rewrite (IH _ Hd), andb_true_r.
  pose proof (forall_ascii (fun c => negb (if digit_of c then true else false) || safeByte c) ltac:(vm_compute; reflexivity) c) as Hc.
  cbv beta in Hc. by rewrite Ec in Hc.
Qed.

(** ** Lemmas on the rings *)

Definition lastN {A} (n : nat) (l : list A) : list A := drop (length l - n) l.

Lemma ring_lastN {A} n (l : list A) x : (0 < n)%nat -> ring n (lastN n l) x = lastN n (l ++ [x]).
Proof.
  intros Hn. unfold ring, lastN. rewrite !length_app, length_drop. simpl length. destruct (Nat.ltb_spec n (length l - (length l - n) + 1)%nat).
  - rewrite <- drop_app_le by lia. rewrite drop_drop. f_equal. lia.
  - replace (length l - n)%nat with 0%nat by lia. replace (length l + 1 - n)%nat with 0%nat by lia. done.
Qed.

Lemma lastN_lastN {A} n m (l : list A) : lastN n (lastN m l) = lastN (n `min` m) l.
Proof. unfold lastN. rewrite length_drop, drop_drop. f_equal. lia. Qed.

(** What was recorded since the last reset. *)
Definition recorded (tr : list action) : list result :=
  foldl (fun l a => match a with ARecord res _ => l ++ [res] | AReset => [] | _ => l end) [] tr.

Lemma recorded_snoc tr a :
  recorded (tr ++ [a]) = match a with ARecord res _ => recorded tr ++ [res] | AReset => [] | _ => recorded tr end.
Proof. unfold recorded. by rewrite foldl_app. Qed.

Definition bodiesOf (l : list result) : list string := omap (fun res => if 0 <? len_ (re_raw res) then Some (re_raw res) else None) l.
Definition sizesOf (l : list result) : list Z := omap (fun res => if 0 <? re_rawLen res then Some (re_rawLen res) else None) l.

(** What the console reads, and only recording writes. *)
Definition shown (s : Server) : list string * list Z * list Failure := (sv_bodies s, sv_sizes s, sv_failures s).

Definition unseen {A} (m : St (Server * list Failure) A) : Prop := forall c, shown (m c).2.1 = shown c.1.

Section unseen.
Context (cfg : Config).

Lemma unseen_ret {A} (a : A) : unseen (mret a).
Proof. done. Qed.
Lemma unseen_bind {A B} (m : St _ A) (k : A -> St _ B) : unseen m -> (forall a, unseen (k a)) -> unseen (m ≫= k).
Proof. intros Hm Hk c. rewrite St_bind_eq. etransitivity; [apply Hk|apply Hm]. Qed.
Lemma unseen_whenM b m : unseen m -> unseen (whenM b m).
Proof. by destruct b. Qed.
Lemma unseen_report seq m code path : unseen (report cfg seq m code path).
Proof. done. Qed.
Lemma unseen_stats f : unseen (onServer (set_stats f)).
Proof. done. Qed.
Lemma unseen_instances f : unseen (onServer (fun s => set_instances (f s) s)).
Proof. done. Qed.
Lemma unseen_get : unseen (fun c => (c.1, c)).
Proof. done. Qed.

Lemma checkState_unseen res b : unseen (checkState cfg res b).
Proof.
  unfold checkState, checkDelivery, checkSequence, checkTelemetry.
  repeat first
    [ apply unseen_ret | apply unseen_report | apply unseen_stats | apply unseen_instances | apply unseen_get
    | apply unseen_bind; [|intros ?] | apply unseen_whenM | progress cbv zeta | case_match ].
Qed.
End unseen.

Definition displayed (cfg : Config) (l : list result) : list string * list Z * list Failure :=
  (lastN (Z.to_nat (Keep cfg)) (bodiesOf l), lastN sizeWindow (sizesOf l), l ≫= re_failures).

Section displayed.
Context `{!Decoders, !MapRange} (cfg : Config).

Lemma record_shown s res fatal s' l : 0 < Keep cfg -> record cfg res s = (fatal, s') ->
  shown s = displayed cfg l -> shown s' = displayed cfg (l ++ [res]).
Proof.
  intros Hk E Hs. injection E as _ <-. injection Hs as E1 E2 E3. unfold shown, displayed. cbn [sv_bodies sv_sizes sv_failures].
  rewrite E1, E2, E3. unfold bodiesOf, sizesOf. rewrite !omap_app, bind_app. cbn [omap list_omap mbind list_bind].
  rewrite (proj2 (Z.ltb_lt 0 (Keep cfg)) Hk), andb_true_r, app_nil_r. do 2 f_equal.
  - destruct (0 <? len_ (re_raw res)); [apply ring_lastN; unfold sizeWindow; lia|by rewrite app_nil_r].
  - destruct (0 <? re_rawLen res); [apply ring_lastN; unfold sizeWindow; lia|by rewrite app_nil_r].
Qed.

Lemma on_delivery_shown res f g s : shown (on_delivery res f g s) = shown s.
Proof. unfold on_delivery. destruct (_ || _); [done|]. by destruct (sv_instances s !! re_instance res). Qed.

Lemma hstep_shown s h a s' h' l : 0 < Keep cfg -> hstep cfg s h a s' h' -> shown s = displayed cfg l ->
  shown s' = displayed cfg (match a with ARecord res _ => l ++ [res] | AReset => [] | _ => l end).
Proof.
  intros Hk Hstep Hs.
  destruct Hstep as [r s1|n r now ok res c E res'|res b res' s' fs E|res fatal s' E|res f Hb|res f s' E|res f|res f
    |res f a Hb _ Ha|res f Hb _|res f Hb _|res s1]; try exact Hs.
  - rewrite <- Hs. pose proof (checkState_unseen cfg res b (s, re_failures res)) as Hu. by rewrite E in Hu.
  - by eapply record_shown.
  - by destruct (0 <? cfg_Require cfg).
  - unfold decide in E. destruct (decideKind _ _ _ _) as [[[? ?] ?] ?]. injection E as _ <-. exact Hs.
  - rewrite <- Hs. apply on_delivery_shown.
  - rewrite <- Hs. apply on_delivery_shown.
  - rewrite <- Hs. unfold noteTerminal. by destruct (_ || _).
  - rewrite <- Hs. apply on_delivery_shown.
  - by destruct (_ && _).
Qed.

Lemma run_shown s0 tr y : 0 < Keep cfg -> shown s0 = ([], [], []) -> run cfg s0 tr y ->
  shown (sy_server y) = displayed cfg (recorded tr).
Proof.
  intros Hk H0' Hrun. induction Hrun as [|tr y a y' Hrun IH Hstep]; [exact H0'|]. rewrite recorded_snoc.
  destruct Hstep as [r|i h a s' h' Hi Hh|f|]; try exact IH; [|done]. by eapply hstep_shown.
Qed.
End displayed.

Lemma New_keep cfg0 cfg s0 : New cfg0 = inr (cfg, s0) ->
  0 < Keep cfg /\ shown s0 = ([], [], []) /\ String.prefix "/" (Path cfg) = true /\ Path cfg ∉ reservedPaths.
Proof.
  unfold New. destruct (String.prefix "/" _) eqn:Ep; [|done]. cbn [negb]. case_bool_decide as Hr; [done|].
  destruct (_ && _); [done|]. intros [= <- <-]. cbn [Keep Path]. split; [|done].
  unfold positive_or, defaultKeep. destruct (Keep cfg0 <=? 0) eqn:E; [done|]. lia.
Qed.

Lemma handleBatches_last `{!ControlJSON} n s : 0 <= n <= max_int64 -> sv_bodies s <> [] ->
  handleBatches (pretty n) s = writeJSON StatusOK (bodies_text (Some (lastN (Z.to_nat n) (sv_bodies s)))).
Proof.
  intros Hn Hb. unfold handleBatches. destruct (pretty_digit_head n ltac:(lia)) as (c & t & d & E & _).
  rewrite (Atoi_digits (pretty n) n); [|apply digits_pretty_nonneg; lia|by rewrite E|lia].
  rewrite E. cbn [String.eqb]. rewrite (proj2 (Z.ltb_ge n 0)) by lia.
  assert (Batches s = Some (sv_bodies s)) as -> by (unfold Batches; by destruct (sv_bodies s)).
  unfold lastN, len. cbn [elems default fmap option_fmap option_map id]. destruct (Z.ltb_spec n (Z.of_nat (length (sv_bodies s)))).
  - by replace (length (sv_bodies s) - Z.to_nat n)%nat with (Z.to_nat (Z.of_nat (length (sv_bodies s)) - n)) by lia.
  - replace (length (sv_bodies s) - Z.to_nat n)%nat with 0%nat by lia. done.
Qed.

(** A control request is one of the steps of the server, or changes nothing. *)
Lemma serveControl_step `{!Decoders, !MapRange, !ControlJSON} cfg cfg' r uptime s rp s' hs :
  serveControl cfg r uptime s = Some (rp, s') ->
  s' = s \/ exists a, (a = AReset \/ exists f, a = ASetFaults f) /\ step cfg' (mkSystem s hs) a (mkSystem s' hs).
Proof.
  unfold serveControl.
  destruct (dispatch cfg (cr_Path r)) as [[| | | | | | |]|]; try done; try (by intros [= _ <-]; left).
  - unfold handleControl. destruct (String.eqb _ _); [|by intros [= _ <-]; left].
    destruct (DecodeFaults _) as [err|f]; [by intros [= _ <-]; left|]. intros [= _ <-]. right.
    exists (ASetFaults f). split; [right; by exists f|]. apply (step_faults cfg' (mkSystem s hs)).
  - unfold handleReset. intros [= _ <-]. right. exists AReset. split; [by left|]. apply (step_reset cfg' (mkSystem s hs)).
Qed.

(** ** What the console promises *)

(** The printed percentiles are those of the sizes: whatever sizes were kept,
    the index into the sorted slice is in bounds for every percentage from 0 to 100;
    the figure is one of the sizes, at least that share of them, less one, is no
    larger and at most it is smaller; the hundredth is the largest. *)
Theorem percentile_bounds (sizes : list Z) (p : Z) :
  0 <= p <= 100 -> exists v, percentile (sort_slice Z.ltb sizes) p = Some v /\
  (sizes = [] -> v = 0) /\
  (sizes <> [] -> let n := Z.of_nat (length sizes) in
    v ∈ sizes /\ p * (n - 1) < 100 * Z.of_nat (count (fun x => x <=? v) sizes) /\
    100 * Z.of_nat (count (fun x => x <? v) sizes) <= p * (n - 1) /\
    (p = 100 -> forall x, x ∈ sizes -> x <= v)).
Proof.
  intros Hp. destruct (base.decide (sizes = [])) as [->|Hne]; [by exists 0|].
  assert (0 < length sizes)%nat as Hl by (destruct sizes; [done|simpl; lia]).
  set (n := Z.of_nat (length sizes)). set (i := Z.quot (p * (n - 1)) 100).
  assert (0 <= i /\ 100 * i <= p * (n - 1) < 100 * (i + 1) /\ i < n /\ (p = 100 -> i = n - 1)) as (Hi0 & Hi & Hin & Hi1).
  { unfold i. rewrite Z.quot_div_nonneg by nia. pose proof (Z.div_mod (p * (n - 1)) 100 ltac:(lia)).
    pose proof (Z.mod_pos_bound (p * (n - 1)) 100 ltac:(lia)). nia. }
  destruct (lookup_lt_is_Some_2 (sort_slice Z.ltb sizes) (Z.to_nat i)) as [v Hv]; [rewrite length_sort_slice; lia|].
  destruct (sorted_parts _ _ _ Hv) as (l1 & l2 & E & El & H1 & H2). exists v. split_and!; [|done|intros _ n'].
  - unfold percentile. rewrite length_sort_slice. fold n. fold i. rewrite (proj2 (Z.ltb_ge i 0)) by lia.
    destruct (sort_slice Z.ltb sizes); [done|exact Hv].
  - assert (sizes ≡ₚ l1 ++ v :: l2) as Hperm by (rewrite <- E; symmetry; apply sort_slice_perm).
    assert (length l1 + S (length l2) = length sizes)%nat as Hlen by (rewrite Hperm, length_app; done).
    split_and!.
    + rewrite Hperm. set_solver.
    + rewrite (count_perm _ _ _ Hperm), count_app, count_cons, Z.leb_refl, (count_all _ l1); [lia|].
      intros x Hx. apply Z.leb_le. auto.
    + rewrite (count_perm _ _ _ Hperm), count_app, count_cons, Z.ltb_irrefl, (count_0 _ l2);
        [pose proof (count_le (fun x => x <? v) l1); lia|]. intros x Hx. apply Z.ltb_ge. auto.
    + intros Hp1 x Hx. assert (l2 = []) as -> by (destruct l2; [done|simpl in Hlen; lia]).
      rewrite Hperm in Hx. apply elem_of_app in Hx as [Hx|Hx%list_elem_of_singleton]; [auto|lia].
Qed.

Theorem percentile_bounds_witness : exists v, percentile (sort_slice Z.ltb [30; 10; 20]) 95 = Some v /\ v = 20.
Proof.
  destruct (percentile_bounds [30; 10; 20] 95 ltac:(lia)) as (v & E & _). exists v. split; [exact E|].
  vm_compute in E. by injection E as <-.
Defined.

Lemma pretty_cancel (n m : Z) (x y : string) : 0 <= n -> 0 <= m ->
  pretty n +:+ "-" +:+ x = pretty m +:+ "-" +:+ y -> n = m.
Proof.
  intros Hn Hm E. apply (f_equal spanDigits) in E.
  rewrite (spanDigits_app _ 0 n), (spanDigits_app _ 0 m) in E by (by apply digits_pretty_nonneg || done).
  injection E as E _. apply (f_equal (fun s => digits s 0)) in E. rewrite !digits_pretty_nonneg in E by done. by injection E.
Qed.

(** A dump stays in its directory and overwrites no other: whatever the
    idempotency key of a refused request, the name of its file has only letters,
    digits, [-], [_] and [.], begins with fail- and ends in .json, and two requests
    never share a name; cleaning a clean key changes nothing. *)
Theorem dump_names (dir : string) (res res' : result) (name : string) :
  dumpName dir res = Some name ->
  all_bytes (fun c => safeByte c || eqc c ".") name = true /\
  (exists key, name = "fail-" +:+ pretty (re_n res) +:+ "-" +:+ key +:+ ".json" /\ key <> ""%string /\
    all_bytes safeByte key = true /\ sanitize key = key) /\
  (0 <= re_n res -> 0 <= re_n res' -> dumpName dir res' = Some name -> re_n res' = re_n res).
Proof.
  unfold dumpName. destruct (_ || _); [done|]. intros [= <-].
  assert (forall s, all_bytes safeByte s = true -> all_bytes (fun c => safeByte c || eqc c ".") s = true) as Hor.
  { induction s as [|c s IH]; simpl; [done|]. intros [-> Hs]%andb_true_iff. by apply IH. }
  assert (all_bytes safeByte (pretty (re_n res)) = true) as Hn.
  { destruct (Z_le_gt_dec 0 (re_n res)); [by apply (digits_safe _ 0 (re_n res)), digits_pretty_nonneg|].
    destruct (re_n res) as [|q|q] eqn:E; [lia|lia|]. change (pretty (Z.neg q)) with (String "-" (pretty (Z.pos q))).
    simpl. apply (digits_safe _ 0 (Z.pos q)), digits_pretty_nonneg. lia. }
  pose proof (sanitize_safe (re_key res)) as Hk.
  assert (sanitize (re_key res) <> ""%string) as Hne.
  { unfold sanitize. destruct (String.eqb_spec (re_key res) ""); [done|]. by destruct (re_key res). }
  split_and!.
  - rewrite !all_bytes_app, (Hor _ Hn), (Hor _ Hk). done.
  - exists (sanitize (re_key res)). split_and!; [done..|]. unfold sanitize at 1.
    rewrite (proj2 (String.eqb_neq _ _) Hne). by apply mapRunes_fixed.
  - destruct (_ || _); [done|]. intros H1 H2 [= E]. by eapply pretty_cancel.
Qed.

Theorem dump_names_witness :
  dumpName "/tmp" (set_key "../../etc/passwd" (set_raw "{" "" 1 (newResult 7))) =
    Some "fail-7-______etc_passwd.json"%string /\
  all_bytes (fun c => safeByte c || eqc c ".") "fail-7-______etc_passwd.json" = true.
Proof.
  assert (dumpName "/tmp" (set_key "../../etc/passwd" (set_raw "{" "" 1 (newResult 7))) =
    Some "fail-7-______etc_passwd.json"%string) as E by (vm_compute; reflexivity).
  split; [exact E|]. apply (dump_names "/tmp" _ (newResult 0) _ E).
Defined.

Lemma prefix_length p s : String.prefix p s = true ->
  (String.length p <= String.length s)%nat /\ (String.length p = String.length s -> p = s).
Proof.
  revert s. induction p as [|c p IH]; intros s Hp; [split; [simpl; lia|by destruct s]|].
  destruct s as [|d s]; [done|]. simpl in *. destruct (ascii_dec c d) as [->|]; [|done].
  destruct (IH s Hp) as [Hl He].
  split; [lia|]. intros [= E]. f_equal. by apply He.
Qed.

Lemma clean_rooted path : clean path = true -> String.prefix "/" path = true.
Proof.
  unfold clean. destruct path as [|c path]; [done|]. simpl segments. case_bool_decide as Hc.
  - subst c. by destruct path.
  - intros Hs. exfalso.
    assert (forall acc, acc <> ""%string -> String.rev acc <> ""%string) as Hrev.
    { intros acc Hne E. apply Hne. by rewrite <- (rev_rev acc), E. }
    assert (forall s acc, acc <> ""%string -> exists f rest, segments s acc = f :: rest /\ f <> ""%string) as Hseg.
    { induction s as [|d s IH]; intros acc Ha; simpl; [by eexists _, _; split; [done|by apply Hrev]|].
      case_bool_decide; [by eexists _, _; split; [done|by apply Hrev]|by apply IH]. }
    destruct (Hseg path (String c "")) as (f & rest & E & Hf); [done|]. rewrite E in Hs.
    apply String.eqb_neq in Hf. by rewrite Hf in Hs.
Qed.

Lemma matches_eqb pattern path : endsSlash pattern = false -> matches pattern path = String.eqb pattern path.
Proof. unfold matches. by intros ->. Qed.

(** The best pattern of those registered. *)
Definition best (cfg : Config) (path : string) : option (string * route) :=
  foldl (fun (best : option (string * route)) (e : string * route) =>
    if matches e.1 path then
      match best with
      | Some b => if (String.length b.1 <? String.length e.1)%nat then Some e else best
      | None => Some e
      end
    else best) None (registered cfg).

Lemma best_exact cfg path : String.prefix "/" (Path cfg) = true -> Path cfg ∉ reservedPaths ->
  String.prefix "/" path = true ->
  best cfg path =
    match find (fun e => String.eqb e.1 path) (registered cfg) with
    | Some e => Some e
    | None => if endsSlash (Path cfg) && String.prefix (Path cfg) path then Some (Path cfg, RIngest)
              else Some ("/"%string, RUnknown)
    end.
Proof.
  intros Hp Hr Hrooted. unfold best, registered. cbv beta zeta. cbn [foldl find fst snd].
  rewrite (matches_eqb "/healthz"), (matches_eqb "/stats"), (matches_eqb "/batches"),
    (matches_eqb "/control"), (matches_eqb "/control/reset") by done.
  assert (matches "/" path = true) as -> by exact Hrooted.
  assert (forall r, r ∈ reservedPaths -> String.eqb r (Path cfg) = false) as Hres
    by (intros r Hin; apply String.eqb_neq; intros E; by rewrite E in Hin).
  assert ((String.length (Path cfg) <? String.length "/")%nat = false) as Hlen by (by destruct (Path cfg)).
  destruct (String.eqb_spec (Path cfg) path) as [<-|Hne].
  - assert (matches (Path cfg) (Path cfg) = true) as ->.
    { unfold matches. destruct (endsSlash _); [|apply String.eqb_refl]. clear. by induction (Path cfg) as [|c s IH]; simpl;
        [|destruct (ascii_dec c c)]. }
    rewrite !Hres by (by apply (bool_decide_unpack _)). cbn [fst snd]. by rewrite Hlen.
  - assert (matches (Path cfg) path = true -> forall r, r = path ->
      (String.length (Path cfg) <? String.length r)%nat = true /\ endsSlash (Path cfg) && String.prefix (Path cfg) path = true) as Hm.
    { unfold matches. destruct (endsSlash _); [|by intros ?%String.eqb_eq]. intros Hpre r ->.
      destruct (prefix_length _ _ Hpre) as [Hle Heq]. split; [|done]. apply Nat.ltb_lt.
      destruct (base.decide (String.length (Path cfg) = String.length path)) as [E|]; [by apply Heq in E|lia]. }
    destruct (base.decide (path ∈ reservedPaths)) as [Hin|Hout].
    + unfold reservedPaths in Hin. rewrite !elem_of_cons, elem_of_nil in Hin.
      destruct (matches (Path cfg) path).
      * destruct (Hm eq_refl path eq_refl) as [Hlt _]. clear Hm Hres Hr Hne.
        destruct Hin as [->|[->|[->|[->|[->|[]]]]]]; cbn -[String.length Nat.ltb]; rewrite ?Hlt; reflexivity.
      * destruct Hin as [->|[->|[->|[->|[->|[]]]]]]; reflexivity.
    + assert (forall r, r ∈ reservedPaths -> String.eqb r path = false) as Hout'
        by (intros r Hin; apply String.eqb_neq; intros E; by rewrite E in Hin).
      rewrite !Hout' by (by apply (bool_decide_unpack _)). cbn [fst snd].
      destruct (matches (Path cfg) path) eqn:Em.
      * destruct (Hm eq_refl path eq_refl) as [Hlt Hpre]. cbn [fst snd]. rewrite Hlen, Hpre.
        destruct (String.eqb_spec "/" path) as [<-|]; [|done]. exfalso. apply Nat.ltb_lt in Hlt. simpl in Hlt.
        destruct (Path cfg); [done|simpl in Hlt; lia].
      * assert (endsSlash (Path cfg) && String.prefix (Path cfg) path = false) as ->.
        { revert Em. unfold matches. by destruct (endsSlash _). }
        by destruct (String.eqb "/" path).
Qed.

(** C29: The server's routes are exact.  For a [Path] that [New] accepts and that uses
    none of the multiplexer's wildcards, escapes or methods, the patterns registered
    differ from one another, which the multiplexer requires, unless the path is the
    root, which [New] accepts as well.  And every clean path of a request without an
    escape goes to the pattern that equals it; else, when it is the ingest's path without the slash at its end, it is
    redirected there; else to the ingest when that path ends in a slash and starts
    it; else to the catch-all: no control route is ever taken for the ingest's. *)
Theorem routes_exact (cfg0 cfg : Config) (s0 : Server) :
  New cfg0 = inr (cfg, s0) -> plain (Path cfg) = true ->
  (NoDup (registered cfg).*1 <-> Path cfg <> "/"%string) /\
  (forall path, clean path = true -> unescaped path = true ->
    dispatch cfg path = Some (
      match find (fun e => String.eqb e.1 path) (registered cfg) with
      | Some e => e.2
      | None =>
          if String.eqb (Path cfg) (path +:+ "/") then RRedirect
          else if endsSlash (Path cfg) && String.prefix (Path cfg) path then RIngest else RUnknown
      end)).
Proof.
  intros (_ & _ & Hp & Hr)%New_keep Hplain. split.
  - assert (NoDup (tail (registered cfg)).*1) as Ht by (apply (bool_decide_unpack _); vm_compute; exact I).
    simpl. rewrite NoDup_cons. split.
    + intros [Hn _] E. apply Hn. rewrite E. by apply (bool_decide_unpack _).
    + intros Hne. split; [|exact Ht]. rewrite !elem_of_cons, elem_of_nil. unfold reservedPaths in Hr.
      rewrite !elem_of_cons, elem_of_nil in Hr. tauto.
  - intros path Hc Hu. pose proof (clean_rooted path Hc) as Hrooted. unfold dispatch. fold (best cfg path).
    rewrite Hplain, Hu, Hc, best_exact by done. cbn [negb andb].
    destruct (find _ (registered cfg)) as [e|] eqn:Ef.
    { apply find_some in Ef as [_ ->]. done. }
    assert (existsb (fun e => String.eqb e.1 (path +:+ "/")) (registered cfg) = String.eqb (Path cfg) (path +:+ "/")) as ->.
    { unfold registered. cbn [existsb fst]. 
      assert (forall r, endsSlash r = false -> String.eqb r (path +:+ "/") = false) as Hno.
      { intros r Hs. apply String.eqb_neq. intros ->. unfold endsSlash in Hs. rewrite rev_append in Hs. simpl in Hs.
        by destruct (String.rev path). }
      rewrite (Hno "/healthz"), (Hno "/stats"), (Hno "/batches"), (Hno "/control"), (Hno "/control/reset") by done.
      assert (String.eqb "/" (path +:+ "/") = false) as ->; [|by rewrite !orb_false_r].
      apply String.eqb_neq. destruct path as [|c path]; [discriminate Hrooted|]. intros [= _ E]. by destruct path. }
    destruct (String.eqb_spec (Path cfg) path) as [E|Hne].
    { exfalso. unfold registered in Ef. cbn [find fst] in Ef. by rewrite E, String.eqb_refl in Ef. }
    destruct (endsSlash (Path cfg) && String.prefix (Path cfg) path) eqn:Epre; cbn [fst snd].
    + apply String.eqb_neq in Hne as ->. cbn [negb andb].
      destruct (String.eqb_spec (Path cfg) (path +:+ "/")) as [E|]; [|done]. done.
    + assert (String.eqb "/" path = false) as ->; [|cbn [negb andb]; by destruct (String.eqb _ _)].
      apply String.eqb_neq. intros <-. unfold registered in Ef. cbn [find fst] in Ef.
      by destruct (String.eqb (Path cfg) "/").
Qed.

Theorem routes_exact_witness :
  dispatch demo_new.1 "/v1/batches" = Some RIngest /\ dispatch demo_new.1 "/control/reset" = Some RReset /\
  dispatch demo_new.1 "/v1/batches/x" = Some RUnknown /\ NoDup (registered demo_new.1).*1.
Proof.
  destruct (routes_exact demo_faulty demo_new.1 demo_new.2) as [Hn Hd]; [by vm_compute|by vm_compute|].
  rewrite !Hd by (vm_compute; reflexivity). split_and!; try (vm_compute; reflexivity). apply Hn. by vm_compute.
Defined.

(** C27: The rings hold the latest.  Over any interleaving of requests and control
    steps, the server keeps the bodies of the last [Keep] requests recorded since the
    last reset that had one, oldest first, the last 512 sizes and every failure; so
    [GET /batches?n=N] answers 200 with the last N of them, and with an empty body
    when one of those is not JSON. *)
Theorem batches_served `{!Decoders, !MapRange, !ControlJSON} (cfg0 cfg : Config) (s0 : Server) (tr : list action)
    (y : system) (n : Z) :
  New cfg0 = inr (cfg, s0) -> run cfg s0 tr y -> 0 <= n <= max_int64 ->
  let s := sy_server y in
  sv_bodies s = lastN (Z.to_nat (Keep cfg)) (bodiesOf (recorded tr)) /\
  sv_sizes s = lastN sizeWindow (sizesOf (recorded tr)) /\
  sv_failures s = recorded tr ≫= re_failures /\
  (bodiesOf (recorded tr) <> [] ->
    handleBatches (pretty n) s = mkReply StatusOK "application/json"
      (match mapM compactJSON (lastN (Z.to_nat n `min` Z.to_nat (Keep cfg)) (bodiesOf (recorded tr))) with
       | Some texts => ("[" +:+ commas texts +:+ "]") +:+ newline
       | None => ""
       end)).
Proof.
  intros Hnew Hrun Hn s. destruct (New_keep _ _ _ Hnew) as (Hk & Hs & _).
  pose proof (run_shown cfg s0 tr y Hk Hs Hrun) as E. injection E as E1 E2 E3. split_and!; [done..|].
  intros Hne. rewrite handleBatches_last; [|done|].
  - unfold s. rewrite E1, lastN_lastN. unfold writeJSON, bodies_text. by destruct (mapM _ _).
  - unfold s. rewrite E1. unfold lastN. intros Hd. apply (f_equal length) in Hd. rewrite length_drop in Hd. simpl in Hd.
    apply Hne. apply nil_length_inv. lia.
Qed.

(** A text is JSON here when it is an object without members. *)
Definition demo_control : ControlJSON := {|
  compactJSON s := if String.eqb s "{}" then Some s else None;
  DecodeFaults _ := inl "EOF"%string;
|}.

Theorem batches_served_witness :
  rp_Body (@handleBatches demo_control (pretty 1) (sy_server demo_acked.2)) = ("[{}]" +:+ newline)%string /\
  sv_bodies (sy_server demo_acked.2) = ["{}"; "{}"]%string.
Proof.
  destruct (@batches_served demo_decoders listed_range demo_control demo_faulty demo_new.1 demo_new.2 demo_acked.1 demo_acked.2 1)
    as (E & _ & _ & H); [by vm_compute|apply demo_acked_run|by vm_compute|].
  split; [rewrite H; by vm_compute|by vm_compute].
Defined.
