(* ===== verification/Commands.v ===== *)
(** * Commands: the two programs ([cmd/agent/main.go], [cmd/mock-ingest/main.go])

    What each does with its command line and how it ends.  The flags are given
    parsed, as package [flag] leaves them; the mock ingest's main loop runs beside
    the server of [Ingest], whose handlers go on while it waits and shuts down. *)

From Stdlib Require Import ZArith Lia.
From stdpp Require Import prelude gmap strings numbers pretty sorting.
From S2P Require Import Export Prelude Wire Errors Filter Kadm Collector Capabilities Strconv Environment Gates Agent.
From S2P Require Checks Conform Ingest.
From S2P Require File.

(** ** mock-ingest *)

Record Flags := mkFlags {
  fl_addr : string; fl_path : string; fl_apiKey : string;
  fl_strict : bool; fl_warnOnly : bool;
  fl_require : Z; fl_keep : Z; fl_failDir : string;
  fl_maxBodyMB : Z; fl_clockSkew : Z; fl_maxErrors : Z; fl_summary : Z;
  fl_faults : Checks.Faults;
}.

(** The flags that are not given; the key comes from the environment. *)
Definition default_flags (apiKey tempDir : string) : Flags :=
  mkFlags ":8088" Ingest.DefaultPath apiKey false false 0 20 tempDir 32 (5 * Minute) 1000 (30 * Second)
    (Checks.mkFaults 0 Ingest.StatusInternalServerError 0 Ingest.StatusTooManyRequests 1 0 0 0 0 0).

(** The shift is on [int64]. *)
Definition serverConfig (f : Flags) : Checks.Config :=
  Checks.mkConfig (fl_path f) (fl_apiKey f) (fl_strict f) (fl_warnOnly f) (fl_require f) (fl_keep f)
    (wrapS 64 (fl_maxBodyMB f * 2 ^ 20)) (fl_clockSkew f) (fl_maxErrors f) [] [] (fl_faults f).

(** A server that cannot be built ends the program with 2. *)
Definition mock_start (f : Flags) : Z + Checks.Config * Ingest.Server :=
  match Ingest.New (serverConfig f) with inl _ => inl 2 | inr x => inr x end.

(** Where [run] is: in its select, stopping with [code], or returned. *)
Inductive phase := Selecting | Stopping (code : Z) | Exited (code : Z).

Definition short_of (require : Z) (t : Ingest.Stats) : bool := (0 <? require) && (Ingest.st_Accepted t <? require).

(** The end of [run], after the shutdown. *)
Definition exitCode (require : Z) (t : Ingest.Stats) (code : Z) : Z :=
  if 0 <? Ingest.st_Fatal t then 1 else if short_of require t then 1 else code.

Section mock.
Context `{!Ingest.Decoders, !Checks.MapRange} (f : Flags) (cfg : Checks.Config) (s0 : Ingest.Server).

Notation stats y := (Ingest.sv_stats (Ingest.sy_server y)).

(** The main loop beside the server; a tick of the summary changes nothing. *)
Inductive mock_run : list Ingest.action -> Ingest.system -> phase -> Prop :=
| m_start : mock_run [] (Ingest.mkSystem s0 []) Selecting
| m_serve tr y p a y' : mock_run tr y p -> (forall code, p <> Exited code) -> Ingest.step cfg y a y' -> mock_run (tr ++ [a]) y' p
| m_listen tr y : mock_run tr y Selecting -> mock_run tr y (Exited 1)
| m_done tr y : mock_run tr y Selecting -> Ingest.sv_done (Ingest.sy_server y) = true -> mock_run tr y (Stopping 0)
| m_interrupt tr y : mock_run tr y Selecting -> mock_run tr y (Stopping (if short_of (fl_require f) (stats y) then 1 else 0))
| m_exit tr y code : mock_run tr y (Stopping code) -> mock_run tr y (Exited (exitCode (fl_require f) (stats y) code)).

Lemma mock_run_server tr y p : mock_run tr y p -> Ingest.run cfg s0 tr y.
Proof. induction 1; try done; [constructor|by eapply Ingest.run_snoc]. Qed.

(** What the code of a stopping or returned program says of the server. *)
Definition accounted (y : Ingest.system) (p : phase) : Prop :=
  match p with
  | Selecting => True
  | Stopping code => code = 0 \/ code = 1
  | Exited code => code = 1 \/ code = 0 /\ Ingest.st_Fatal (stats y) <= 0 /\
      (0 < fl_require f -> fl_require f <= Ingest.st_Accepted (stats y))
  end.

Lemma mock_accounted tr y p : mock_run tr y p -> accounted y p.
Proof.
  intros Hr. induction Hr as [|tr y p a y' _ IH Hp _| | | |tr y code _ IH]; try done.
  - destruct p as [|code|code]; [done|done|by destruct (Hp code)].
  - by left.
  - by left.
  - simpl. destruct (short_of _ _); tauto.
  - simpl in *. unfold exitCode. destruct (Z.ltb_spec 0 (Ingest.st_Fatal (stats y))); [by left|].
    unfold short_of. destruct (Z.ltb_spec 0 (fl_require f)), (Z.ltb_spec (Ingest.st_Accepted (stats y)) (fl_require f)); simpl;
      try (by left); destruct IH as [-> | ->]; try (by left); right; (split; [done|]); split; lia.
Qed.
End mock.

(** A server is built fresh, for the number of batches required. *)
Lemma New_fresh cfg0 cfg s0 : Ingest.New cfg0 = inr (cfg, s0) ->
  Ingest.sv_stats s0 = Ingest.no_stats /\ Ingest.sv_sent4xx s0 = 0 /\ Ingest.sv_done s0 = false /\
  Checks.cfg_Require cfg = Checks.cfg_Require cfg0.
Proof.
  unfold Ingest.New. destruct (negb _); [done|]. case_bool_decide; [done|]. destruct (_ && _); [done|]. by intros [= <- <-].
Qed.

(** The exit code is the verdict.  However the handlers interleave with the
    main loop, without a reset the mock ingest returns 0 or 1; it returns 0 only if
    no batch was refused and, when a number of batches was required, at least that
    many were answered 200 and counted; and without such a number it never stops by
    itself. *)
Theorem mock_exit `{!Ingest.Decoders, !Checks.MapRange} (f : Flags) (cfg : Checks.Config) (s0 : Ingest.Server)
    (tr : list Ingest.action) (y : Ingest.system) (code : Z) :
  mock_start f = inr (cfg, s0) -> Ingest.AReset ∉ tr -> mock_run f cfg s0 tr y (Exited code) ->
  (code = 0 \/ code = 1) /\
  (code = 0 -> Ingest.number (Ingest.is_record true) tr = 0 /\
    (0 < fl_require f -> fl_require f <= Ingest.number Ingest.is_accepted tr)) /\
  (fl_require f <= 0 -> Ingest.sv_done (Ingest.sy_server y) = false).
Proof.
  unfold mock_start. intros Hnew Hreset Hrun. destruct (Ingest.New (serverConfig f)) as [|x] eqn:En; [done|]. injection Hnew as ->.
  destruct (New_fresh _ _ _ En) as (E1 & E2 & E3 & E4).
  destruct (Ingest.ledger_run cfg s0 tr y E1 E2 E3 Hreset (mock_run_server _ _ _ _ _ _ Hrun)) as [_ _ L3 L4 _ _ _ _ L9 _].
  pose proof (mock_accounted _ _ _ _ _ _ Hrun) as Ha. simpl in Ha. rewrite L3, L4 in Ha.
  pose proof (Ingest.number_nonneg (Ingest.is_record true) tr). split; [tauto|]. split.
  - intros ->. destruct Ha as [|(_ & Hf & Hr)]; [done|]. split; [lia|done].
  - intros Hq. apply not_true_is_false. intros [Hd _]%L9. rewrite E4 in Hd. simpl in Hd. lia.
Qed.

(** ** agent *)

(** What [Parse] returned. *)
Inductive parsed := HelpAsked | BadFlags | Parsed (showVersion : bool).

(** The exit code, the message of [fatal] if any, and the client the process leaves. *)
Record outcome := mkOutcome { oc_Code : Z; oc_Fatal : option string; oc_Client : client }.

Section agent.
Context `{!KadmVersions, !Regexp, !File.OS}.

(** [main] and [run]; [Run] returns nil, after a signal. *)
Definition agent_main (p : parsed) (loaded : list problem + Config) (start : Config -> startErr * client + started)
    (exporterClose : option goerr) : outcome :=
  match p with
  | HelpAsked | Parsed true => mkOutcome 0 None NoClient
  | BadFlags => mkOutcome 1 (Some "agent failed"%string) NoClient
  | Parsed false =>
      match loaded with
      | inl _ => mkOutcome 1 (Some "agent failed"%string) NoClient
      | inr cfg =>
          match start cfg with
          | inl (_, c) => mkOutcome 1 (Some "agent failed"%string) c
          | inr _ =>
              let '(err, c) := Agent_Close (Some exporterClose) OpenClient in
              mkOutcome 0 (match err with Some _ => Some "shutdown error"%string | None => None end) c
          end
      end
  end.

(** A startup that fails leaves no client open. *)
Lemma New_closes cfg version d NewClient Ping answer1 answer2 t e c :
  New cfg version d NewClient Ping answer1 answer2 t = inl (e, c) -> c <> OpenClient.
Proof. unfold New. repeat case_match; by intros [= _ <-]. Qed.

(** The agent's exit code is the startup's.  Whatever the brokers and the disk
    answer, the process leaves no client open; it exits 1, saying so, exactly when
    the flags, the configuration or the startup failed, and an error while shutting
    down is reported without changing the code. *)
Theorem agent_exit (p : parsed) (loaded : list problem + Config) (version : string) (d : gmap string string)
    (NewClient Ping : option goerr) (answer1 answer2 : goerr + BrokersApiVersions) (t : Z) (exporterClose : option goerr) :
  let start cfg := New cfg version d NewClient Ping answer1 answer2 t in
  let o := agent_main p loaded start exporterClose in
  oc_Client o <> OpenClient /\
  (oc_Code o = 1 \/ oc_Code o = 0) /\
  (oc_Code o = 1 <-> p = BadFlags \/ p = Parsed false /\ forall cfg, loaded = inr cfg -> exists e, start cfg = inl e) /\
  (oc_Code o = 1 <-> oc_Fatal o = Some "agent failed"%string) /\
  (oc_Fatal o = Some "shutdown error"%string -> exists e, exporterClose = Some e).
Proof.
  intros start. unfold agent_main.
  assert (forall (x : Prop) c, c <> OpenClient -> x ->
    let o := mkOutcome 1 (Some "agent failed"%string) c in
    oc_Client o <> OpenClient /\ (oc_Code o = 1 \/ oc_Code o = 0) /\ (oc_Code o = 1 <-> x) /\
    (oc_Code o = 1 <-> oc_Fatal o = Some "agent failed"%string) /\
    (oc_Fatal o = Some "shutdown error"%string -> exists e, exporterClose = Some e)) as Hfail by (intros; by split_and!; auto).
  assert (forall (x : Prop) m c, c <> OpenClient -> ~ x -> (m = None \/ m = Some "shutdown error"%string /\ is_Some exporterClose) ->
    let o := mkOutcome 0 m c in
    oc_Client o <> OpenClient /\ (oc_Code o = 1 \/ oc_Code o = 0) /\ (oc_Code o = 1 <-> x) /\
    (oc_Code o = 1 <-> oc_Fatal o = Some "agent failed"%string) /\
    (oc_Fatal o = Some "shutdown error"%string -> exists e, exporterClose = Some e)) as Hgood.
  { intros x m c Hc Hx Hm. simpl. split_and!; [done|by right|by split|split; [done|]|]; destruct Hm as [->|[-> [e He]]]; eauto; done. }
  destruct p as [| |[]].
  - apply Hgood; [done|naive_solver|by left].
  - apply Hfail; [done|by left].
  - apply Hgood; [done|naive_solver|by left].
  - destruct loaded as [errs|cfg]; [apply Hfail; [done|right; split; [done|by intros]]|].
    destruct (start cfg) as [[e c]|s] eqn:E.
    + apply Hfail; [by eapply New_closes|]. right. split; [done|]. intros cfg' [= <-]. by exists (e, c).
    + destruct exporterClose as [cerr|]; (apply Hgood; [done| |naive_solver]);
        (intros [|[_ Hall]]; [done|]; destruct (Hall cfg eq_refl) as [e He]; by rewrite E in He).
Qed.
End agent.

(** ** Two runs *)

Definition demo_flags : Flags :=
  mkFlags ":8088" "" "" false false 1 0 "" 0 0 0 0 (Checks.mkFaults 0 0 0 0 0 0 0 0 1 0).

(** One batch is required; the first delivery is dropped, the second accepted. *)
Definition demo_built : Checks.Config * Ingest.Server :=
  match Ingest.New (serverConfig demo_flags) with inr x => x | inl _ => Ingest.demo_new end.

Definition demo_served : list Ingest.action * Ingest.system :=
  let next := @Ingest.next Ingest.demo_decoders Conform.listed_range demo_built.1 2000 8 (Ingest.demo_request "{}") in
  next (next ([], Ingest.mkSystem demo_built.2 [])).

(** The server at work while the program waits. *)
Lemma run_selecting `{!Ingest.Decoders, !Checks.MapRange} f cfg s0 tr y : Ingest.run cfg s0 tr y -> mock_run f cfg s0 tr y Selecting.
Proof. induction 1; [constructor|]. by eapply m_serve. Qed.

Lemma demo_exits : @mock_run Ingest.demo_decoders Conform.listed_range demo_flags demo_built.1 demo_built.2
  demo_served.1 demo_served.2 (Exited 0).
Proof.
  assert (exitCode (fl_require demo_flags) (Ingest.sv_stats (Ingest.sy_server demo_served.2)) 0 = 0) as E by (vm_compute; reflexivity).
  rewrite <- E. apply m_exit, m_done; [|vm_compute; reflexivity]. apply run_selecting. unfold demo_served.
  apply Ingest.next_run, Ingest.next_run. constructor.
Qed.

Theorem mock_exit_witness :
  Ingest.number (Ingest.is_record true) demo_served.1 = 0 /\ 1 <= Ingest.number Ingest.is_accepted demo_served.1.
Proof.
  destruct (@mock_exit Ingest.demo_decoders Conform.listed_range demo_flags demo_built.1 demo_built.2 demo_served.1 demo_served.2 0)
    as (_ & H & _); [vm_compute; reflexivity|apply Ingest.no_reset; vm_compute; reflexivity|exact demo_exits|].
  destruct (H eq_refl) as [Hf Ha]. split; [exact Hf|]. apply Ha. vm_compute. reflexivity.
Defined.
