(* ===== verification/Exchange.v ===== *)
(** * Exchange: the agent, its HTTP exporter and the server together

    The exporter of [Http] posts to the server of [Ingest] over a network that may
    lose, repeat and delay requests and lose answers.  The pair is again an exporter
    of the interface in [Export], so that the agent's loop of [Agent] runs on it
    unchanged: what is proved here holds of the whole chain, from the batches the
    loop hands over to the verdicts of the server.

    A request arrives at any time after it was sent, any number of times.  The
    response an attempt ends with is the status and the Retry-After header of an
    answer the server gave to a request of that batch; what the exporter makes of
    them is its own affair ([Http.attempt_step]).  The round trip may also fail, at
    any time, for any reason. *)

From Stdlib Require Import ZArith Lia Ascii.
From stdpp Require Import prelude gmap strings numbers pretty sorting relations.
From S2P Require Import Export Prelude Wire Errors Filter Strconv Checks Conform Ingest Statuses Schema Json Encoding JsonText Rfc3339 Delivery.
From S2P Require Http Agent.

(** ** Lemmas on sorted lists *)

Lemma seqZ_sorted m n : StronglySorted Z.lt (seqZ m n).
Proof.
  destruct (Z.le_gt_cases 0 n) as [Hn|Hn]; [|by rewrite seqZ_nil by lia; constructor].
  revert m. apply natlike_ind with (x := n); [|clear n Hn|done].
  - intros m. rewrite seqZ_nil by done. constructor.
  - intros n Hn IH m. rewrite seqZ_cons by lia. rewrite Z.pred_succ. constructor; [apply IH|].
    apply list.Forall_forall. intros k Hk%elem_of_seqZ. lia.
Qed.

Lemma sorted_sublist {A} (R : relation A) l k : l `sublist_of` k -> StronglySorted R k -> StronglySorted R l.
Proof.
  induction 1 as [|x l k Hs IH|x l k Hs IH]; intros Hk; [constructor| |]; apply StronglySorted_inv in Hk as [Hk Hx].
  - constructor; [by apply IH|]. apply list.Forall_forall. intros y Hy. rewrite list.Forall_forall in Hx.
    apply Hx. by eapply elem_of_sublist.
  - by apply IH.
Qed.

Lemma sorted_NoDup l : StronglySorted Z.lt l -> NoDup l.
Proof.
  induction 1 as [|x l _ IH Hx]; constructor; [|done]. intros Hin. rewrite list.Forall_forall in Hx.
  specialize (Hx x Hin). lia.
Qed.

(** ** The pair *)

(** The handlers of the server, each with the batch its request was made of, and
    the answers, each with its handler. *)
Record exchange := mkExchange {
  x_http : Http.http;
  x_server : system;
  x_posts : list queued;
  x_answers : list (nat * result * answer);
  x_labels : list Http.label;          (* what the exporter did *)
  x_actions : list action;             (* what the server did *)
}.

Definition answer_of (i : nat) (a : action) : list (nat * result * answer) :=
  match a with AAnswer res an => [(i, res, an)] | _ => [] end.

(** An answer was given to a request made of [q]. *)
Definition answered (x : exchange) (q : queued) (p : answer -> Prop) : Prop :=
  exists i res an, (i, res, an) ∈ x_answers x /\ x_posts x !! i = Some q /\ p an.

(** What the client reads of an answer; the text of the body is not followed. *)
Definition reads (rt : roundTrip) (an : answer) : Prop :=
  match rt with
  | Answers status retryAfter _ =>
      status_of an = Some status /\
      retryAfter = match an with Injected _ s => if 0 <? s then pretty s else ""%string | _ => ""%string end
  | CannotCreate _ | TransportFails _ => False
  end.

(** How the round trip of the attempt in flight can end. *)
Definition hears (x : exchange) (rt : roundTrip) : Prop :=
  match rt with
  | Answers _ _ _ => exists q, Http.held (Http.wk (x_http x)) = [q] /\ answered x q (reads rt)
  | CannotCreate _ | TransportFails _ => True
  end.

(** What the exporter's conclusions say of the answers. *)
Definition concluded (x : exchange) (l : Http.label) : Prop :=
  match l with
  | Http.LExported q => answered x q (fun an => exists status, status_of an = Some status /\ status < 400)
  | Http.LRejected q => answered x q (fun an => exists status, status_of an = Some status /\ retryableStatus status = false)
  | _ => True
  end.

Section exchange.
Context `{!MapRange, !HttpDate, !TimeText, D : !Decoders} (gz : string -> goerr + string).
Context (cfg : Config) (s0 : Server) (ecfg : Http.HTTPExporterConfig) (late : Z) (apiKey : string).
#[local] Instance codec_ : Codec := json_codec gz.
Notation hstep := (@Ingest.hstep (json_decoders D) _ cfg).
Notation step := (@Ingest.step (json_decoders D) _ cfg).
Notation run := (@Ingest.run (json_decoders D) _ cfg).
Notation checkRequest := (@Ingest.checkRequest (json_decoders D) cfg _).

(** What the network may do: a restriction of the states it lets the pair reach. *)
Context (net : exchange -> Prop).

Inductive xmove (x : exchange) : exchange -> Prop :=
| x_exports l h' :
    Http.step (Http.NewHTTPExporter ecfg) late (x_http x) l h' -> (forall rt, ~ Http.attempt_step (x_http x) rt l h') ->
    xmove x (mkExchange h' (x_server x) (x_posts x) (x_answers x) (x_labels x ++ [l]) (x_actions x))
| x_hears rt l h' :
    Http.attempt_step (x_http x) rt l h' -> hears x rt ->
    xmove x (mkExchange h' (x_server x) (x_posts x) (x_answers x) (x_labels x ++ [l]) (x_actions x))
| x_arrives q :
    Http.LAttempt q ∈ x_labels x ->
    let r := posted (Path cfg) apiKey q in
    xmove x (mkExchange (x_http x) (mkSystem (sy_server (x_server x)) (sy_handlers (x_server x) ++ [Arrived r]))
      (x_posts x ++ [q]) (x_answers x) (x_labels x) (x_actions x ++ [AArrive r]))
| x_serves i h a s' h' :
    sy_handlers (x_server x) !! i = Some h -> hstep (sy_server (x_server x)) h a s' h' ->
    xmove x (mkExchange (x_http x) (mkSystem s' (<[i := h']> (sy_handlers (x_server x))))
      (x_posts x) (x_answers x ++ answer_of i a) (x_labels x) (x_actions x ++ [a]))
| x_faults f :
    xmove x (mkExchange (x_http x) (mkSystem (SetFaults f (sy_server (x_server x))) (sy_handlers (x_server x)))
      (x_posts x) (x_answers x) (x_labels x) (x_actions x ++ [ASetFaults f])).

Definition xstep (x x' : exchange) : Prop := xmove x x' /\ net x'.

(** A handler whose delivery is still to be compared with the earlier ones. *)
Definition uncompared (h : handler) : bool := match h with Arrived _ | Checking _ _ | Comparing _ _ => true | _ => false end.

(** No request is still to be compared once the worker is done with its batch. *)
Definition prompt (x : exchange) : Prop := forall i q h,
  x_posts x !! i = Some q -> sy_handlers (x_server x) !! i = Some h -> uncompared h = true ->
  Http.held (Http.wk (x_http x)) = [q].

Definition xstart (x : exchange) : Prop := exists t0, x = mkExchange (Http.NewState t0) (mkSystem s0 []) [] [] [] [].

(** The steps of the exporter between two states. *)
Definition xlabels (x x' : exchange) (ls : list Http.label) : Prop :=
  rtc xstep x x' /\ x_labels x' = x_labels x ++ ls.

(** The pair, as the agent sees it. *)
Definition exchange_exporter : Exporter exchange := {|
  boots := xstart;
  Stats_ x := Http.Stats_of (x_http x);
  exports x b taken x' := exists ls, xlabels x x' ls /\
    Http.pr (x_http x) = Http.Ready /\ Http.pr (x_http x') = Http.Ready /\ Forall (Http.of_batch b) ls /\
    count Http.is_offer ls = (if taken then 1%nat else 0%nat) /\ (taken = false -> Http.LCancelled ∈ ls);
  elapses x x' := exists ls, xlabels x x' ls /\ Forall (fun l => Http.is_call l = false) ls;
|}.

(** ** What holds of the pair *)

Context (Hlate : 0 <= late) (Htimeout : Http.Timeout ecfg < 2 ^ 62) (Hempty : sv_instances s0 = ∅).
Context `{!MapRangeLaws, !TimeTextLaws, !Unzips gz D, !Plain cfg}.

(** What a queued batch is made of. *)
Definition made_of (b : Batch) (q : queued) : Prop := exists body, gz (batchLine b) = inr body /\ q = queuedOf body b.

(** A checked request: the batch that was posted, good only if it conforms, or a
    refusal. *)
Definition checked (q : queued) (res : result) : Prop :=
  forall b, wf Batch_codec b -> made_of b q ->
    received b res /\ (fatals (re_failures res) = [] -> exists now, conforms cfg now (idempotencyKey b) b) \/
    unidentified res /\ fatals (re_failures res) <> [].

(** A handler serves a request made of [q]. *)
Definition serves (q : queued) (h : handler) : Prop :=
  match h with
  | Arrived r | Checking _ r => r = posted (Path cfg) apiKey q
  | Comparing res _ | Recording res | Deciding res | Delaying res _ | Answering res _ | Counting res => checked q res
  | Answered => True
  end.

Lemma check_serves q n r now ok res c seen : r = posted (Path cfg) apiKey q ->
  checkRequest now r n (mkChecker seen []) = ((ok, res), c) -> checked q (set_failures (out c) res).
Proof.
  intros -> E b Hw (body & Hz & ->). destruct (base.decide (admissible cfg apiKey body b)) as [Ha|Ha].
  - destruct (posted_passes gz cfg now n apiKey body b seen Hw Hz Ha) as (res' & c' & E' & [] & Hc).
    rewrite E in E'. injection E' as -> -> ->. left. split; [by split|]. intros Hf. exists now. by apply Hc.
  - destruct (posted_refused gz cfg now n apiKey body b seen Hz Ha) as (res' & c' & E' & Hf).
    apply checkRequest_decided in E as Hd. rewrite E in E'. injection E' as -> -> ->.
    destruct Hd as [[? _]|[_ Hu]]; [done|]. by right.
Qed.

(** More failures, the same delivery. *)
Lemma checked_more q res res' new :
  checked q res -> re_failures res' = re_failures res ++ new ->
  (re_raw res', re_batch res', re_key res', re_instance res', re_seq res', re_hash res') =
    (re_raw res, re_batch res, re_key res, re_instance res, re_seq res, re_hash res) ->
  checked q res'.
Proof.
  intros Hc Hf [= E1 E2 E3 E4 E5 E6] b Hw Hm. unfold unidentified in *. rewrite Hf, E2, E4, fatals_app.
  destruct (Hc b Hw Hm) as [[[] Hok]|[Hu Hne]]; [left|right].
  - split; [split; congruence|]. intros [Hn _]%app_nil. by apply Hok.
  - split; [done|]. by intros [? _]%app_nil.
Qed.

Lemma no_fatals l : existsb is_fatal l = false -> fatals l = [].
Proof.
  intros Hf. apply fatals_nil. intros f Hin. destruct (f_Severity f) eqn:E; [|done].
  assert (existsb is_fatal l = true); [|congruence]. apply existsb_exists. exists f.
  split; [by apply list_elem_of_In|]. unfold is_fatal. by rewrite E.
Qed.

(** What an action of the handler of [q] says. *)
Definition about (q : queued) (a : action) : Prop :=
  match a with
  | ACompare res _ => checked q res
  | AAnswer res an => checked q res /\ (accepts an = true -> fatals (re_failures res) = [])
  | _ => True
  end.

Lemma hstep_serves q s h a s' h' : serves q h -> hstep s h a s' h' -> serves q h' /\ about q a.
Proof.
  intros Hs Hh.
  destruct Hh as [r s1|n r now ok res c E res'|res b res' s' fs E|res fatal s' E|res f Hb|res f s' E|res f|res f
    |res f a Hb _ Ha|res f Hb _|res f Hb _|res s1]; simpl in Hs; try done.
  - split; [|done]. pose proof (check_serves q n r now ok res c _ Hs E) as Hc.
    destruct (re_batch res') as [b|], ok; exact Hc.
  - split; [|exact Hs]. apply checkState_keeps in E as [Hk [new ->]]. by eapply checked_more.
  - split; [|done]. by destruct fatal.
  - split; [|done]. by destruct (0 <? ft_delay f).
  - split; [done|]. split; [done|]. by destruct Ha as [-> | ->].
  - split; [done|]. split; [done|]. intros _. by apply no_fatals.
Qed.

(** The invariant of the pair. *)
Record xinv (x : exchange) : Prop := {
  xi_http : exists t0, Http.run (Http.NewHTTPExporter ecfg) late (Http.NewState t0) (x_labels x) (x_http x);
  xi_server : run s0 (x_actions x) (x_server x);
  xi_reset : AReset ∉ x_actions x;
  xi_posts : forall q, q ∈ x_posts x -> Http.LAttempt q ∈ x_labels x;
  xi_serves : Forall2 serves (x_posts x) (sy_handlers (x_server x));
  xi_compared : forall res res', ACompare res res' ∈ x_actions x -> exists q, q ∈ x_posts x /\ checked q res;
  xi_answers : forall i res an, (i, res, an) ∈ x_answers x ->
    AAnswer res an ∈ x_actions x /\ exists q, x_posts x !! i = Some q /\ about q (AAnswer res an);
  xi_answered : forall res an, AAnswer res an ∈ x_actions x -> exists i, (i, res, an) ∈ x_answers x;
  xi_concludes : forall l, l ∈ x_labels x -> concluded x l;
}.

Lemma xinv_start x : xstart x -> xinv x.
Proof.
  intros [t0 ->]. split; simpl.
  - exists t0. apply Http.run_nil.
  - apply run_nil.
  - apply not_elem_of_nil.
  - by intros q ?%not_elem_of_nil.
  - constructor.
  - by intros res res' ?%not_elem_of_nil.
  - by intros i res an ?%not_elem_of_nil.
  - by intros res an ?%not_elem_of_nil.
  - by intros l ?%not_elem_of_nil.
Qed.

Lemma answered_grows x x' q p :
  (exists l, x_answers x' = x_answers x ++ l) -> (exists l, x_posts x' = x_posts x ++ l) -> answered x q p -> answered x' q p.
Proof.
  intros [l El] [k Ek] (i & res & an & Hin & Hi & Hp). exists i, res, an. rewrite El, Ek.
  split; [apply elem_of_app; by left|]. split; [by apply lookup_app_l_Some|done].
Qed.

Lemma concluded_grows x x' l :
  (exists l, x_answers x' = x_answers x ++ l) -> (exists l, x_posts x' = x_posts x ++ l) -> concluded x l -> concluded x' l.
Proof. intros Ha Hp. destruct l; simpl; try done; by apply answered_grows. Qed.

(** What the exporter concludes it was told. *)
Lemma hears_concluded x rt l h' : Http.attempt_step (x_http x) rt l h' -> hears x rt -> concluded x l.
Proof.
  assert (forall d w since, Http.wk (x_http x) = Http.Sending d w since -> forall status ra text,
    hears x (Answers status ra text) -> answered x (Http.w_q w) (reads (Answers status ra text))) as Hans.
  { intros d w since Hw status ra text (q & Hq & Ha). rewrite Hw in Hq. by injection Hq as ->. }
  intros Hs Hh. destruct Hs as [d w since Hw Hv|d w since err Hw Hv|]; [| |done];
    destruct rt as [e|e|status ra text]; try discriminate Hv; apply (Hans _ _ _ Hw) in Hh as (i & res & an & Hin & Hi & Hst & _);
    exists i, res, an; (split; [done|]); (split; [done|]); exists status; (split; [done|]);
    unfold send in Hv; destruct (Z.leb_spec 400 status); cbn in Hv; try discriminate Hv; try done;
    destruct (retryableStatus status); cbn in Hv; first [done|discriminate Hv].
Qed.

Lemma elem_snoc {A} (x y : A) l : x ∈ l ++ [y] <-> x ∈ l \/ x = y.
Proof. by rewrite elem_of_app, list_elem_of_singleton. Qed.

(** An action of the server. *)
Definition serving (a : action) : bool := match a with ACompare _ _ | AAnswer _ _ => true | _ => false end.

Lemma xinv_acts x i a y' ps : xinv x -> step (x_server x) a y' -> a <> AReset ->
  (forall q, q ∈ ps -> Http.LAttempt q ∈ x_labels x) -> Forall2 serves (x_posts x ++ ps) (sy_handlers y') ->
  (serving a = true -> exists q, x_posts x !! i = Some q /\ about q a) ->
  xinv (mkExchange (x_http x) y' (x_posts x ++ ps) (x_answers x ++ answer_of i a) (x_labels x) (x_actions x ++ [a])).
Proof.
  intros [Hh Hs Hr Hp Hv Hc Ha Hd Hl] Hst Hne Hps Hv' Hab.
  split; cbn [x_http x_server x_posts x_answers x_labels x_actions]; try done.
  - by eapply run_snoc.
  - intros [?|?]%elem_snoc; [done|congruence].
  - intros q [Hq|Hq]%elem_of_app; auto.
  - intros res res' [Hin|<-]%elem_snoc.
    + destruct (Hc _ _ Hin) as (q & Hq & Hck). exists q. split; [apply elem_of_app; by left|done].
    + destruct (Hab eq_refl) as (q & Hq & Hck). exists q. apply list_elem_of_lookup_2 in Hq.
      split; [apply elem_of_app; by left|exact Hck].
  - assert (forall j res an, (exists q, x_posts x !! j = Some q /\ about q (AAnswer res an)) ->
      exists q, (x_posts x ++ ps) !! j = Some q /\ about q (AAnswer res an)) as Hg.
    { intros j res an (q & Hq & Hx). exists q. split; [by apply lookup_app_l_Some|done]. }
    intros j res an [Hin|Hin]%elem_of_app.
    + destruct (Ha _ _ _ Hin) as [Hac Hq]. split; [apply elem_snoc; by left|auto].
    + unfold answer_of in Hin. destruct a; try by apply not_elem_of_nil in Hin.
      apply list_elem_of_singleton in Hin as [= -> -> ->]. split; [apply elem_snoc; by right|]. apply Hg, Hab. done.
  - intros res an [Hin|<-]%elem_snoc.
    + destruct (Hd _ _ Hin) as [j Hj]. exists j. apply elem_of_app. by left.
    + exists i. apply elem_of_app. right. by apply list_elem_of_singleton.
  - intros l Hin. eapply concluded_grows; [by eexists|by eexists|by apply Hl].
Qed.

Lemma xinv_step x x' : xinv x -> xmove x x' -> xinv x'.
Proof.
  intros Hx Hm. pose proof Hx as [[t0 Hh] Hs Hr Hp Hv Hc Ha Hd Hl].
  assert (forall l h', Http.step (Http.NewHTTPExporter ecfg) late (x_http x) l h' -> concluded x l ->
    xinv (mkExchange h' (x_server x) (x_posts x) (x_answers x) (x_labels x ++ [l]) (x_actions x))) as Hexp.
  { intros l h' Hst Hcon. split; cbn [x_http x_server x_posts x_answers x_labels x_actions]; try done.
    - exists t0. by eapply Http.run_snoc.
    - intros q Hq. apply elem_snoc. left. by apply Hp.
    - intros l' [Hin|Heq]%elem_snoc; [by apply Hl|by subst l']. }
  destruct Hm as [l h' Hst Hno|rt l h' Hst Hh'|q Hq r|i h a s' h' Hi Hst|f].
  - apply Hexp; [done|]. destruct l as [| | | | | | | | |q|q| | | |]; try done; exfalso;
      inversion Hst as [? ? Hpr|? ? [? ? Hw|? ? Hc'| ]]; subst; try (by inversion Hpr); try (by inversion Hc');
      inversion Hw as [| | | | | | | | |rt ? ? He]; subst; by eapply Hno.
  - apply Hexp; [by eapply Http.s_inner, Http.s_worker, Http.w_ends|by eapply hears_concluded].
  - pose proof (xinv_acts x 0 _ _ [q] Hx (step_arrive cfg (x_server x) r)) as H'. cbn [answer_of] in H'.
    rewrite app_nil_r in H'. apply H'; [done| |by apply Forall2_app; [|constructor]|done].
    by intros q' ->%list_elem_of_singleton.
  - destruct (Forall2_lookup_r _ _ _ _ _ Hv Hi) as (q & Hq & Hsq).
    destruct (hstep_serves _ _ _ _ _ _ Hsq Hst) as [Hs' Hab].
    pose proof (xinv_acts x i a _ [] Hx (step_handler cfg (x_server x) i h a s' h' Hi Hst)) as H'.
    rewrite app_nil_r in H'. apply H'; [by inversion Hst; subst|by intros ? ?%not_elem_of_nil| |by exists q].
    cbn [sy_handlers]. rewrite <- (list_insert_id _ _ _ Hq). by apply Forall2_insert.
  - pose proof (xinv_acts x 0 _ _ [] Hx (step_faults cfg (x_server x) f)) as H'. cbn [answer_of] in H'.
    rewrite !app_nil_r in H'. apply H'; [done|by intros ? ?%not_elem_of_nil|done|done].
Qed.

Lemma xinv_steps x x' : xinv x -> rtc xstep x x' -> xinv x'.
Proof. intros Hx Hr. induction Hr as [x|x1 x2 x3 [Hm _] _ IH]; [done|]. by apply IH, (xinv_step x1). Qed.

(** ** The batches of one agent *)

(** What the exporter admitted is made of some of these batches, in order. *)
Definition shipped (bs : list Batch) (ls : list Http.label) : Prop :=
  exists es, es `sublist_of` bs /\ Forall2 made_of es (Http.enqueued ls).

Lemma shipped_before bs ls ls' : shipped bs (ls ++ ls') -> shipped bs ls.
Proof.
  intros (es & Hs & He). unfold Http.enqueued in He. rewrite omap_app in He.
  apply Forall2_app_inv_r in He as (es1 & es2 & He1 & _ & ->). exists es1. split; [|done].
  transitivity (es1 ++ es2); [by apply sublist_inserts_r|done].
Qed.

Section agent.
Context (bs : list Batch) (id : string).
Context (Hwf : Forall (wf Batch_codec) bs) (Hid : forall b, b ∈ bs -> b_AgentInstanceID b = id).
Context (Hnum : b_BatchSeq <$> bs = seqZ 1 (Z.of_nat (length bs))).

Lemma same_seq b b' : b ∈ bs -> b' ∈ bs -> b_BatchSeq b = b_BatchSeq b' -> b = b'.
Proof.
  intros [i Hi]%list_elem_of_lookup [j Hj]%list_elem_of_lookup Heq.
  assert (NoDup (b_BatchSeq <$> bs)) as Hn by (rewrite Hnum; apply NoDup_seqZ).
  assert (i = j) as ->; [|congruence].
  apply (NoDup_lookup _ i j (b_BatchSeq b) Hn); rewrite list_lookup_fmap; [by rewrite Hi|rewrite Hj; simpl; congruence].
Qed.

Lemma same_key b b' : b ∈ bs -> b' ∈ bs -> idempotencyKey b = idempotencyKey b' -> b = b'.
Proof.
  intros Hb Hb' Hk. apply same_seq; [done..|]. apply idempotencyKey_inj; [|exact Hk]. by rewrite !Hid.
Qed.

Lemma made_seq b q : made_of b q -> q_seq q = b_BatchSeq b /\ q_key q = idempotencyKey b.
Proof. by intros (body & _ & ->). Qed.

(** The queue keeps the agent's order. *)
Lemma shipped_sorted ls : shipped bs ls -> StronglySorted Z.lt (q_seq <$> Http.enqueued ls).
Proof.
  intros (es & Hs & He).
  assert (q_seq <$> Http.enqueued ls = b_BatchSeq <$> es) as ->.
  { clear Hs. induction He as [|b q es qs Hm _ IH]; [done|]. rewrite !fmap_cons, IH. by destruct (made_seq b q Hm) as [-> _]. }
  eapply sorted_sublist; [by apply fmap_sublist|]. rewrite Hnum. apply seqZ_sorted.
Qed.

Lemma shipped_made ls q : shipped bs ls -> q ∈ Http.enqueued ls -> exists b, b ∈ bs /\ made_of b q.
Proof.
  intros (es & Hs & He) [i Hi]%list_elem_of_lookup.
  destruct (Forall2_lookup_r _ _ _ _ _ He Hi) as (b & Hb & Hm). exists b. split; [|done].
  eapply elem_of_sublist; [by eapply list_elem_of_lookup_2|done].
Qed.

Section reached.
Context (x : exchange) (Hx : xinv x) (Hship : shipped bs (x_labels x)).

Lemma posted_taken q : q ∈ x_posts x -> q ∈ Http.taken (x_labels x).
Proof.
  intros Hq. destruct (xi_http x Hx) as [t0 Hr]. apply (Http.attempted_taken ecfg late t0 Hlate Htimeout _ _ _ Hr). by apply (xi_posts x Hx).
Qed.

Lemma taken_enqueued q : q ∈ Http.taken (x_labels x) -> q ∈ Http.enqueued (x_labels x).
Proof.
  intros Hq. destruct (xi_http x Hx) as [t0 Hr]. eapply elem_of_sublist; [exact Hq|].
  exact (Http.taken_in_order ecfg late t0 Hlate Htimeout _ _ Hr).
Qed.

Lemma checked_received q res : q ∈ x_posts x -> checked q res -> identified res ->
  exists b, b ∈ bs /\ made_of b q /\ received b res /\
    (fatals (re_failures res) = [] -> exists now, conforms cfg now (idempotencyKey b) b).
Proof.
  intros Hq Hc [Hi _]. destruct (shipped_made _ _ Hship (taken_enqueued _ (posted_taken _ Hq))) as (b & Hb & Hm).
  exists b. split; [done|]. split; [done|].
  destruct (Hc b (proj1 (list.Forall_forall _ _) Hwf b Hb) Hm) as [?|[[_ ?] _]]; done.
Qed.

(** *** What was answered *)

Lemma accepted_checked i res an : (i, res, an) ∈ x_answers x -> accepts an = true ->
  exists q b now, x_posts x !! i = Some q /\ b ∈ bs /\ made_of b q /\ received b res /\ conforms cfg now (idempotencyKey b) b.
Proof.
  intros Hin Hacc. destruct (xi_answers x Hx _ _ _ Hin) as (_ & q & Hq & Hck & Hf). specialize (Hf Hacc).
  pose proof (list_elem_of_lookup_2 _ _ _ Hq) as Hqin.
  destruct (shipped_made _ _ Hship (taken_enqueued _ (posted_taken _ Hqin))) as (b & Hb & Hm).
  destruct (Hck b (proj1 (list.Forall_forall _ _) Hwf b Hb) Hm) as [[Hr Hc]|[_ Hne]]; [|done].
  destruct (Hc Hf) as [now Hn]. by exists q, b, now.
Qed.

Definition accepted_keys : list string :=
  (fun p => re_key p.1.2) <$> base.filter (fun p => Is_true (accepts p.2)) (x_answers x).

(** With faults that refuse, only what is accepted is answered below 400. *)
Context (Harmed : armed_ok (sv_faults s0)) (Hhonest : Forall honest_action (x_actions x)).

Lemma exported_checked q : Http.LExported q ∈ x_labels x ->
  exists b i res seq now, b ∈ bs /\ made_of b q /\ (i, res, Accepted seq) ∈ x_answers x /\ x_posts x !! i = Some q /\
    received b res /\ conforms cfg now (idempotencyKey b) b.
Proof.
  intros Hq. destruct (xi_concludes x Hx _ Hq) as (i & res & an & Hin & Hi & status & Hst & Hlt).
  pose proof (answers_refuse cfg s0 _ _ Harmed Hhonest (xi_server x Hx)) as Hall. rewrite list.Forall_forall in Hall.
  destruct (accepts an) eqn:Hacc;
    [|pose proof (Hall _ (proj1 (xi_answers x Hx _ _ _ Hin)) Hacc status Hst) as Hr; unfold refusing in Hr; lia].
  destruct (accepted_checked _ _ _ Hin Hacc) as (q' & b & now & Hi' & Hb & Hm & Hr & Hc).
  rewrite Hi in Hi'. injection Hi' as <-. destruct an as [|seq| | | |]; try done. by exists b, i, res, seq, now.
Qed.

Lemma exported_counted : (count Http.is_exported (x_labels x) <= count (fun p => accepts p.2) (x_answers x))%nat.
Proof.
  replace (count (fun p => accepts p.2) (x_answers x)) with (length accepted_keys) by (unfold accepted_keys; by rewrite length_fmap).
  assert (count Http.is_exported (x_labels x) = length (q_key <$> Http.delivered (x_labels x))) as ->.
  { rewrite length_fmap. unfold Http.delivered. generalize (x_labels x) as l. induction l as [|a l IH]; [done|].
    rewrite count_cons, IH. by destruct a. }
  apply submseteq_length, NoDup_submseteq.
  - destruct (xi_http x Hx) as [t0 Hr].
    pose proof (Http.delivered_in_order ecfg late t0 Hlate Htimeout _ _ Hr) as Hd.
    assert (NoDup (q_seq <$> Http.delivered (x_labels x))) as Hn.
    { eapply sublist_NoDup; [apply sorted_NoDup, (shipped_sorted _ Hship)|by apply fmap_sublist]. }
    apply NoDup_fmap_2_strong; [|by eapply NoDup_fmap_1].
    intros q q' Hq Hq' Hk.
    assert (forall q, q ∈ Http.delivered (x_labels x) -> exists b, b ∈ bs /\ made_of b q) as Hm.
    { intros q1 Hq1. apply (shipped_made _ _ Hship). by eapply elem_of_sublist. }
    destruct (Hm q Hq) as (b & Hb & Hmb), (Hm q' Hq') as (b' & Hb' & Hmb').
    assert (b = b') as <-. { apply same_key; [done..|]. destruct (made_seq _ _ Hmb), (made_seq _ _ Hmb'). congruence. }
    destruct Hmb as (body & E & ->), Hmb' as (body' & E' & ->). congruence.
  - intros k (q & -> & Hq)%list_elem_of_fmap. unfold Http.delivered in Hq.
    apply list_elem_of_omap in Hq as (l & Hl & Hlq). destruct l; try done. injection Hlq as ->.
    destruct (exported_checked _ Hl) as (b & i & res & seq & now & _ & Hm & Hin & _ & Hr & _).
    apply list_elem_of_fmap. exists (i, res, Accepted seq). split.
    + simpl. rewrite (rc_key _ _ Hr). apply (made_seq _ _ Hm).
    + apply list_elem_of_filter. done.
Qed.

(** *** What the server says of a delivery *)

Lemma compared_batch res res' : ACompare res res' ∈ x_actions x -> identified res ->
  exists q b, q ∈ x_posts x /\ b ∈ bs /\ made_of b q /\ received b res.
Proof.
  intros Hin Hi. destruct (xi_compared x Hx _ _ Hin) as (q & Hq & Hck).
  destruct (checked_received _ _ Hq Hck Hi) as (b & Hb & Hm & Hr & _). by exists q, b.
Qed.

(** Two deliveries of a key are of one body. *)
Lemma one_body pre res res' : (forall a, a ∈ pre -> a ∈ x_actions x) -> ACompare res res' ∈ x_actions x -> identified res ->
  forall body, first_body (re_instance res) (re_key res) pre = Some body -> body = re_hash res.
Proof.
  intros Hpre Hin Hi body Hf. unfold first_body in Hf.
  assert (body ∈ omap (body_of (re_instance res) (re_key res)) pre) as Hb.
  { destruct (omap _ pre); [done|]. injection Hf as ->. by left. }
  apply list_elem_of_omap in Hb as (a & Ha & Hab). destruct a as [| | |res0 r0| | | | | | |]; try done.
  cbn [body_of] in Hab. unfold is_of in Hab. destruct (String.eqb_spec (re_instance res0) (re_instance res)) as [Ei|]; [|done].
  destruct (String.eqb_spec (re_key res0) (re_key res)) as [Ek|]; [|done]. injection Hab as <-.
  destruct (compared_batch _ _ (Hpre _ Ha)) as (q0 & b0 & _ & Hb0 & _ & Hr0); [unfold identified; by rewrite Ei, Ek|].
  destruct (compared_batch _ _ Hin Hi) as (q & b & _ & Hb & _ & Hr).
  assert (b0 = b) as ->. { apply same_key; [done..|]. rewrite <- (rc_key _ _ Hr0), <- (rc_key _ _ Hr). done. }
  by rewrite (rc_hash _ _ Hr0), (rc_hash _ _ Hr).
Qed.
End reached.

Lemma run_split s pre a post y : run s (pre ++ a :: post) y -> exists y1 y2, run s pre y1 /\ step y1 a y2.
Proof.
  revert y. induction post as [|a' post IH] using rev_ind; intros y Hr.
  - inversion Hr as [E|tr y1 a1 y2 Hr1 Hs E]; [by destruct pre|]. apply app_inj_tail in E as [-> ->]. by exists y1, y.
  - rewrite app_comm_cons, app_assoc in Hr. inversion Hr as [E|tr y1 a1 y2 Hr1 Hs E]; [by destruct pre|].
    apply app_inj_tail in E as [-> ->]. by eapply IH.
Qed.

(** Only a delivery that was compared is acknowledged. *)
Lemma acknowledged_compared inst key tr y : insts_ok tr (sy_server y) -> inst <> ""%string -> key <> ""%string ->
  acknowledged inst key tr -> exists body, first_body inst key tr = Some body.
Proof.
  intros Hok Hi Hk Hac. destruct (Hok _ Hi) as (_ & _ & Hd). destruct (Hd _ Hk) as [Hb _ Hno].
  destruct (in_seen _ !! key) as [d|]; [by exists (d_hash d)|]. by destruct Hac; apply Hno.
Qed.

Lemma delivery_verdicts x pre res res' post : xinv x -> shipped bs (x_labels x) ->
  x_actions x = pre ++ ACompare res res' :: post -> identified res ->
  ~ reported "idempotency.body_mismatch" res res' /\
  (reported "idempotency.replay" res res' <-> acknowledged (re_instance res) (re_key res) pre).
Proof.
  intros Hx Hship E [Hi Hk]. pose proof (xi_server x Hx) as Hr. rewrite E in Hr.
  destruct (run_split _ _ _ _ _ Hr) as (y1 & y2 & Hr1 & Hs).
  assert (forall a, a ∈ pre -> a ∈ x_actions x) as Hpre by (intros a Ha; rewrite E; apply elem_of_app; by left).
  assert (ACompare res res' ∈ x_actions x) as Hin by (rewrite E; apply elem_of_app; right; by left).
  assert (AReset ∉ pre) as Hreset by (intros Ha; by apply (xi_reset x Hx), Hpre).
  destruct (run_memory cfg s0 pre y1 Hempty Hreset Hr1) as [Hok _].
  destruct (compare_verdicts cfg pre y1 res res' y2 Hok Hs Hi Hk) as (-> & -> & _).
  pose proof (one_body x Hx Hship pre res res' Hpre Hin (conj Hi Hk)) as Hone. split.
  - intros (body & Hf & Hne). by apply Hne, Hone.
  - split; [by intros [_ ?]|]. intros Hac. split; [|done].
    destruct (acknowledged_compared _ _ pre y1 Hok Hi Hk Hac) as [body Hf]. by rewrite Hf, (Hone _ Hf).
Qed.

(** *** When the network does not delay *)

Lemma max_acked l z : 1 <= z -> z <= foldr Z.max 0 l -> exists z', z' ∈ l /\ z <= z'.
Proof.
  intros Hz. induction l as [|y l IH]; simpl; [lia|]. intros Hle. destruct (Z.le_gt_cases z y) as [Hy|Hy].
  - exists y. split; [by left|done].
  - destruct IH as (z' & Hin & Hz'); [lia|]. exists z'. split; [by right|done].
Qed.

(** The batch in the worker's hands is the last one taken. *)
Lemma held_last x q q' : xinv x -> shipped bs (x_labels x) -> Http.held (Http.wk (x_http x)) = [q] -> q' ∈ x_posts x ->
  q_seq q' <= q_seq q.
Proof.
  intros Hx Hship Hheld Hq'. apply (posted_taken x Hx) in Hq'. destruct (xi_http x Hx) as [t0 Hr].
  destruct (Http.held_taken ecfg late t0 Hlate Htimeout _ _ Hr) as [k Hk]. rewrite Hheld in Hk.
  pose proof (Http.taken_in_order ecfg late t0 Hlate Htimeout _ _ Hr) as Hin.
  assert (StronglySorted Z.lt (q_seq <$> Http.taken (x_labels x))) as Hsort.
  { eapply sorted_sublist; [by apply fmap_sublist|by apply shipped_sorted]. }
  rewrite Hk in Hq', Hsort. rewrite fmap_app in Hsort.
  apply elem_of_app in Hq' as [Hq'|Hq'%list_elem_of_singleton]; [|by subst q'].
  apply Z.lt_le_incl, (StronglySorted_app_1_elem_of _ _ _ _ _ Hsort); [by apply list_elem_of_fmap_2|by left].
Qed.

Lemma batch_positive b : b ∈ bs -> 1 <= b_BatchSeq b.
Proof.
  intros Hb. assert (b_BatchSeq b ∈ b_BatchSeq <$> bs) as Hin by (by apply list_elem_of_fmap_2).
  rewrite Hnum in Hin. apply elem_of_seqZ in Hin. lia.
Qed.

Lemma compare_in_order x i res b h' s' res' : xinv x -> prompt x -> shipped bs (x_labels x) ->
  sy_handlers (x_server x) !! i = Some (Comparing res b) ->
  hstep (sy_server (x_server x)) (Comparing res b) (ACompare res res') s' h' -> identified res ->
  ~ reported "idempotency.seq_regression" res res'.
Proof.
  intros Hx Hprompt Hship Hi Hst Hid'. pose proof Hid' as [Hin Hk].
  destruct (Forall2_lookup_r _ _ _ _ _ (xi_serves x Hx) Hi) as (q & Hq & Hck). simpl in Hck.
  pose proof (list_elem_of_lookup_2 _ _ _ Hq) as Hqin.
  destruct (checked_received x Hx Hship q res Hqin Hck Hid') as (b1 & Hb1 & Hm1 & Hr1 & _).
  destruct (run_memory cfg s0 _ _ Hempty (xi_reset x Hx) (xi_server x Hx)) as [Hok _].
  destruct (compare_verdicts cfg (x_actions x) (x_server x) res res' _ Hok (step_handler cfg _ _ _ _ _ _ Hi Hst) Hin Hk)
    as (_ & _ & -> & _).
  intros [Hf Hle]. rewrite (rc_seq _ _ Hr1) in Hle. apply max_acked in Hle as (z & Hz & Hle); [|by apply batch_positive].
  apply list_elem_of_omap in Hz as (a & Ha & Hza). destruct a as [| | | | | | |res0 [|seq| | | |]| | |]; try done.
  cbn [inst_ack] in Hza. destruct (String.eqb_spec (re_instance res0) (re_instance res)) as [Ei|]; [|done].
  destruct (String.eqb_spec (re_key res0) "") as [|Hk0]; [done|]. injection Hza as <-.
  destruct (xi_answered x Hx _ _ Ha) as [j Hj]. destruct (xi_answers x Hx _ _ _ Hj) as (_ & q0 & Hq0 & Hck0 & _).
  pose proof (list_elem_of_lookup_2 _ _ _ Hq0) as Hq0in.
  destruct (checked_received x Hx Hship q0 res0 Hq0in Hck0) as (b0 & Hb0 & Hm0 & Hr0 & _); [split; [by rewrite Ei|done]|].
  rewrite (rc_seq _ _ Hr0) in Hle.
  pose proof (held_last x q q0 Hx Hship (Hprompt _ _ _ Hq Hi eq_refl) Hq0in) as Hlast.
  rewrite (proj1 (made_seq _ _ Hm0)), (proj1 (made_seq _ _ Hm1)) in Hlast.
  assert (b0 = b1) as -> by (apply same_seq; [done..|lia]).
  assert (re_key res0 = re_key res) as Ek by (by rewrite (rc_key _ _ Hr0), (rc_key _ _ Hr1)).
  destruct (acknowledged_compared (re_instance res) (re_key res) (x_actions x) (x_server x) Hok Hin Hk) as [body Hb];
    [|by rewrite Hf in Hb].
  unfold acknowledged. intros Hnil. assert (re_seq res0 ∈ omap (ack_of (re_instance res) (re_key res)) (x_actions x)) as Hz.
  { apply list_elem_of_omap. exists (AAnswer res0 (Accepted seq)). split; [done|]. cbn [ack_of]. unfold is_of.
    by rewrite Ei, Ek, !String.eqb_refl. }
  rewrite Hnil in Hz. by apply not_elem_of_nil in Hz.
Qed.

Lemma xmove_grows x x' : xmove x x' ->
  (exists ls, x_labels x' = x_labels x ++ ls) /\
  (x_actions x' = x_actions x \/ exists a, x_actions x' = x_actions x ++ [a]).
Proof.
  intros []; simpl; (split; [first [by eexists|exists []; by rewrite app_nil_r]|first [by left|right; by eexists]]).
Qed.

Lemma prompt_start x : xstart x -> prompt x.
Proof. by intros [t0 ->] i q h Hq. Qed.

Context (Hprompt : forall x, net x -> prompt x).

(** Deliveries are compared in order. *)
Lemma no_regression x0 x : xstart x0 -> rtc xstep x0 x -> shipped bs (x_labels x) ->
  forall pre res res' post, x_actions x = pre ++ ACompare res res' :: post -> identified res ->
  ~ reported "idempotency.seq_regression" res res'.
Proof.
  intros Hstart Hr. set (P := fun x => prompt x /\ (shipped bs (x_labels x) ->
    forall pre res res' post, x_actions x = pre ++ ACompare res res' :: post -> identified res ->
    ~ reported "idempotency.seq_regression" res res')).
  enough (P x) as [_ ?] by done. revert x Hr. apply (rtc_ind_r P x0).
  { split; [by apply prompt_start|]. intros _ pre res res' post E. destruct Hstart as [t0 ->]. by destruct pre. }
  intros x1 x2 Hr [Hm Hn] [Hp IH].
  split; [by apply Hprompt|]. intros Hship pre res res' post E Hi.
  destruct (xmove_grows _ _ Hm) as [[ls Els] Hacts].
  assert (shipped bs (x_labels x1)) as Hs1 by (rewrite Els in Hship; by eapply shipped_before).
  destruct Hacts as [Ea|[a Ea]]; [by apply (IH Hs1 pre _ _ post); [congruence|]|].
  destruct post as [|a' post _] using rev_ind.
  - assert (xinv x1) as Hx1 by (eapply xinv_steps; [by apply xinv_start|done]).
    rewrite E in Ea. apply app_inj_tail in Ea as [-> <-].
    destruct Hm as [l h' _ _|rt l h' _ _|q _ r|i h a s' h' Hi' Hst|f]; cbn [x_actions] in E.
    + by apply (f_equal length) in E; rewrite length_app in E; simpl in E; lia.
    + by apply (f_equal length) in E; rewrite length_app in E; simpl in E; lia.
    + apply app_inj_tail in E as [_ E]. done.
    + apply app_inj_tail in E as [_ ->]. destruct h as [| |res1 b1| | | | | |]; try by inversion Hst.
      assert (res1 = res) as -> by (by inversion Hst). by eapply compare_in_order.
    + apply app_inj_tail in E as [_ E]. done.
  - rewrite app_comm_cons, app_assoc, Ea in E. apply app_inj_tail in E as [E _]. by eapply (IH Hs1).
Qed.
End agent.

(** *** On the agent's loop *)

Lemma offer_enqueues b ls : Forall (Http.of_batch b) ls -> (count Http.is_offer ls <= 1)%nat ->
  Http.enqueued ls = [] \/ exists q, Http.enqueued ls = [q] /\ made_of b q.
Proof.
  intros Hb. induction Hb as [|l ls Hl Hb IH]; intros Hc; [by left|]. rewrite count_cons in Hc.
  destruct l; simpl in Hc; try exact (IH ltac:(lia)).
  destruct IH as [E|(q' & E & _)]; [lia| |].
  - right. exists q. split; [by change (q :: Http.enqueued ls = [q]); rewrite E|].
    destruct Hl as (body & Hbody & ->). exists body. split; [by apply encodeBody_line|done].
  - exfalso. assert (Http.LEnqueue q' ∈ ls) as Hin.
    { assert (q' ∈ Http.enqueued ls) as Hq by (rewrite E; by left).
      apply list_elem_of_omap in Hq as (l & Hl' & Hq). destruct l; try done. by injection Hq as ->. }
    apply list_elem_of_split in Hin as (l1 & l2 & ->). rewrite count_app, count_cons in Hc. simpl in Hc. lia.
Qed.

Lemma quiet_enqueues ls : Forall (fun l => Http.is_call l = false) ls -> Http.enqueued ls = [].
Proof. induction 1 as [|l ls Hl _ IH]; [done|]. by destruct l. Qed.

Lemma shipped_quiet bs ls ls' : Http.enqueued ls' = [] -> shipped bs ls -> shipped bs (ls ++ ls').
Proof. intros E (es & Hs & He). exists es. split; [done|]. unfold Http.enqueued in *. by rewrite omap_app, E, app_nil_r. Qed.

Lemma shipped_offer bs b ls ls' : Forall (Http.of_batch b) ls' -> (count Http.is_offer ls' <= 1)%nat ->
  shipped bs ls -> shipped (bs ++ [b]) (ls ++ ls').
Proof.
  intros Hb Hc (es & Hs & He). destruct (offer_enqueues b ls' Hb Hc) as [E|(q & E & Hm)].
  - apply shipped_quiet; [done|]. exists es. split; [by apply sublist_inserts_r|done].
  - exists (es ++ [b]). split; [by apply sublist_app|]. unfold Http.enqueued in *. rewrite omap_app, E.
    apply Forall2_app; [done|]. by constructor.
Qed.

Section run.
Context {C : Type} `{!Agent.batchCollector C} (a : Agent.Agent) (seconds : Z -> Z).
Notation Run := (@Agent.Run C exchange _ exchange_exporter a seconds).

(** The pair behind a running agent. *)
Definition behind (tr : list (Batch * bool)) (s : @Agent.state C exchange) : Prop :=
  exists x0, xstart x0 /\ rtc xstep x0 (Agent.expo s) /\ shipped tr.*1 (x_labels (Agent.expo s)).

Lemma behind_waits tr s1 s2 : behind tr s1 -> @Agent.waits C exchange exchange_exporter s1 s2 -> behind tr s2.
Proof.
  intros (x0 & Hs & Hr & Hsh) Hw. destruct Hw as [x t stop (ls & [Hrt El] & Hq) _ _]. exists x0. cbn [Agent.expo].
  split; [done|]. split; [by etransitivity|]. rewrite El. apply shipped_quiet; [by apply quiet_enqueues|done].
Qed.

Lemma run_behind s tr s' : Run s tr s' -> behind tr s'.
Proof.
  apply Agent.Run_cycles; clear s tr s'.
  - intros s [_ Hb]. exists (Agent.expo s). split; [exact Hb|]. split; [apply rtc_refl|]. destruct Hb as [t0 ->].
    exists []. split; constructor.
  - intros tr s1 s2. apply behind_waits.
  - intros tr s o s' Hb Hc. destruct Hc as [s1 c' Hw _|s1 b c' Hw _ _|s1 s2 b c' taken x Hw _ _ Hw2 seq stamped Hx];
      [rewrite app_nil_r; exact (behind_waits _ _ _ Hb Hw)..|].
    destruct (behind_waits _ _ _ (behind_waits _ _ _ Hb Hw) Hw2) as (x0 & Hs & Hr & Hsh).
    destruct Hx as (ls & [Hrt El] & _ & _ & Hof & Hn & _). exists x0. cbn [Agent.expo].
    split; [done|]. split; [by etransitivity|]. rewrite El, fmap_app.
    apply shipped_offer; [done|destruct taken; lia|done].
Qed.

Lemma run_numbered s tr s' : Run s tr s' -> Z.of_nat (length tr) < 2 ^ 64 ->
  b_BatchSeq <$> tr.*1 = seqZ 1 (Z.of_nat (length tr.*1)) /\
  forall b, b ∈ tr.*1 -> b_AgentInstanceID b = Environment.AgentInstanceID (Agent.a_cfg a).
Proof.
  intros Hr Hl. destruct (@Agent.numbered_run C exchange _ exchange_exporter a seconds _ _ _ Hr Hl) as [Hn _].
  rewrite length_fmap. split; [done|]. intros b ([b1 taken] & -> & Hb)%list_elem_of_fmap.
  destruct (@Agent.Run_stamped C exchange _ exchange_exporter a seconds _ _ _ _ _ Hr Hb) as (? & ? & ? & ? & ? & ? & _ & ->). done.
Qed.

(** C7: Exported is accepted.  Let an agent run its loop on an HTTP exporter that
    posts to the ingest server over a network that may lose, repeat and delay what
    it carries, and let no fault of the server be configured to answer below 400.
    Then every batch the exporter counts as exported was answered 200: what it read
    of the answers, it read right.  The server had decoded the very batch the loop
    handed over and found it conforming.  At most as many are counted as exported as
    the server accepted.  And everything the server accepts, whatever its faults,
    was handed over by the loop and conforms. *)
Theorem exported_accepted s tr s' :
  Run s tr s' -> Z.of_nat (length tr) < 2 ^ 64 -> Forall (wf Batch_codec) tr.*1 ->
  let x := Agent.expo s' in
  (armed_ok (sv_faults s0) -> Forall honest_action (x_actions x) ->
   (forall q, Http.LExported q ∈ x_labels x -> exists b i res seq now,
      b ∈ tr.*1 /\ q_key q = idempotencyKey b /\ (i, res, Accepted seq) ∈ x_answers x /\ x_posts x !! i = Some q /\
      received b res /\ conforms cfg now (idempotencyKey b) b) /\
   BatchesExported (Http.Stats_of (x_http x)) <= Z.of_nat (count (fun p => accepts p.2) (x_answers x))) /\
  (forall i res seq, (i, res, Accepted seq) ∈ x_answers x -> exists b now,
     b ∈ tr.*1 /\ received b res /\ conforms cfg now (idempotencyKey b) b).
Proof.
  intros Hr Hl Hwf x. destruct (run_numbered _ _ _ Hr Hl) as [Hnum Hid].
  destruct (run_behind _ _ _ Hr) as (x0 & Hs & Hrt & Hsh). fold x in Hsh, Hrt.
  assert (xinv x) as Hx by (eapply xinv_steps; [by apply xinv_start|done]).
  split; [intros Harmed Hhonest; split|].
  - intros q Hq.
    destruct (exported_checked _ Hwf x Hx Hsh Harmed Hhonest q Hq) as (b & i & res & seq & now & Hb & Hm & Hin & Hi & Hrc & Hc).
    exists b, i, res, seq, now. split_and!; try done. by apply (made_seq _ _ Hm).
  - pose proof (exported_counted _ _ Hwf Hid Hnum x Hx Hsh Harmed Hhonest) as Hc. destruct (xi_http x Hx) as [t0 Hrun].
    destruct (Http.exporter_inv ecfg late t0 Hlate Htimeout _ _ Hrun) as [_ [(He & _) _ _] _ _ _].
    cbn [Http.Stats_of BatchesExported snapshot]. rewrite He. unfold wrapU.
    etransitivity; [apply Z.mod_le; lia|]. lia.
  - intros i res seq Hin. destruct (accepted_checked _ Hwf x Hx Hsh _ _ _ Hin eq_refl) as (q & b & now & _ & Hb & _ & Hrc & Hc).
    by exists b, now.
Qed.

(** C8: Verdicts on redeliveries.  Over such a network no delivery of the agent is
    ever judged a body mismatch, and one is judged a replay exactly when an earlier
    delivery of its batch was accepted, whether or not the answer reached the
    exporter.  If no request is left behind once the worker is done with its batch,
    none is judged a regression of the sequence. *)
Theorem redelivery_verdicts s tr s' pre res res' post :
  Run s tr s' -> Z.of_nat (length tr) < 2 ^ 64 -> Forall (wf Batch_codec) tr.*1 ->
  x_actions (Agent.expo s') = pre ++ ACompare res res' :: post -> re_instance res <> ""%string -> re_key res <> ""%string ->
  ~ reported "idempotency.body_mismatch" res res' /\
  (reported "idempotency.replay" res res' <-> acknowledged (re_instance res) (re_key res) pre) /\
  ((forall x, net x -> prompt x) -> ~ reported "idempotency.seq_regression" res res').
Proof.
  intros Hr Hl Hwf E Hi Hk. destruct (run_numbered _ _ _ Hr Hl) as [Hnum Hid].
  destruct (run_behind _ _ _ Hr) as (x0 & Hs & Hrt & Hsh).
  assert (xinv (Agent.expo s')) as Hx by (eapply xinv_steps; [by apply xinv_start|done]).
  destruct (delivery_verdicts _ _ Hwf Hid Hnum _ _ _ _ _ Hx Hsh E (conj Hi Hk)) as [Hm Hrep].
  split; [done|]. split; [done|]. intros Hp. by eapply (no_regression tr.*1).
Qed.
End run.
End exchange.

(** ** A lost answer and a redelivery *)

#[local] Instance queued_eq_dec : EqDecision queued.
Proof. solve_decision. Defined.

Definition all_prompt (x : exchange) : bool :=
  forallb (fun p : queued * handler => negb (uncompared p.2) || bool_decide (Http.held (Http.wk (x_http x)) = [p.1]))
    (zip (x_posts x) (sy_handlers (x_server x))).

Lemma all_prompt_prompt x : all_prompt x = true -> prompt x.
Proof.
  intros Hf i q h Hq Hh Hu. unfold all_prompt in Hf. rewrite forallb_forall in Hf.
  specialize (Hf (q, h)). cbn [fst snd] in Hf. rewrite Hu in Hf. cbn [negb orb] in Hf. rewrite bool_decide_eq_true in Hf. apply Hf, list_elem_of_In, list_elem_of_lookup.
  exists i. rewrite lookup_zip_with, Hq. simpl. by rewrite Hh.
Qed.

(** One action of a handler, when the client waits. *)
Section serve.
Context `{!MapRange, !HttpDate, !TimeText, D : !Decoders} (gz : string -> goerr + string).
Context (cfg : Config) (ecfg : Http.HTTPExporterConfig) (late : Z) (apiKey : string) (net : exchange -> Prop) (now : Z).

Definition xserve (i : nat) (x : exchange) : exchange :=
  match sy_handlers (x_server x) !! i with
  | Some h =>
      match @hnext (json_decoders D) _ cfg now (sy_server (x_server x)) h with
      | Some (a, s', h') =>
          mkExchange (x_http x) (mkSystem s' (<[i := h']> (sy_handlers (x_server x))))
            (x_posts x) (x_answers x ++ answer_of i a) (x_labels x) (x_actions x ++ [a])
      | None => x
      end
  | None => x
  end.

Lemma xserve_step i x : net (xserve i x) -> rtc (xstep gz cfg ecfg late apiKey net) x (xserve i x).
Proof.
  unfold xserve. destruct (sy_handlers (x_server x) !! i) as [h|] eqn:Eh; [|intros; apply rtc_refl].
  destruct (hnext _ _ _ _) as [[[a s'] h']|] eqn:Ea; [|intros; apply rtc_refl].
  intros Hn. apply rtc_once. split; [|done]. eapply x_serves; [exact Eh|by eapply hnext_hstep].
Qed.

Fixpoint xserves (n : nat) (i : nat) (x : exchange) : exchange :=
  match n with O => x | S n => xserves n i (xserve i x) end.

Lemma xserves_steps n : forall i x, (forall m, (m <= n)%nat -> net (xserves m i x)) ->
  rtc (xstep gz cfg ecfg late apiKey net) x (xserves n i x).
Proof.
  induction n as [|n IH]; intros i x Hn; [apply rtc_refl|]. simpl.
  etransitivity; [apply xserve_step, (Hn 1%nat); lia|]. apply IH. intros m Hm. apply (Hn (S m)). lia.
Qed.
End serve.

Notation demo_settings := (Http.NewHTTPExporter Http.sample_cfg).
Definition demo_collector : Agent.batchCollector () :=
  {| Agent.collects _ ob _ := ob = None \/ ob = Some (demo_batch 7) |}.
Definition demo_server : Server := match New demo_config with inr (_, s) => s | inl _ => demo_new.2 end.
Definition demo_net (x : exchange) : Prop := all_prompt x = true.
Definition demo_pair : Exporter exchange :=
  @exchange_exporter listed_range sample_dates utc demo_decoders inr demo_config demo_server Http.sample_cfg 0 "" demo_net.
Notation demo_xstep := (@xstep listed_range sample_dates utc demo_decoders inr demo_config Http.sample_cfg 0 "" demo_net).
Notation demo_serves := (@xserves listed_range utc demo_decoders demo_config 2000).

Definition demo_boot : exchange := mkExchange (Http.NewState 0) (mkSystem demo_server []) [] [] [] [].
Definition demo_stamped : Batch := Eval vm_compute in
  Agent.stamp Agent.sample_agent (fun n => n / Second) 1 (Http.Stats_of (Http.NewState 0)) 0 (demo_batch 7).
Definition demo_queued : queued := queuedOf (@batchLine utc demo_stamped) demo_stamped.

(** A step of the exporter. *)
Definition with_http (l : Http.label) (h : Http.http) (x : exchange) : exchange :=
  mkExchange h (x_server x) (x_posts x) (x_answers x) (x_labels x ++ [l]) (x_actions x).
Definition with_request (x : exchange) : exchange :=
  let r := posted "/v1/batches" "" demo_queued in
  mkExchange (x_http x) (mkSystem (sy_server (x_server x)) (sy_handlers (x_server x) ++ [Arrived r]))
    (x_posts x ++ [demo_queued]) (x_answers x) (x_labels x) (x_actions x ++ [AArrive r]).

Definition demo_state (queue : list queued) (c : counters) (w : Http.worker) : Http.http :=
  Http.mkHttp queue c w Http.Ready Http.Open 0.
Definition demo_work (n : Z) (err : option sendErr) : Http.work := Http.mkWork demo_queued n Minute err 0.
Definition retried : counters := addRetries no_counters.

(** Posted, accepted and answered; or the answer is lost, and the batch posted again. *)
Definition x_enqueued := with_http (Http.LEnqueue demo_queued) (demo_state [demo_queued] no_counters (Http.Idle false)) demo_boot.
Definition x_taken := with_http (Http.LTake demo_queued) (demo_state [] no_counters (Http.Top false (demo_work 0 None))) x_enqueued.
Definition x_sent := with_http (Http.LAttempt demo_queued) (demo_state [] no_counters (Http.Sending false (demo_work 0 None) 0)) x_taken.
Definition x_accepted := demo_serves 7 0 (with_request x_sent).
Definition x_exported := with_http (Http.LExported demo_queued) (demo_state [] (addExported no_counters) (Http.Idle false)) x_accepted.
Definition lost : option sendErr := Some (OtherErr "send request: lost").
Definition x_lost := with_http Http.LWork (demo_state [] no_counters (Http.Top false (demo_work 1 lost))) x_accepted.
Definition x_waits := with_http (Http.LRetried demo_queued) (demo_state [] retried (Http.Waiting false (demo_work 1 lost) 0 0)) x_lost.
Definition x_again := with_http (Http.LAttempt demo_queued) (demo_state [] retried (Http.Sending false (demo_work 1 lost) 0)) x_waits.
Definition x_compared := demo_serves 3 1 (with_request x_again).

(** The network keeps its promise in each of these states. *)
Lemma serves_prompt n i x : forallb (fun m => all_prompt (demo_serves m i x)) (seq 0 (S n)) = true ->
  forall m, (m <= n)%nat -> demo_net (demo_serves m i x).
Proof. intros Hf m Hm. rewrite forallb_forall in Hf. apply Hf, in_seq. lia. Qed.

Lemma serves_http n i x : x_http (demo_serves n i x) = x_http x.
Proof.
  revert i x. induction n as [|n IH]; intros i x; [done|]. cbn [xserves]. rewrite IH. unfold xserve.
  destruct (sy_handlers _ !! i) as [h|]; [|done]. by destruct (hnext _ _ _ _) as [[[a s'] h']|].
Qed.

Lemma demo_hears h0 rt l h x : x_http x = h0 -> @Http.attempt_step sample_dates h0 rt l h ->
  hears x rt -> demo_net (with_http l h x) -> rtc demo_xstep x (with_http l h x).
Proof. intros <- Hs Hh Hn. apply rtc_once. split; [by eapply x_hears|done]. Qed.

Lemma demo_exports h0 l h x : x_http x = h0 -> @Http.step (@json_codec utc inr) sample_dates demo_settings 0 h0 l h ->
  (forall rt, ~ @Http.attempt_step sample_dates (x_http x) rt l h) -> demo_net (with_http l h x) -> rtc demo_xstep x (with_http l h x).
Proof. intros <- Hs Hc Hn. apply rtc_once. split; [by apply x_exports|done]. Qed.

Lemma with_request_step x : Http.LAttempt demo_queued ∈ x_labels x -> demo_net (with_request x) ->
  rtc demo_xstep x (with_request x).
Proof. intros Hq Hn. apply rtc_once. split; [by apply (x_arrives inr demo_config Http.sample_cfg 0 "" x demo_queued)|done]. Qed.

Lemma x_enqueued_steps : rtc demo_xstep demo_boot x_enqueued.
Proof.
  apply (demo_exports (x_http demo_boot)); [done| |by inversion 1|by vm_compute]. apply Http.s_producer.
  apply (Http.p_enqueue demo_settings (x_http demo_boot) demo_stamped (@batchLine utc demo_stamped));
    [reflexivity|by apply encodeBody_line|reflexivity|done].
Qed.

Lemma x_sent_steps : rtc demo_xstep x_enqueued x_sent.
Proof.
  transitivity x_taken.
  - apply (demo_exports (x_http x_enqueued)); [done| |by inversion 1|by vm_compute]. apply Http.s_inner, Http.s_worker.
    by apply (Http.w_take demo_settings (x_http x_enqueued) false demo_queued []).
  - apply (demo_exports (x_http x_taken)); [done| |by inversion 1|by vm_compute]. apply Http.s_inner, Http.s_worker.
    by apply (Http.w_send demo_settings (x_http x_taken) false (demo_work 0 None) 0).
Qed.

Lemma x_accepted_steps : rtc demo_xstep x_sent x_accepted.
Proof.
  assert (forall m, (m <= 7)%nat -> demo_net (demo_serves m 0 (with_request x_sent))) as Hn
    by (apply serves_prompt; vm_compute; reflexivity).
  transitivity (with_request x_sent); [|by apply xserves_steps].
  apply with_request_step; [simpl; set_solver|apply (Hn 0%nat); lia].
Qed.

Lemma x_accepted_http : x_http x_accepted = demo_state [] no_counters (Http.Sending false (demo_work 0 None) 0).
Proof. apply serves_http. Qed.

Lemma x_exported_steps : rtc demo_xstep x_accepted x_exported.
Proof.
  unfold x_exported. apply (demo_hears _ (Answers 200 "" "") _ _ _ x_accepted_http); [| |by vm_compute].
  - by apply (@Http.w_exported sample_dates (demo_state [] no_counters (Http.Sending false (demo_work 0 None) 0)) (Answers 200 "" "")
      false (demo_work 0 None) 0).
  - exists demo_queued. rewrite x_accepted_http. split; [done|].
    assert (existsb (fun p => accepts p.2 && Nat.eqb p.1.1 0) (x_answers x_accepted) = true) as Ha by (vm_compute; reflexivity).
    apply existsb_exists in Ha as ([[i res] an] & Hin & [Ha Hi%Nat.eqb_eq]%andb_true_iff). cbn [fst snd] in Hi, Ha. subst i.
    exists 0%nat, res, an. split; [by apply list_elem_of_In|]. split; [vm_compute; reflexivity|]. clear Hin. destruct an; try discriminate Ha. split; reflexivity.
Qed.

(** The attempt ends without an answer; the worker waits and posts again. *)
Lemma x_again_steps : rtc demo_xstep x_accepted x_again.
Proof.
  transitivity x_lost.
  { unfold x_lost. apply (demo_hears _ (TransportFails "lost") _ _ _ x_accepted_http); [|exact I|by vm_compute].
    by apply (@Http.w_failed sample_dates (demo_state [] no_counters (Http.Sending false (demo_work 0 None) 0)) (TransportFails "lost")
      false (demo_work 0 None) 0). }
  transitivity x_waits.
  { apply (demo_exports (demo_state [] no_counters (Http.Top false (demo_work 1 lost)))); [done| |by inversion 1|by vm_compute].
    apply Http.s_inner, Http.s_worker.
    by apply (Http.w_wait demo_settings (demo_state [] no_counters (Http.Top false (demo_work 1 lost))) false (demo_work 1 lost) 0 0). }
  apply (demo_exports (demo_state [] retried (Http.Waiting false (demo_work 1 lost) 0 0))); [done| |by inversion 1|by vm_compute].
  apply Http.s_inner, Http.s_worker.
  by apply (Http.w_timer demo_settings (demo_state [] retried (Http.Waiting false (demo_work 1 lost) 0 0)) false (demo_work 1 lost) 0 0).
Qed.

Lemma x_compared_steps : rtc demo_xstep x_accepted x_compared.
Proof.
  transitivity x_again; [apply x_again_steps|].
  assert (forall m, (m <= 3)%nat -> demo_net (demo_serves m 1 (with_request x_again))) as Hn
    by (apply serves_prompt; vm_compute; reflexivity).
  transitivity (with_request x_again); [|by apply xserves_steps].
  apply with_request_step; [|apply (Hn 0%nat); lia]. apply list_elem_of_lookup. exists 5%nat. vm_compute. reflexivity.
Qed.

Notation demo_run := (@Agent.Run () exchange demo_collector demo_pair Agent.sample_agent (fun n => n / Second)).
Definition demo_booted : @Agent.state () exchange := Agent.mkState 0 tt demo_boot 0 false.
Definition demo_after (x : exchange) : @Agent.state () exchange := Agent.mkState 1 tt x 0 false.

Lemma demo_stamped_eq :
  Agent.stamp Agent.sample_agent (fun n => n / Second) 1 (@Stats_ _ demo_pair demo_boot) (Agent.clock demo_booted) (demo_batch 7) = demo_stamped.
Proof. vm_compute. reflexivity. Qed.

(** One batch handed over, and whatever the pair does until the next cycle. *)
Lemma demo_cycle x ls : rtc demo_xstep x_enqueued x -> x_labels x = x_labels x_enqueued ++ ls ->
  forallb (fun l => negb (Http.is_call l)) ls = true -> demo_run demo_booted [(demo_stamped, true)] (demo_after x).
Proof.
  intros Hr El Hc.
  assert (forall s : @Agent.state () exchange, @Agent.waits () exchange demo_pair s s) as Hw.
  { intros s. apply (@Agent.waits_refl () exchange demo_pair). exists []. split; [|constructor].
    split; [apply rtc_refl|by rewrite app_nil_r]. }
  apply (@Agent.run_tick () exchange demo_collector demo_pair _ _ demo_booted [(demo_stamped, true)]
    (demo_after x_enqueued) (demo_after x) (Agent.mkCycle None false None)).
  - apply (@Agent.run_first () exchange demo_collector demo_pair _ _ demo_booted
      (Agent.mkCycle (Some (demo_batch 7)) false (Some (demo_stamped, true)))).
    + split; [done|]. by exists 0.
    + pose proof (@Agent.cycle_exported () exchange demo_collector demo_pair Agent.sample_agent (fun n => n / Second)
        demo_booted demo_booted demo_booted (demo_batch 7) tt true x_enqueued (Hw _) (or_intror eq_refl) eq_refl (Hw _)) as Hx.
      cbv zeta in Hx. change (wrapU 64 (Agent.batchSeq demo_booted + 1)) with 1 in Hx.
      change (Agent.expo demo_booted) with demo_boot in Hx. rewrite demo_stamped_eq in Hx. apply Hx. clear Hx.
      exists [Http.LEnqueue demo_queued]. split; [split; [exact x_enqueued_steps|done]|]. split; [done|]. split; [done|].
      split; [|done]. repeat constructor. exists (@batchLine utc demo_stamped). split; [by apply encodeBody_line|done].
  - apply (@Agent.waits_for () exchange demo_pair (demo_after x_enqueued) x 0 false); [|done|done].
    exists ls. split; [done|]. apply list.Forall_forall. intros l Hl. rewrite forallb_forall in Hc.
    apply negb_true_iff, Hc. by apply list_elem_of_In.
  - apply (@Agent.cycle_nil () exchange demo_collector demo_pair _ _ (demo_after x) (demo_after x) tt); [apply Hw|by left].
Qed.

Lemma demo_stamped_formed : Forall (wf (@Batch_codec utc)) [(demo_stamped, true)].*1.
Proof. constructor; [|constructor]. apply (bool_decide_unpack _). vm_compute. exact I. Qed.

(** The batch of one cycle is exported: the server accepted it, and it conforms. *)
Theorem exported_accepted_witness : exists i res seq now,
  (i, res, Accepted seq) ∈ x_answers x_exported /\ @received utc demo_decoders demo_stamped res /\
  conforms demo_config now "host-1-1" demo_stamped.
Proof.
  assert (demo_run demo_booted [(demo_stamped, true)] (demo_after x_exported)) as Hr.
  { apply (demo_cycle _ [Http.LTake demo_queued; Http.LAttempt demo_queued; Http.LExported demo_queued]);
      [|vm_compute; reflexivity|done].
    transitivity x_sent; [apply x_sent_steps|]. transitivity x_accepted; [apply x_accepted_steps|apply x_exported_steps]. }
  destruct (@exported_accepted listed_range sample_dates utc demo_decoders inr demo_config demo_server Http.sample_cfg 0 "" demo_net
    ltac:(done) ltac:(done) listed_range_laws (rfc3339_laws _) plain_unzips demo_plain () demo_collector
    Agent.sample_agent (fun n => n / Second) _ _ _ Hr ltac:(done) demo_stamped_formed) as (He & _).
  destruct He as [He _]; [by apply (bool_decide_unpack _); vm_compute..|].
  destruct (He demo_queued) as (b & i & res & seq & now & Hb & _ & Hin & _ & Hrc & Hc).
  { apply list_elem_of_lookup. exists 3%nat. vm_compute. reflexivity. }
  apply list_elem_of_singleton in Hb. subst b. by exists i, res, seq, now.
Defined.

(** The answer is lost after it was given: the second delivery of the batch is a
    replay of it, for the server, and nothing else. *)
Theorem redelivery_verdicts_witness : exists pre res res' post,
  x_actions x_compared = pre ++ ACompare res res' :: post /\
  reported "idempotency.replay" res res' /\ ~ reported "idempotency.body_mismatch" res res' /\
  ~ reported "idempotency.seq_regression" res res'.
Proof.
  assert (demo_run demo_booted [(demo_stamped, true)] (demo_after x_compared)) as Hr.
  { apply (demo_cycle _ [Http.LTake demo_queued; Http.LAttempt demo_queued; Http.LWork; Http.LRetried demo_queued; Http.LAttempt demo_queued]);
      [|vm_compute; reflexivity|done].
    transitivity x_sent; [apply x_sent_steps|]. transitivity x_accepted; [apply x_accepted_steps|apply x_compared_steps]. }
  assert (exists pre res res' post, x_actions x_compared = pre ++ ACompare res res' :: post /\
    re_instance res = "host-1"%string /\ re_key res = "host-1-1"%string /\ omap (ack_of "host-1" "host-1-1") pre = [1])
    as (pre & res & res' & post & E & Ei & Ek & Hac).
  { pose (k := 11%nat). assert (exists a, x_actions x_compared !! k = Some a /\
      match a with ACompare res _ => (re_instance res, re_key res) = ("host-1", "host-1-1")%string | _ => False end) as (a & Ea & Ha)
      by (vm_compute; eexists; split; reflexivity).
    destruct a as [| | |res res'| | | | | | |]; try (exfalso; exact Ha). injection Ha as Ei Ek.
    exists (take k (x_actions x_compared)), res, res', (drop (S k) (x_actions x_compared)).
    split; [symmetry; by apply take_drop_middle|]. split_and!; [done|done|]. vm_compute. reflexivity. }
  destruct (@redelivery_verdicts listed_range sample_dates utc demo_decoders inr demo_config demo_server Http.sample_cfg 0 "" demo_net
    ltac:(done) ltac:(done) eq_refl listed_range_laws (rfc3339_laws _) plain_unzips demo_plain () demo_collector
    Agent.sample_agent (fun n => n / Second) _ _ _ pre res res' post Hr ltac:(done) demo_stamped_formed E) as (Hm & Hrep & Hreg);
    [by rewrite Ei|by rewrite Ek|].
  exists pre, res, res', post. split; [exact E|]. split; [|split; [exact Hm|]].
  - apply Hrep. unfold acknowledged. by rewrite Ei, Ek, Hac.
  - apply Hreg, all_prompt_prompt.
Defined.
