(* ===== verification/Report.v ===== *)
(** * Report: what the ingest server prints ([internal/mockingest/report.go])

    The lines on the server's output: the banner, the line of a batch, the boxed
    failure, the faults and the summary.  A printer gives the texts of its [printf]s
    in order; [printed] is what they leave on the output.  The ratios are computed in
    the binary64 of [SpecFloat], as Go computes them.

    A failure's message, which [Checks] leaves out, comes with it.  [strconv.Quote]
    is the class [Quoting]; how a body is indented and paths are joined is the class
    [Dumping]. *)

From Stdlib Require Import ZArith Lia Ascii SpecFloat.
From stdpp Require Import prelude gmap strings numbers pretty sorting.
From S2P Require Import Export Prelude Wire Errors Filter Strconv Checks Conform Ingest Schema Json JsonText Console.

Class Quoting := { Quote : string -> string }.

Class Dumping := {
  Indented : string -> option string;       (* json.Unmarshal into a map, then MarshalIndent *)
  Join : string -> string -> string;        (* filepath.Join *)
}.

(** ** Numbers *)

(** [100 * float64(a) / float64(b)], from left to right. *)
Definition percent (a b : Z) : spec_float := SFdiv 53 1024 (SFmul 53 1024 (float64 100) (float64 a)) (float64 b).

(** [m / 2^k] in tenths, a tie going to the even digit. *)
Definition tenthsOf (m : positive) (e : Z) : Z := if 0 <=? e then 10 * (Z.pos m * 2 ^ e) else tenths (Z.pos m) (- e).

(** [%.1f]. *)
Definition fixed1 (x : spec_float) : string :=
  match x with
  | S754_zero s => (if s then "-" else "") +:+ "0.0"
  | S754_infinity s => (if s then "-" else "+") +:+ "Inf"
  | S754_nan => "NaN"
  | S754_finite s m e => (if s then "-" else "") +:+ inTenths (tenthsOf m e)
  end.

(** ** Printing *)

(** Each [printf] ends its line. *)
Definition printed (lines : list string) : string := foldr (fun line rest => line +:+ newline +:+ rest) "" lines.

Definition Failure_String (f : Failure * string) : string :=
  if String.eqb (f_Path f.1) "" then f_Code f.1 +:+ " " +:+ f.2
  else f_Code f.1 +:+ " " +:+ f_Path f.1 +:+ ": " +:+ f.2.

Definition reportFaultsChanged (f : Faults) : list string :=
  ["[fault] armed " +:+ write (faults_json f);
   "[fault] these failures are DELIBERATE; the agent's export warnings about them are the harness working"].

Definition reportFault (n : Z) (f : fault) : list string := ["[fault] #" +:+ pretty n +:+ " " +:+ fault_String f].

Definition reportUnknownRoute (cfg : Config) (method path : string) : list string :=
  ["[route] " +:+ method +:+ " " +:+ path +:+ " does not exist; ingest is POST " +:+ Path cfg +:+ " (check EXPORT_ENDPOINT)"].

Definition Banner (cfg : Config) (s : Server) (addr : string) : list string :=
  let key := if String.eqb (APIKey cfg) "" then "unset (auth check disabled)" else "set" in
  let mode :=
    if Strict cfg then "strict (every warn is fatal, and a fatal permanently rejects the batch)"
    else if WarnOnly cfg then "warn-only (nothing is ever rejected)" else "normal" in
  ["mock-ingest listening on " +:+ addr +:+ ", ingest POST " +:+ Path cfg;
   "  api_key=" +:+ key +:+ " mode=" +:+ mode +:+ " require=" +:+ pretty (cfg_Require cfg) +:+ " keep=" +:+ pretty (Keep cfg) +:+
     " max_body=" +:+ humanBytes (MaxBodyBytes cfg) +:+ " sections=" +:+ commas (Sections cfg)]%string ++
  (if armed (cfg_Faults cfg) then reportFaultsChanged (sv_faults s) else []).

(** ** A batch *)

Definition batchLine (res : result) : string :=
  let tag := if re_retry res then if re_afterFault res then "[retry*]" else "[retry]" else "[ok  ]" in
  let enc := if re_gzipped res then "gz" else "raw" in
  let ratio := if 0 <? re_rawLen res then percent (re_wireLen res) (re_rawLen res) else float64 100 in
  tag +:+ " #" +:+ pretty (re_n res) +:+ " seq=" +:+ pretty (re_seq res) +:+ " inst=" +:+ re_instance res +:+
  " " +:+ enc +:+ " " +:+ humanBytes (re_rawLen res) +:+ "->" +:+ humanBytes (re_wireLen res) +:+ " (" +:+ fixed1 ratio +:+ "%)" +:+
  match re_batch res with
  | None => ""
  | Some b =>
      let parts := sumZ (fun t => Z.of_nat (length (tm_Partitions t))) (elems (b_Topics b)) in
      let committed := sumZ (fun co => len (co_Offsets co)) (elems (b_Offsets b)) in
      let statuses := (fun sec => status_text (sr_Status sec)) <$> b_Sections b in
      " topics=" +:+ pretty (len (b_Topics b)) +:+ "/" +:+ pretty parts +:+ "p groups=" +:+ pretty (len (b_Groups b)) +:+
      " offsets=" +:+ pretty committed +:+ " sections=" +:+ commas statuses +:+
      " errors=" +:+ pretty (Z.of_nat (length (b_Errors b))) +:+ " collect=" +:+ pretty (b_CollectionMs b) +:+ "ms"
  end.

Section report.
Context `{!Quoting, !Dumping} (FailDir : string).

(** The path returned, and the file [os.WriteFile] is called on with its content;
    [written] says whether that succeeds. *)
Definition dumpFailure (written : bool) (res : result) : string * option (string * string) :=
  match dumpName FailDir res with
  | None => (""%string, None)
  | Some name =>
      let path := Join FailDir name in
      let pretty := default (re_raw res) (Indented (re_raw res)) in
      (if written then path else ""%string, Some (path, pretty +:+ newline))
  end.

(** The failures with their messages. *)
Definition reportFatal (written : bool) (res : result) (failures : list (Failure * string)) : list string :=
  let dump := (dumpFailure written res).1 in
  ["================ CONFORMANCE FAILURE ================" +:+ newline +:+
   "batch #" +:+ pretty (re_n res) +:+ " seq=" +:+ pretty (re_seq res) +:+ " instance=" +:+ re_instance res +:+
     " key=" +:+ re_key res +:+ newline +:+
   foldr (fun f rest => "  " +:+ (if is_fatal f.1 then "FAIL" else "warn") +:+ " " +:+ Failure_String f +:+ newline +:+ rest) "" failures +:+
   (if String.eqb dump "" then "" else "body written to: " +:+ dump +:+ newline) +:+
   "====================================================="].

Definition report (written : bool) (res : result) (failures : list (Failure * string)) (fatal : bool) : list string :=
  (if re_newInstance res && negb (String.eqb (re_instance res) "") then
     ["[new ] agent instance " +:+ re_instance res +:+ " (a fresh random suffix per boot: this is what a restart looks like)"]
   else []) ++
  (if fatal then reportFatal written res failures
   else
     [batchLine res] ++ ((fun f => "       warn " +:+ Failure_String f) <$> failures) ++
     (if String.eqb (re_exportErr res) "" then [] else ["       info agent.last_export_error = " +:+ Quote (re_exportErr res)])).
End report.

(** ** The summary *)

(** [hits] is the map [faultHits] in the order it is ranged over; [uptime] is in
    nanoseconds. *)
Definition Summary (uptime : Z) (s : Server) (hits : list (string * Z)) : option string :=
  let t := sv_stats s in
  let sizes := sort_slice Z.ltb (sv_sizes s) in
  let texts := sort_slice str_ltb ((fun h => h.1 +:+ " x" +:+ pretty h.2) <$> hits) in
  let faults := match texts with [] => "none" | _ :: _ => String.concat " " texts end in
  let ratio := if 0 <? st_BytesDecoded t then percent (st_BytesWire t) (st_BytesDecoded t) else S754_zero false in
  p50 ← percentile sizes 50;
  p95 ← percentile sizes 95;
  max ← percentile sizes 100;
  Some ("--- summary uptime=" +:+ Duration_String (wrapS 64 (UptimeSec uptime * Second)) +:+
    " requests=" +:+ pretty (st_Requests t) +:+ " ok=" +:+ pretty (st_OK t) +:+ " accepted=" +:+ pretty (st_Accepted t) +:+
    " fatal=" +:+ pretty (st_Fatal t) +:+ " warn=" +:+ pretty (st_Warn t) +:+ " | retries=" +:+ pretty (st_Duplicates t) +:+
    " gaps=" +:+ pretty (st_SeqGaps t) +:+ " instances=" +:+ pretty (Z.of_nat (size (sv_instances s))) +:+
    " | faults " +:+ faults +:+ " | body p50=" +:+ humanBytes p50 +:+ " p95=" +:+ humanBytes p95 +:+ " max=" +:+ humanBytes max +:+
    " wire=" +:+ fixed1 ratio +:+ "%").

Definition PrintSummary (uptime : Z) (s : Server) (hits : list (string * Z)) : list string := option_list (Summary uptime s hits).

Example ratios : fixed1 (percent 1 3) = "33.3"%string /\ fixed1 (percent 1 8) = "12.5"%string /\ fixed1 (percent 1 1000) = "0.1"%string /\
  fixed1 (percent 1 400) = "0.2"%string /\ fixed1 (percent 3 400) = "0.8"%string /\ fixed1 (percent 5 4) = "125.0"%string /\ fixed1 (percent 0 4) = "0.0"%string.
Proof. by vm_compute. Qed.

(** ** Lemmas on binary64 *)

Lemma digits_spec p d : 2 ^ (d - 1) <= Z.pos p < 2 ^ d -> Z.pos (digits2_pos p) = d.
Proof.
  assert (digits2_pos p = Pos.size p) as -> by (by induction p as [p IH|p IH|]; simpl; rewrite ?IH).
  intros [Hl Hu]. pose proof (Pos.size_gt p) as Hg. pose proof (Pos.size_le p) as Hs.
  assert (Z.pos p < 2 ^ Z.pos (Pos.size p)) as Hg' by (rewrite <- Pos2Z.inj_pow; lia).
  assert (2 ^ Z.pos (Pos.size p) <= 2 * Z.pos p) as Hs' by (rewrite <- Pos2Z.inj_pow; lia).
  assert (0 <= d) by (destruct (Z.le_gt_cases 0 d); [done|]; rewrite (Z.pow_neg_r 2 d) in Hu by lia; lia).
  apply Z.le_antisymm.
  - apply Z.lt_succ_r, (Z.pow_lt_mono_r_iff 2); [lia|lia|]. rewrite Z.pow_succ_r by done. lia.
  - apply Z.lt_pred_le, (Z.pow_lt_mono_r_iff 2); [lia|lia|]. rewrite <- Z.sub_1_r. lia.
Qed.

Definition full (m : positive) : Prop := 2 ^ 52 <= Z.pos m < 2 ^ 53.

Lemma full_digits m : full m -> digits2_pos m = 53%positive.
Proof. intros Hm. apply Pos2Z.inj. by apply digits_spec. Qed.

Lemma shr_full m e : full m -> -1074 <= e ->
  shr_fexp 53 1024 (Z.pos m) e loc_Exact = ({| shr_m := Z.pos m; shr_r := false; shr_s := false |}, e).
Proof.
  intros Hm He. unfold shr_fexp, Zdigits2, shr_record_of_loc. rewrite (full_digits m Hm).
  replace (fexp 53 1024 (53 + e) - e) with 0 by (unfold fexp, emin; lia). done.
Qed.

Lemma shr_double m e : full m -> -1075 <= e ->
  shr_fexp 53 1024 (Z.pos (xO m)) e loc_Exact = ({| shr_m := Z.pos m; shr_r := false; shr_s := false |}, e + 1).
Proof.
  intros Hm He. unfold shr_fexp, Zdigits2, shr_record_of_loc. cbn [digits2_pos]. rewrite (full_digits m Hm).
  replace (fexp 53 1024 (Z.pos (Pos.succ 53) + e) - e) with 1 by (unfold fexp, emin; lia). done.
Qed.

(** A mantissa of 53 bits is kept, and one of 54 whose last is 0. *)
Lemma round_full s m e : full m -> -1074 <= e <= 971 ->
  binary_round_aux 53 1024 s (Z.pos m) e loc_Exact = S754_finite s m e.
Proof.
  intros Hm He. unfold binary_round_aux. rewrite shr_full by (done || lia).
  cbn [shr_m shr_r shr_s loc_of_shr_record round_nearest_even]. rewrite shr_full by (done || lia). cbn [shr_m].
  by rewrite (proj2 (Z.leb_le e (1024 - 53))) by lia.
Qed.

Lemma round_double s m e : full m -> -1075 <= e <= 970 ->
  binary_round_aux 53 1024 s (Z.pos (xO m)) e loc_Exact = S754_finite s m (e + 1).
Proof.
  intros Hm He. unfold binary_round_aux. rewrite shr_double by (done || lia).
  cbn [shr_m shr_r shr_s loc_of_shr_record round_nearest_even]. rewrite shr_full by (done || lia). cbn [shr_m].
  by rewrite (proj2 (Z.leb_le (e + 1) (1024 - 53))) by lia.
Qed.

Lemma shift_xO m d : Z.pos (Pos.iter xO m d) = Z.pos m * 2 ^ Z.pos d.
Proof.
  induction d as [|d IH] using Pos.peano_ind; [simpl; lia|].
  rewrite Pos.iter_succ, Pos2Z.inj_xO, IH, Pos2Z.inj_succ, Z.pow_succ_r by lia. lia.
Qed.

(** An integer below 2^53 is its own float, the mantissa filled up. *)
Lemma float64_small n d : 0 < d <= 53 -> 2 ^ (d - 1) <= n < 2 ^ d -> exists m,
  Z.pos m = n * 2 ^ (53 - d) /\ full m /\ float64 n = S754_finite false m (d - 53).
Proof.
  intros Hd Hn. assert (0 < n) by (pose proof (Z.pow_pos_nonneg 2 (d - 1)); lia). destruct n as [|p|p]; [lia| |lia].
  assert (full_of : forall m, Z.pos m = Z.pos p * 2 ^ (53 - d) -> full m).
  { intros m E. unfold full. rewrite E. replace (2 ^ 52) with (2 ^ (d - 1) * 2 ^ (53 - d)) by (rewrite <- Z.pow_add_r by lia; f_equal; lia).
    replace (2 ^ 53) with (2 ^ d * 2 ^ (53 - d)) by (rewrite <- Z.pow_add_r by lia; f_equal; lia).
    pose proof (Z.pow_pos_nonneg 2 (53 - d) ltac:(lia) ltac:(lia)). nia. }
  unfold float64, binary_normalize, binary_round. rewrite (digits_spec p d Hn).
  replace (fexp 53 1024 (d + 0)) with (d - 53) by (unfold fexp, emin; lia). unfold shl_align. rewrite Z.sub_0_r.
  destruct (d - 53) as [|k|k] eqn:Ek; [|lia|].
  - exists p. assert (full p) by (apply full_of; replace (53 - d) with 0 by lia; lia).
    split; [replace (53 - d) with 0 by lia; lia|]. split; [done|]. by apply round_full.
  - exists (Pos.iter xO p k). assert (Z.pos (Pos.iter xO p k) = Z.pos p * 2 ^ (53 - d)) as E.
    { rewrite shift_xO. do 2 f_equal. lia. }
    split; [exact E|]. split; [by apply full_of|]. apply round_full; [by apply full_of|lia].
Qed.

(** Divided by a power of two it is exact. *)
Lemma float64_div n d k : 0 < d <= 53 -> 2 ^ (d - 1) <= n < 2 ^ d -> 0 <= k < 53 -> exists m,
  Z.pos m = n * 2 ^ (53 - d) /\ SFdiv 53 1024 (float64 n) (float64 (2 ^ k)) = S754_finite false m (d - 53 - k).
Proof.
  intros Hd Hn Hk. destruct (float64_small n d Hd Hn) as (m & Em & Hm & ->). exists m. split; [done|].
  destruct (float64_small (2 ^ k) (k + 1)) as (m2 & Em2 & Hm2 & ->); [lia|..].
  { rewrite Z.add_simpl_r. split; [done|]. apply Z.pow_lt_mono_r; lia. }
  assert (Z.pos m2 = 2 ^ 52) as E2 by (rewrite Em2, <- Z.pow_add_r by lia; f_equal; lia).
  unfold SFdiv, SFdiv_core_binary, Zdigits2. rewrite (full_digits m Hm), (full_digits m2 Hm2).
  replace (Z.min _ _) with (d - k - 54) by (unfold fexp, emin; lia).
  replace (d - 53 - (k + 1 - 53) - (d - k - 54)) with 53 by lia.
  rewrite Z.shiftl_mul_pow2 by lia. rewrite E2.
  replace (Z.pos m * 2 ^ 53) with (Z.pos (xO m) * 2 ^ 52) by lia.
  pose proof (Z.div_mul (Z.pos (xO m)) (2 ^ 52) ltac:(lia)) as Hq. pose proof (Z.mod_mul (Z.pos (xO m)) (2 ^ 52) ltac:(lia)) as Hr.
  unfold Z.div, Z.modulo in Hq, Hr. destruct (Z.div_eucl _ _) as [q r]. subst q r.
  change (new_location (2 ^ 52) 0) with loc_Exact. rewrite round_double by (done || lia). f_equal. lia.
Qed.

(** [tenths] reads only the quotient. *)
Lemma tenths_scale n j k : 0 <= j -> 0 <= k -> tenths (n * 2 ^ j) (k + j) = tenths n k.
Proof.
  intros Hj Hk. unfold tenths. pose proof (Z.pow_pos_nonneg 2 j ltac:(lia) Hj) as Hj'. pose proof (Z.pow_pos_nonneg 2 k ltac:(lia) Hk) as Hk'.
  rewrite Z.pow_add_r by done. replace (n * 2 ^ j * 10) with (n * 10 * 2 ^ j) by lia.
  rewrite Z.div_mul_cancel_r by lia. set (q := n * 10 / 2 ^ k). set (a := 2 ^ k) in *. set (c := 2 ^ j) in *.
  replace (n * 10 * c - q * (a * c)) with ((n * 10 - q * a) * c) by lia. set (r := n * 10 - q * a).
  replace (a * c <? 2 * (r * c)) with (a <? 2 * r) by (apply Bool.eq_iff_eq_true; rewrite !Z.ltb_lt; nia).
  replace (2 * (r * c) =? a * c) with (2 * r =? a) by (apply Bool.eq_iff_eq_true; rewrite !Z.eqb_eq; nia). done.
Qed.

Lemma fixed1_div n k : 0 < n < 2 ^ 53 -> 0 < k < 53 ->
  fixed1 (SFdiv 53 1024 (float64 n) (float64 (2 ^ k))) = inTenths (tenths n k).
Proof.
  intros Hn Hk. set (d := Z.log2 n + 1). pose proof (Z.log2_spec n ltac:(lia)) as [Hl Hu].
  assert (Z.log2 n < 53) by (apply Z.log2_lt_pow2; lia). pose proof (Z.log2_nonneg n).
  destruct (float64_div n d k) as (m & Em & ->); [unfold d; lia|unfold d; rewrite Z.add_simpl_r; by rewrite <- Z.add_1_r in Hu|lia|].
  cbn [fixed1]. unfold tenthsOf. rewrite (proj2 (Z.leb_gt 0 _)) by (unfold d; lia).
  change (inTenths (tenths (Z.pos m) (- (d - 53 - k))) = inTenths (tenths n k)). f_equal.
  rewrite Em. replace (- (d - 53 - k)) with (k + (53 - d)) by lia. apply tenths_scale; unfold d; lia.
Qed.

(** ** What is printed *)

(** [humanBytes] computes on integers what the code computes in floating point. *)
Theorem humanBytes_float (n : Z) : 0 <= n < 2 ^ 53 -> humanBytes n =
  if 2 ^ 20 <=? n then fixed1 (SFdiv 53 1024 (float64 n) (float64 (2 ^ 20))) +:+ "MB"
  else if 2 ^ 10 <=? n then fixed1 (SFdiv 53 1024 (float64 n) (float64 (2 ^ 10))) +:+ "KB"
  else pretty n +:+ "B".
Proof.
  intros Hn. unfold humanBytes. destruct (Z.leb_spec (2 ^ 20) n); [by rewrite fixed1_div by lia|].
  destruct (Z.leb_spec (2 ^ 10) n); [by rewrite fixed1_div by lia|done].
Qed.

Theorem humanBytes_float_witness : humanBytes 1536 = "1.5KB"%string.
Proof. rewrite (humanBytes_float 1536) by lia. vm_compute. reflexivity. Defined.

#[export] Instance not_less_str_antisymm : AntiSymm (=) (not_less str_ltb).
Proof. intros a b Hab%not_less_spec Hba%not_less_spec. by apply (st_total (lt := str_ltb)). Qed.

(** Sorted texts do not tell in which order they came. *)
Lemma sort_strings_perm (l k : list string) : l ≡ₚ k -> sort_slice str_ltb l = sort_slice str_ltb k.
Proof.
  intros E. apply (StronglySorted_unique (not_less str_ltb)); [apply sort_slice_sorted, _..|]. by rewrite !sort_slice_perm.
Qed.

(** The summary is always printed, on one line, and does not depend on the order in
    which the map of the faults is ranged over. *)
Theorem summary_stable (uptime : Z) (s : Server) (hits : list (string * Z)) :
  hits ≡ₚ map_to_list (sv_faultHits s) ->
  exists text, PrintSummary uptime s hits = [text] /\ PrintSummary uptime s (map_to_list (sv_faultHits s)) = [text].
Proof.
  intros Hp. unfold PrintSummary.
  assert (Summary uptime s hits = Summary uptime s (map_to_list (sv_faultHits s))) as ->.
  { unfold Summary. by rewrite (sort_strings_perm _ _ (fmap_Permutation (fun h => h.1 +:+ " x" +:+ pretty h.2) _ _ Hp)). }
  unfold Summary.
  destruct (percentile_bounds (sv_sizes s) 50 ltac:(lia)) as (p50 & -> & _), (percentile_bounds (sv_sizes s) 95 ltac:(lia)) as (p95 & -> & _),
    (percentile_bounds (sv_sizes s) 100 ltac:(lia)) as (p100 & -> & _). by eexists.
Qed.

Definition demo_hits : list (string * Z) := [("fail_first=2", 2); ("every_nth=3", 1)].
Definition demo_summarized : Server :=
  mkServer no_faults false (mkStats 5 3 2 0 4 1 0 3 100 400) [] [] ∅ ∅ (list_to_map demo_hits) [1536; 10; 3145728] 0 false.

Theorem summary_stable_witness : PrintSummary (65 * Second) demo_summarized demo_hits =
  ["--- summary uptime=1m5s requests=5 ok=3 accepted=2 fatal=0 warn=4 | retries=1 gaps=0 instances=0 | faults every_nth=3 x1 fail_first=2 x2 | body p50=1.5KB p95=1.5KB max=3.0MB wire=25.0%"%string].
Proof.
  destruct (summary_stable (65 * Second) demo_summarized demo_hits) as (text & E & E'); [vm_compute; by constructor|].
  rewrite E, <- E'. vm_compute. reflexivity.
Defined.

(** A batch that was retried after a dropped delivery, with a warning. *)
Definition demo_result : result :=
  set_state true true true "EOF" (set_batch (demo_batch 7) (set_raw "{}" "" 2048 (set_wire true 512 (newResult 3)))).
Definition plain_quoting : Quoting := {| Quote s := dq +:+ s +:+ dq |}.

Definition plain_dumping : Dumping := {| Indented _ := None; Join dir name := dir +:+ "/" +:+ name |}.

Example demo_report : @report plain_quoting plain_dumping "/tmp" true demo_result [(mkFailure "data.negative_lag" SeverityWarn "$.offsets[0]" 1 0, "committed 9 above 7")] false =
  ["[new ] agent instance a (a fresh random suffix per boot: this is what a restart looks like)";
   "[retry*] #3 seq=1 inst=a gz 2.0KB->512B (25.0%) topics=1/1p groups=1 offsets=1 sections=ok,ok,ok,ok,ok,ok,ok,ok,partial,ok,ok,ok,ok,ok,ok,ok,ok errors=1 collect=5ms";
   "       warn data.negative_lag $.offsets[0]: committed 9 above 7";
   "       info agent.last_export_error = " +:+ dq +:+ "EOF" +:+ dq]%string.
Proof. vm_compute. reflexivity. Qed.

(** A refused request: the box names the failures and the file that was written. *)
Example demo_refused :
  let res := set_key "a/1" (set_raw "{" "" 1 (newResult 4)) in
  printed (@report plain_quoting plain_dumping "/tmp" true res [(mkFailure "json.decode" SeverityFatal "" 1 0, "unexpected EOF")] true) =
    String.concat newline ["================ CONFORMANCE FAILURE ================";
      "batch #4 seq=0 instance= key=a/1"; "  FAIL json.decode unexpected EOF"; "body written to: /tmp/fail-4-a_1.json";
      "====================================================="; ""]%string /\
  @dumpFailure plain_dumping "/tmp" true res = ("/tmp/fail-4-a_1.json", Some ("/tmp/fail-4-a_1.json", "{" +:+ newline))%string.
Proof. split; vm_compute; reflexivity. Qed.
